(* ===== verification/_CoqProject ===== *)
-Q . S2P
Prelude.v
Prog.v
Layout.v
Asm.v
Arch.v
Trampoline.v
Fd.v
Vdso.v
Time.v
Misc.v
Wait.v
Events.v
Fs.v
Process.v
Signal.v
Socket.v
Ptrace.v
Termios.v
Tty.v
Dns.v
FdSpec.v
Safety.v
SignalSpec.v
ProcessSpec.v
ClockSpec.v
DupSpec.v
VdsoSpec.v
Abi.v
SpawnSpec.v
TtySpec.v
Ledger.v
DnsSpec.v
ConfigSpec.v
Records.v
Threads.v
VdsoRace.v
ResolveSpec.v
WaitSpec.v
RestoreSpec.v
PollSpec.v
PipeSpec.v
ProcWorld.v
SpawnWorld.v
SuspendSpec.v
DirSpec.v
SocketSpec.v
DatagramSpec.v
TraceSpec.v
StreamSpec.v
ServiceSpec.v
ReplaceSpec.v
