(* ===== verification/Prelude.v ===== *)
(** * rusty_libc, verified

    [rusty_libc] is a [no_std] Rust crate that talks to Linux without a C
    library: raw system-call stubs in assembly for x86_64 and aarch64, one thin
    wrapper per call, and a few larger pieces built on them (a spawn trampoline,
    a vDSO resolver, a DNS client, record iterators, terminal helpers).  This
    library models the whole of [src/src/] except tests, and proves what the
    pieces promise.

    ** How a program is modelled

    Rust integers are [Z]s, with every [as] cast written out as the reduction it
    is (this file).  A function that makes system calls is a value of [Prog]
    ([Prog.v]): a tree of calls and continuations, with [Panic] for a Rust panic
    or a stuck instruction and [NoFuel] for a loop that exceeds the fuel it was
    given.  A pointer argument is modelled by the memory it points at ([Arg]);
    what the kernel may write comes back in the reply, and [conform] limits every
    reply to what a kernel can do: a 64-bit result, bytes inside the buffer.
    [run] executes a program against a [Kernel], any state machine that answers
    calls, and records the trace; [prog_equiv] is equality of runs on every
    kernel; [ensures] states a guarantee for every reply a contract allows.
    Nothing is assumed of the kernel except through a class or a contract that
    states documented behaviour, and each has a concrete instance.

    ** Files

    - [Prelude.v] (this file): integers, bytes, slices, [Errno], [Result].
    - [Prog.v]: programs, kernels, runs, [prog_equiv], [ensures].
    - [Layout.v]: the [repr(C)] layout algorithm; the class [KStruct] of
      structures shared with the kernel, their bytes and round trip.
    - [Asm.v]: the instructions of the [asm!] blocks, over a register file.
    - [Arch.v] ([arch/]): targets, number tables, errors, [from_ret], the
      [syscallN] stubs (the stubs are executed assembly; [syscallN_eq] reduces
      each to one call).
    - [Trampoline.v] ([vfork_execve], [vfork_execve_redirected] of
      [arch/x86_64.rs] and [arch/aarch64.rs]), and what they promise
      ([spawn_spec]).
    - [Fd.v], [Vdso.v], [Time.v], [Misc.v] ([mmap.rs], [rand.rs], [rlimit.rs],
      [sysinfo.rs], [umask.rs]), [Wait.v], [Events.v] ([epoll.rs], [eventfd.rs],
      [inotify.rs]), [Fs.v], [Process.v], [Signal.v], [Socket.v], [Ptrace.v],
      [Termios.v], [Tty.v], [Dns.v]: one file per source module or family, one
      definition per function, in the source's order and with its names.
    - [FdSpec.v], [Safety.v], [SignalSpec.v], [ProcessSpec.v], [ClockSpec.v],
      [DupSpec.v], [VdsoSpec.v], [Abi.v], [SpawnSpec.v], [TtySpec.v],
      [Ledger.v], [DnsSpec.v], [ConfigSpec.v], [Records.v]: contracts and theorems.
    - [Threads.v]: threads that share one relaxed atomic cell, their steps and
      the invariants of reachable states; [VdsoRace.v]: [clock_gettime_fn] of
      [vdso.rs] run by any number of them.
    - [PipeSpec.v]: a writer and a reader on a bounded pipe ([pipe_step]).
    - [ProcWorld.v]: a parent, its vforked children, their descriptor tables and the
      pipes as a step relation ([wstep]), with a lemma for each wrapper that a
      program in it calls; [SpawnWorld.v]: spawning and waiting, and a pipeline of
      two programs; [eventually] (end of this file) is what every execution comes to.
    - [SocketSpec.v]: a datagram server and its clients, for any address family of
      the class [Family] (IPv4 and IPv6), on a reliable network ([net_step]);
      [DatagramSpec.v]: the same programs on one that loses, repeats and reorders, and
      whose calls fail ([u_step]).
    - [StreamSpec.v]: stream connections between a listening server and its clients
      ([tcp_step]), the programs at both ends, and what each of their calls can do;
      [ServiceSpec.v]: the states of a connection, the invariant of the whole, and
      what it comes to.
    - [ReplaceSpec.v]: a file replaced by way of a temporary one ([replace_file]), on
      a file system whose calls fail and are interrupted and which may crash
      ([fs_step], [crash]).
    - [SuspendSpec.v]: a thread, its mask and the signals sent to it ([step]).
    - [TraceSpec.v]: a tracer ([strace]) against a kernel that runs its child
      ([TraceKernel]), for either target's registers ([SyscallRegs]).
    - [ResolveSpec.v], [WaitSpec.v], [RestoreSpec.v], [PollSpec.v], [DirSpec.v]:
      components used together, each against a class that says what the kernel
      documents: the resolver and its sockets, [waitid] and [wait4], a signal mask or
      a terminal mode around a program, [poll] and [epoll_wait], a directory read
      through [getdents64].

    ** What is shown

    - Spawning: each trampoline is equivalent to its contract, in parent and
      child, on every kernel.  On aarch64 all redirects are applied in order; on
      x86_64 only those up to the first that needs a [dup2], because [syscall]
      overwrites the loop counter.  [SpawnSpec.v] restates both on the child's
      descriptor table, in which a redirect fails when its source is closed or its
      target is negative or not below the limit on descriptors.
      [spawn_and_wait_ends]: whatever the schedule, spawning and waiting ends with
      the parent holding the child's status, the child having run the program with
      the table the applied redirects give (on x86_64 all of them if at most one
      needs a [dup2]) or exited 126 or 127.
      [pipeline_ends]: the same for two children joined by a pipe, neither of which
      keeps an end it should not have.
    - Threads: racing calls of [clock_gettime_fn] never disagree when the kernel
      always serves the auxiliary vector, and always finish.
    - Safety: every function that makes a fixed number of calls (the inductive
      [api] of [Safety.v] lists them, and the range it needs of an argument), against
      any kernel within its documented bounds, returns without panicking a well-typed
      value or an error in [1..=4095].  The loops have theorems of their own.
    - Loops over descriptors: [write_all] and [read_all] move exactly the data,
      retry interruptions, and terminate; joined by a pipe they carry the data
      across under every schedule.  The ledger shows which compositions
      close what they opened ([query], [openpty]) and the one path that does not
      ([vdso_base] when its read fails).
    - Portability: [dup2] meets one contract on both targets; the number tables
      are injective; every [repr(C)] structure has the kernel's layout, field by
      field, from tables of the kernel's offsets.
    - Clocks: [clock_gettime] answers what the system call would whether or not
      the vDSO helps; only the address the vDSO exports is assumed to be its clock,
      and the clock goes on while it declines.  The resolver's lookup agrees with a
      declarative reading of the ELF tables, and panics exactly when the end of the
      program header table does not fit 64 bits.
    - DNS: query bytes, replies read back, ill-formed replies rejected in bounds,
      resolution total; every [resolv.conf] is read as a grammar of its lines says,
      and is refused when it is not UTF-8.  What [query] returns is a datagram
      from the server asked with the query's id; a listed server that answers is
      reached past silent ones; a stray datagram costs a server its turn.
    - Sockets: however a datagram server and its clients interleave, whatever the
      network loses, repeats or reorders and whatever call fails, a client that ends
      without an error has answers to its own messages only, from the server's
      address; when nothing is lost and no call fails, every client ends and has them
      all, in order.  Over streams of any capacity that lose nothing, every client is
      served with the whole answer to its whole request, nobody waits for ever, and
      every socket is closed at the end.
    - Files: a file is replaced atomically: at every moment, and after a crash at
      that moment, the target is the old one or the new one; no descriptor is left.
    - Tracing: the tracer's log is the trace of [run], and signals are passed on.
    - Records: a directory is listed whole and in order however the kernel cuts it
      into buffers, and its descriptor closed; inotify events are read back in
      order, and the iterators always finish.
    - Signals, terminals, processes, waiting: a signal waited for by masking and
      [sigsuspend] is not lost; raw mode bit by bit, and a session in it that puts
      back every setting or reports why not; path formatting in its buffer,
      [ttyname], [openpty]; the installed action is the one asked for, or [EINVAL]
      for a signal that cannot be caught; masks, [nice], [CStrArray], status words;
      and that [fork_with_pidfd] cannot report a pidfd.

    ** Fuel

    [write_all], [read_all], [scan_dynamic] and [vdso_base], and the loops of the
    programs built on the crate in the specification files ([list_from], [await],
    [serve], [trace_from], [send_all], [recv_all]), take fuel from their caller, and
    their theorems say how much is enough: [replace_file], a turn per byte and per
    interruption.  The other loops are given a bound computed from their input: the trampolines 13 (x86_64) or
    15 (aarch64) steps per redirect and 40 around the loop; a name in a DNS
    reply and the record iterators the length of the buffer, since each step
    consumes a byte; [read_config] a byte per turn of its 4096-byte buffer;
    decimal formatting 10 digits.  None of those can run out, which the theorems
    about them state.

    ** Not modelled

    Tests and benchmarks; [lib.rs], which only declares modules; the conversion
    of [Errno] to [std::io::Error].  The kernel is a parameter, and so is memory
    the crate only receives as an address ([mmap], the vDSO image, read through
    a function).  Signal handlers are the caller's code.  [vdso.rs]'s atomic
    cache is state passed in and out where one thread runs ([clock_gettime_fn]),
    and a cell of relaxed loads and stores where many do
    ([clock_gettime_fn_shared], which alone is [clock_gettime_fn]).  Integer arithmetic
    that Rust checks only in debug builds is modelled as checked. *)

From Stdlib Require Import ZArith Lia.
From stdpp Require Import base list option numbers strings.
#[global] Open Scope Z_scope.

(** ** Machine integers

    A Rust integer is a [Z]; the cast [x as T] is a reduction modulo the width
    of [T], read back as two's complement when [T] is signed.  Sign extension
    ([i32 as usize]) is then the same reduction, because the negative [Z] is
    its own sign-extended value. *)

Definition wrap (w z : Z) : Z := z mod 2 ^ w.

Definition swrap (w z : Z) : Z :=
  let u := z mod 2 ^ w in if u <? 2 ^ (w - 1) then u else u - 2 ^ w.

Definition as_u8 (z : Z) : Z := wrap 8 z.
Definition as_u16 (z : Z) : Z := wrap 16 z.
Definition as_u32 (z : Z) : Z := wrap 32 z.
Definition as_u64 (z : Z) : Z := wrap 64 z.
Definition as_usize (z : Z) : Z := wrap 64 z.
Definition as_i16 (z : Z) : Z := swrap 16 z.
Definition as_i32 (z : Z) : Z := swrap 32 z.
Definition as_i64 (z : Z) : Z := swrap 64 z.
Definition as_isize (z : Z) : Z := swrap 64 z.

(** [oct 755] is Rust's [0o755]: the decimal digits read in base eight. *)
Fixpoint oct_go (fuel : nat) (z : Z) : Z :=
  match fuel with
  | O => 0
  | S fuel => z mod 10 + 8 * oct_go fuel (z / 10)
  end.
Definition oct (z : Z) : Z := oct_go 12 z.

(** Ranges of the integer types. *)
Definition is_byte (z : Z) : Prop := 0 <= z < 256.
Definition is_u16 (z : Z) : Prop := 0 <= z < 2 ^ 16.
Definition is_u32 (z : Z) : Prop := 0 <= z < 2 ^ 32.
Definition is_u64 (z : Z) : Prop := 0 <= z < 2 ^ 64.
Definition is_i32 (z : Z) : Prop := - 2 ^ 31 <= z < 2 ^ 31.
Definition is_i64 (z : Z) : Prop := - 2 ^ 63 <= z < 2 ^ 63.

#[export] Instance is_byte_dec z : Decision (is_byte z).
Proof. unfold is_byte; apply _. Defined.
#[export] Instance is_u32_dec z : Decision (is_u32 z).
Proof. unfold is_u32; apply _. Defined.
#[export] Instance is_u64_dec z : Decision (is_u64 z).
Proof. unfold is_u64; apply _. Defined.
#[export] Instance is_i32_dec z : Decision (is_i32 z).
Proof. unfold is_i32; apply _. Defined.
#[export] Instance is_i64_dec z : Decision (is_i64 z).
Proof. unfold is_i64; apply _. Defined.

Ltac int_ranges :=
  unfold is_byte, is_u16, is_u32, is_u64, is_i32, is_i64 in *.

Lemma wrap_range w z : 0 <= w -> 0 <= wrap w z < 2 ^ w.
Proof. intros. unfold wrap. apply Z.mod_pos_bound. by apply Z.pow_pos_nonneg. Qed.

Lemma wrap_small w z : 0 <= z < 2 ^ w -> wrap w z = z.
Proof. apply Z.mod_small. Qed.

Lemma wrap_wrap w z : 0 <= w -> wrap w (wrap w z) = wrap w z.
Proof. intros. apply wrap_small. by apply wrap_range. Qed.

Lemma swrap_range w z : 0 < w -> - 2 ^ (w - 1) <= swrap w z < 2 ^ (w - 1).
Proof.
  intros Hw. unfold swrap.
  assert (2 ^ w = 2 * 2 ^ (w - 1)) as E.
  { rewrite <- Z.pow_succ_r by lia. f_equal; lia. }
  pose proof (Z.mod_pos_bound z (2 ^ w) ltac:(apply Z.pow_pos_nonneg; lia)).
  destruct (Z.ltb_spec (z mod 2 ^ w) (2 ^ (w - 1))); lia.
Qed.

Lemma swrap_small w z : 0 < w -> - 2 ^ (w - 1) <= z < 2 ^ (w - 1) -> swrap w z = z.
Proof.
  intros Hw Hz. unfold swrap.
  assert (2 ^ w = 2 * 2 ^ (w - 1)) as E.
  { rewrite <- Z.pow_succ_r by lia. f_equal; lia. }
  destruct (decide (0 <= z)).
  - rewrite Z.mod_small by lia.
    destruct (Z.ltb_spec z (2 ^ (w - 1))); lia.
  - assert (z mod 2 ^ w = z + 2 ^ w) as ->.
    { rewrite <- (Z.mod_add z 1) by lia. rewrite Z.mul_1_l. apply Z.mod_small. lia. }
    destruct (Z.ltb_spec (z + 2 ^ w) (2 ^ (w - 1))); lia.
Qed.

(** A narrower read of a wider register sees the same low bits. *)
Lemma swrap_of_wrap w v z : 0 <= w <= v -> swrap w (wrap v z) = swrap w z.
Proof.
  intros. unfold swrap, wrap. rewrite Z.mod_mod_divide; [done|].
  exists (2 ^ (v - w)). rewrite <- Z.pow_add_r by lia. f_equal; lia.
Qed.

Lemma wrap_of_swrap w z : 0 < w -> wrap w (swrap w z) = wrap w z.
Proof.
  intros. unfold swrap, wrap.
  destruct (_ <? _); [by rewrite Z.mod_mod by (apply Z.pow_nonzero; lia)|].
  rewrite <- (Z.mod_add (_ - _) 1) by (apply Z.pow_nonzero; lia).
  replace (z mod 2 ^ w - 2 ^ w + 1 * 2 ^ w) with (z mod 2 ^ w) by lia.
  by rewrite Z.mod_mod by (apply Z.pow_nonzero; lia).
Qed.

(** The kernel reads an [int] argument from the low half of the register: the
    [i32 as usize] casts of the wrappers lose nothing. *)
Lemma as_i32_as_usize z : is_i32 z -> as_i32 (as_usize z) = z.
Proof.
  intros. unfold as_i32, as_usize. rewrite swrap_of_wrap by lia.
  apply swrap_small; int_ranges; lia.
Qed.

(** ** Bytes *)

Fixpoint le_enc (n : nat) (z : Z) : list Z :=
  match n with
  | O => []
  | S n => z mod 256 :: le_enc n (z / 256)
  end.

Fixpoint le_dec (l : list Z) : Z :=
  match l with
  | [] => 0
  | b :: l => b + 256 * le_dec l
  end.

Definition be_enc (n : nat) (z : Z) : list Z := rev (le_enc n z).
Definition be_dec (l : list Z) : Z := le_dec (rev l).

Definition bytes_ok (l : list Z) : Prop := Forall is_byte l.

Lemma le_enc_length n z : length (le_enc n z) = n.
Proof. revert z; induction n; intros; simpl; auto. Qed.

Lemma le_enc_bytes n z : bytes_ok (le_enc n z).
Proof.
  revert z; induction n; intros; simpl; constructor; [|apply IHn].
  apply Z.mod_pos_bound; lia.
Qed.

Lemma le_dec_enc n z : le_dec (le_enc n z) = z mod 256 ^ Z.of_nat n.
Proof.
  revert z; induction n; intros; simpl le_enc; simpl le_dec.
  - by rewrite Z.mod_1_r.
  - rewrite IHn, Nat2Z.inj_succ, Z.pow_succ_r by lia.
    rewrite Z.rem_mul_r by (try apply Z.pow_nonzero; lia). done.
Qed.

Lemma le_dec_enc_small n z :
  0 <= z < 256 ^ Z.of_nat n -> le_dec (le_enc n z) = z.
Proof. intros. rewrite le_dec_enc. by apply Z.mod_small. Qed.

Lemma le_dec_range l : bytes_ok l -> 0 <= le_dec l < 256 ^ Z.of_nat (length l).
Proof.
  induction 1 as [|b l Hb _ IH]; [simpl; lia|].
  cbn [le_dec length]. rewrite Nat2Z.inj_succ, Z.pow_succ_r by lia.
  int_ranges. lia.
Qed.

Lemma le_enc_dec l : bytes_ok l -> le_enc (length l) (le_dec l) = l.
Proof.
  induction 1 as [|b l Hb Hl IH]; [done|].
  cbn [le_dec length le_enc]. unfold is_byte in Hb. f_equal.
  - rewrite Z.mul_comm, Z.mod_add by lia. apply Z.mod_small; lia.
  - rewrite Z.mul_comm, Z.div_add, Z.div_small by lia. apply IH.
Qed.

Lemma le_enc_wrap n z : le_enc n (z mod 256 ^ Z.of_nat n) = le_enc n z.
Proof.
  rewrite <- le_dec_enc. rewrite <- (le_enc_length n z) at 1.
  apply le_enc_dec, le_enc_bytes.
Qed.

Lemma be_enc_length n z : length (be_enc n z) = n.
Proof. unfold be_enc. by rewrite length_rev, le_enc_length. Qed.

Lemma be_enc_bytes n z : bytes_ok (be_enc n z).
Proof. apply Forall_rev, le_enc_bytes. Qed.

Lemma be_dec_enc_small n z :
  0 <= z < 256 ^ Z.of_nat n -> be_dec (be_enc n z) = z.
Proof. intros. unfold be_dec, be_enc. rewrite rev_involutive. by apply le_dec_enc_small. Qed.

(** [slice off n l] is [&l[off..off + n]] where that is in range. *)
Definition slice {A} (off n : nat) (l : list A) : list A := take n (drop off l).

Lemma slice_length {A} off n (l : list A) :
  (off + n <= length l)%nat -> length (slice off n l) = n.
Proof. intros. unfold slice. rewrite length_take, length_drop. lia. Qed.

Lemma slice_app_r {A} off n (l k : list A) :
  (length l <= off)%nat -> slice off n (l ++ k) = slice (off - length l) n k.
Proof. intros. unfold slice. by rewrite drop_app_ge by lia. Qed.

Lemma slice_app_l {A} off n (l k : list A) :
  (off + n <= length l)%nat -> slice off n (l ++ k) = slice off n l.
Proof.
  intros. unfold slice. rewrite drop_app_le by lia.
  rewrite take_app_le; [done|]. rewrite length_drop. lia.
Qed.

Lemma slice_middle {A} (l k m : list A) off n :
  off = length l -> n = length k -> slice off n (l ++ k ++ m) = k.
Proof. intros -> ->. unfold slice. by rewrite drop_app_length, take_app_length. Qed.

Lemma bytes_ok_slice off n l : bytes_ok l -> bytes_ok (slice off n l).
Proof. intros. by apply Forall_take, Forall_drop. Qed.

(** [&l[n..]] and [&l[..n]]; [None] where Rust panics. *)
Definition slice_from {A} (n : Z) (l : list A) : option (list A) :=
  if n <=? Z.of_nat (length l) then Some (drop (Z.to_nat n) l) else None.
Definition slice_to {A} (n : Z) (l : list A) : option (list A) :=
  if n <=? Z.of_nat (length l) then Some (take (Z.to_nat n) l) else None.

Lemma slice_from_le {A} n (l : list A) :
  (n <= length l)%nat -> slice_from (Z.of_nat n) l = Some (drop n l).
Proof.
  intros Hn. unfold slice_from. destruct (Z.leb_spec (Z.of_nat n) (Z.of_nat (length l))); [|lia].
  by rewrite Nat2Z.id.
Qed.
Lemma slice_to_front {A} (l k : list A) : slice_to (Z.of_nat (length l)) (l ++ k) = Some l.
Proof.
  unfold slice_to. rewrite length_app.
  destruct (Z.leb_spec (Z.of_nat (length l)) (Z.of_nat (length l + length k))); [|lia].
  by rewrite Nat2Z.id, take_app_length.
Qed.

(** [overwrite old new]: the memory [old] after something wrote the bytes
    [new] from its start: never more than [length old] of them. *)
Definition overwrite (old new : list Z) : list Z :=
  take (length old) (map as_u8 new ++ drop (length new) old).

Lemma overwrite_length old new : length (overwrite old new) = length old.
Proof.
  unfold overwrite. rewrite length_take, length_app, length_map, length_drop. lia.
Qed.

Lemma overwrite_bytes old new : bytes_ok old -> bytes_ok (overwrite old new).
Proof.
  intros. apply Forall_take, Forall_app; split; [|by apply Forall_drop].
  apply Forall_map, Forall_true. intros z. apply (wrap_range 8). lia.
Qed.

Lemma overwrite_full old new :
  bytes_ok new -> length new = length old -> overwrite old new = new.
Proof.
  intros Hb Hl. unfold overwrite. rewrite <- Hl, drop_ge by lia.
  rewrite app_nil_r, take_ge by (rewrite length_map; lia).
  induction Hb as [|z l Hz Hb IH] in old, Hl |- *; [done|].
  destruct old; [done|]. simpl. f_equal; [|by eapply IH; injection Hl].
  by apply wrap_small.
Qed.

Lemma map_as_u8 l : bytes_ok l -> map as_u8 l = l.
Proof.
  induction 1 as [|b l Hb _ IH]; [done|]. cbn [map]. rewrite IH. f_equal. by apply wrap_small.
Qed.

Create HintDb rusty discriminated.
#[export] Hint Resolve le_enc_bytes be_enc_bytes overwrite_bytes bytes_ok_slice : rusty.
Create Rewrite HintDb rusty_len.
#[export] Hint Rewrite le_enc_length be_enc_length overwrite_length : rusty_len.

(** ** Sums over a list *)

Lemma sum_insert {A} (g : A -> nat) l i x y :
  l !! i = Some x ->
  (sum_list (g <$> <[i := y]> l) + g x = sum_list (g <$> l) + g y)%nat.
Proof.
  revert i. induction l as [|z l IH]; intros [|i] Hi; [done..| |]; simpl in *.
  - injection Hi as ->. lia.
  - specialize (IH i Hi). unfold fmap in IH. lia.
Qed.

Lemma sum_pos {A} (g : A -> nat) l :
  (0 < sum_list (g <$> l))%nat -> exists i x, l !! i = Some x /\ (0 < g x)%nat.
Proof.
  induction l as [|x l IH]; simpl; [lia|]. intros Hpos.
  destruct (decide (g x = 0%nat)) as [Hz|]; [|by exists 0%nat, x; split; [done|lia]].
  destruct IH as (i & y & ? & ?); [unfold fmap in *; lia|]. by exists (S i), y.
Qed.

Lemma sum_zero {A} (g : A -> nat) l i x :
  sum_list (g <$> l) = 0%nat -> l !! i = Some x -> g x = 0%nat.
Proof.
  revert i. induction l as [|y l IH]; intros [|i] Hz Hi; [done..| |]; simpl in *.
  - injection Hi as ->. lia.
  - apply (IH i); [unfold fmap in *; lia|done].
Qed.

(** ** Text

    The bytes of a string literal. *)
Definition str (s : string) : list Z :=
  map (fun a => Z.of_N (Ascii.N_of_ascii a)) (String.list_ascii_of_string s).

(** [CStr::from_bytes_until_nul]: the bytes before the first NUL, [None] when
    there is none. *)
Fixpoint until_nul (b : list Z) : option (list Z) :=
  match b with
  | [] => None
  | c :: b => if c =? 0 then Some [] else option_map (cons c) (until_nul b)
  end.

(** [&l[off..off + n]]; [None] where Rust panics. *)
Definition sub_slice {A} (off n : Z) (l : list A) : option (list A) :=
  if off + n <=? Z.of_nat (length l)
  then Some (slice (Z.to_nat off) (Z.to_nat n) l) else None.

(** ** Results *)

(** [pub struct Errno(pub i32)] *)
Inductive Errno := mkErrno (code : Z).

#[export] Instance Errno_eq_dec : EqDecision Errno.
Proof. solve_decision. Defined.

Inductive result (A : Type) :=
| Ok (a : A)
| Err (e : Errno).
Arguments Ok {_} _.
Arguments Err {_} _.

#[export] Instance result_eq_dec `{EqDecision A} : EqDecision (result A).
Proof. solve_decision. Defined.

Definition map_ok {A B} (f : A -> B) (r : result A) : result B :=
  match r with Ok a => Ok (f a) | Err e => Err e end.

Definition is_ok {A} (r : result A) : bool :=
  match r with Ok _ => true | Err _ => false end.

(** ** What always happens

    [eventually R P w]: every execution of [R] from [w] reaches a state in [P],
    after finitely many steps and without getting stuck before. *)
Inductive eventually {W} (R : W -> W -> Prop) (P : W -> Prop) (w : W) : Prop :=
| ev_now : P w -> eventually R P w
| ev_later : (exists w', R w w') -> (forall w', R w w' -> eventually R P w') -> eventually R P w.
