(* ===== verification/Prog.v ===== *)
(** Programs that call the kernel: the monad every wrapper is written in, its
    interpreter against an arbitrary kernel, behavioural equivalence, and the
    [ensures] logic used to state what a wrapper guarantees. *)

From stdpp Require Import base list option numbers.
From Stdlib Require Import ZArith Lia.
From S2P Require Import Prelude.

(** ** System calls

    A pointer argument is modelled by the memory it points at.  [ARef] is
    memory the callee may only read, [AMut] memory it may also write, [ARefV] and
    [AMutV] are pointers to [struct iovec] arrays naming such buffers, and
    [AInt] is a plain register value (an integer, a null pointer, a raw
    address the crate never dereferences). *)
Inductive Arg :=
| AInt (v : Z)
| ARef (b : list Z)
| AMut (b : list Z)
| ARefV (bs : list (list Z))
| AMutV (bs : list (list Z)).

#[export] Instance Arg_eq_dec : EqDecision Arg.
Proof. solve_decision. Defined.

(** What leaves the crate: a trap into the kernel with a number and the
    argument registers, or a call of code the kernel mapped (the vDSO entry). *)
Inductive Call :=
| Syscall (nr : Z) (args : list Arg)
| CallFn (addr : Z) (args : list Arg).

#[export] Instance Call_eq_dec : EqDecision Call.
Proof. solve_decision. Defined.

Definition call_args (c : Call) : list Arg :=
  match c with Syscall _ a | CallFn _ a => a end.

(** The result register, and the new contents of the writable buffers in the
    order the arguments name them. *)
Record Reply := mkReply { r_ret : Z; r_outs : list (list Z) }.

Definition writable (a : Arg) : list (list Z) :=
  match a with AMut b => [b] | AMutV bs => bs | _ => [] end.

Definition call_writable (c : Call) : list (list Z) :=
  concat (map writable (call_args c)).

Fixpoint overwrite_all (olds news : list (list Z)) : list (list Z) :=
  match olds, news with
  | o :: olds, n :: news => overwrite o n :: overwrite_all olds news
  | olds, [] => olds
  | [], _ => []
  end.

(** The result register is 64 bits wide, and the callee writes bytes from the
    start of each writable buffer, never past its end. *)
Definition conform (c : Call) (r : Reply) : Reply :=
  mkReply (as_u64 (r_ret r)) (overwrite_all (call_writable c) (r_outs r)).

Definition out (i : nat) (r : Reply) : list Z := nth i (r_outs r) [].

Lemma overwrite_all_length olds news : length (overwrite_all olds news) = length olds.
Proof. revert news; induction olds; intros [|]; simpl; auto. Qed.

Lemma overwrite_all_nth olds news i :
  length (nth i (overwrite_all olds news) []) = length (nth i olds []).
Proof.
  revert news i; induction olds as [|o olds IH]; intros [|n news] [|i]; simpl; auto.
  apply overwrite_length.
Qed.

(** A buffer keeps its length across a call, whatever the kernel does. *)
Lemma out_length c r i :
  length (out i (conform c r)) = length (nth i (call_writable c) []).
Proof. apply overwrite_all_nth. Qed.

Lemma out_bytes c r i :
  Forall bytes_ok (call_writable c) -> bytes_ok (out i (conform c r)).
Proof.
  unfold out, conform; simpl. generalize (r_outs r). intros news.
  generalize (call_writable c) as olds.
  intros olds H; revert news i; induction H as [|o olds Ho _ IH];
    intros [|n news] [|i]; simpl; try constructor; auto using overwrite_bytes.
  - clear - Ho IH. specialize (IH [] i). by destruct olds.
Qed.

(** What the callee wrote over the whole of the only writable buffer. *)
Lemma out_written c r b o :
  call_writable c = [b] -> r_outs r = [o] -> bytes_ok o -> length o = length b ->
  out 0 (conform c r) = o.
Proof.
  intros Hc Ho Hb Hl. unfold out, conform. cbn [r_outs]. rewrite Hc, Ho. cbn [overwrite_all nth].
  by apply overwrite_full.
Qed.

Lemma conform_ret_range c r : 0 <= r_ret (conform c r) < 2 ^ 64.
Proof. apply (wrap_range 64). lia. Qed.

(** ** Programs *)

(** [Panic] is a Rust panic (or a trap), [NoFuel] the exhaustion of the fuel a
    loop was given. *)
Inductive Prog (A : Type) : Type :=
| Ret (a : A)
| Sys (c : Call) (k : Reply -> Prog A)
| Panic
| NoFuel.
Arguments Ret {_} _.
Arguments Sys {_} _ _.
Arguments Panic {_}.
Arguments NoFuel {_}.

Fixpoint bind {A B} (p : Prog A) (f : A -> Prog B) : Prog B :=
  match p with
  | Ret a => f a
  | Sys c k => Sys c (fun r => bind (k r) f)
  | Panic => Panic
  | NoFuel => NoFuel
  end.

(** The [?] operator: an error is returned to the caller at once. *)
Definition bind_ok {A B} (p : Prog (result A)) (f : A -> Prog (result B)) :
    Prog (result B) :=
  bind p (fun r => match r with Ok a => f a | Err e => Ret (Err e) end).

Declare Scope prog_scope.
Delimit Scope prog_scope with prog.
Notation "'let*' x ':=' p 'in' q" := (bind p (fun x => q))
  (at level 10, x pattern, p at level 100, q at level 200) : prog_scope.
Notation "'let?' x ':=' p 'in' q" := (bind_ok p (fun x => q))
  (at level 10, x pattern, p at level 100, q at level 200) : prog_scope.
#[global] Open Scope prog_scope.

(** An operation that panics outside its domain (slicing, indexing, [unwrap]). *)
Definition or_panic {A} (o : option A) : Prog A :=
  match o with Some a => Ret a | None => Panic end.

(** [a + b] on [usize] in a build with overflow checks. *)
Definition usize_add (a b : Z) : Prog Z :=
  if a + b <? 2 ^ 64 then Ret (a + b) else Panic.

(** ** Running a program *)

(** A kernel: its own state, and its answer to each call; [None] is a call
    that never comes back ([exit_group], a successful [execve]). *)
Record Kernel := mkKernel {
  kst : Type;
  kstep : Call -> kst -> option Reply * kst }.

Inductive Outcome (A : Type) :=
| Done (a : A)
| Panicked
| OutOfFuel
| Gone.
Arguments Done {_} _.
Arguments Panicked {_}.
Arguments OutOfFuel {_}.
Arguments Gone {_}.

(** The calls made, in order, with the replies. *)
Definition Trace := list (Call * option Reply).

Fixpoint run {A} (K : Kernel) (p : Prog A) (s : kst K) : Outcome A * Trace * kst K :=
  match p with
  | Ret a => (Done a, [], s)
  | Panic => (Panicked, [], s)
  | NoFuel => (OutOfFuel, [], s)
  | Sys c k =>
      let '(r, s) := kstep K c s in
      match r with
      | None => (Gone, [(c, None)], s)
      | Some r =>
          let r := conform c r in
          let '(o, t, s) := run K (k r) s in (o, (c, Some r) :: t, s)
      end
  end.

Definition outcome {A} K (p : Prog A) s : Outcome A := (run K p s).1.1.
Definition trace {A} K (p : Prog A) s : Trace := (run K p s).1.2.
Definition final {A} K (p : Prog A) s : kst K := (run K p s).2.

Lemma run_bind {A B} K (p : Prog A) (f : A -> Prog B) s :
  run K (bind p f) s =
  match run K p s with
  | (Done a, t, s) => let '(o, t', s) := run K (f a) s in (o, t ++ t', s)
  | (Panicked, t, s) => (Panicked, t, s)
  | (OutOfFuel, t, s) => (OutOfFuel, t, s)
  | (Gone, t, s) => (Gone, t, s)
  end.
Proof.
  revert s; induction p as [a|c k IH| |]; intros s; simpl; try done.
  - by destruct (run K (f a) s) as [[??]?].
  - destruct (kstep K c s) as [[r|] s']; [|done]. rewrite IH.
    destruct (run K (k _) s') as [[[]?]?]; try done.
    by destruct (run K (f _) _) as [[??]?].
Qed.

(** ** Taking a run apart *)

Lemma run_bind_done {A B} K (p : Prog A) (f : A -> Prog B) s b t s' :
  run K (bind p f) s = (Done b, t, s') ->
  exists a t1 s1 t2, run K p s = (Done a, t1, s1) /\ run K (f a) s1 = (Done b, t2, s') /\
    t = t1 ++ t2.
Proof.
  rewrite run_bind. destruct (run K p s) as [[[a| | |] t1] s1]; try done.
  destruct (run K (f a) s1) as [[o t2] s2] eqn:E. intros [= -> <- <-]. by exists a, t1, s1, t2.
Qed.

Lemma run_bind_ok_done {A B} K (p : Prog (result A)) (f : A -> Prog (result B)) s b t s' :
  run K (bind_ok p f) s = (Done (Ok b), t, s') ->
  exists a t1 s1 t2, run K p s = (Done (Ok a), t1, s1) /\ run K (f a) s1 = (Done (Ok b), t2, s') /\
    t = t1 ++ t2.
Proof.
  intros ([a|e] & t1 & s1 & t2 & H1 & H2 & ->)%run_bind_done; [by exists a, t1, s1, t2|done].
Qed.

Lemma run_sys_done {A} K c (k : Reply -> Prog A) s b t s' :
  run K (Sys c k) s = (Done b, t, s') ->
  exists r s1 t2, kstep K c s = (Some r, s1) /\ run K (k (conform c r)) s1 = (Done b, t2, s') /\
    t = (c, Some (conform c r)) :: t2.
Proof.
  simpl. destruct (kstep K c s) as [[r|] s1]; [|done].
  destruct (run K (k (conform c r)) s1) as [[o t2] s2] eqn:E. intros [= -> <- <-].
  by exists r, s1, t2.
Qed.

Lemma run_sys {A} K c (k : Reply -> Prog A) s r s' :
  kstep K c s = (Some r, s') ->
  run K (Sys c k) s =
  let '(o, t, s'') := run K (k (conform c r)) s' in (o, (c, Some (conform c r)) :: t, s'').
Proof. intros Hk. simpl. by rewrite Hk. Qed.

(** ** Behavioural equivalence: same outcome, trace and final state on every
    kernel. *)
Definition prog_equiv {A} (p q : Prog A) : Prop := forall K s, run K p s = run K q s.

#[export] Instance prog_equiv_equivalence A : Equivalence (@prog_equiv A).
Proof.
  split; [by intros p K s| by intros p q H K s| intros p q r H1 H2 K s].
  by rewrite H1.
Qed.

#[export] Instance bind_proper A B :
  Proper (prog_equiv ==> pointwise_relation _ prog_equiv ==> prog_equiv) (@bind A B).
Proof.
  intros p q Hp f g Hf K s. rewrite !run_bind, Hp.
  destruct (run K q s) as [[[]?]?]; try done. by rewrite Hf.
Qed.

#[export] Instance Sys_proper A c :
  Proper (pointwise_relation _ prog_equiv ==> prog_equiv) (@Sys A c).
Proof.
  intros f g H K s. simpl. destruct (kstep K c s) as [[r|] s']; [|done].
  by rewrite H.
Qed.

Lemma bind_ret_l {A B} (a : A) (f : A -> Prog B) : bind (Ret a) f = f a.
Proof. done. Qed.

Lemma bind_ret_r {A} (p : Prog A) : prog_equiv (bind p Ret) p.
Proof.
  intros K s. rewrite run_bind. destruct (run K p s) as [[[]?]?]; try done.
  simpl. by rewrite app_nil_r.
Qed.

Lemma bind_assoc {A B C} (p : Prog A) (f : A -> Prog B) (g : B -> Prog C) :
  prog_equiv (bind (bind p f) g) (bind p (fun a => bind (f a) g)).
Proof.
  intros K s. rewrite !run_bind. destruct (run K p s) as [[[a| | |]t]s']; try done.
  rewrite !run_bind. destruct (run K (f a) s') as [[[b| | |]t']s'']; try done.
  destruct (run K (g b) s'') as [[??]?]. by rewrite app_assoc.
Qed.

(** ** Equivalent programs are the same tree

    No kernel tells two programs apart only if they make the same calls and go on
    alike after every reply a kernel can give. *)
Fixpoint peq {A} (p q : Prog A) : Prop :=
  match p, q with
  | Ret a, Ret b => a = b
  | Sys c k, Sys d l => c = d /\ forall r, peq (k (conform c r)) (l (conform c r))
  | Panic, Panic | NoFuel, NoFuel => True
  | _, _ => False
  end.

(** A kernel that gives the reply [r] first, then goes on as [K] from [s]. *)
Definition reply_first (K : Kernel) (r : Reply) (s : kst K) : Kernel :=
  mkKernel (option (kst K)) (fun c o =>
    match o with
    | None => (Some r, Some s)
    | Some s => let '(r, s') := kstep K c s in (r, Some s')
    end).

Lemma run_reply_first {A} K r s0 (p : Prog A) s :
  run (reply_first K r s0) p (Some s) = let '(o, t, s') := run K p s in (o, t, Some s').
Proof.
  revert s. induction p as [a|c k IH| |]; intros s; simpl; try done.
  destruct (kstep K c s) as [[r'|] s']; [|done]. rewrite IH.
  by destruct (run K (k (conform c r')) s') as [[??]?].
Qed.

Lemma peq_of_equiv {A} (p q : Prog A) : prog_equiv p q -> peq p q.
Proof.
  revert q. induction p as [a|c k IH| |]; intros [b|d l| |] E.
  all: try (pose proof (E (mkKernel unit (fun _ _ => (None, tt))) tt) as E0; simpl in E0; by inversion E0).
  pose proof (E (mkKernel unit (fun _ _ => (None, tt))) tt) as E0. simpl in E0. injection E0 as <-.
  split; [done|]. intros r. apply IH. intros K s.
  specialize (E (reply_first K r s) None). simpl in E. rewrite !run_reply_first in E.
  destruct (run K (k (conform c r)) s) as [[??]?], (run K (l (conform c r)) s) as [[??]?].
  by injection E as -> -> ->.
Qed.

Lemma equiv_of_peq {A} (p q : Prog A) : peq p q -> prog_equiv p q.
Proof.
  revert q. induction p as [a|c k IH| |]; intros [b|d l| |] E K s; simpl in E; try done.
  - by rewrite E.
  - destruct E as [<- E]. simpl. destruct (kstep K c s) as [[r|] s']; [|done].
    by rewrite (IH _ _ (E r)).
Qed.

(** ** Guarantees

    [ensures C p Q]: against every kernel whose replies satisfy the contract
    [C], [p] neither panics nor runs out of fuel, and what it returns
    satisfies [Q]. *)
Definition Contract := Call -> Reply -> Prop.
Definition any_reply : Contract := fun _ _ => True.

Fixpoint ensures {A} (C : Contract) (p : Prog A) (Q : A -> Prop) : Prop :=
  match p with
  | Ret a => Q a
  | Sys c k => forall r, C c (conform c r) -> ensures C (k (conform c r)) Q
  | Panic | NoFuel => False
  end.

Definition respects (K : Kernel) (C : Contract) : Prop :=
  forall c s r s', kstep K c s = (Some r, s') -> C c (conform c r).

Lemma respects_any K : respects K any_reply.
Proof. done. Qed.

Lemma ensures_run {A} C (p : Prog A) Q K s :
  ensures C p Q -> respects K C ->
  match outcome K p s with
  | Done a => Q a
  | Gone => True
  | Panicked | OutOfFuel => False
  end.
Proof.
  intros H HK. unfold outcome. revert s; induction p as [a|c k IH| |]; intros s; simpl; auto.
  simpl in H. destruct (kstep K c s) as [[r|] s'] eqn:E; [|done].
  specialize (IH _ (H r (HK _ _ _ _ E)) s').
  by destruct (run K (k _) s') as [[??]?].
Qed.

Lemma ensures_mono {A} (C D : Contract) (p : Prog A) (P Q : A -> Prop) :
  ensures C p P -> (forall c r, D c r -> C c r) -> (forall a, P a -> Q a) ->
  ensures D p Q.
Proof. intros H HC HQ. induction p; simpl in *; eauto. Qed.

Lemma ensures_post {A} C (p : Prog A) (P Q : A -> Prop) :
  ensures C p P -> (forall a, P a -> Q a) -> ensures C p Q.
Proof. eauto using ensures_mono. Qed.

Lemma ensures_bind {A B} C (p : Prog A) (f : A -> Prog B) P Q :
  ensures C p P -> (forall a, P a -> ensures C (f a) Q) -> ensures C (bind p f) Q.
Proof. intros H Hf. induction p; simpl in *; eauto. Qed.

Lemma ensures_bind_ok {A B} C (p : Prog (result A)) (f : A -> Prog (result B)) P Q :
  ensures C p P ->
  (forall a, P (Ok a) -> ensures C (f a) Q) ->
  (forall e, P (Err e) -> Q (Err e)) ->
  ensures C (bind_ok p f) Q.
Proof. intros H Hf He. eapply ensures_bind; [exact H|]. intros [a|e] Hp; simpl; auto. Qed.
