(* ===== verification/Layout.v ===== *)
(** Kernel structure layouts: Rust's [repr(C)] (and [repr(C, packed)]) layout
    algorithm, and the bytes a structure has in memory.  Every structure the
    crate shares with the kernel is an instance of [KStruct]; the round trip and
    range theorems are proved once, here, for all of them. *)

From stdpp Require Import base list option numbers.
From Stdlib Require Import ZArith Lia.
From S2P Require Import Prelude.

(** A field: an integer of [w] bytes, signed or not, or an array of [n]
    unsigned integers of [w] bytes. *)
Inductive Fld :=
| FInt (w : nat) (signed : bool)
| FArr (w n : nat).

Inductive Val := VI (z : Z) | VA (l : list Z).

Abbreviation u8 := (FInt 1 false).
Abbreviation u16 := (FInt 2 false).
Abbreviation u32 := (FInt 4 false).
Abbreviation u64 := (FInt 8 false).
Abbreviation i16 := (FInt 2 true).
Abbreviation i32 := (FInt 4 true).
Abbreviation i64 := (FInt 8 true).

Definition f_size (f : Fld) : nat := match f with FInt w _ => w | FArr w n => w * n end.
Definition f_align (f : Fld) : nat := match f with FInt w _ | FArr w _ => w end.

(** Bytes to insert at offset [off] to reach a multiple of [al]. *)
Definition padding (al off : nat) : nat := (al - off mod al) mod al.

Definition fld_pad (packed : bool) (f : Fld) (off : nat) : nat :=
  if packed then O else padding (f_align f) off.

Fixpoint offsets (packed : bool) (off : nat) (fs : list Fld) : list nat :=
  match fs with
  | [] => []
  | f :: fs =>
      let o := (off + fld_pad packed f off)%nat in
      o :: offsets packed (o + f_size f) fs
  end.

Fixpoint fields_end (packed : bool) (off : nat) (fs : list Fld) : nat :=
  match fs with
  | [] => off
  | f :: fs => fields_end packed (off + fld_pad packed f off + f_size f) fs
  end.

Definition struct_align (packed : bool) (fs : list Fld) : nat :=
  if packed then 1 else fold_right (fun f m => Nat.max (f_align f) m) 1%nat fs.

Definition struct_size (packed : bool) (fs : list Fld) : nat :=
  let e := fields_end packed 0 fs in
  e + (if packed then 0 else padding (struct_align packed fs) e).

(** ** Field contents *)

Fixpoint arr_dec (w n : nat) (b : list Z) : list Z :=
  match n with
  | O => []
  | S n => le_dec (take w b) :: arr_dec w n (drop w b)
  end.

Definition f_enc (f : Fld) (v : Val) : list Z :=
  match f, v with
  | FInt w _, VI z => le_enc w z
  | FArr w _, VA l => concat (map (le_enc w) l)
  | _, _ => replicate (f_size f) 0
  end.

Definition f_dec (f : Fld) (b : list Z) : Val :=
  match f with
  | FInt w true => VI (swrap (8 * Z.of_nat w) (le_dec b))
  | FInt w false => VI (le_dec b)
  | FArr w n => VA (arr_dec w n b)
  end.

(** The value is one of the field's type. *)
Definition fits (f : Fld) (v : Val) : Prop :=
  match f, v with
  | FInt w true, VI z =>
      (0 < w)%nat /\ - 2 ^ (8 * Z.of_nat w - 1) <= z < 2 ^ (8 * Z.of_nat w - 1)
  | FInt w false, VI z => 0 <= z < 256 ^ Z.of_nat w
  | FArr w n, VA l => length l = n /\ Forall (fun z => 0 <= z < 256 ^ Z.of_nat w) l
  | _, _ => False
  end.

#[export] Instance fits_dec f v : Decision (fits f v).
Proof. destruct f as [w []|w n], v; simpl; apply _. Defined.

Lemma pow256 n : 256 ^ Z.of_nat n = 2 ^ (8 * Z.of_nat n).
Proof. rewrite Z.pow_mul_r by lia. done. Qed.

Lemma concat_le_length w l : length (concat (map (le_enc w) l)) = (w * length l)%nat.
Proof.
  induction l; simpl; [lia|]. rewrite length_app, le_enc_length, IHl. lia.
Qed.

Lemma f_enc_length f v : fits f v -> length (f_enc f v) = f_size f.
Proof.
  destruct f as [w []|w n], v; simpl; try done; intros.
  - apply le_enc_length.
  - apply le_enc_length.
  - rewrite concat_le_length. destruct H as [-> _]. done.
Qed.

Lemma arr_dec_enc w l :
  Forall (fun z => 0 <= z < 256 ^ Z.of_nat w) l ->
  arr_dec w (length l) (concat (map (le_enc w) l)) = l.
Proof.
  induction 1 as [|z l Hz _ IH]; [done|]. simpl.
  rewrite take_app_length' by (by rewrite le_enc_length).
  rewrite drop_app_length' by (by rewrite le_enc_length).
  by rewrite le_dec_enc_small, IH.
Qed.

Lemma f_dec_enc f v : fits f v -> f_dec f (f_enc f v) = v.
Proof.
  destruct f as [w []|w n], v; simpl; try done; intros H.
  - destruct H as [Hw H]. rewrite le_dec_enc, pow256. f_equal.
    fold (wrap (8 * Z.of_nat w) z). rewrite swrap_of_wrap by lia.
    apply swrap_small; lia.
  - by rewrite le_dec_enc_small.
  - destruct H as [<- H]. by rewrite arr_dec_enc.
Qed.

Lemma arr_dec_fits w n b :
  bytes_ok b -> length b = (w * n)%nat ->
  length (arr_dec w n b) = n /\
  Forall (fun z => 0 <= z < 256 ^ Z.of_nat w) (arr_dec w n b).
Proof.
  revert b; induction n as [|n IH]; intros b Hb Hl; simpl; [done|].
  destruct (IH (drop w b)) as [? ?]; [by apply Forall_drop|rewrite length_drop; lia|].
  split; [lia|]. constructor; [|done].
  pose proof (le_dec_range (take w b)) as HH. rewrite length_take in HH.
  replace (w `min` length b)%nat with w in HH by lia.
  by apply HH, Forall_take.
Qed.

Lemma f_dec_fits f b :
  (0 < f_align f)%nat -> bytes_ok b -> length b = f_size f -> fits f (f_dec f b).
Proof.
  destruct f as [w []|w n]; simpl; intros Hw Hb Hl.
  - split; [done|]. apply swrap_range. lia.
  - rewrite <- Hl. by apply le_dec_range.
  - by apply arr_dec_fits.
Qed.

(** ** Structure contents *)

Fixpoint enc_go (packed : bool) (off : nat) (fs : list Fld) (vs : list Val) : list Z :=
  match fs, vs with
  | f :: fs, v :: vs =>
      replicate (fld_pad packed f off) 0 ++ f_enc f v ++
      enc_go packed (off + fld_pad packed f off + f_size f) fs vs
  | _, _ => []
  end.

Fixpoint dec_go (packed : bool) (off : nat) (fs : list Fld) (b : list Z) : list Val :=
  match fs with
  | [] => []
  | f :: fs =>
      let b := drop (fld_pad packed f off) b in
      f_dec f (take (f_size f) b) ::
      dec_go packed (off + fld_pad packed f off + f_size f) fs (drop (f_size f) b)
  end.

Lemma enc_go_length p off fs vs :
  Forall2 fits fs vs -> (off + length (enc_go p off fs vs) = fields_end p off fs)%nat.
Proof.
  intros H; revert off; induction H as [|f v fs vs Hf _ IH]; intros off; simpl; [lia|].
  rewrite <- IH, !length_app, length_replicate, f_enc_length by done. lia.
Qed.

Lemma dec_enc_go p off fs vs rest :
  Forall2 fits fs vs -> dec_go p off fs (enc_go p off fs vs ++ rest) = vs.
Proof.
  intros H; revert off; induction H as [|f v fs vs Hf _ IH]; intros off; simpl; [done|].
  rewrite <- !app_assoc, drop_app_length' by (by rewrite length_replicate).
  rewrite take_app_length', drop_app_length' by (by rewrite f_enc_length).
  by rewrite f_dec_enc, IH.
Qed.

Lemma dec_go_fits p off fs b :
  Forall (fun f => 0 < f_align f)%nat fs -> bytes_ok b ->
  (fields_end p off fs <= off + length b)%nat ->
  Forall2 fits fs (dec_go p off fs b).
Proof.
  intros Ha; revert off b; induction Ha as [|f fs Hf Hfs IH]; intros off b Hb Hl; simpl;
    constructor.
  - assert (fields_end p (off + fld_pad p f off + f_size f) fs >=
            off + fld_pad p f off + f_size f)%nat as Hge.
    { clear. generalize (off + fld_pad p f off + f_size f)%nat.
      induction fs as [|g fs IH]; intros n; simpl; [lia|].
      specialize (IH (n + fld_pad p g n + f_size g)%nat). lia. }
    simpl in Hl. apply f_dec_fits; [done| |].
    + by apply Forall_take, Forall_drop.
    + rewrite length_take, length_drop. lia.
  - apply IH; [by apply Forall_drop, Forall_drop|].
    rewrite !length_drop. simpl in Hl. lia.
Qed.

(** ** Structures *)

(** A structure shared with the kernel: its fields in declaration order, and
    the record it is in the model. *)
Class KStruct (A : Type) := {
  ks_packed : bool;
  ks_fields : list Fld;
  ks_vals : A -> list Val;
  ks_of : list Val -> A;
  ks_of_vals : forall a, ks_of (ks_vals a) = a;
  ks_vals_of : forall vs, Forall2 fits ks_fields vs -> ks_vals (ks_of vs) = vs;
  ks_sized : forallb (fun f => bool_decide (0 < f_align f)%nat) ks_fields = true;
}.

(** Discharges the laws of an instance whose record has one field per [Fld]. *)
Ltac solve_kstruct :=
  lazymatch goal with
  | |- forall a, _ = a => intros []; reflexivity
  | |- forall _ a, _ = a => intros ? []; reflexivity
  | |- forall _ vs, Forall2 _ _ _ -> _ =>
      let x := fresh in intro x; solve_kstruct
  | |- forall vs, Forall2 _ _ _ -> _ =>
      let vs := fresh in let H := fresh in intros vs H;
      repeat (let v := fresh "v" in let Hv := fresh in
              apply Forall2_cons_inv_l in H as (v & ? & Hv & H & ->);
              destruct v; try (exfalso; exact Hv); clear Hv);
      apply Forall2_nil_inv_l in H as ->; reflexivity
  | |- forall _, _ = true => intros []; reflexivity
  | |- _ => reflexivity
  end.

Definition size_of (A : Type) `{KStruct A} : nat := struct_size ks_packed ks_fields.
Definition offset_of (A : Type) `{KStruct A} (i : nat) : nat :=
  nth i (offsets ks_packed 0 ks_fields) 0%nat.

Definition well_typed `{KStruct A} (a : A) : Prop := Forall2 fits ks_fields (ks_vals a).

#[export] Instance well_typed_dec `{KStruct A} (a : A) : Decision (well_typed a).
Proof. unfold well_typed; apply _. Defined.

(** The bytes of [a] in memory; padding is zero. *)
Definition encode `{KStruct A} (a : A) : list Z :=
  let b := enc_go ks_packed 0 ks_fields (ks_vals a) in
  b ++ replicate (size_of A - length b) 0.

Definition decode `{KStruct A} (b : list Z) : A :=
  ks_of (dec_go ks_packed 0 ks_fields b).

(** What the record holds was read from the structure's fields. *)
Definition decode_vals (A : Type) `{KStruct A} (b : list Z) : list Val :=
  dec_go ks_packed 0 ks_fields b.

Section KStruct.
Context {A : Type} `{KStruct A}.

Lemma encode_length (a : A) : well_typed a -> length (encode a) = size_of A.
Proof.
  intros Hw. unfold encode. rewrite length_app, length_replicate.
  pose proof (enc_go_length ks_packed 0 _ _ Hw) as E. simpl in E.
  unfold size_of at 1, struct_size. rewrite <- E. unfold size_of, struct_size.
  rewrite <- E. lia.
Qed.

Lemma decode_encode (a : A) : well_typed a -> decode (encode a) = a.
Proof.
  intros Hw. unfold decode, encode. rewrite dec_enc_go by exact Hw.
  apply ks_of_vals.
Qed.

Lemma dec_go_well_typed b :
  bytes_ok b -> length b = size_of A -> Forall2 fits ks_fields (dec_go ks_packed 0 ks_fields b).
Proof.
  intros Hb Hl. pose proof ks_sized as Hs. rewrite forallb_forall in Hs.
  apply dec_go_fits; [|done|].
  - apply List.Forall_forall. intros f Hf. specialize (Hs f Hf).
    by apply bool_decide_eq_true_1 in Hs.
  - rewrite Hl. unfold size_of, struct_size. lia.
Qed.

(** Whatever bytes the kernel leaves in the structure, reading its fields
    gives values of the fields' types. *)
Lemma decode_well_typed b :
  bytes_ok b -> length b = size_of A -> well_typed (decode b : A).
Proof.
  intros Hb Hl. unfold well_typed, decode. rewrite ks_vals_of; by apply dec_go_well_typed.
Qed.
End KStruct.

(** ** Arrays of structures, and scalar out-parameters *)

Definition encode_all `{KStruct A} (l : list A) : list Z := concat (map encode l).

Fixpoint decode_all {A} `{KStruct A} (n : nat) (b : list Z) : list A :=
  match n with
  | O => []
  | S n => decode (take (size_of A) b) :: decode_all n (drop (size_of A) b)
  end.

Lemma decode_all_length {A} `{KStruct A} n b : length (decode_all n b : list A) = n.
Proof. revert b; induction n; intros; simpl; auto. Qed.

Lemma encode_all_length `{KStruct A} (l : list A) :
  Forall well_typed l -> length (encode_all l) = (size_of A * length l)%nat.
Proof.
  unfold encode_all. induction 1; simpl; [lia|].
  rewrite length_app, encode_length, IHForall by done. lia.
Qed.

Lemma decode_encode_all `{KStruct A} (l : list A) :
  Forall well_typed l -> decode_all (length l) (encode_all l) = l.
Proof.
  unfold encode_all. induction 1 as [|a l Ha _ IH]; [done|]. simpl.
  rewrite take_app_length', drop_app_length' by (by rewrite encode_length).
  by rewrite decode_encode, IH.
Qed.

Lemma decode_all_well_typed {A} `{KStruct A} n b :
  bytes_ok b -> length b = (size_of A * n)%nat -> Forall well_typed (decode_all n b : list A).
Proof.
  revert b; induction n as [|n IH]; intros b Hb Hl; simpl; constructor.
  - apply decode_well_typed; [by apply Forall_take|]. rewrite length_take. lia.
  - apply IH; [by apply Forall_drop|]. rewrite length_drop. lia.
Qed.

Lemma encode_bytes `{KStruct A} (a : A) : bytes_ok (encode a).
Proof.
  assert (forall n, bytes_ok (replicate n 0)) as Hz.
  { intros n. apply Forall_replicate. int_ranges. lia. }
  assert (forall f v, bytes_ok (f_enc f v)) as Hf.
  { intros [w s|w n] [z|l]; simpl; auto using le_enc_bytes.
    apply Forall_concat, Forall_map, Forall_true. intros. apply le_enc_bytes. }
  apply Forall_app. split; [|apply Hz].
  generalize 0%nat as off. generalize (ks_vals a) as vs.
  induction ks_fields as [|f fs IH]; intros [|v vs] off; try constructor.
  apply Forall_app. split; [apply Hz|]. apply Forall_app. split; [apply Hf|apply IH].
Qed.

Lemma encode_all_bytes `{KStruct A} (l : list A) : bytes_ok (encode_all l).
Proof. apply Forall_concat, Forall_map, Forall_true. intros. apply encode_bytes. Qed.

#[export] Hint Resolve encode_bytes encode_all_bytes : rusty.

Definition dec_i32 (b : list Z) : Z := as_i32 (le_dec b).
Definition dec_u32 (b : list Z) : Z := as_u32 (le_dec b).
Definition dec_u64 (b : list Z) : Z := as_u64 (le_dec b).

(** Accessors used by the [ks_of] functions. *)
Definition vi (vs : list Val) (i : nat) : Z :=
  match nth i vs (VI 0) with VI z => z | VA _ => 0 end.
Definition va (vs : list Val) (i : nat) : list Z :=
  match nth i vs (VI 0) with VA l => l | VI _ => [] end.

Lemma dec_i32_le z : is_i32 z -> dec_i32 (le_enc 4 z) = z.
Proof.
  intros Hz. unfold dec_i32, as_i32. rewrite le_dec_enc. change (256 ^ Z.of_nat 4) with (2 ^ 32).
  change (z mod 2 ^ 32) with (wrap 32 z). rewrite swrap_of_wrap by lia.
  apply swrap_small; int_ranges; lia.
Qed.
