(* ===== verification/Asm.v ===== *)
(** The assembly the crate is built on: the x86_64 and aarch64 instructions its
    [asm!] blocks use, executed over a register file, with the system-call
    instruction handing a call to the surrounding program.

    A register holds a 64-bit integer or a pointer to an object, or nothing the
    block may rely on.  Reading such a register, loading outside an object and
    comparing a pointer are all stuck ([Panic]). *)

From stdpp Require Import base list option numbers.
From Stdlib Require Import ZArith Lia.
From S2P Require Import Prelude Prog.

(** ** Values *)

Inductive MVal :=
| VInt (z : Z)
| VPtr (obj : Arg) (off : Z).

Definition of_arg (a : Arg) : MVal :=
  match a with AInt z => VInt z | _ => VPtr a 0 end.

Definition to_arg (v : MVal) : option Arg :=
  match v with
  | VInt z => Some (AInt z)
  | VPtr a off => if off =? 0 then Some a else None
  end.

(** A 32-bit load at [disp] bytes past [v]. *)
Definition load32 (v : MVal) (disp : Z) : option Z :=
  match v with
  | VPtr (ARef b) off =>
      let o := off + disp in
      if (0 <=? o) && (o + 4 <=? Z.of_nat (length b))
      then Some (le_dec (slice (Z.to_nat o) 4 b)) else None
  | _ => None
  end.

Definition as_int (v : option MVal) : option Z :=
  match v with Some (VInt z) => Some z | _ => None end.

(** Numeric local labels, searched forward ([2f]) or backward ([8b]). *)
Inductive label := Fwd (n : nat) | Bwd (n : nat).

Section Labels.
Context {I : Type} (is_label : nat -> I -> bool).

Fixpoint find_from (n i : nat) (code : list I) : option nat :=
  match code with
  | [] => None
  | c :: code => if is_label n c then Some i else find_from n (S i) code
  end.

Definition resolve (code : list I) (pc : nat) (l : label) : option nat :=
  match l with
  | Fwd n => find_from n (S pc) (drop (S pc) code)
  | Bwd n => option_map (fun i => pc - 1 - i)%nat (find_from n 0 (rev (take pc code)))
  end.
End Labels.

(** The argument registers that hold something, in ABI order. *)
Fixpoint bound_args (vs : list (option MVal)) : option (list Arg) :=
  match vs with
  | Some v :: vs =>
      match to_arg v, bound_args vs with
      | Some a, Some l => Some (a :: l)
      | _, _ => None
      end
  | _ => Some []
  end.

(** The kernel reads as many argument registers as the call takes. *)
Definition trap (arity : Z -> nat) (nr : option MVal) (vs : list (option MVal)) : option Call :=
  match as_int nr with
  | Some n =>
      match bound_args (take (arity n) vs) with
      | Some args => Some (Syscall n args)
      | None => None
      end
  | None => None
  end.

(** ** x86_64 *)

Inductive xreg := RAX | RCX | RDX | RSI | RDI | R8 | R9 | R10 | R11 | R12 | R13 | R14 | R15.

#[export] Instance xreg_eq_dec : EqDecision xreg.
Proof. solve_decision. Defined.

(** [NE]/[EQ] read the zero flag, [SG] the sign flag, [BL] the carry flag. *)
Inductive xcond := NE | EQ | SG | BL.

Inductive xinstr :=
| XLabel (n : nat)
| XSyscall
| XTest (r : xreg)                           (* test r, r *)
| XJcc (c : xcond) (l : label)
| XMov (d s : xreg)
| XMovI (d : xreg) (z : Z)
| XXor (r : xreg)                            (* xor r, r *)
| XMovsxd (d base idx : xreg) (disp : Z)     (* movsxd d, dword ptr [base + 8*idx + disp] *)
| XCmp (a b : xreg)
| XInc (r : xreg)
| XUd2.

(** [x_outs]: what the last call left in the buffers it could write. *)
Record xstate := mkX {
  x_regs : xreg -> option MVal;
  x_zf : bool; x_sf : bool; x_cf : bool;
  x_outs : list (list Z) }.

Definition xset (r : xreg) (v : option MVal) (s : xstate) : xstate :=
  mkX (fun r' => if decide (r' = r) then v else x_regs s r')
    (x_zf s) (x_sf s) (x_cf s) (x_outs s).
Definition xflags (zf sf cf : bool) (s : xstate) : xstate :=
  mkX (x_regs s) zf sf cf (x_outs s).
Definition xwrote (o : list (list Z)) (s : xstate) : xstate :=
  mkX (x_regs s) (x_zf s) (x_sf s) (x_cf s) o.

Definition xtaken (c : xcond) (s : xstate) : bool :=
  match c with
  | NE => negb (x_zf s) | EQ => x_zf s | SG => x_sf s | BL => x_cf s
  end.

Definition sign64 (z : Z) : bool := 2 ^ 63 <=? wrap 64 z.

Definition x_is_label (n : nat) (i : xinstr) : bool :=
  match i with XLabel m => Nat.eqb n m | _ => false end.

Section X86.
(** The address of each instruction, and the arity of each call. *)
Context (text : nat -> Z) (arity : Z -> nat).

Definition x_call (s : xstate) : option Call :=
  trap arity (x_regs s RAX) (map (x_regs s) [RDI; RSI; RDX; R10; R8; R9]).

(** [syscall] leaves the return address in [rcx] and the flags in [r11]; the
    kernel puts its result in [rax]. *)
Definition x_sysret (pc : nat) (r : Reply) (s : xstate) : xstate :=
  xwrote (r_outs r)
    (xset RAX (Some (VInt (r_ret r)))
       (xset R11 None (xset RCX (Some (VInt (text (S pc)))) s))).

Fixpoint xexec (fuel : nat) (code : list xinstr) (pc : nat) (s : xstate) : Prog Reply :=
  match fuel with
  | O => NoFuel
  | S fuel =>
      let next := xexec fuel code (S pc) in
      let goto l s :=
        match resolve x_is_label code pc l with
        | Some pc => xexec fuel code pc s
        | None => Panic
        end in
      match nth_error code pc with
      | None =>
          match as_int (x_regs s RAX) with
          | Some z => Ret (mkReply z (x_outs s))
          | None => Panic
          end
      | Some (XLabel _) => next s
      | Some XSyscall =>
          match x_call s with
          | Some c => Sys c (fun r => xexec fuel code (S pc) (x_sysret pc r s))
          | None => Panic
          end
      | Some (XTest r) =>
          match as_int (x_regs s r) with
          | Some z => next (xflags (z =? 0) (sign64 z) false s)
          | None => Panic
          end
      | Some (XJcc c l) => if xtaken c s then goto l s else next s
      | Some (XMov d r) =>
          match x_regs s r with Some v => next (xset d (Some v) s) | None => Panic end
      | Some (XMovI d z) => next (xset d (Some (VInt z)) s)
      | Some (XXor r) => next (xset r (Some (VInt 0)) (xflags true false false s))
      | Some (XMovsxd d base idx disp) =>
          match x_regs s base, as_int (x_regs s idx) with
          | Some b, Some i =>
              match load32 b (8 * i + disp) with
              | Some z => next (xset d (Some (VInt (as_u64 (as_i32 z)))) s)
              | None => Panic
              end
          | _, _ => Panic
          end
      | Some (XCmp a b) =>
          match as_int (x_regs s a), as_int (x_regs s b) with
          | Some x, Some y => next (xflags (x =? y) (sign64 (x - y)) (x <? y) s)
          | _, _ => Panic
          end
      | Some (XInc r) =>
          match as_int (x_regs s r) with
          | Some z =>
              let z := as_u64 (z + 1) in
              next (xset r (Some (VInt z)) (xflags (z =? 0) (sign64 z) (x_cf s) s))
          | None => Panic
          end
      | Some XUd2 => Panic
      end
  end.
End X86.

(** The registers an [asm!] block binds with [in] and [inlateout]. *)
Fixpoint x_inputs (l : list (xreg * Arg)) : xstate :=
  match l with
  | [] => mkX (fun _ => None) false false false []
  | (r, a) :: l => xset r (Some (of_arg a)) (x_inputs l)
  end.

(** ** aarch64 *)

Abbreviation areg := nat (only parsing).

Inductive ainstr :=
| ALabel (n : nat)
| ASvc
| ACbnz (r : areg) (l : label)
| ACbz (r : areg) (l : label)
| AMov (d s : areg)
| AMovI (d : areg) (z : Z)
| AAddLsl (d n m : areg) (sh : Z)            (* add d, n, m, lsl #sh *)
| AAddI (d n : areg) (z : Z)
| ALdrW (d base : areg) (disp : Z)           (* ldr wd, [base, #disp] *)
| ACmpW (a b : areg)
| ACmpX (a b : areg)
| ACmpI (a : areg) (z : Z)
| ABeq (l : label)
| ABlt (l : label)
| ABrk.

Record astate := mkA {
  a_regs : areg -> option MVal;
  a_eq : bool; a_lt : bool;
  a_outs : list (list Z) }.

Definition aset (r : areg) (v : option MVal) (s : astate) : astate :=
  mkA (fun r' => if decide (r' = r) then v else a_regs s r') (a_eq s) (a_lt s) (a_outs s).
Definition awrote (o : list (list Z)) (s : astate) : astate :=
  mkA (a_regs s) (a_eq s) (a_lt s) o.

(** [cmp]: the zero condition, and the signed less-than condition ([N <> V]). *)
Definition acmp (w x y : Z) (s : astate) : astate :=
  mkA (a_regs s) (wrap w x =? wrap w y) (swrap w x <? swrap w y) (a_outs s).

Definition a_is_label (n : nat) (i : ainstr) : bool :=
  match i with ALabel m => Nat.eqb n m | _ => false end.

Definition ptr_add (v : option MVal) (z : Z) : option MVal :=
  match v with
  | Some (VInt x) => Some (VInt (as_u64 (x + z)))
  | Some (VPtr o off) => Some (VPtr o (off + z))
  | None => None
  end.

Section A64.
Context (arity : Z -> nat).

Definition a_call (s : astate) : option Call :=
  trap arity (a_regs s 8%nat) (map (a_regs s) [0; 1; 2; 3; 4; 5]%nat).

(** [svc] preserves every register but [x0]. *)
Definition a_sysret (r : Reply) (s : astate) : astate :=
  awrote (r_outs r) (aset 0%nat (Some (VInt (r_ret r))) s).

Fixpoint aexec (fuel : nat) (code : list ainstr) (pc : nat) (s : astate) : Prog Reply :=
  match fuel with
  | O => NoFuel
  | S fuel =>
      let next := aexec fuel code (S pc) in
      let goto l s :=
        match resolve a_is_label code pc l with
        | Some pc => aexec fuel code pc s
        | None => Panic
        end in
      match nth_error code pc with
      | None =>
          match as_int (a_regs s 0%nat) with
          | Some z => Ret (mkReply z (a_outs s))
          | None => Panic
          end
      | Some (ALabel _) => next s
      | Some ASvc =>
          match a_call s with
          | Some c => Sys c (fun r => aexec fuel code (S pc) (a_sysret r s))
          | None => Panic
          end
      | Some (ACbnz r l) =>
          match as_int (a_regs s r) with
          | Some z => if z =? 0 then next s else goto l s
          | None => Panic
          end
      | Some (ACbz r l) =>
          match as_int (a_regs s r) with
          | Some z => if z =? 0 then goto l s else next s
          | None => Panic
          end
      | Some (AMov d r) =>
          match a_regs s r with Some v => next (aset d (Some v) s) | None => Panic end
      | Some (AMovI d z) => next (aset d (Some (VInt z)) s)
      | Some (AAddLsl d n m sh) =>
          match as_int (a_regs s m) with
          | Some z =>
              match ptr_add (a_regs s n) (z * 2 ^ sh) with
              | Some v => next (aset d (Some v) s)
              | None => Panic
              end
          | None => Panic
          end
      | Some (AAddI d n z) =>
          match ptr_add (a_regs s n) z with
          | Some v => next (aset d (Some v) s)
          | None => Panic
          end
      | Some (ALdrW d base disp) =>
          match a_regs s base with
          | Some b =>
              match load32 b disp with
              | Some z => next (aset d (Some (VInt z)) s)
              | None => Panic
              end
          | None => Panic
          end
      | Some (ACmpW a b) =>
          match as_int (a_regs s a), as_int (a_regs s b) with
          | Some x, Some y => next (acmp 32 x y s)
          | _, _ => Panic
          end
      | Some (ACmpX a b) =>
          match as_int (a_regs s a), as_int (a_regs s b) with
          | Some x, Some y => next (acmp 64 x y s)
          | _, _ => Panic
          end
      | Some (ACmpI a z) =>
          match as_int (a_regs s a) with Some x => next (acmp 64 x z s) | None => Panic end
      | Some (ABeq l) => if a_eq s then goto l s else next s
      | Some (ABlt l) => if a_lt s then goto l s else next s
      | Some ABrk => Panic
      end
  end.
End A64.

Fixpoint a_inputs (l : list (areg * Arg)) : astate :=
  match l with
  | [] => mkA (fun _ => None) false false []
  | (r, a) :: l => aset r (Some (of_arg a)) (a_inputs l)
  end.
