(* ===== verification/Arch.v ===== *)
(** The architecture layer ([src/arch/]): targets, system-call numbers, the
    system-call stubs, [Errno] and the decoding of raw return values. *)

From stdpp Require Import base list option numbers strings pretty.
From Stdlib Require Import ZArith Lia.
From S2P Require Import Prelude Prog Asm.

(** ** Targets *)

Inductive Arch := X86_64 | Aarch64.

#[export] Instance Arch_eq_dec : EqDecision Arch.
Proof. solve_decision. Defined.

(** The [target_arch] the crate is compiled for. *)
Class Target := arch : Arch.

(** ** System-call numbers *)

(** The constants of the two [nr] modules, by name. *)
Inductive Sysno :=
| READ | WRITE | OPEN | CLOSE | MMAP | MPROTECT | MUNMAP | MSYNC | MADVISE | MLOCK
| MUNLOCK | POLL | LSEEK | RT_SIGACTION | RT_SIGPROCMASK | RT_SIGRETURN | IOCTL | PREAD64
| PWRITE64 | READV | WRITEV | FTRUNCATE | NANOSLEEP | CLOCK_NANOSLEEP | DUP | DUP2 | GETPID
| CLONE | EXECVE | KILL | MEMFD_CREATE | GETRANDOM | WAIT4 | GETRUSAGE | FCNTL | GETCWD
| CHDIR | FCHDIR | UMASK | GETUID | GETGID | GETEUID | GETEGID | GETGROUPS | SETUID
| SETGID | SETGROUPS | SETRESUID | SETRESGID | GETRESUID | GETRESGID | GETPRIORITY
| SETPRIORITY | PRCTL | UNAME | SETPGID | GETPPID | SETSID | GETPGID | WAITID | GETSID
| RT_SIGPENDING | RT_SIGSUSPEND | RT_SIGQUEUEINFO | SIGNALFD4 | CLOCK_GETTIME
| TIMERFD_CREATE | TIMERFD_SETTIME | TIMERFD_GETTIME | EXIT_GROUP | OPENAT | MKDIRAT
| UNLINKAT | SYMLINKAT | LINKAT | READLINKAT | FACCESSAT | FCHOWNAT | FCHMODAT | UTIMENSAT
| DUP3 | PIPE2 | PRLIMIT64 | RENAMEAT2 | EXECVEAT | STATX | GETDENTS64 | PIDFD_OPEN
| CLONE3 | PIDFD_SEND_SIGNAL | SOCKET | CONNECT | ACCEPT | SENDTO | RECVFROM | SHUTDOWN
| BIND | LISTEN | ACCEPT4 | GETSOCKNAME | GETPEERNAME | TRUNCATE | GETTID | CLOSE_RANGE
| FSYNC | FDATASYNC | CLOCK_GETRES | PREADV | PWRITEV | EVENTFD2 | EPOLL_CREATE1
| EPOLL_CTL | EPOLL_WAIT | INOTIFY_INIT1 | INOTIFY_ADD_WATCH | INOTIFY_RM_WATCH | SYSINFO
| PROCESS_VM_READV | PROCESS_VM_WRITEV | PTRACE | PPOLL | EPOLL_PWAIT.

#[export] Instance Sysno_eq_dec : EqDecision Sysno.
Proof. solve_decision. Defined.

Definition all_sysno : list Sysno :=
  [READ; WRITE; OPEN; CLOSE; MMAP; MPROTECT; MUNMAP; MSYNC; MADVISE; MLOCK; MUNLOCK; POLL;
   LSEEK; RT_SIGACTION; RT_SIGPROCMASK; RT_SIGRETURN; IOCTL; PREAD64; PWRITE64; READV;
   WRITEV; FTRUNCATE; NANOSLEEP; CLOCK_NANOSLEEP; DUP; DUP2; GETPID; CLONE; EXECVE; KILL;
   MEMFD_CREATE; GETRANDOM; WAIT4; GETRUSAGE; FCNTL; GETCWD; CHDIR; FCHDIR; UMASK; GETUID;
   GETGID; GETEUID; GETEGID; GETGROUPS; SETUID; SETGID; SETGROUPS; SETRESUID; SETRESGID;
   GETRESUID; GETRESGID; GETPRIORITY; SETPRIORITY; PRCTL; UNAME; SETPGID; GETPPID; SETSID;
   GETPGID; WAITID; GETSID; RT_SIGPENDING; RT_SIGSUSPEND; RT_SIGQUEUEINFO; SIGNALFD4;
   CLOCK_GETTIME; TIMERFD_CREATE; TIMERFD_SETTIME; TIMERFD_GETTIME; EXIT_GROUP; OPENAT;
   MKDIRAT; UNLINKAT; SYMLINKAT; LINKAT; READLINKAT; FACCESSAT; FCHOWNAT; FCHMODAT;
   UTIMENSAT; DUP3; PIPE2; PRLIMIT64; RENAMEAT2; EXECVEAT; STATX; GETDENTS64; PIDFD_OPEN;
   CLONE3; PIDFD_SEND_SIGNAL; SOCKET; CONNECT; ACCEPT; SENDTO; RECVFROM; SHUTDOWN; BIND;
   LISTEN; ACCEPT4; GETSOCKNAME; GETPEERNAME; TRUNCATE; GETTID; CLOSE_RANGE; FSYNC;
   FDATASYNC; CLOCK_GETRES; PREADV; PWRITEV; EVENTFD2; EPOLL_CREATE1; EPOLL_CTL;
   EPOLL_WAIT; INOTIFY_INIT1; INOTIFY_ADD_WATCH; INOTIFY_RM_WATCH; SYSINFO;
   PROCESS_VM_READV; PROCESS_VM_WRITEV; PTRACE; PPOLL; EPOLL_PWAIT].

Definition nr_x86_64 (s : Sysno) : option Z :=
  match s with
  | READ => Some 0 | WRITE => Some 1 | OPEN => Some 2 | CLOSE => Some 3 | MMAP => Some 9
  | MPROTECT => Some 10 | MUNMAP => Some 11 | MSYNC => Some 26 | MADVISE => Some 28
  | MLOCK => Some 149 | MUNLOCK => Some 150 | POLL => Some 7 | LSEEK => Some 8
  | RT_SIGACTION => Some 13 | RT_SIGPROCMASK => Some 14 | RT_SIGRETURN => Some 15
  | IOCTL => Some 16 | PREAD64 => Some 17 | PWRITE64 => Some 18 | READV => Some 19
  | WRITEV => Some 20 | FTRUNCATE => Some 77 | NANOSLEEP => Some 35
  | CLOCK_NANOSLEEP => Some 230 | DUP => Some 32 | DUP2 => Some 33 | GETPID => Some 39
  | CLONE => Some 56 | EXECVE => Some 59 | KILL => Some 62 | MEMFD_CREATE => Some 319
  | GETRANDOM => Some 318 | WAIT4 => Some 61 | GETRUSAGE => Some 98 | FCNTL => Some 72
  | GETCWD => Some 79 | CHDIR => Some 80 | FCHDIR => Some 81 | UMASK => Some 95
  | GETUID => Some 102 | GETGID => Some 104 | GETEUID => Some 107 | GETEGID => Some 108
  | GETGROUPS => Some 115 | SETUID => Some 105 | SETGID => Some 106 | SETGROUPS => Some 116
  | SETRESUID => Some 117 | SETRESGID => Some 119 | GETRESUID => Some 118
  | GETRESGID => Some 120 | GETPRIORITY => Some 140 | SETPRIORITY => Some 141
  | PRCTL => Some 157 | UNAME => Some 63 | SETPGID => Some 109 | GETPPID => Some 110
  | SETSID => Some 112 | GETPGID => Some 121 | WAITID => Some 247 | GETSID => Some 124
  | RT_SIGPENDING => Some 127 | RT_SIGSUSPEND => Some 130 | RT_SIGQUEUEINFO => Some 129
  | SIGNALFD4 => Some 289 | CLOCK_GETTIME => Some 228 | TIMERFD_CREATE => Some 283
  | TIMERFD_SETTIME => Some 286 | TIMERFD_GETTIME => Some 287 | EXIT_GROUP => Some 231
  | OPENAT => Some 257 | MKDIRAT => Some 258 | UNLINKAT => Some 263 | SYMLINKAT => Some 266
  | LINKAT => Some 265 | READLINKAT => Some 267 | FACCESSAT => Some 269
  | FCHOWNAT => Some 260 | FCHMODAT => Some 268 | UTIMENSAT => Some 280 | DUP3 => Some 292
  | PIPE2 => Some 293 | PRLIMIT64 => Some 302 | RENAMEAT2 => Some 316
  | EXECVEAT => Some 322 | STATX => Some 332 | GETDENTS64 => Some 217
  | PIDFD_OPEN => Some 434 | CLONE3 => Some 435 | PIDFD_SEND_SIGNAL => Some 424
  | SOCKET => Some 41 | CONNECT => Some 42 | ACCEPT => Some 43 | SENDTO => Some 44
  | RECVFROM => Some 45 | SHUTDOWN => Some 48 | BIND => Some 49 | LISTEN => Some 50
  | ACCEPT4 => Some 288 | GETSOCKNAME => Some 51 | GETPEERNAME => Some 52
  | TRUNCATE => Some 76 | GETTID => Some 186 | CLOSE_RANGE => Some 436 | FSYNC => Some 74
  | FDATASYNC => Some 75 | CLOCK_GETRES => Some 229 | PREADV => Some 295
  | PWRITEV => Some 296 | EVENTFD2 => Some 290 | EPOLL_CREATE1 => Some 291
  | EPOLL_CTL => Some 233 | EPOLL_WAIT => Some 232 | INOTIFY_INIT1 => Some 294
  | INOTIFY_ADD_WATCH => Some 254 | INOTIFY_RM_WATCH => Some 255 | SYSINFO => Some 99
  | PROCESS_VM_READV => Some 310 | PROCESS_VM_WRITEV => Some 311 | PTRACE => Some 101
  | _ => None
  end.

Definition nr_aarch64 (s : Sysno) : option Z :=
  match s with
  | GETCWD => Some 17 | DUP => Some 23 | DUP3 => Some 24 | FCNTL => Some 25
  | IOCTL => Some 29 | FACCESSAT => Some 48 | FCHMODAT => Some 53 | FCHOWNAT => Some 54
  | UTIMENSAT => Some 88 | CHDIR => Some 49 | FCHDIR => Some 50 | OPENAT => Some 56
  | LSEEK => Some 62 | WRITE => Some 64 | CLOSE => Some 57 | PIPE2 => Some 59
  | MKDIRAT => Some 34 | UNLINKAT => Some 35 | SYMLINKAT => Some 36 | LINKAT => Some 37
  | READ => Some 63 | READLINKAT => Some 78 | PPOLL => Some 73 | EXIT_GROUP => Some 94
  | NANOSLEEP => Some 101 | CLOCK_NANOSLEEP => Some 115 | CLOCK_GETTIME => Some 113
  | TIMERFD_CREATE => Some 85 | TIMERFD_SETTIME => Some 86 | TIMERFD_GETTIME => Some 87
  | PREAD64 => Some 67 | PWRITE64 => Some 68 | READV => Some 65 | WRITEV => Some 66
  | FTRUNCATE => Some 46 | WAITID => Some 95 | KILL => Some 129 | RT_SIGSUSPEND => Some 133
  | RT_SIGACTION => Some 134 | RT_SIGPROCMASK => Some 135 | RT_SIGPENDING => Some 136
  | RT_SIGQUEUEINFO => Some 138 | SIGNALFD4 => Some 74 | SETPGID => Some 154
  | GETPGID => Some 155 | GETSID => Some 156 | SETSID => Some 157 | UMASK => Some 166
  | GETPID => Some 172 | GETPPID => Some 173 | GETUID => Some 174 | GETEUID => Some 175
  | GETGID => Some 176 | GETEGID => Some 177 | GETGROUPS => Some 158 | SETUID => Some 146
  | SETGID => Some 144 | SETGROUPS => Some 159 | SETRESUID => Some 147
  | SETRESGID => Some 149 | GETRESUID => Some 148 | GETRESGID => Some 150
  | SETPRIORITY => Some 140 | GETPRIORITY => Some 141 | PRCTL => Some 167
  | UNAME => Some 160 | CLONE => Some 220 | EXECVE => Some 221 | RENAMEAT2 => Some 276
  | MEMFD_CREATE => Some 279 | GETRANDOM => Some 278 | WAIT4 => Some 260
  | GETRUSAGE => Some 165 | PRLIMIT64 => Some 261 | STATX => Some 291
  | EXECVEAT => Some 281 | GETDENTS64 => Some 61 | PIDFD_OPEN => Some 434
  | CLONE3 => Some 435 | PIDFD_SEND_SIGNAL => Some 424 | MUNMAP => Some 215
  | MMAP => Some 222 | MPROTECT => Some 226 | MSYNC => Some 227 | MLOCK => Some 228
  | MUNLOCK => Some 229 | MADVISE => Some 233 | SOCKET => Some 198 | BIND => Some 200
  | LISTEN => Some 201 | ACCEPT => Some 202 | CONNECT => Some 203 | SENDTO => Some 206
  | RECVFROM => Some 207 | SHUTDOWN => Some 210 | ACCEPT4 => Some 242
  | GETSOCKNAME => Some 204 | GETPEERNAME => Some 205 | TRUNCATE => Some 45
  | GETTID => Some 178 | CLOSE_RANGE => Some 436 | FSYNC => Some 82 | FDATASYNC => Some 83
  | CLOCK_GETRES => Some 114 | PREADV => Some 69 | PWRITEV => Some 70 | EVENTFD2 => Some 19
  | EPOLL_CREATE1 => Some 20 | EPOLL_CTL => Some 21 | EPOLL_PWAIT => Some 22
  | INOTIFY_INIT1 => Some 26 | INOTIFY_ADD_WATCH => Some 27 | INOTIFY_RM_WATCH => Some 28
  | SYSINFO => Some 179 | PROCESS_VM_READV => Some 270 | PROCESS_VM_WRITEV => Some 271
  | PTRACE => Some 117
  | _ => None
  end.

Definition nr_table (a : Arch) : Sysno -> option Z :=
  match a with X86_64 => nr_x86_64 | Aarch64 => nr_aarch64 end.

(** A name missing from a table does not compile on that target; the default
    is above every number of the tables. *)
Definition nrz `{Target} (s : Sysno) : Z := default (2 ^ 64 - 1) (nr_table arch s).
Abbreviation nr s := (AInt (nrz s)).

(** ** Errno *)

Definition code (e : Errno) : Z := match e with mkErrno c => c end.

Definition errno_name (e : Errno) : option string :=
  match code e with
  | 1 => Some "EPERM" | 2 => Some "ENOENT" | 3 => Some "ESRCH" | 4 => Some "EINTR"
  | 5 => Some "EIO" | 6 => Some "ENXIO" | 7 => Some "E2BIG" | 8 => Some "ENOEXEC"
  | 9 => Some "EBADF" | 10 => Some "ECHILD" | 11 => Some "EAGAIN" | 12 => Some "ENOMEM"
  | 13 => Some "EACCES" | 14 => Some "EFAULT" | 16 => Some "EBUSY" | 17 => Some "EEXIST"
  | 18 => Some "EXDEV" | 19 => Some "ENODEV" | 20 => Some "ENOTDIR" | 21 => Some "EISDIR"
  | 22 => Some "EINVAL" | 23 => Some "ENFILE" | 24 => Some "EMFILE" | 25 => Some "ENOTTY"
  | 26 => Some "ETXTBSY" | 27 => Some "EFBIG" | 28 => Some "ENOSPC" | 29 => Some "ESPIPE"
  | 30 => Some "EROFS" | 31 => Some "EMLINK" | 32 => Some "EPIPE" | 33 => Some "EDOM"
  | 34 => Some "ERANGE" | 36 => Some "ENAMETOOLONG" | 38 => Some "ENOSYS"
  | 39 => Some "ENOTEMPTY" | 40 => Some "ELOOP" | 110 => Some "ETIMEDOUT"
  | 111 => Some "ECONNREFUSED" | 115 => Some "EINPROGRESS"
  | _ => None
  end%string.

Definition EPERM : Errno := mkErrno 1.
Definition ENOENT : Errno := mkErrno 2.
Definition ESRCH : Errno := mkErrno 3.
Definition EINTR : Errno := mkErrno 4.
Definition EIO : Errno := mkErrno 5.
Definition ENXIO : Errno := mkErrno 6.
Definition E2BIG : Errno := mkErrno 7.
Definition ENOEXEC : Errno := mkErrno 8.
Definition EBADF : Errno := mkErrno 9.
Definition ECHILD : Errno := mkErrno 10.
Definition EAGAIN : Errno := mkErrno 11.
Definition ENOMEM : Errno := mkErrno 12.
Definition EACCES : Errno := mkErrno 13.
Definition EFAULT : Errno := mkErrno 14.
Definition EBUSY : Errno := mkErrno 16.
Definition EEXIST : Errno := mkErrno 17.
Definition EXDEV : Errno := mkErrno 18.
Definition ENODEV : Errno := mkErrno 19.
Definition ENOTDIR : Errno := mkErrno 20.
Definition EISDIR : Errno := mkErrno 21.
Definition EINVAL : Errno := mkErrno 22.
Definition ENFILE : Errno := mkErrno 23.
Definition EMFILE : Errno := mkErrno 24.
Definition ENOTTY : Errno := mkErrno 25.
Definition ETXTBSY : Errno := mkErrno 26.
Definition EFBIG : Errno := mkErrno 27.
Definition ENOSPC : Errno := mkErrno 28.
Definition ESPIPE : Errno := mkErrno 29.
Definition EROFS : Errno := mkErrno 30.
Definition EMLINK : Errno := mkErrno 31.
Definition EPIPE : Errno := mkErrno 32.
Definition EDOM : Errno := mkErrno 33.
Definition ERANGE : Errno := mkErrno 34.
Definition ENAMETOOLONG : Errno := mkErrno 36.
Definition ENOSYS : Errno := mkErrno 38.
Definition ENOTEMPTY : Errno := mkErrno 39.
Definition ELOOP : Errno := mkErrno 40.
Definition EWOULDBLOCK : Errno := mkErrno 11.
Definition ETIMEDOUT : Errno := mkErrno 110.
Definition ECONNREFUSED : Errno := mkErrno 111.
Definition EINPROGRESS : Errno := mkErrno 115.

Definition named_constants : list (Errno * string) :=
  [(EPERM, "EPERM"); (ENOENT, "ENOENT"); (ESRCH, "ESRCH"); (EINTR, "EINTR"); (EIO, "EIO");
   (ENXIO, "ENXIO"); (E2BIG, "E2BIG"); (ENOEXEC, "ENOEXEC"); (EBADF, "EBADF");
   (ECHILD, "ECHILD"); (EAGAIN, "EAGAIN"); (ENOMEM, "ENOMEM"); (EACCES, "EACCES");
   (EFAULT, "EFAULT"); (EBUSY, "EBUSY"); (EEXIST, "EEXIST"); (EXDEV, "EXDEV");
   (ENODEV, "ENODEV"); (ENOTDIR, "ENOTDIR"); (EISDIR, "EISDIR"); (EINVAL, "EINVAL");
   (ENFILE, "ENFILE"); (EMFILE, "EMFILE"); (ENOTTY, "ENOTTY"); (ETXTBSY, "ETXTBSY");
   (EFBIG, "EFBIG"); (ENOSPC, "ENOSPC"); (ESPIPE, "ESPIPE"); (EROFS, "EROFS");
   (EMLINK, "EMLINK"); (EPIPE, "EPIPE"); (EDOM, "EDOM"); (ERANGE, "ERANGE");
   (ENAMETOOLONG, "ENAMETOOLONG"); (ENOSYS, "ENOSYS"); (ENOTEMPTY, "ENOTEMPTY");
   (ELOOP, "ELOOP"); (EWOULDBLOCK, "EWOULDBLOCK"); (ETIMEDOUT, "ETIMEDOUT");
   (ECONNREFUSED, "ECONNREFUSED"); (EINPROGRESS, "EINPROGRESS")]%string.

(** [impl Display for Errno] *)
Definition errno_display (e : Errno) : string :=
  match errno_name e with
  | Some name => name +:+ " (os error " +:+ pretty (code e) +:+ ")"
  | None => "os error " +:+ pretty (code e)
  end%string.

(** ** Return values *)

Definition ERRNO_MAX : Z := 4095.

Definition from_ret (ret : Z) : result Z :=
  let signed := as_isize ret in
  if (- ERRNO_MAX <=? signed) && (signed <? 0)
  then Err (mkErrno (as_i32 (- signed))) else Ok ret.

Definition from_ret_i32 (ret : Z) : result Z := map_ok as_i32 (from_ret ret).

(** ** System-call stubs

    The operand list of each [asm!] block, then its single instruction. *)

Definition x_stub (ins : list (xreg * Arg)) : Prog Reply :=
  xexec (fun _ => 0) (fun _ => 6%nat) 2 [XSyscall] 0 (x_inputs ins).
Definition a_stub (ins : list (areg * Arg)) : Prog Reply :=
  aexec (fun _ => 6%nat) 2 [ASvc] 0 (a_inputs ins).

Definition x86_syscall0 (n : Arg) : Prog Reply :=
  x_stub [(RAX, n)].
Definition x86_syscall1 (n a1 : Arg) : Prog Reply :=
  x_stub [(RAX, n); (RDI, a1)].
Definition x86_syscall2 (n a1 a2 : Arg) : Prog Reply :=
  x_stub [(RAX, n); (RDI, a1); (RSI, a2)].
Definition x86_syscall3 (n a1 a2 a3 : Arg) : Prog Reply :=
  x_stub [(RAX, n); (RDI, a1); (RSI, a2); (RDX, a3)].
Definition x86_syscall4 (n a1 a2 a3 a4 : Arg) : Prog Reply :=
  x_stub [(RAX, n); (RDI, a1); (RSI, a2); (RDX, a3); (R10, a4)].
Definition x86_syscall5 (n a1 a2 a3 a4 a5 : Arg) : Prog Reply :=
  x_stub [(RAX, n); (RDI, a1); (RSI, a2); (RDX, a3); (R10, a4); (R8, a5)].
Definition x86_syscall6 (n a1 a2 a3 a4 a5 a6 : Arg) : Prog Reply :=
  x_stub [(RAX, n); (RDI, a1); (RSI, a2); (RDX, a3); (R10, a4); (R8, a5); (R9, a6)].

Definition a64_syscall0 (n : Arg) : Prog Reply :=
  a_stub [(8, n)]%nat.
Definition a64_syscall1 (n a1 : Arg) : Prog Reply :=
  a_stub [(8, n); (0, a1)]%nat.
Definition a64_syscall2 (n a1 a2 : Arg) : Prog Reply :=
  a_stub [(8, n); (0, a1); (1, a2)]%nat.
Definition a64_syscall3 (n a1 a2 a3 : Arg) : Prog Reply :=
  a_stub [(8, n); (0, a1); (1, a2); (2, a3)]%nat.
Definition a64_syscall4 (n a1 a2 a3 a4 : Arg) : Prog Reply :=
  a_stub [(8, n); (0, a1); (1, a2); (2, a3); (3, a4)]%nat.
Definition a64_syscall5 (n a1 a2 a3 a4 a5 : Arg) : Prog Reply :=
  a_stub [(8, n); (0, a1); (1, a2); (2, a3); (3, a4); (4, a5)]%nat.
Definition a64_syscall6 (n a1 a2 a3 a4 a5 a6 : Arg) : Prog Reply :=
  a_stub [(8, n); (0, a1); (1, a2); (2, a3); (3, a4); (4, a5); (5, a6)]%nat.

Definition syscall0 `{Target} (n : Arg) : Prog Reply :=
  match arch with X86_64 => x86_syscall0 n | Aarch64 => a64_syscall0 n end.
Definition syscall1 `{Target} (n a1 : Arg) : Prog Reply :=
  match arch with X86_64 => x86_syscall1 n a1 | Aarch64 => a64_syscall1 n a1 end.
Definition syscall2 `{Target} (n a1 a2 : Arg) : Prog Reply :=
  match arch with X86_64 => x86_syscall2 n a1 a2 | Aarch64 => a64_syscall2 n a1 a2 end.
Definition syscall3 `{Target} (n a1 a2 a3 : Arg) : Prog Reply :=
  match arch with X86_64 => x86_syscall3 n a1 a2 a3 | Aarch64 => a64_syscall3 n a1 a2 a3 end.
Definition syscall4 `{Target} (n a1 a2 a3 a4 : Arg) : Prog Reply :=
  match arch with X86_64 => x86_syscall4 n a1 a2 a3 a4 | Aarch64 => a64_syscall4 n a1 a2 a3 a4 end.
Definition syscall5 `{Target} (n a1 a2 a3 a4 a5 : Arg) : Prog Reply :=
  match arch with X86_64 => x86_syscall5 n a1 a2 a3 a4 a5 | Aarch64 => a64_syscall5 n a1 a2 a3 a4 a5 end.
Definition syscall6 `{Target} (n a1 a2 a3 a4 a5 a6 : Arg) : Prog Reply :=
  match arch with X86_64 => x86_syscall6 n a1 a2 a3 a4 a5 a6 | Aarch64 => a64_syscall6 n a1 a2 a3 a4 a5 a6 end.

(** Arguments as the wrappers write them. *)
Definition int (z : Z) : Arg := AInt (as_usize z).          (* [x as usize] *)
Definition null : Arg := AInt 0.
Definition cstr (p : list Z) : Arg := ARef (p ++ [0]).       (* [path.as_ptr() as usize] *)
Definition len {A} (l : list A) : Arg := AInt (Z.of_nat (length l)).

(** [from_ret(ret).map(|_| ())] *)
Definition ret_unit (r : Reply) : result unit := map_ok (fun _ => tt) (from_ret (r_ret r)).

(** ** The stubs do what their signatures say *)

(** A trap with this number and exactly these argument registers, answering
    the result register. *)
Definition raw_call (n : Z) (args : list Arg) : Prog Reply :=
  Sys (Syscall n args) (fun r => Ret (mkReply (r_ret r) (r_outs r))).

Lemma to_arg_of_arg a : to_arg (of_arg a) = Some a.
Proof. by destruct a. Qed.

Ltac solve_stub :=
  unfold x_stub, a_stub, raw_call; cbn [x_inputs a_inputs];
  repeat change (of_arg (AInt ?n)) with (VInt n);
  cbv -[of_arg to_arg r_ret r_outs]; rewrite ?to_arg_of_arg; reflexivity.

Lemma syscall0_eq `{Target} n :
  syscall0 (AInt n) = raw_call n [].
Proof. unfold syscall0, x86_syscall0, a64_syscall0. destruct arch; solve_stub. Qed.
Lemma syscall1_eq `{Target} n a1 :
  syscall1 (AInt n) a1 = raw_call n [a1].
Proof. unfold syscall1, x86_syscall1, a64_syscall1. destruct arch; solve_stub. Qed.
Lemma syscall2_eq `{Target} n a1 a2 :
  syscall2 (AInt n) a1 a2 = raw_call n [a1; a2].
Proof. unfold syscall2, x86_syscall2, a64_syscall2. destruct arch; solve_stub. Qed.
Lemma syscall3_eq `{Target} n a1 a2 a3 :
  syscall3 (AInt n) a1 a2 a3 = raw_call n [a1; a2; a3].
Proof. unfold syscall3, x86_syscall3, a64_syscall3. destruct arch; solve_stub. Qed.
Lemma syscall4_eq `{Target} n a1 a2 a3 a4 :
  syscall4 (AInt n) a1 a2 a3 a4 = raw_call n [a1; a2; a3; a4].
Proof. unfold syscall4, x86_syscall4, a64_syscall4. destruct arch; solve_stub. Qed.
Lemma syscall5_eq `{Target} n a1 a2 a3 a4 a5 :
  syscall5 (AInt n) a1 a2 a3 a4 a5 = raw_call n [a1; a2; a3; a4; a5].
Proof. unfold syscall5, x86_syscall5, a64_syscall5. destruct arch; solve_stub. Qed.
Lemma syscall6_eq `{Target} n a1 a2 a3 a4 a5 a6 :
  syscall6 (AInt n) a1 a2 a3 a4 a5 a6 = raw_call n [a1; a2; a3; a4; a5; a6].
Proof. unfold syscall6, x86_syscall6, a64_syscall6. destruct arch; solve_stub. Qed.

Create Rewrite HintDb syscalls.
#[export] Hint Rewrite @syscall0_eq @syscall1_eq @syscall2_eq @syscall3_eq @syscall4_eq
  @syscall5_eq @syscall6_eq : syscalls.

(** ** Raw errors never escape *)

Definition errno_in_range (e : Errno) : Prop := 1 <= code e <= 4095.

Lemma as_isize_cases ret :
  is_u64 ret ->
  (ret < 2 ^ 63 /\ as_isize ret = ret) \/ (2 ^ 63 <= ret /\ as_isize ret = ret - 2 ^ 64).
Proof.
  intros H. unfold as_isize, swrap. rewrite Z.mod_small by (int_ranges; lia).
  change (64 - 1) with 63. destruct (Z.ltb_spec ret (2 ^ 63)); auto with lia.
Qed.

Lemma from_ret_err ret e :
  is_u64 ret -> from_ret ret = Err e <-> errno_in_range e /\ ret = 2 ^ 64 - code e.
Proof.
  intros Hr. unfold from_ret, ERRNO_MAX, errno_in_range.
  destruct (as_isize_cases ret Hr) as [[? ->]|[? ->]];
    destruct e as [c]; simpl; int_ranges;
    destruct (Z.leb_spec (- (4095)) ret); destruct (Z.leb_spec (- (4095)) (ret - 2 ^ 64));
    destruct (Z.ltb_spec ret 0); destruct (Z.ltb_spec (ret - 2 ^ 64) 0); simpl; split;
    try (intros [??]; lia); try discriminate; try lia.
  - intros [= <-]. unfold as_i32. rewrite swrap_small by lia. lia.
  - intros [? ->]. do 2 f_equal. unfold as_i32. rewrite swrap_small by lia. lia.
Qed.

Lemma from_ret_err_range ret e : is_u64 ret -> from_ret ret = Err e -> errno_in_range e.
Proof. intros Hr H. by apply from_ret_err in H as [? _]. Qed.

Lemma from_ret_ok ret v :
  is_u64 ret -> from_ret ret = Ok v <-> v = ret /\ ret <= 2 ^ 64 - 4096.
Proof.
  intros Hr. destruct (from_ret ret) as [w|e] eqn:E.
  - assert (w = ret) as ->.
    { unfold from_ret in E. by destruct (_ && _); [|injection E]. }
    split; [intros [= <-]; split; [done|]|intros [-> _]; done].
    destruct (decide (ret <= 2 ^ 64 - 4096)); [done|exfalso].
    assert (from_ret ret = Err (mkErrno (2 ^ 64 - ret))) as E'; [|congruence].
    apply from_ret_err; [done|]. unfold errno_in_range; simpl. int_ranges; lia.
  - split; [done|]. intros [-> ?].
    apply from_ret_err in E as [[??] ->]; [|done]. lia.
Qed.

(** A count or a descriptor comes back as it is. *)
Lemma from_ret_nat z : 0 <= z < 2 ^ 63 -> from_ret (as_u64 z) = Ok z.
Proof. intros. unfold as_u64. rewrite wrap_small by lia. apply from_ret_ok; int_ranges; lia. Qed.

Lemma from_ret_i32_fd z : 0 <= z < 2 ^ 31 -> from_ret_i32 (as_u64 z) = Ok z.
Proof.
  intros. unfold from_ret_i32. rewrite from_ret_nat by lia. cbn [map_ok].
  unfold as_i32. by rewrite swrap_small by lia.
Qed.

(** A failure comes back as its error. *)
Lemma from_ret_fail e : errno_in_range e -> from_ret (as_u64 (- code e)) = Err e.
Proof.
  unfold errno_in_range. intros He. assert (as_u64 (- code e) = 2 ^ 64 - code e) as ->.
  { unfold as_u64, wrap. rewrite <- (Z.mod_add (- code e) 1) by lia. rewrite Z.mod_small; lia. }
  apply from_ret_err; [int_ranges; lia|]. by unfold errno_in_range.
Qed.

(** Decide the comparisons of call numbers in a goal. *)
Ltac nr_case :=
  repeat match goal with
  | |- context [nrz ?a =? nrz ?b] =>
      first [ rewrite (Z.eqb_refl (nrz a))
            | replace (nrz a =? nrz b) with false
                by (unfold nrz, nr_table; destruct arch eqn:?; reflexivity || congruence) ]
  end.

(** ** Properties *)

Lemma all_sysno_complete s : s ∈ all_sysno.
Proof. by destruct s; apply (bool_decide_eq_true_1 _); vm_compute. Qed.

(** No number appears twice in the list of a table. *)
Lemma nr_table_nodup a : NoDup (omap (nr_table a) all_sysno).
Proof. destruct a; apply (bool_decide_eq_true_1 _); vm_compute; reflexivity. Qed.

Lemma omap_inj {A B} (f : A -> option B) l x y b :
  NoDup (omap f l) -> x ∈ l -> y ∈ l -> f x = Some b -> f y = Some b -> x = y.
Proof.
  induction l as [|a l IH]; intros Hnd Hx Hy Ex Ey; [by apply elem_of_nil in Hx|].
  assert (forall z, z ∈ l -> f z = Some b -> b ∈ omap f l) as Hin
    by (intros z ? ?; apply list_elem_of_omap; eauto).
  cbn [omap list_omap] in Hnd. apply elem_of_cons in Hx as [->|Hx], Hy as [->|Hy]; try done.
  - rewrite Ex in Hnd. apply NoDup_cons in Hnd as [Hb _]. exfalso. eauto.
  - rewrite Ey in Hnd. apply NoDup_cons in Hnd as [Hb _]. exfalso. eauto.
  - apply IH; try done. destruct (f a); [by apply NoDup_cons in Hnd as [_ ?]|done].
Qed.

(** In each of the two number tables no two names share a number, so a
    wrapper can only make the call it names; and every number fits the register. *)
Theorem nr_table_injective a s t n :
  nr_table a s = Some n -> nr_table a t = Some n -> s = t /\ 0 <= n < 2 ^ 32.
Proof.
  intros Hs Ht. split.
  - apply (omap_inj (nr_table a) all_sysno s t n); auto using nr_table_nodup, all_sysno_complete.
  - assert (forallb (fun s => match nr_table a s with Some n => (0 <=? n) && (n <? 2 ^ 32) | None => true end)
      all_sysno = true) as E by (by destruct a).
    rewrite forallb_forall in E. specialize (E s ltac:(apply list_elem_of_In, all_sysno_complete)).
    rewrite Hs in E. lia.
Qed.

Lemma nr_table_injective_witness : DUP3 = DUP3 /\ 0 <= 24 < 2 ^ 32.
Proof. apply (nr_table_injective Aarch64 DUP3 DUP3 24); reflexivity. Defined.

(** [from_ret] splits the raw result register exactly at the kernel's error
    window: [-4095..=-1] becomes the positive error number, everything else,
    including addresses that look negative, is the value itself. *)
Theorem from_ret_window ret :
  is_u64 ret ->
  from_ret ret = (if 2 ^ 64 - 4095 <=? ret then Err (mkErrno (2 ^ 64 - ret)) else Ok ret).
Proof.
  intros Hr. destruct (Z.leb_spec (2 ^ 64 - 4095) ret).
  - apply from_ret_err; [done|]. unfold errno_in_range. simpl. int_ranges. lia.
  - apply from_ret_ok; [done|]. lia.
Qed.

Lemma from_ret_window_witness :
  from_ret (2 ^ 64 - 2) = Err ENOENT /\ from_ret (2 ^ 64 - 4096) = Ok (2 ^ 64 - 4096).
Proof.
  split.
  - rewrite (from_ret_window (2 ^ 64 - 2)); [reflexivity|int_ranges; lia].
  - rewrite (from_ret_window (2 ^ 64 - 4096)); [reflexivity|int_ranges; lia].
Defined.

(** [Errno::name] names every constant of the type by its own identifier
    ([EWOULDBLOCK], an alias, by [EAGAIN]), and nothing else. *)
Theorem errno_name_correct :
  (forall e n, In (e, n) named_constants -> n <> "EWOULDBLOCK"%string -> errno_name e = Some n) /\
  errno_name EWOULDBLOCK = Some "EAGAIN"%string /\
  (forall e n, errno_name e = Some n -> In (e, n) named_constants).
Proof.
  split_and!; [|done|].
  - assert (forallb (fun '(e, n) => bool_decide (n = "EWOULDBLOCK"%string) ||
      bool_decide (errno_name e = Some n)) named_constants = true) as E by reflexivity.
    rewrite forallb_forall in E. intros e n Hin Hn. specialize (E _ Hin). simpl in E.
    apply orb_prop in E as [E%bool_decide_eq_true_1|E%bool_decide_eq_true_1]; done.
  - intros [c] n. unfold errno_name, code. intros Hc.
    destruct c as [|p|p]; try discriminate.
    repeat (match goal with q : positive |- _ => destruct q; try discriminate Hc end);
      injection Hc as <-; apply list_elem_of_In, (bool_decide_eq_true_1 _); vm_compute; reflexivity.
Qed.
