(* ===== verification/Trampoline.v ===== *)
(** The spawn trampolines ([vfork_execve], [vfork_execve_redirected] in
    [src/arch/x86_64.rs] and [src/arch/aarch64.rs]): the [asm!] blocks,
    instruction by instruction, and what the parent and the child each do.

    [clone] returns in both processes.  Both runs are runs of the same program:
    the child's is the one whose [clone] answers 0. *)

From stdpp Require Import base list option numbers.
From Stdlib Require Import ZArith Lia.
From S2P Require Import Prelude Prog Layout Asm Arch.

#[local] Obligation Tactic := solve_kstruct.

(** [process::Redirect]: a [dup2] the child makes before [execve]. *)
Record Redirect := mkRedirect {
  oldfd : Z; newfd : Z }.

#[export] Program Instance Redirect_kstruct : KStruct Redirect := {
  ks_packed := false;
  ks_fields := [i32; i32];
  ks_vals p :=
    [VI (oldfd p); VI (newfd p)];
  ks_of vs :=
    mkRedirect (vi vs 0) (vi vs 1) }.

(** How many argument registers the kernel reads, for the calls the blocks
    make. *)
Definition sys_arity `{Target} (n : Z) : nat :=
  if n =? nrz CLONE then 5
  else if n =? nrz EXECVE then 3
  else if n =? nrz EXIT_GROUP then 1
  else if n =? nrz DUP2 then 2
  else if n =? nrz DUP3 then 3
  else 6.

Section Blocks.
Context `{Target}.

Definition x86_vfork_execve_code : list xinstr :=
  [ XSyscall;                       (* clone(flags, stack = 0, 0, 0, 0) *)
    XTest RAX;
    XJcc NE (Fwd 2);                (* parent *)
    XMov RDI R12;
    XMov RSI R13;
    XMov RDX R14;
    XMovI RAX (nrz EXECVE);
    XSyscall;                       (* execve(path, argv, envp) *)
    XMovI RAX (nrz EXIT_GROUP);
    XMovI RDI 127;
    XSyscall;                       (* exit_group(127) *)
    XUd2;
    XLabel 2 ].

Definition x86_vfork_execve_redirected_code : list xinstr :=
  [ XSyscall;                       (* clone(flags, stack = 0, 0, 0, 0) *)
    XTest RAX;
    XJcc NE (Fwd 3);                (* parent *)
    XTest R9;
    XJcc EQ (Fwd 2);                (* no redirects *)
    XXor RCX;                       (* i = 0 *)
    XLabel 8;
    XMovsxd RDI R15 RCX 0;
    XMovsxd RSI R15 RCX 4;
    XCmp RDI RSI;
    XJcc EQ (Fwd 6);                (* oldfd == newfd: skip *)
    XMovI RAX (nrz DUP2);
    XSyscall;
    XTest RAX;
    XJcc SG (Fwd 4);                (* dup2 failed *)
    XLabel 6;
    XInc RCX;
    XCmp RCX R9;
    XJcc BL (Bwd 8);
    XLabel 2;
    XMov RDI R12;
    XMov RSI R13;
    XMov RDX R14;
    XMovI RAX (nrz EXECVE);
    XSyscall;                       (* execve(path, argv, envp) *)
    XMovI RAX (nrz EXIT_GROUP);
    XMovI RDI 127;
    XSyscall;                       (* exit_group(127) *)
    XUd2;
    XLabel 4;
    XMovI RAX (nrz EXIT_GROUP);
    XMovI RDI 126;
    XSyscall;                       (* exit_group(126) *)
    XUd2;
    XLabel 3 ].

Definition a64_vfork_execve_code : list ainstr :=
  [ ASvc;                           (* clone(flags, stack = 0, 0, 0, 0) *)
    ACbnz 0 (Fwd 2);                (* parent *)
    AMov 0 9;
    AMov 1 10;
    AMov 2 11;
    AMovI 8 (nrz EXECVE);
    ASvc;                           (* execve(path, argv, envp) *)
    AMovI 8 (nrz EXIT_GROUP);
    AMovI 0 127;
    ASvc;                           (* exit_group(127) *)
    ABrk;
    ALabel 2 ]%nat.

Definition a64_vfork_execve_redirected_code : list ainstr :=
  [ ASvc;                           (* clone(flags, stack = 0, 0, 0, 0) *)
    ACbnz 0 (Fwd 3);                (* parent *)
    ACbz 13 (Fwd 2);                (* no redirects *)
    AMovI 14 0;                     (* i = 0 *)
    ALabel 1;
    AAddLsl 15 12 14 3;             (* x15 = &redirects[i] *)
    ALdrW 0 15 0;                   (* oldfd *)
    ALdrW 1 15 4;                   (* newfd *)
    ACmpW 0 1;
    ABeq (Fwd 6);                   (* oldfd == newfd: skip *)
    AMovI 8 (nrz DUP3);
    AMovI 2 0;                      (* flags = 0 *)
    ASvc;
    ACmpI 0 0;
    ABlt (Fwd 4);                   (* dup3 failed *)
    ALabel 6;
    AAddI 14 14 1;
    ACmpX 14 13;
    ABlt (Bwd 1);
    ALabel 2;
    AMov 0 9;
    AMov 1 10;
    AMov 2 11;
    AMovI 8 (nrz EXECVE);
    ASvc;                           (* execve(path, argv, envp) *)
    AMovI 8 (nrz EXIT_GROUP);
    AMovI 0 127;
    ASvc;                           (* exit_group(127) *)
    ABrk;
    ALabel 4;
    AMovI 8 (nrz EXIT_GROUP);
    AMovI 0 126;
    ASvc;                           (* exit_group(126) *)
    ABrk;
    ALabel 3 ]%nat.
End Blocks.

Section Trampoline.
(** [text i]: the address of the [i]-th instruction of the block. *)
Context `{Target} (text : nat -> Z).

Definition x86_vfork_execve (flags path argv envp : Arg) : Prog Reply :=
  xexec text sys_arity 20 x86_vfork_execve_code 0
    (x_inputs [(RAX, nr CLONE); (RDI, flags); (RSI, int 0); (RDX, int 0); (R10, int 0);
               (R8, int 0); (R12, path); (R13, argv); (R14, envp)]).

(** Fuel: at most 13 instructions per redirect, and 40 around the loop. *)
Definition x86_vfork_execve_redirected (flags path argv envp : Arg)
    (redirects : list Redirect) : Prog Reply :=
  xexec text sys_arity (40 + 13 * length redirects) x86_vfork_execve_redirected_code 0
    (x_inputs [(RAX, nr CLONE); (RDI, flags); (RSI, int 0); (RDX, int 0); (R10, int 0);
               (R8, int 0); (R12, path); (R13, argv); (R14, envp);
               (R15, ARef (encode_all redirects)); (R9, len redirects)]).

Definition a64_vfork_execve (flags path argv envp : Arg) : Prog Reply :=
  aexec sys_arity 20 a64_vfork_execve_code 0
    (a_inputs [(8, nr CLONE); (0, flags); (1, int 0); (2, int 0); (3, int 0); (4, int 0);
               (9, path); (10, argv); (11, envp)]%nat).

(** Fuel: at most 15 instructions per redirect, and 40 around the loop. *)
Definition a64_vfork_execve_redirected (flags path argv envp : Arg)
    (redirects : list Redirect) : Prog Reply :=
  aexec sys_arity (40 + 15 * length redirects) a64_vfork_execve_redirected_code 0
    (a_inputs [(8, nr CLONE); (0, flags); (1, int 0); (2, int 0); (3, int 0); (4, int 0);
               (9, path); (10, argv); (11, envp);
               (12, ARef (encode_all redirects)); (13, len redirects)]%nat).

Definition vfork_execve (flags path argv envp : Arg) : Prog Reply :=
  match arch with
  | X86_64 => x86_vfork_execve flags path argv envp
  | Aarch64 => a64_vfork_execve flags path argv envp
  end.

Definition vfork_execve_redirected (flags path argv envp : Arg)
    (redirects : list Redirect) : Prog Reply :=
  match arch with
  | X86_64 => x86_vfork_execve_redirected flags path argv envp redirects
  | Aarch64 => a64_vfork_execve_redirected flags path argv envp redirects
  end.
End Trampoline.

(** ** What the trampolines promise

    The contract of the doc comments: the parent gets [clone]'s result; the
    child applies the redirects in order, skipping those that name one
    descriptor twice, exits 126 at the first that fails, and then executes the
    program, or exits 127.  [dup] is the call a redirect becomes. *)
Section Contract.
Context `{Target}.

Definition exit_with (status : Z) : Prog Reply :=
  Sys (Syscall (nrz EXIT_GROUP) [AInt status]) (fun _ => Panic).

Definition exec_or_exit (path argv envp : Arg) : Prog Reply :=
  Sys (Syscall (nrz EXECVE) [path; argv; envp]) (fun _ => exit_with 127).

Fixpoint apply_redirects (dup : Redirect -> Call) (rs : list Redirect) (k : Prog Reply) :
    Prog Reply :=
  match rs with
  | [] => k
  | r :: rs =>
      if oldfd r =? newfd r then apply_redirects dup rs k
      else Sys (dup r) (fun reply =>
        if as_isize (r_ret reply) <? 0 then exit_with 126 else apply_redirects dup rs k)
  end.

Definition spawn_spec (dup : Redirect -> Call) (flags path argv envp : Arg)
    (rs : list Redirect) : Prog Reply :=
  Sys (Syscall (nrz CLONE) [flags; AInt 0; AInt 0; AInt 0; AInt 0]) (fun reply =>
    if r_ret reply =? 0 then apply_redirects dup rs (exec_or_exit path argv envp)
    else Ret (mkReply (r_ret reply) (r_outs reply))).

Definition x86_dup (r : Redirect) : Call :=
  Syscall (nrz DUP2) [AInt (as_u64 (oldfd r)); AInt (as_u64 (newfd r))].
Definition a64_dup (r : Redirect) : Call :=
  Syscall (nrz DUP3) [AInt (as_u32 (oldfd r)); AInt (as_u32 (newfd r)); AInt 0].

Definition effective (r : Redirect) : bool := negb (oldfd r =? newfd r).

(** The redirects up to and including the first that needs a call. *)
Fixpoint through_first_effective (rs : list Redirect) : list Redirect :=
  match rs with
  | [] => []
  | r :: rs => if effective r then [r] else r :: through_first_effective rs
  end.
End Contract.

(** ** Stepping through a block *)

Lemma sign64_spec z : sign64 z = (as_isize z <? 0).
Proof.
  unfold sign64, as_isize, swrap, wrap. change (64 - 1) with 63.
  pose proof (Z.mod_pos_bound z (2 ^ 64) ltac:(lia)).
  destruct (Z.ltb_spec (z mod 2 ^ 64) (2 ^ 63)), (Z.leb_spec (2 ^ 63) (z mod 2 ^ 64)); lia.
Qed.

Lemma u32_eq_i32 a b : is_i32 a -> is_i32 b -> (as_u32 a =? as_u32 b) = (a =? b).
Proof.
  intros Ha Hb. destruct (Z.eqb_spec a b) as [->|Hn]; [apply Z.eqb_refl|].
  apply Z.eqb_neq. intros E. apply Hn.
  rewrite <- (swrap_small 32 a), <- (swrap_small 32 b) by (int_ranges; lia).
  rewrite <- (swrap_of_wrap 32 32 a), <- (swrap_of_wrap 32 32 b) by lia.
  unfold as_u32 in E. by rewrite E.
Qed.

Lemma u64_eq_i32 a b : is_i32 a -> is_i32 b -> (as_u64 a =? as_u64 b) = (a =? b).
Proof.
  intros Ha Hb. destruct (Z.eqb_spec a b) as [->|Hn]; [apply Z.eqb_refl|].
  apply Z.eqb_neq. intros E. apply Hn.
  rewrite <- (swrap_small 32 a), <- (swrap_small 32 b) by (int_ranges; lia).
  rewrite <- (swrap_of_wrap 32 64 a), <- (swrap_of_wrap 32 64 b) by lia.
  unfold as_u64 in E. by rewrite E.
Qed.

Lemma as_u32_idem z : as_u32 (as_u32 z) = as_u32 z.
Proof. apply (wrap_wrap 32). lia. Qed.

Lemma redirect_i32 r : well_typed r -> is_i32 (oldfd r) /\ is_i32 (newfd r).
Proof.
  destruct r as [o n]. intros H. inversion H as [|? ? ? ? Ho H']; subst.
  inversion H' as [|? ? ? ? Hn _]; subst. simpl in *. int_ranges. lia.
Qed.

(** The fields of the [i]-th redirect, as the blocks load them. *)
Lemma load_redirect rs i r disp v :
  Forall well_typed rs -> rs !! i = Some r ->
  disp = 0 /\ v = oldfd r \/ disp = 4 /\ v = newfd r ->
  load32 (VPtr (ARef (encode_all rs)) (8 * Z.of_nat i)) disp = Some (as_u32 v).
Proof.
  intros Hw Hi Hv.
  pose proof (encode_all_length rs Hw) as Hlen. change (size_of Redirect) with 8%nat in Hlen.
  pose proof (lookup_lt_Some _ _ _ Hi) as Hlt.
  assert (well_typed r) as Hr by (eapply Forall_lookup_1; eauto).
  unfold load32. rewrite Hlen.
  replace ((0 <=? 8 * Z.of_nat i + disp) &&
           (8 * Z.of_nat i + disp + 4 <=? Z.of_nat (8 * length rs))) with true
    by (symmetry; apply andb_true_intro; split; apply Z.leb_le; lia).
  f_equal.
  rewrite <- (take_drop_middle rs i r Hi). unfold encode_all.
  rewrite map_app, concat_app. cbn [map concat].
  assert (length (concat (map encode (take i rs))) = 8 * i)%nat as Hpre.
  { fold (encode_all (take i rs)). rewrite encode_all_length by (by apply Forall_take).
    change (size_of Redirect) with 8%nat. rewrite length_take. lia. }
  rewrite slice_app_r by lia. rewrite Hpre.
  assert (encode r = le_enc 4 (oldfd r) ++ le_enc 4 (newfd r)) as -> by (by destruct r).
  assert (as_u32 v = le_dec (le_enc 4 v)) as -> by (by rewrite le_dec_enc).
  destruct Hv as [[-> ->]|[-> ->]]; rewrite <- app_assoc.
  - replace (Z.to_nat (8 * Z.of_nat i + 0) - 8 * i)%nat with 0%nat by lia. done.
  - replace (Z.to_nat (8 * Z.of_nat i + 4) - 8 * i)%nat with 4%nat by lia. done.
Qed.

(** [movsxd] of a loaded field gives back the sign-extended [i32]. *)
Lemma as_i32_of_u32 z : is_i32 z -> as_u64 (as_i32 (as_u32 z)) = as_u64 z.
Proof.
  intros Hz. unfold as_i32, as_u32. rewrite swrap_of_wrap by lia.
  by rewrite swrap_small by (int_ranges; lia).
Qed.

Lemma load_redirect_x rs i r disp v :
  Forall well_typed rs -> rs !! i = Some r ->
  disp = 0 /\ v = oldfd r \/ disp = 4 /\ v = newfd r ->
  load32 (VPtr (ARef (encode_all rs)) 0) (8 * Z.of_nat i + disp) = Some (as_u32 v).
Proof.
  intros Hw Hi Hv. rewrite <- (load_redirect rs i r disp v Hw Hi Hv).
  unfold load32. by rewrite Z.add_0_l.
Qed.

Lemma apply_through `{Target} dup r rs k :
  apply_redirects dup (through_first_effective (r :: rs)) k =
  if oldfd r =? newfd r then apply_redirects dup (through_first_effective rs) k
  else Sys (dup r) (fun reply => if as_isize (r_ret reply) <? 0 then exit_with 126 else k).
Proof.
  simpl. unfold effective. destruct (oldfd r =? newfd r) eqn:E; simpl; by rewrite E.
Qed.

(** Registers and flags after the state changes of an instruction. *)
Lemma a_get_eq r v s : a_regs (aset r v s) r = v.
Proof. simpl. by rewrite decide_True. Qed.
Lemma a_get_ne r r' v s : r' <> r -> a_regs (aset r v s) r' = a_regs s r'.
Proof. intros. simpl. by rewrite decide_False. Qed.
Lemma a_get_wrote o s r : a_regs (awrote o s) r = a_regs s r.
Proof. done. Qed.
Lemma a_get_cmp w x y s r : a_regs (acmp w x y s) r = a_regs s r.
Proof. done. Qed.
Lemma x_get_eq r v s : x_regs (xset r v s) r = v.
Proof. simpl. by rewrite decide_True. Qed.
Lemma x_get_ne r r' v s : r' <> r -> x_regs (xset r v s) r' = x_regs s r'.
Proof. intros. simpl. by rewrite decide_False. Qed.
Lemma x_get_wrote o s r : x_regs (xwrote o s) r = x_regs s r.
Proof. done. Qed.
Lemma x_get_flags z sf c s r : x_regs (xflags z sf c s) r = x_regs s r.
Proof. done. Qed.

Ltac regs :=
  unfold x_sysret, a_sysret in *; cbn [map] in *;
  repeat first
    [ rewrite a_get_wrote | rewrite a_get_cmp | rewrite a_get_eq
    | rewrite a_get_ne by discriminate
    | rewrite x_get_wrote | rewrite x_get_flags | rewrite x_get_eq
    | rewrite x_get_ne by discriminate
    | match goal with H : a_regs ?s _ = Some _ |- context [a_regs ?s _] => rewrite H end
    | match goal with H : x_regs ?s _ = Some _ |- context [x_regs ?s _] => rewrite H end ].

(** One instruction: it spends a unit of fuel. *)
Ltac step :=
  match goal with
  | |- context [aexec _ ?f _ _ _] => is_var f; destruct f as [|f]; [lia|]
  | |- context [xexec _ _ ?f _ _ _] => is_var f; destruct f as [|f]; [lia|]
  end;
  cbn [aexec xexec nth_error a64_vfork_execve_code a64_vfork_execve_redirected_code
    x86_vfork_execve_code x86_vfork_execve_redirected_code];
  regs; cbn [as_int]; cbv beta iota zeta.

Ltac jump :=
  match goal with
  | |- context [resolve ?p ?code ?pc ?l] =>
      let r := eval vm_compute in (resolve p code pc l) in
      change (resolve p code pc l) with r; cbv iota
  end.

(** The call a system-call instruction makes. *)
Ltac call :=
  unfold a_call, x_call, trap; regs; cbn [as_int];
  repeat match goal with
  | |- context [sys_arity ?n] =>
      let k := eval vm_compute in (sys_arity n) in change (sys_arity n) with k
  end;
  cbn [firstn bound_args]; rewrite ?to_arg_of_arg; cbn [to_arg]; cbv beta iota;
  let reply := fresh "reply" in apply Sys_proper; intros reply; cbv beta.

(** The operands a block starts with. *)
Ltac inputs :=
  cbn [a_inputs x_inputs]; change (int 0) with (AInt 0); unfold len;
  repeat match goal with
  | |- context [of_arg (AInt ?n)] => change (of_arg (AInt n)) with (VInt n)
  end.

Section OnAarch64.
#[local] Instance aarch64_target : Target := Aarch64.

Section A64.
Context (path argv envp : Arg) (rs : list Redirect).
Context (Hrs : Forall well_typed rs) (Hlen : Z.of_nat (length rs) < 2 ^ 60).

Record a_inv (s : astate) : Prop := {
  ai9 : a_regs s 9%nat = Some (of_arg path);
  ai10 : a_regs s 10%nat = Some (of_arg argv);
  ai11 : a_regs s 11%nat = Some (of_arg envp);
  ai12 : a_regs s 12%nat = Some (VPtr (ARef (encode_all rs)) 0);
  ai13 : a_regs s 13%nat = Some (VInt (Z.of_nat (length rs)))}.

Lemma a64_exec f s :
  (f >= 15)%nat -> a_inv s ->
  prog_equiv (aexec sys_arity f a64_vfork_execve_redirected_code 19 s)
    (exec_or_exit path argv envp).
Proof.
  intros Hf [H9 H10 H11 _ _]. do 6 step. call. do 3 step. call. by step.
Qed.

Lemma a64_exit126 f s :
  (f >= 15)%nat ->
  prog_equiv (aexec sys_arity f a64_vfork_execve_redirected_code 29 s) (exit_with 126).
Proof. intros Hf. do 4 step. call. by step. Qed.

(** From the loop's increment: the next redirect, or [execve]. *)
Lemma a64_next i f s (next : Prog Reply) :
  (i < length rs)%nat -> (f >= 35)%nat -> a_inv s ->
  a_regs s 14%nat = Some (VInt (Z.of_nat i)) ->
  (S i = length rs -> prog_equiv (exec_or_exit path argv envp) next) ->
  (forall s', (S i < length rs)%nat -> a_inv s' ->
     a_regs s' 14%nat = Some (VInt (Z.of_nat (S i))) ->
     prog_equiv (aexec sys_arity (f - 4) a64_vfork_execve_redirected_code 4 s') next) ->
  prog_equiv (aexec sys_arity f a64_vfork_execve_redirected_code 15 s) next.
Proof.
  intros Hi Hf [H9 H10 H11 H12 H13] H14 Hend Hnext.
  do 2 step. cbn [ptr_add].
  assert (as_u64 (Z.of_nat i + 1) = Z.of_nat (S i)) as ->.
  { unfold as_u64. rewrite wrap_small; lia. }
  do 2 step. cbn [a_lt acmp].
  rewrite !swrap_small by lia. destruct (Z.ltb_spec (Z.of_nat (S i)) (Z.of_nat (length rs))).
  - jump. simpl in Hnext. rewrite Nat.sub_0_r in Hnext.
    apply Hnext; [lia|constructor; by regs|by regs].
  - rewrite a64_exec; [|lia|constructor; by regs]. apply Hend. lia.
Qed.

(** From the head of the loop to its increment. *)
Lemma a64_body i r f s (next : Prog Reply) :
  rs !! i = Some r -> (f >= 35)%nat -> a_inv s ->
  a_regs s 14%nat = Some (VInt (Z.of_nat i)) ->
  (forall f' s', (f <= f' + 11)%nat -> a_inv s' ->
     a_regs s' 14%nat = Some (VInt (Z.of_nat i)) ->
     prog_equiv (aexec sys_arity f' a64_vfork_execve_redirected_code 15 s') next) ->
  prog_equiv (aexec sys_arity f a64_vfork_execve_redirected_code 4 s)
    (if oldfd r =? newfd r then next
     else Sys (a64_dup r) (fun reply =>
       if as_isize (r_ret reply) <? 0 then exit_with 126 else next)).
Proof.
  intros Hr Hf Hs H14 Hnext. pose proof Hs as [H9 H10 H11 H12 H13].
  assert (well_typed r) as Hwr by (eapply Forall_lookup_1; eauto).
  destruct (redirect_i32 r Hwr) as [Ho Hn].
  do 2 step. cbn [ptr_add].
  replace (0 + Z.of_nat i * 2 ^ 3) with (8 * Z.of_nat i) by lia.
  step. rewrite (load_redirect rs i r 0 (oldfd r)) by auto; cbv iota.
  step. rewrite (load_redirect rs i r 4 (newfd r)) by auto; cbv iota.
  do 2 step. cbn [a_eq acmp].
  change (wrap 32) with as_u32. rewrite !as_u32_idem, u32_eq_i32 by done.
  destruct (oldfd r =? newfd r).
  - jump. apply Hnext; [lia|constructor; by regs|by regs].
  - do 3 step. call. do 2 step. cbn [a_lt acmp].
    change (swrap 64 (r_ret reply)) with (as_isize (r_ret reply)).
    change (swrap 64 0) with 0. destruct (as_isize (r_ret reply) <? 0).
    + jump. apply a64_exit126. lia.
    + apply Hnext; [lia|constructor; by regs|by regs].
Qed.

Lemma a64_rest n i f s :
  (i + S n = length rs)%nat -> (f >= 15 * n + 35)%nat -> a_inv s ->
  a_regs s 14%nat = Some (VInt (Z.of_nat i)) ->
  prog_equiv (aexec sys_arity f a64_vfork_execve_redirected_code 15 s)
    (apply_redirects a64_dup (drop (S i) rs) (exec_or_exit path argv envp)).
Proof.
  revert i f s. induction n as [|n IH]; intros i f s Hi Hf Hs H14.
  - eapply a64_next; try done; try lia. intros _. by rewrite drop_ge by lia.
  - eapply a64_next; try done; try lia. intros s' _ Hs' H14'.
    destruct (lookup_lt_is_Some_2 rs (S i) ltac:(lia)) as [r Hr].
    rewrite (drop_S _ _ _ Hr). cbn [apply_redirects].
    apply (a64_body (S i)); [done|lia|done|done|]. intros f' s'' Hf' Hs'' H14''.
    apply IH; [lia|lia|done|done].
Qed.
End A64.

Lemma a64_vfork_execve_spec text flags path argv envp dup :
  prog_equiv (vfork_execve text flags path argv envp)
    (spawn_spec dup flags path argv envp []).
Proof.
  unfold vfork_execve, a64_vfork_execve, spawn_spec. cbn [arch apply_redirects].
  change arch with Aarch64. cbv iota. remember 20%nat as f eqn:Hf. inputs.
  step. call. step. destruct (r_ret reply =? 0).
  - do 5 step. call. do 3 step. call. by step.
  - jump. by do 2 step.
Qed.

Lemma a64_redirected_spec flags path argv envp (rs : list Redirect) :
  Forall well_typed rs -> Z.of_nat (length rs) < 2 ^ 60 ->
  prog_equiv (a64_vfork_execve_redirected flags path argv envp rs)
    (spawn_spec a64_dup flags path argv envp rs).
Proof.
  intros Hrs Hlen. unfold a64_vfork_execve_redirected, spawn_spec.
  remember (40 + 15 * length rs)%nat as f eqn:Hf. inputs. step. call. step. destruct (r_ret reply =? 0).
  - destruct rs as [|r rs'] eqn:E.
    + step. cbn [length Z.of_nat Z.eqb]. jump.
      apply (a64_exec path argv envp []); [lia|constructor; by regs].
    + step. destruct (Z.eqb_spec (Z.of_nat (length (r :: rs'))) 0); [done|]. step.
      rewrite <- E in *. assert (rs !! 0%nat = Some r) as Hr by (by subst).
      change (apply_redirects a64_dup rs) with (apply_redirects a64_dup (drop 0 rs)).
      rewrite (drop_S _ _ _ Hr). cbn [apply_redirects].
      apply (a64_body path argv envp rs Hrs 0%nat); [done|lia|constructor; by regs|by regs|].
      intros f' s' Hf' Hs' H14'. apply (a64_rest path argv envp rs Hrs Hlen (length rs'));
        [by subst|subst; simpl in *; lia|done|done].
  - jump. by do 2 step.
Qed.

(** On aarch64 [vfork_execve_redirected] is exactly its contract, for every
    kernel and every list of redirects: same calls, same outcome, in the parent
    and in the child. *)
Theorem a64_vfork_execve_redirected_correct flags path argv envp (rs : list Redirect) :
  Forall well_typed rs -> Z.of_nat (length rs) < 2 ^ 60 ->
  prog_equiv (a64_vfork_execve_redirected flags path argv envp rs)
    (spawn_spec a64_dup flags path argv envp rs).
Proof. apply a64_redirected_spec. Qed.

Lemma a64_vfork_execve_redirected_correct_witness :
  let rs := [mkRedirect 5 1; mkRedirect 4 4; mkRedirect 6 2] in
  Forall well_typed rs /\
  prog_equiv (a64_vfork_execve_redirected (AInt 0x4100) null null null rs)
    (spawn_spec a64_dup (AInt 0x4100) null null null rs).
Proof.
  intros rs. assert (Forall well_typed rs) as Hw by
    (repeat constructor; vm_compute; intuition congruence).
  split; [exact Hw|].
  apply (a64_vfork_execve_redirected_correct (AInt 0x4100) null null null rs Hw).
  vm_compute; congruence.
Defined.
End OnAarch64.

Section OnX86.
#[local] Instance x86_64_target : Target := X86_64.

Section X86.
Context (text : nat -> Z) (path argv envp : Arg) (rs : list Redirect).
Context (Hrs : Forall well_typed rs) (Hlen : Z.of_nat (length rs) < 2 ^ 60).
Context (Htext : Z.of_nat (length rs) <= text 13%nat < 2 ^ 64 - 1).

Record x_inv (s : xstate) : Prop := {
  xi12 : x_regs s R12 = Some (of_arg path);
  xi13 : x_regs s R13 = Some (of_arg argv);
  xi14 : x_regs s R14 = Some (of_arg envp);
  xi15 : x_regs s R15 = Some (VPtr (ARef (encode_all rs)) 0);
  xi9 : x_regs s R9 = Some (VInt (Z.of_nat (length rs)))}.

Lemma x86_exec f s :
  (f >= 15)%nat -> x_inv s ->
  prog_equiv (xexec text sys_arity f x86_vfork_execve_redirected_code 19 s)
    (exec_or_exit path argv envp).
Proof.
  intros Hf [H12 H13 H14 _ _]. do 6 step. call. do 3 step. call. by step.
Qed.

Lemma x86_exit126 f s :
  (f >= 15)%nat ->
  prog_equiv (xexec text sys_arity f x86_vfork_execve_redirected_code 29 s) (exit_with 126).
Proof. intros Hf. do 4 step. call. by step. Qed.

(** From the increment: [rcx] holds [c]. *)
Lemma x86_next c f s (next : Prog Reply) :
  0 <= c < 2 ^ 64 - 1 -> (f >= 30)%nat -> x_inv s -> x_regs s RCX = Some (VInt c) ->
  (Z.of_nat (length rs) <= c + 1 -> prog_equiv (exec_or_exit path argv envp) next) ->
  (forall s', c + 1 < Z.of_nat (length rs) -> x_inv s' ->
     x_regs s' RCX = Some (VInt (c + 1)) ->
     prog_equiv (xexec text sys_arity (f - 4) x86_vfork_execve_redirected_code 6 s') next) ->
  prog_equiv (xexec text sys_arity f x86_vfork_execve_redirected_code 15 s) next.
Proof.
  intros Hc Hf [H12 H13 H14 H15 H9] HC Hend Hnext.
  do 2 step. assert (as_u64 (c + 1) = c + 1) as -> by (apply wrap_small; lia).
  do 2 step. unfold xtaken. cbn [x_cf xflags].
  destruct (Z.ltb_spec (c + 1) (Z.of_nat (length rs))).
  - jump. simpl in Hnext. rewrite Nat.sub_0_r in Hnext.
    apply Hnext; [lia|constructor; by regs|by regs].
  - rewrite x86_exec; [|lia|constructor; by regs]. by apply Hend.
Qed.

(** From the head of the loop: a call leaves [rcx] past the end of the list. *)
Lemma x86_body i r f s (next : Prog Reply) :
  rs !! i = Some r -> (f >= 45)%nat -> x_inv s -> x_regs s RCX = Some (VInt (Z.of_nat i)) ->
  (forall f' s', (f <= f' + 5)%nat -> x_inv s' ->
     x_regs s' RCX = Some (VInt (Z.of_nat i)) -> oldfd r = newfd r ->
     prog_equiv (xexec text sys_arity f' x86_vfork_execve_redirected_code 15 s') next) ->
  prog_equiv (xexec text sys_arity f x86_vfork_execve_redirected_code 6 s)
    (if oldfd r =? newfd r then next
     else Sys (x86_dup r) (fun reply =>
       if as_isize (r_ret reply) <? 0 then exit_with 126 else exec_or_exit path argv envp)).
Proof.
  intros Hr Hf Hs HC Hnext. pose proof Hs as [H12 H13 H14 H15 H9].
  assert (well_typed r) as Hwr by (eapply Forall_lookup_1; eauto).
  destruct (redirect_i32 r Hwr) as [Ho Hn].
  step.
  step. rewrite (load_redirect_x rs i r 0 (oldfd r)) by auto; cbv iota.
  step. rewrite (load_redirect_x rs i r 4 (newfd r)) by auto; cbv iota.
  rewrite !as_i32_of_u32 by done.
  do 2 step. unfold xtaken. cbn [x_zf xflags].
  rewrite u64_eq_i32 by done.
  destruct (Z.eqb_spec (oldfd r) (newfd r)).
  - jump. apply Hnext; [lia|constructor; by regs|by regs|done].
  - do 2 step. call. do 2 step. unfold xtaken. cbn [x_sf xflags].
    rewrite sign64_spec. destruct (as_isize (r_ret reply) <? 0).
    + jump. apply x86_exit126. lia.
    + apply (x86_next (text 13%nat)); [lia|lia|constructor; by regs|by regs|done|lia].
Qed.

Lemma x86_rest n i f s :
  (i + S n = length rs)%nat -> (f >= 13 * n + 40)%nat -> x_inv s ->
  x_regs s RCX = Some (VInt (Z.of_nat i)) ->
  prog_equiv (xexec text sys_arity f x86_vfork_execve_redirected_code 15 s)
    (apply_redirects x86_dup (through_first_effective (drop (S i) rs))
       (exec_or_exit path argv envp)).
Proof.
  revert i f s. induction n as [|n IH]; intros i f s Hi Hf Hs HC.
  - apply (x86_next (Z.of_nat i)); [lia|lia|done|done| |lia]. intros _. by rewrite drop_ge by lia.
  - apply (x86_next (Z.of_nat i)); [lia|lia|done|done|lia|]. intros s' _ Hs' HC'.
    destruct (lookup_lt_is_Some_2 rs (S i) ltac:(lia)) as [r Hr].
    rewrite (drop_S _ _ _ Hr), apply_through.
    apply (x86_body (S i)); [done|lia|done|by rewrite HC'; repeat f_equal; lia|].
    intros f' s'' Hf' Hs'' HC'' _. apply IH; [lia|lia|done|done].
Qed.
End X86.

Lemma x86_vfork_execve_spec text flags path argv envp dup :
  prog_equiv (vfork_execve text flags path argv envp)
    (spawn_spec dup flags path argv envp []).
Proof.
  unfold vfork_execve, x86_vfork_execve, spawn_spec. cbn [apply_redirects].
  change arch with X86_64. cbv iota. remember 20%nat as f eqn:Hf. inputs.
  step. call. do 2 step. unfold xtaken; cbn [x_zf xflags].
  destruct (r_ret reply =? 0); cbn [negb].
  - do 5 step. call. do 3 step. call. by step.
  - jump. by do 2 step.
Qed.

Lemma x86_redirected_spec text flags path argv envp (rs : list Redirect) :
  Forall well_typed rs -> Z.of_nat (length rs) < 2 ^ 60 ->
  Z.of_nat (length rs) <= text 13%nat < 2 ^ 64 - 1 ->
  prog_equiv (x86_vfork_execve_redirected text flags path argv envp rs)
    (spawn_spec x86_dup flags path argv envp (through_first_effective rs)).
Proof.
  intros Hrs Hlen Htext. unfold x86_vfork_execve_redirected, spawn_spec.
  remember (40 + 13 * length rs)%nat as f eqn:Hf. inputs.
  step. call. do 2 step. unfold xtaken; cbn [x_zf xflags].
  destruct (r_ret reply =? 0); cbn [negb].
  - destruct rs as [|r rs'] eqn:E.
    + do 2 step. unfold xtaken; cbn [x_zf xflags length Z.of_nat Z.eqb]. jump.
      apply (x86_exec text path argv envp []); [lia|constructor; by regs].
    + do 2 step. unfold xtaken; cbn [x_zf xflags].
      destruct (Z.eqb_spec (Z.of_nat (length (r :: rs'))) 0); [done|]. step.
      rewrite <- E in *. assert (rs !! 0%nat = Some r) as Hr by (by subst).
      change (through_first_effective rs) with (through_first_effective (drop 0 rs)).
      rewrite (drop_S _ _ _ Hr), apply_through.
      apply (x86_body text path argv envp rs Hrs Htext 0%nat);
        [done|lia|constructor; by regs|by regs|].
      intros f' s' Hf' Hs' HC' _. apply (x86_rest text path argv envp rs Hrs Hlen Htext (length rs'));
        [by subst|subst; simpl in *; lia|done|done].
  - jump. by do 2 step.
Qed.

(** [C4] On x86_64 [vfork_execve_redirected] meets its contract only for the
    redirects up to the first that needs a [dup2]: [syscall] overwrites [rcx],
    which is also the loop counter, so the loop ends there and the remaining
    redirects are dropped. *)
Theorem x86_vfork_execve_redirected_truncates text flags path argv envp (rs : list Redirect) :
  Forall well_typed rs -> Z.of_nat (length rs) < 2 ^ 60 ->
  Z.of_nat (length rs) <= text 13%nat < 2 ^ 64 - 1 ->
  prog_equiv (x86_vfork_execve_redirected text flags path argv envp rs)
    (spawn_spec x86_dup flags path argv envp (through_first_effective rs)).
Proof. apply x86_redirected_spec. Qed.

(** Two redirects that both need a call. *)
Definition two_redirects : list Redirect := [mkRedirect 5 1; mkRedirect 6 2].
Definition x86_text (i : nat) : Z := 0x401000 + Z.of_nat i.

Lemma x86_vfork_execve_redirected_truncates_witness :
  Forall well_typed two_redirects /\
  prog_equiv (x86_vfork_execve_redirected x86_text (AInt 0x4100) null null null two_redirects)
    (spawn_spec x86_dup (AInt 0x4100) null null null [mkRedirect 5 1]).
Proof.
  assert (Forall well_typed two_redirects) as Hw by
    (repeat constructor; vm_compute; intuition congruence).
  split; [exact Hw|].
  apply (x86_vfork_execve_redirected_truncates x86_text (AInt 0x4100) null null null two_redirects
           Hw); vm_compute; intuition congruence.
Defined.
End OnX86.

(** [C30] [vfork_execve], the trampoline without redirects, is its contract on
    both targets: one [clone] with the caller's flags and a null stack; the
    parent returns [clone]'s result; the child executes the program and, only if
    that comes back, exits 127. *)
Theorem vfork_execve_correct (H : Target) text flags path argv envp dup :
  prog_equiv (vfork_execve text flags path argv envp)
    (spawn_spec dup flags path argv envp []).
Proof.
  destruct H; [apply x86_vfork_execve_spec|apply a64_vfork_execve_spec].
Qed.
