(* ===== verification/Fd.v ===== *)
(** File descriptors ([src/fd.rs]): reading and writing, the retrying
    [write_all]/[read_all] loops, [poll], [pipe2], the [dup] family, [fcntl],
    seeking, and the [ioctl] shim. *)

From stdpp Require Import base list option numbers.
From Stdlib Require Import ZArith Lia.
From S2P Require Import Prelude Prog Layout Asm Arch.

#[local] Obligation Tactic := solve_kstruct.

(** ** Constants *)

Definition POLLIN : Z := 0x001.
Definition POLLPRI : Z := 0x002.
Definition POLLOUT : Z := 0x004.
Definition POLLERR : Z := 0x008.
Definition POLLHUP : Z := 0x010.
Definition POLLNVAL : Z := 0x020.

Definition F_GETFD : Z := 1.
Definition F_SETFD : Z := 2.
Definition F_GETFL : Z := 3.
Definition F_SETFL : Z := 4.
Definition F_DUPFD_CLOEXEC : Z := 1030.
Definition F_SETPIPE_SZ : Z := 1031.
Definition F_GETPIPE_SZ : Z := 1032.
Definition FD_CLOEXEC : Z := 1.
Definition O_CLOEXEC : Z := oct 2000000.
Definition O_NONBLOCK : Z := oct 4000.
Definition O_RDONLY : Z := oct 0.
Definition O_WRONLY : Z := oct 1.
Definition O_RDWR : Z := oct 2.
Definition O_CREAT : Z := oct 100.
Definition O_EXCL : Z := oct 200.
Definition O_TRUNC : Z := oct 1000.
Definition O_APPEND : Z := oct 2000.
Definition O_DIRECTORY `{Target} : Z :=
  match arch with X86_64 => oct 200000 | Aarch64 => oct 40000 end.
Definition AT_FDCWD : Z := -100.
Definition CLOSE_RANGE_CLOEXEC : Z := Z.shiftl 1 2.
Definition MFD_CLOEXEC : Z := 0x0001.
Definition SEEK_SET : Z := 0.
Definition SEEK_CUR : Z := 1.
Definition SEEK_END : Z := 2.

(** ** [struct pollfd] *)

Record PollFd := mkPollFd { pfd_fd : Z; events : Z; revents : Z }.

#[export] Program Instance PollFd_kstruct : KStruct PollFd := {
  ks_packed := false;
  ks_fields := [i32; i16; i16];
  ks_vals p := [VI (pfd_fd p); VI (events p); VI (revents p)];
  ks_of vs := mkPollFd (vi vs 0) (vi vs 1) (vi vs 2) }.

Definition PollFd_new (fd events : Z) : PollFd := mkPollFd fd events 0.
Definition is_readable (p : PollFd) : bool := negb (Z.land (revents p) POLLIN =? 0).
Definition is_writable (p : PollFd) : bool := negb (Z.land (revents p) POLLOUT =? 0).
Definition is_hup (p : PollFd) : bool := negb (Z.land (revents p) POLLHUP =? 0).
Definition is_error (p : PollFd) : bool := negb (Z.land (revents p) POLLERR =? 0).
Definition is_invalid (p : PollFd) : bool := negb (Z.land (revents p) POLLNVAL =? 0).

(** The [Timespec] local to the aarch64 [poll]. *)
Record PollTimespec := mkPollTimespec { pts_sec : Z; pts_nsec : Z }.

#[export] Program Instance PollTimespec_kstruct : KStruct PollTimespec := {
  ks_packed := false;
  ks_fields := [i64; i64];
  ks_vals p := [VI (pts_sec p); VI (pts_nsec p)];
  ks_of vs := mkPollTimespec (vi vs 0) (vi vs 1) }.

(** [struct iovec]: [IoSlice] and [IoSliceMut] are modelled by the buffer they
    borrow; this is the layout of the entry itself. *)
Record IoVec := mkIoVec { iov_base : Z; iov_len : Z }.

#[export] Program Instance IoVec_kstruct : KStruct IoVec := {
  ks_packed := false;
  ks_fields := [u64; u64];
  ks_vals p := [VI (iov_base p); VI (iov_len p)];
  ks_of vs := mkIoVec (vi vs 0) (vi vs 1) }.

Definition IoSlice := list Z.
Definition IoSliceMut := list Z.
Definition IoSlice_new (buf : list Z) : IoSlice := buf.
Definition IoSliceMut_new (buf : list Z) : IoSliceMut := buf.

Section Fd.
Context `{Target}.

(** ** Opening *)

Definition openat (dirfd : Z) (path : list Z) (flags mode : Z) : Prog (result Z) :=
  let* r := syscall4 (nr OPENAT) (int dirfd) (cstr path) (int flags) (int mode) in
  Ret (from_ret_i32 (r_ret r)).

Definition open (path : list Z) (flags mode : Z) : Prog (result Z) :=
  openat AT_FDCWD path flags mode.

(** ** Reading and writing

    A [&mut] buffer is returned with the result: the kernel may have written
    it whatever the outcome. *)

Definition read (fd : Z) (buf : list Z) : Prog (list Z * result Z) :=
  let* r := syscall3 (nr READ) (int fd) (AMut buf) (len buf) in
  Ret (out 0 r, from_ret (r_ret r)).

Definition write (fd : Z) (buf : list Z) : Prog (result Z) :=
  let* r := syscall3 (nr WRITE) (int fd) (ARef buf) (len buf) in
  Ret (from_ret (r_ret r)).

Fixpoint write_all (fuel : nat) (fd : Z) (buf : list Z) : Prog (result unit) :=
  match buf with
  | [] => Ret (Ok tt)
  | _ =>
      match fuel with
      | O => NoFuel
      | S fuel =>
          let* r := write fd buf in
          match r with
          | Ok n =>
              if n =? 0 then Ret (Err EIO)
              else let* rest := or_panic (slice_from n buf) in write_all fuel fd rest
          | Err e => if decide (e = EINTR) then write_all fuel fd buf else Ret (Err e)
          end
      end
  end.

Definition pread (fd : Z) (buf : list Z) (offset : Z) : Prog (list Z * result Z) :=
  let* r := syscall4 (nr PREAD64) (int fd) (AMut buf) (len buf) (int offset) in
  Ret (out 0 r, from_ret (r_ret r)).

Definition pwrite (fd : Z) (buf : list Z) (offset : Z) : Prog (result Z) :=
  let* r := syscall4 (nr PWRITE64) (int fd) (ARef buf) (len buf) (int offset) in
  Ret (from_ret (r_ret r)).

Definition readv (fd : Z) (bufs : list IoSliceMut) : Prog (list IoSliceMut * result Z) :=
  let* r := syscall3 (nr READV) (int fd) (AMutV bufs) (len bufs) in
  Ret (r_outs r, from_ret (r_ret r)).

Definition writev (fd : Z) (bufs : list IoSlice) : Prog (result Z) :=
  let* r := syscall3 (nr WRITEV) (int fd) (ARefV bufs) (len bufs) in
  Ret (from_ret (r_ret r)).

Definition preadv (fd : Z) (bufs : list IoSliceMut) (offset : Z) :
    Prog (list IoSliceMut * result Z) :=
  let* r := syscall5 (nr PREADV) (int fd) (AMutV bufs) (len bufs) (int offset) (int 0) in
  Ret (r_outs r, from_ret (r_ret r)).

Definition pwritev (fd : Z) (bufs : list IoSlice) (offset : Z) : Prog (result Z) :=
  let* r := syscall5 (nr PWRITEV) (int fd) (ARefV bufs) (len bufs) (int offset) (int 0) in
  Ret (from_ret (r_ret r)).

(** [read] fills [&mut buf[total..]], in place. *)
Fixpoint read_all_from (fuel : nat) (fd : Z) (buf : list Z) (total : Z) :
    Prog (list Z * result Z) :=
  if total <? Z.of_nat (length buf) then
    match fuel with
    | O => NoFuel
    | S fuel =>
        let* tail := or_panic (slice_from total buf) in
        let* (tail, r) := read fd tail in
        let buf := take (Z.to_nat total) buf ++ tail in
        match r with
        | Ok n =>
            if n =? 0 then Ret (buf, Ok total)
            else let* total := usize_add total n in read_all_from fuel fd buf total
        | Err e =>
            if decide (e = EINTR) then read_all_from fuel fd buf total
            else Ret (buf, Err e)
        end
    end
  else Ret (buf, Ok total).

Definition read_all (fuel : nat) (fd : Z) (buf : list Z) : Prog (list Z * result Z) :=
  read_all_from fuel fd buf 0.

(** ** Waiting *)

Definition poll_x86_64 (fds : list PollFd) (timeout : Z) : Prog (list PollFd * result Z) :=
  let* r := syscall3 (nr POLL) (AMut (encode_all fds)) (len fds) (int timeout) in
  Ret (decode_all (length fds) (out 0 r), from_ret (r_ret r)).

Definition poll_timespec (timeout : Z) : option PollTimespec :=
  if timeout <? 0 then None
  else Some (mkPollTimespec (Z.quot timeout 1000) (Z.rem timeout 1000 * 1000000)).

Definition poll_aarch64 (fds : list PollFd) (timeout : Z) : Prog (list PollFd * result Z) :=
  let tsp := match poll_timespec timeout with Some t => ARef (encode t) | None => null end in
  let* r := syscall5 (nr PPOLL) (AMut (encode_all fds)) (len fds) tsp (int 0) (int 8) in
  Ret (decode_all (length fds) (out 0 r), from_ret (r_ret r)).

Definition poll (fds : list PollFd) (timeout : Z) : Prog (list PollFd * result Z) :=
  match arch with
  | X86_64 => poll_x86_64 fds timeout
  | Aarch64 => poll_aarch64 fds timeout
  end.

(** ** Creating and duplicating *)

Definition pipe2 (flags : Z) : Prog (result (Z * Z)) :=
  let fds := le_enc 4 0 ++ le_enc 4 0 in
  let* r := syscall2 (nr PIPE2) (AMut fds) (int flags) in
  let? _ := Ret (from_ret (r_ret r)) in
  Ret (Ok (dec_i32 (slice 0 4 (out 0 r)), dec_i32 (slice 4 4 (out 0 r)))).

Definition dup (fd : Z) : Prog (result Z) :=
  let* r := syscall1 (nr DUP) (int fd) in Ret (from_ret_i32 (r_ret r)).

Definition fcntl (fd cmd arg : Z) : Prog (result Z) :=
  let* r := syscall3 (nr FCNTL) (int fd) (int cmd) (int arg) in
  Ret (from_ret_i32 (r_ret r)).

Definition dup2_x86_64 (oldfd newfd : Z) : Prog (result Z) :=
  let* r := syscall2 (nr DUP2) (int oldfd) (int newfd) in Ret (from_ret_i32 (r_ret r)).

Definition dup2_aarch64 (oldfd newfd : Z) : Prog (result Z) :=
  if oldfd =? newfd then
    let? _ := fcntl oldfd F_GETFD 0 in Ret (Ok newfd)
  else
    let* r := syscall3 (nr DUP3) (int oldfd) (int newfd) (int 0) in
    Ret (from_ret_i32 (r_ret r)).

Definition dup2 (oldfd newfd : Z) : Prog (result Z) :=
  match arch with X86_64 => dup2_x86_64 oldfd newfd | Aarch64 => dup2_aarch64 oldfd newfd end.

Definition dup3 (oldfd newfd flags : Z) : Prog (result Z) :=
  let* r := syscall3 (nr DUP3) (int oldfd) (int newfd) (int flags) in
  Ret (from_ret_i32 (r_ret r)).

(** ** Closing and flushing *)

Definition close (fd : Z) : Prog (result unit) :=
  let* r := syscall1 (nr CLOSE) (int fd) in Ret (ret_unit r).

Definition close_range (first last flags : Z) : Prog (result unit) :=
  let* r := syscall3 (nr CLOSE_RANGE) (int first) (int last) (int flags) in
  Ret (ret_unit r).

Definition fsync (fd : Z) : Prog (result unit) :=
  let* r := syscall1 (nr FSYNC) (int fd) in Ret (ret_unit r).

Definition fdatasync (fd : Z) : Prog (result unit) :=
  let* r := syscall1 (nr FDATASYNC) (int fd) in Ret (ret_unit r).

(** ** Anonymous files, seeking, resizing *)

Definition memfd_create (name : list Z) (flags : Z) : Prog (result Z) :=
  let* r := syscall2 (nr MEMFD_CREATE) (cstr name) (int flags) in
  Ret (from_ret_i32 (r_ret r)).

Definition lseek (fd offset whence : Z) : Prog (result Z) :=
  let* r := syscall3 (nr LSEEK) (int fd) (int offset) (int whence) in
  Ret (map_ok as_i64 (from_ret (r_ret r))).

Definition ftruncate (fd length : Z) : Prog (result unit) :=
  let* r := syscall2 (nr FTRUNCATE) (int fd) (int length) in Ret (ret_unit r).

(** [ioctl]: [arg] is a pointer or an integer; the reply holds what the
    kernel left behind a pointer to writable memory. *)
Definition ioctl (fd request : Z) (arg : Arg) : Prog (list Z * result Z) :=
  let* r := syscall3 (nr IOCTL) (int fd) (int request) arg in
  Ret (out 0 r, from_ret (r_ret r)).
End Fd.
