(* ===== verification/Vdso.v ===== *)
(** The vDSO resolver ([src/vdso.rs]): finding the image's base in the auxiliary
    vector, looking [clock_gettime] up in its ELF symbol table, and caching the
    outcome; and the theorem on the cache.

    The image is memory the kernel maps: the model reads it through a function
    [mem] from addresses to bytes, and the address found is called through
    [CallFn]. *)

From stdpp Require Import base list option numbers strings.
From Stdlib Require Import ZArith Lia.
From S2P Require Import Prelude Prog Layout Asm Arch Fd.

(** [SYMBOL] and [E_MACHINE], per target. *)
Definition SYMBOL `{Target} : list Z :=
  str (match arch with
       | X86_64 => "__vdso_clock_gettime"
       | Aarch64 => "__kernel_clock_gettime"
       end).
Definition E_MACHINE `{Target} : Z := match arch with X86_64 => 62 | Aarch64 => 183 end.

Definition FAILED : Z := 1.
Definition AT_NULL : Z := 0.
Definition AT_SYSINFO_EHDR : Z := 33.
Definition PT_LOAD : Z := 1.
Definition PT_DYNAMIC : Z := 2.
Definition DT_NULL : Z := 0.
Definition DT_HASH : Z := 4.
Definition DT_STRTAB : Z := 5.
Definition DT_SYMTAB : Z := 6.

(** The tables the dynamic section has named so far. *)
Record DynTables := mkDyn {
  strtab : option Z; symtab : option Z; hash : option Z }.

Section Vdso.
Context `{Target} (mem : Z -> Z).

(** ** Reading the image *)

Definition rd (n : nat) (p off : Z) : Z :=
  le_dec (map (fun i => as_u8 (mem (as_u64 (p + off + Z.of_nat i)))) (seq 0 n)).
Definition rd_u16 := rd 2.
Definition rd_u32 := rd 4.
Definition rd_u64 := rd 8.
Definition rd_i64 (p off : Z) : Z := as_i64 (rd 8 p off).
Definition rd_u8 (p : Z) : Z := rd 1 p 0.

(** [p.add(n)] *)
Definition ptr_off (p n : Z) : Z := as_u64 (p + n).

Definition reloc (base load_off vaddr : Z) : Z :=
  as_u64 (base + as_i64 (load_off + as_i64 vaddr)).

(** [*p.add(i) != target[i]] for each byte in turn, then the terminator. *)
Fixpoint cstr_eq (p : Z) (target : list Z) : bool :=
  match target with
  | [] => rd_u8 p =? 0
  | c :: target => if rd_u8 p =? c then cstr_eq (ptr_off p 1) target else false
  end.

(** ** The program headers: the first [PT_LOAD] gives the load bias, the last
    [PT_DYNAMIC] the dynamic table. *)
Fixpoint scan_phdrs (n : nat) (i : Z) (base e_phoff e_phentsize : Z)
    (load_off dynamic : option Z) : Prog (option Z * option Z) :=
  match n with
  | O => Ret (load_off, dynamic)
  | S n =>
      let* o := usize_add e_phoff (i * e_phentsize) in
      let ph := ptr_off base o in
      let p_type := rd_u32 ph 0 in
      let p_offset := rd_u64 ph 8 in
      let p_vaddr := rd_u64 ph 16 in
      if (p_type =? PT_LOAD) && bool_decide (load_off = None) then
        scan_phdrs n (i + 1) base e_phoff e_phentsize
          (Some (as_i64 (as_i64 p_offset - as_i64 p_vaddr))) dynamic
      else if p_type =? PT_DYNAMIC then
        scan_phdrs n (i + 1) base e_phoff e_phentsize
          load_off (Some (ptr_off base p_offset))
      else scan_phdrs n (i + 1) base e_phoff e_phentsize load_off dynamic
  end.

(** ** The dynamic table, up to [DT_NULL] *)
Fixpoint scan_dynamic (fuel : nat) (base load_off d : Z) (t : DynTables) : Prog DynTables :=
  match fuel with
  | O => NoFuel
  | S fuel =>
      let tag := rd_i64 d 0 in
      if tag =? DT_NULL then Ret t
      else
        let val := rd_u64 d 8 in
        let here := Some (reloc base load_off val) in
        let t :=
          if tag =? DT_STRTAB then mkDyn here (symtab t) (hash t)
          else if tag =? DT_SYMTAB then mkDyn (strtab t) here (hash t)
          else if tag =? DT_HASH then mkDyn (strtab t) (symtab t) here
          else t in
        scan_dynamic fuel base load_off (ptr_off d 16) t
  end.

(** ** The symbol table, in order *)
Fixpoint scan_symbols (n : nat) (i : Z) (base load_off symtab strtab : Z) : option Z :=
  match n with
  | O => None
  | S n =>
      let sym := ptr_off symtab (i * 24) in
      let st_name := rd_u32 sym 0 in
      let st_value := rd_u64 sym 8 in
      if (st_name =? 0) || (st_value =? 0) then
        scan_symbols n (i + 1) base load_off symtab strtab
      else if cstr_eq (ptr_off strtab st_name) SYMBOL then
        Some (reloc base load_off st_value)
      else scan_symbols n (i + 1) base load_off symtab strtab
  end.

(** The four bytes ["\x7fELF"] read as a native [u32]. *)
Definition ELF_MAGIC : Z := le_dec (127 :: str "ELF").

Definition lookup (fuel : nat) (base : Z) : Prog (option Z) :=
  if negb (rd_u32 base 0 =? ELF_MAGIC) then Ret None
  else if negb (rd_u8 (ptr_off base 4) =? 2) then Ret None
  else if negb (rd_u16 base 18 =? E_MACHINE) then Ret None
  else
    let e_phoff := rd_u64 base 32 in
    let e_phentsize := rd_u16 base 54 in
    let e_phnum := rd_u16 base 56 in
    if e_phentsize <? 56 then Ret None
    else
      let* (load_off, dynamic) :=
        scan_phdrs (Z.to_nat e_phnum) 0 base e_phoff e_phentsize None None in
      match load_off, dynamic with
      | Some load_off, Some d =>
          let* t := scan_dynamic fuel base load_off d (mkDyn None None None) in
          match strtab t, symtab t, hash t with
          | Some strtab, Some symtab, Some hash =>
              let nsyms := rd_u32 hash 4 in
              Ret (scan_symbols (Z.to_nat nsyms) 0 base load_off symtab strtab)
          | _, _, _ => Ret None
          end
      | _, _ => Ret None
      end.

(** ** The auxiliary vector *)

Fixpoint scan_auxv (fuel : nat) (buf : list Z) (n i : Z) : Prog (option Z) :=
  if i + 16 <=? n then
    match fuel with
    | O => NoFuel
    | S fuel =>
        let* key := or_panic (sub_slice i 8 buf) in
        let* val := or_panic (sub_slice (i + 8) 8 buf) in
        let key := le_dec key in
        let val := le_dec val in
        if key =? AT_SYSINFO_EHDR then Ret (if val =? 0 then None else Some val)
        else if key =? AT_NULL then Ret None
        else scan_auxv fuel buf n (i + 16)
    end
  else Ret None.

(** [fuel] bounds the retries of [read_all]; 257 entries fill the buffer. *)
Definition vdso_base (fuel : nat) : Prog (option Z) :=
  let* fd := open (str "/proc/self/auxv") O_RDONLY 0 in
  match fd with
  | Err _ => Ret None
  | Ok fd =>
      let* (buf, n) := read_all fuel fd (replicate 4096 0) in
      match n with
      | Err _ => Ret None
      | Ok n =>
          let* _ := close fd in
          scan_auxv 257 buf n 0
      end
  end.

Definition vdso_resolve (fuel : nat) : Prog (option Z) :=
  let* base := vdso_base fuel in
  match base with
  | None => Ret None
  | Some base => lookup fuel base
  end.

(** ** The cache

    [cache] is the [CACHE] atomic: 0 before resolution, [FAILED], or the
    address of the entry.  The new value is returned with the result. *)
Definition clock_gettime_fn (fuel : nat) (cache : Z) : Prog (Z * option Z) :=
  if cache =? FAILED then Ret (cache, None)
  else if negb (cache =? 0) then Ret (cache, Some cache)
  else
    let* resolved := vdso_resolve fuel in
    Ret (match resolved with None => FAILED | Some f => f end, resolved).
End Vdso.

(** ** Properties of the cache *)

(** The resolver runs once: after a first [clock_gettime_fn] has returned,
    a later one, on any kernel state and with any fuel, makes no call at all and
    answers the same, a failed resolution included.  (An entry at address 0 or
    1, the cache's two sentinels, is the exception.) *)
Theorem clock_gettime_fn_cached `{Target} (mem : Z -> Z) (K : Kernel) fuel s c f t s' :
  run K (clock_gettime_fn mem fuel 0) s = (Done (c, f), t, s') ->
  f <> Some 0 -> f <> Some FAILED ->
  forall (K2 : Kernel) fuel2 s2, run K2 (clock_gettime_fn mem fuel2 c) s2 = (Done (c, f), [], s2).
Proof.
  unfold clock_gettime_fn at 1. cbn [Z.eqb negb FAILED]. rewrite run_bind.
  destruct (run K (vdso_resolve mem fuel) s) as [[[r| | |] t1] s1]; try done.
  cbn [run]. intros [= <- <- _ _] H0 H1 K2 fuel2 s2. unfold clock_gettime_fn.
  destruct r as [a|]; [|done].
  destruct (Z.eqb_spec a FAILED) as [->|_]; [done|].
  by destruct (Z.eqb_spec a 0) as [->|_].
Qed.

(** A kernel without [/proc]: every call fails. *)
Definition enosys_kernel : Kernel := mkKernel unit (fun _ _ => (Some (mkReply (-38) []), tt)).

Lemma clock_gettime_fn_cached_witness :
  run enosys_kernel (clock_gettime_fn (H := X86_64) (fun _ => 0) 5 FAILED) tt =
    (Done (FAILED, None), [], tt).
Proof.
  eapply (@clock_gettime_fn_cached X86_64 (fun _ => 0) enosys_kernel 5 tt FAILED None);
    [vm_compute; reflexivity|done|done].
Defined.
