(* ===== verification/Time.v ===== *)
(** Clocks and sleeping ([src/time.rs]), and the theorem on [from_millis]. *)

From stdpp Require Import base list option numbers strings.
From Stdlib Require Import ZArith Lia.
From S2P Require Import Prelude Prog Layout Asm Arch Fd Vdso.

#[local] Obligation Tactic := solve_kstruct.

(** [struct timespec] *)
Record Timespec := mkTimespec {
  tv_sec : Z; tv_nsec : Z }.

#[export] Program Instance Timespec_kstruct : KStruct Timespec := {
  ks_packed := false;
  ks_fields := [i64; i64];
  ks_vals p :=
    [VI (tv_sec p); VI (tv_nsec p)];
  ks_of vs :=
    mkTimespec (vi vs 0) (vi vs 1) }.

Definition Timespec_default : Timespec := mkTimespec 0 0.

Definition CLOCK_REALTIME : Z := 0.
Definition CLOCK_MONOTONIC : Z := 1.
Definition CLOCK_BOOTTIME : Z := 7.
Definition CLOCK_REALTIME_COARSE : Z := 5.
Definition CLOCK_MONOTONIC_COARSE : Z := 6.
Definition TIMER_ABSTIME : Z := 1.
Definition TFD_NONBLOCK : Z := oct 4000.
Definition TFD_CLOEXEC : Z := oct 2000000.
Definition TFD_TIMER_ABSTIME : Z := 1.

(** Rust's [/] and [%] truncate toward zero. *)
Definition from_millis (ms : Z) : Timespec :=
  mkTimespec (Z.quot ms 1000) (Z.rem ms 1000 * 1000000).

(** [struct itimerspec]: the two nested [timespec]s, field by field. *)
Record Itimerspec := mkItimerspec {
  it_interval_sec : Z; it_interval_nsec : Z; it_value_sec : Z; it_value_nsec : Z }.

#[export] Program Instance Itimerspec_kstruct : KStruct Itimerspec := {
  ks_packed := false;
  ks_fields := [i64; i64; i64; i64];
  ks_vals p :=
    [VI (it_interval_sec p); VI (it_interval_nsec p); VI (it_value_sec p);
     VI (it_value_nsec p)];
  ks_of vs :=
    mkItimerspec (vi vs 0) (vi vs 1) (vi vs 2) (vi vs 3) }.

Definition it_interval (t : Itimerspec) : Timespec :=
  mkTimespec (it_interval_sec t) (it_interval_nsec t).
Definition it_value (t : Itimerspec) : Timespec :=
  mkTimespec (it_value_sec t) (it_value_nsec t).
Definition Itimerspec_default : Itimerspec := mkItimerspec 0 0 0 0.

Section Time.
Context `{Target} (mem : Z -> Z).

(** [ts] is uninitialised until written: [junk] stands for whatever it
    held.  The vDSO entry is called when there is one; a non-zero return
    falls through to the system call. *)
Definition clock_gettime (fuel : nat) (cache : Z) (junk : list Z) (clockid : Z) :
    Prog (Z * result Timespec) :=
  let syscall ts :=
    let* r := syscall2 (nr CLOCK_GETTIME) (int clockid) (AMut ts) in
    Ret (map_ok (fun _ => decode (out 0 r)) (from_ret (r_ret r))) in
  let* (cache, f) := clock_gettime_fn mem fuel cache in
  match f with
  | Some f =>
      let* r := Sys (CallFn f [int clockid; AMut junk]) Ret in
      if as_i32 (r_ret r) =? 0 then Ret (cache, Ok (decode (out 0 r)))
      else let* t := syscall (out 0 r) in Ret (cache, t)
  | None => let* t := syscall junk in Ret (cache, t)
  end.

Definition clock_getres (junk : list Z) (clockid : Z) : Prog (result Timespec) :=
  let* r := syscall2 (nr CLOCK_GETRES) (int clockid) (AMut junk) in
  Ret (map_ok (fun _ => decode (out 0 r)) (from_ret (r_ret r))).

(** [rem] is the caller's variable, if any; it is returned as left. *)
Definition rem_ptr (rem : option Timespec) : Arg :=
  match rem with Some t => AMut (encode t) | None => null end.
Definition rem_after (rem : option Timespec) (r : Reply) : option Timespec :=
  match rem with Some _ => Some (decode (out 0 r)) | None => None end.

Definition nanosleep (req : Timespec) (rem : option Timespec) :
    Prog (option Timespec * result unit) :=
  let* r := syscall2 (nr NANOSLEEP) (ARef (encode req)) (rem_ptr rem) in
  Ret (rem_after rem r, ret_unit r).

Definition clock_nanosleep (clockid flags : Z) (req : Timespec) (rem : option Timespec) :
    Prog (option Timespec * result unit) :=
  let* r := syscall4 (nr CLOCK_NANOSLEEP) (int clockid) (int flags)
              (ARef (encode req)) (rem_ptr rem) in
  Ret (rem_after rem r, ret_unit r).

Definition timerfd_create (clockid flags : Z) : Prog (result Z) :=
  let* r := syscall2 (nr TIMERFD_CREATE) (int clockid) (int flags) in
  Ret (from_ret_i32 (r_ret r)).

Definition timerfd_settime (fd flags : Z) (new_value : Itimerspec) :
    Prog (result Itimerspec) :=
  let old := Itimerspec_default in
  let* r := syscall4 (nr TIMERFD_SETTIME) (int fd) (int flags)
              (ARef (encode new_value)) (AMut (encode old)) in
  let? _ := Ret (from_ret (r_ret r)) in
  Ret (Ok (decode (out 0 r))).

Definition timerfd_gettime (fd : Z) : Prog (result Itimerspec) :=
  let curr := Itimerspec_default in
  let* r := syscall2 (nr TIMERFD_GETTIME) (int fd) (AMut (encode curr)) in
  let? _ := Ret (from_ret (r_ret r)) in
  Ret (Ok (decode (out 0 r))).
End Time.

(** ** Milliseconds *)

(** [Timespec::from_millis] loses nothing: the structure denotes exactly
    [ms] milliseconds for every [i64], the multiplication cannot overflow, and
    the nanosecond part is in the range the kernel accepts exactly when [ms] is
    not negative or is a whole number of seconds. *)
Theorem from_millis_correct (ms : Z) :
  is_i64 ms ->
  well_typed (from_millis ms) /\
  tv_sec (from_millis ms) * 10 ^ 9 + tv_nsec (from_millis ms) = ms * 10 ^ 6 /\
  (0 <= tv_nsec (from_millis ms) < 10 ^ 9 <-> 0 <= ms \/ Z.rem ms 1000 = 0).
Proof.
  intros Hms. unfold from_millis. cbn [tv_sec tv_nsec].
  pose proof (Z.quot_rem ms 1000 ltac:(lia)) as Eq.
  assert (-1000 < Z.rem ms 1000 < 1000 /\ (0 <= ms -> 0 <= Z.rem ms 1000) /\
          (ms <= 0 -> Z.rem ms 1000 <= 0)) as (Hr & Hpos & Hneg).
  { pose proof (Z.rem_bound_abs ms 1000 ltac:(lia)). pose proof (Z.rem_sign_mul ms 1000 ltac:(lia)).
    split_and!; nia. }
  split_and!.
  - repeat constructor; cbn; int_ranges; lia.
  - lia.
  - lia.
Qed.

Lemma from_millis_correct_witness :
  is_i64 (-1500) /\ well_typed (from_millis (-1500)) /\ tv_nsec (from_millis (-1500)) = -500000000.
Proof.
  assert (is_i64 (-1500)) as H by (vm_compute; intuition congruence).
  split; [exact H|]. split; [exact (proj1 (from_millis_correct (-1500) H))|reflexivity].
Defined.
