(* ===== verification/Misc.v ===== *)
(** The one-call modules: [src/mmap.rs], [src/rand.rs], [src/rlimit.rs],
    [src/sysinfo.rs] and [src/umask.rs]. *)

From stdpp Require Import base list option numbers strings.
From Stdlib Require Import ZArith Lia.
From S2P Require Import Prelude Prog Layout Asm Arch.

#[local] Obligation Tactic := solve_kstruct.

(** ** mmap *)

Definition PROT_READ : Z := 0x1.
Definition PROT_WRITE : Z := 0x2.
Definition PROT_EXEC : Z := 0x4.
Definition PROT_NONE : Z := 0x0.
Definition MAP_SHARED : Z := 0x01.
Definition MAP_PRIVATE : Z := 0x02.
Definition MAP_FIXED : Z := 0x10.
Definition MAP_ANONYMOUS : Z := 0x20.
Definition MADV_NORMAL : Z := 0.
Definition MADV_RANDOM : Z := 1.
Definition MADV_SEQUENTIAL : Z := 2.
Definition MADV_WILLNEED : Z := 3.
Definition MADV_DONTNEED : Z := 4.
Definition MADV_FREE : Z := 8.
Definition MS_ASYNC : Z := 1.
Definition MS_INVALIDATE : Z := 2.
Definition MS_SYNC : Z := 4.

Section Mmap.
Context `{Target}.

(** Addresses are raw pointers: numbers the crate never dereferences. *)
Definition mmap (addr length prot flags fd offset : Z) : Prog (result Z) :=
  let* r := syscall6 (nr MMAP) (int addr) (int length) (int prot) (int flags) (int fd)
              (int offset) in
  Ret (from_ret (r_ret r)).

Definition munmap (addr length : Z) : Prog (result unit) :=
  let* r := syscall3 (nr MUNMAP) (int addr) (int length) (int 0) in Ret (ret_unit r).

Definition mprotect (addr length prot : Z) : Prog (result unit) :=
  let* r := syscall3 (nr MPROTECT) (int addr) (int length) (int prot) in Ret (ret_unit r).

Definition madvise (addr length advice : Z) : Prog (result unit) :=
  let* r := syscall3 (nr MADVISE) (int addr) (int length) (int advice) in Ret (ret_unit r).

Definition mlock (addr length : Z) : Prog (result unit) :=
  let* r := syscall3 (nr MLOCK) (int addr) (int length) (int 0) in Ret (ret_unit r).

Definition munlock (addr length : Z) : Prog (result unit) :=
  let* r := syscall3 (nr MUNLOCK) (int addr) (int length) (int 0) in Ret (ret_unit r).

Definition msync (addr length flags : Z) : Prog (result unit) :=
  let* r := syscall3 (nr MSYNC) (int addr) (int length) (int flags) in Ret (ret_unit r).

End Mmap.

(** ** getrandom *)

Definition GRND_NONBLOCK : Z := 0x0001.
Definition GRND_RANDOM : Z := 0x0002.

Definition getrandom `{Target} (buf : list Z) (flags : Z) : Prog (list Z * result Z) :=
  let* r := syscall3 (nr GETRANDOM) (AMut buf) (len buf) (int flags) in
  Ret (out 0 r, from_ret (r_ret r)).

(** ** Resource limits *)

Definition RLIM_INFINITY : Z := 2 ^ 64 - 1.
Definition RLIMIT_CPU : Z := 0.
Definition RLIMIT_FSIZE : Z := 1.
Definition RLIMIT_DATA : Z := 2.
Definition RLIMIT_STACK : Z := 3.
Definition RLIMIT_CORE : Z := 4.
Definition RLIMIT_RSS : Z := 5.
Definition RLIMIT_NPROC : Z := 6.
Definition RLIMIT_NOFILE : Z := 7.
Definition RLIMIT_MEMLOCK : Z := 8.
Definition RLIMIT_AS : Z := 9.
Definition RLIMIT_LOCKS : Z := 10.
Definition RLIMIT_SIGPENDING : Z := 11.
Definition RLIMIT_MSGQUEUE : Z := 12.
Definition RLIMIT_NICE : Z := 13.
Definition RLIMIT_RTPRIO : Z := 14.
Definition RLIMIT_RTTIME : Z := 15.

(** [struct rlimit64] *)
Record Rlimit := mkRlimit {
  rlim_cur : Z; rlim_max : Z }.

#[export] Program Instance Rlimit_kstruct : KStruct Rlimit := {
  ks_packed := false;
  ks_fields := [u64; u64];
  ks_vals p :=
    [VI (rlim_cur p); VI (rlim_max p)];
  ks_of vs :=
    mkRlimit (vi vs 0) (vi vs 1) }.

Section Rlimit.
Context `{Target}.

(** [old] is the caller's variable, if any; it is returned as left. *)
Definition prlimit (pid resource : Z) (new old : option Rlimit) :
    Prog (option Rlimit * result unit) :=
  let new_ptr := match new with Some n => ARef (encode n) | None => null end in
  let old_ptr := match old with Some o => AMut (encode o) | None => null end in
  let* r := syscall4 (nr PRLIMIT64) (int pid) (int resource) new_ptr old_ptr in
  Ret (match old with Some _ => Some (decode (out 0 r)) | None => None end, ret_unit r).

Definition getrlimit (resource : Z) : Prog (result Rlimit) :=
  let old := mkRlimit 0 0 in
  let* (old', r) := prlimit 0 resource None (Some old) in
  let? _ := Ret r in
  Ret (Ok (default old old')).

Definition setrlimit (resource : Z) (limit : Rlimit) : Prog (result unit) :=
  let* (_, r) := prlimit 0 resource (Some limit) None in Ret r.
End Rlimit.

(** ** sysinfo *)

Definition SI_LOAD_SHIFT : Z := 16.

(** [struct sysinfo] *)
Record Sysinfo := mkSysinfo {
  uptime : Z; loads : list Z; totalram : Z; freeram : Z; sharedram : Z; bufferram : Z;
  totalswap : Z; freeswap : Z; procs : Z; si_pad : Z; totalhigh : Z; freehigh : Z;
  mem_unit : Z }.

#[export] Program Instance Sysinfo_kstruct : KStruct Sysinfo := {
  ks_packed := false;
  ks_fields := [i64; FArr 8 3; u64; u64; u64; u64; u64; u64; u16; u16; u64; u64; u32];
  ks_vals p :=
    [VI (uptime p); VA (loads p); VI (totalram p); VI (freeram p); VI (sharedram p);
     VI (bufferram p); VI (totalswap p); VI (freeswap p); VI (procs p); VI (si_pad p);
     VI (totalhigh p); VI (freehigh p); VI (mem_unit p)];
  ks_of vs :=
    mkSysinfo (vi vs 0) (va vs 1) (vi vs 2) (vi vs 3) (vi vs 4) (vi vs 5) (vi vs 6) (vi vs 7)
      (vi vs 8) (vi vs 9) (vi vs 10) (vi vs 11) (vi vs 12) }.

Definition Sysinfo_default : Sysinfo := mkSysinfo 0 [0; 0; 0] 0 0 0 0 0 0 0 0 0 0 0.

Definition sysinfo `{Target} : Prog (result Sysinfo) :=
  let buf := Sysinfo_default in
  let* r := syscall1 (nr SYSINFO) (AMut (encode buf)) in
  let? _ := Ret (from_ret (r_ret r)) in
  Ret (Ok (decode (out 0 r))).

(** ** umask *)

Definition umask `{Target} (mask : Z) : Prog Z :=
  let* r := syscall1 (nr UMASK) (int mask) in Ret (as_u32 (r_ret r)).
