(* ===== verification/Wait.v ===== *)
(** Waiting for children ([src/wait.rs]): [wait4]/[waitid], resource usage, and
    the [W*] status tests. *)

From stdpp Require Import base list option numbers strings.
From Stdlib Require Import ZArith Lia.
From S2P Require Import Prelude Prog Layout Asm Arch.

#[local] Obligation Tactic := solve_kstruct.

Definition WNOHANG : Z := 1.
Definition WUNTRACED : Z := 2.
Definition WCONTINUED : Z := 8.
Definition RUSAGE_SELF : Z := 0.
Definition RUSAGE_CHILDREN : Z := -1.
Definition P_ALL : Z := 0.
Definition P_PID : Z := 1.
Definition P_PGID : Z := 2.
Definition P_PIDFD : Z := 3.
Definition WEXITED : Z := 4.
Definition WSTOPPED : Z := 2.
Definition WNOWAIT : Z := 0x01000000.
Definition CLD_EXITED : Z := 1.
Definition CLD_KILLED : Z := 2.
Definition CLD_DUMPED : Z := 3.
Definition CLD_TRAPPED : Z := 4.
Definition CLD_STOPPED : Z := 5.
Definition CLD_CONTINUED : Z := 6.

(** [struct timeval] *)
Record Timeval := mkTimeval {
  tv_sec : Z; tv_usec : Z }.

#[export] Program Instance Timeval_kstruct : KStruct Timeval := {
  ks_packed := false;
  ks_fields := [i64; i64];
  ks_vals p :=
    [VI (tv_sec p); VI (tv_usec p)];
  ks_of vs :=
    mkTimeval (vi vs 0) (vi vs 1) }.

(** [struct rusage]; the two nested [timeval]s are kept field by field. *)
Record Rusage := mkRusage {
  utime_sec : Z; utime_usec : Z; stime_sec : Z; stime_usec : Z; maxrss : Z; ixrss : Z;
  idrss : Z; isrss : Z; minflt : Z; majflt : Z; nswap : Z; inblock : Z; oublock : Z;
  msgsnd : Z; msgrcv : Z; nsignals : Z; nvcsw : Z; nivcsw : Z }.

#[export] Program Instance Rusage_kstruct : KStruct Rusage := {
  ks_packed := false;
  ks_fields := [i64; i64; i64; i64; i64; i64; i64; i64; i64; i64; i64; i64; i64; i64; i64; i64; i64;
    i64];
  ks_vals p :=
    [VI (utime_sec p); VI (utime_usec p); VI (stime_sec p); VI (stime_usec p);
     VI (maxrss p); VI (ixrss p); VI (idrss p); VI (isrss p); VI (minflt p);
     VI (majflt p); VI (nswap p); VI (inblock p); VI (oublock p); VI (msgsnd p);
     VI (msgrcv p); VI (nsignals p); VI (nvcsw p); VI (nivcsw p)];
  ks_of vs :=
    mkRusage (vi vs 0) (vi vs 1) (vi vs 2) (vi vs 3) (vi vs 4) (vi vs 5) (vi vs 6) (vi vs 7)
      (vi vs 8) (vi vs 9) (vi vs 10) (vi vs 11) (vi vs 12) (vi vs 13) (vi vs 14)
      (vi vs 15) (vi vs 16) (vi vs 17) }.

Definition utime (u : Rusage) : Timeval := mkTimeval (utime_sec u) (utime_usec u).
Definition stime (u : Rusage) : Timeval := mkTimeval (stime_sec u) (stime_usec u).
Definition Rusage_default : Rusage := mkRusage 0 0 0 0 0 0 0 0 0 0 0 0 0 0 0 0 0 0.

(** [siginfo_t] *)
Record Siginfo := mkSiginfo {
  si_signo : Z; si_errno : Z; si_code : Z; si_pad0 : Z; si_pid : Z; si_uid : Z;
  si_status : Z; si_pad : list Z }.

#[export] Program Instance Siginfo_kstruct : KStruct Siginfo := {
  ks_packed := false;
  ks_fields := [i32; i32; i32; i32; i32; u32; i32; FArr 1 100];
  ks_vals p :=
    [VI (si_signo p); VI (si_errno p); VI (si_code p); VI (si_pad0 p); VI (si_pid p);
     VI (si_uid p); VI (si_status p); VA (si_pad p)];
  ks_of vs :=
    mkSiginfo (vi vs 0) (vi vs 1) (vi vs 2) (vi vs 3) (vi vs 4) (vi vs 5) (vi vs 6) (va vs 7) }.

Definition Siginfo_default : Siginfo := mkSiginfo 0 0 0 0 0 0 0 (replicate 100 0).

(** ** Status tests *)

Definition wifexited (status : Z) : bool := Z.land status 0x7f =? 0.
Definition wexitstatus (status : Z) : Z := Z.land (Z.shiftr status 8) 0xff.
Definition wifsignaled (status : Z) : bool :=
  let sig := Z.land status 0x7f in negb (sig =? 0) && negb (sig =? 0x7f).
Definition wtermsig (status : Z) : Z := Z.land status 0x7f.
Definition wifstopped (status : Z) : bool := Z.land status 0xff =? 0x7f.
Definition wstopsig (status : Z) : Z := Z.land (Z.shiftr status 8) 0xff.
Definition wifcontinued (status : Z) : bool := status =? 0xffff.

Section Wait.
Context `{Target}.

Definition waitpid (pid options : Z) : Prog (result (Z * Z)) :=
  let* r := syscall4 (nr WAIT4) (int pid) (AMut (le_enc 4 0)) (int options) (int 0) in
  let? child := Ret (from_ret_i32 (r_ret r)) in
  Ret (Ok (child, dec_i32 (out 0 r))).

Definition getrusage (who : Z) : Prog (result Rusage) :=
  let rusage := Rusage_default in
  let* r := syscall2 (nr GETRUSAGE) (int who) (AMut (encode rusage)) in
  let? _ := Ret (from_ret (r_ret r)) in
  Ret (Ok (decode (out 0 r))).

Definition waitpid_rusage (pid options : Z) : Prog (result (Z * Z * Rusage)) :=
  let rusage := Rusage_default in
  let* r := syscall4 (nr WAIT4) (int pid) (AMut (le_enc 4 0)) (int options)
              (AMut (encode rusage)) in
  let? child := Ret (from_ret_i32 (r_ret r)) in
  Ret (Ok (child, dec_i32 (out 0 r), decode (out 1 r))).

Definition waitid (idtype id options : Z) : Prog (result Siginfo) :=
  let info := Siginfo_default in
  let* r := syscall5 (nr WAITID) (int idtype) (int id) (AMut (encode info))
              (int options) (int 0) in
  let? _ := Ret (from_ret (r_ret r)) in
  Ret (Ok (decode (out 0 r))).

Definition waitid_rusage (idtype id options : Z) : Prog (result (Siginfo * Rusage)) :=
  let info := Siginfo_default in
  let rusage := Rusage_default in
  let* r := syscall5 (nr WAITID) (int idtype) (int id) (AMut (encode info))
              (int options) (AMut (encode rusage)) in
  let? _ := Ret (from_ret (r_ret r)) in
  Ret (Ok (decode (out 0 r), decode (out 1 r))).
End Wait.

(** ** Properties *)

(** What can happen to a child, and the status word the kernel reports. *)
Inductive ChildEvent :=
| Exited (code : Z)
| Killed (sig : Z) (core : bool)
| Stopped (sig : Z)
| Continued.

Definition status_word (e : ChildEvent) : Z :=
  match e with
  | Exited code => Z.shiftl code 8
  | Killed sig core => Z.lor sig (if core then 0x80 else 0)
  | Stopped sig => Z.lor (Z.shiftl sig 8) 0x7f
  | Continued => 0xffff
  end.

Definition event_ok (e : ChildEvent) : Prop :=
  match e with
  | Exited code => is_byte code
  | Killed sig _ => 1 <= sig <= 126
  | Stopped sig => is_byte sig
  | Continued => True
  end.

(** The shell's reading of a status word with the crate's tests, tried in order. *)
Definition read_status (status : Z) : option ChildEvent :=
  if wifexited status then Some (Exited (wexitstatus status))
  else if wifsignaled status
       then Some (Killed (wtermsig status) (negb (Z.land status 0x80 =? 0)))
  else if wifstopped status then Some (Stopped (wstopsig status))
  else if wifcontinued status then Some Continued
  else None.

Definition tests (status : Z) : list bool :=
  [wifexited status; wifsignaled status; wifstopped status; wifcontinued status].

#[export] Instance ChildEvent_eq_dec : EqDecision ChildEvent.
Proof. solve_decision. Defined.

Definition status_ok (e : ChildEvent) : bool :=
  bool_decide (read_status (status_word e) = Some e) &&
  bool_decide (tests (status_word e) = map (fun i => Nat.eqb i
    match e with Exited _ => 0 | Killed _ _ => 1 | Stopped _ => 2 | Continued => 3 end) (seq 0 4)).

(** There are finitely many events: what holds of each holds of all. *)
Definition all_events (P : ChildEvent -> bool) : bool :=
  forallb (fun k => P (Exited (Z.of_nat k)) && P (Stopped (Z.of_nat k))) (seq 0 256) &&
  forallb (fun k => P (Killed (Z.of_nat k) true) && P (Killed (Z.of_nat k) false)) (seq 1 126) &&
  P Continued.

Lemma all_events_ok P e : all_events P = true -> event_ok e -> P e = true.
Proof.
  intros H He. apply andb_prop in H as [H Hc].
  apply andb_prop in H as [H1 H2]. rewrite forallb_forall in H1, H2.
  destruct e as [z|z core|z|]; simpl in He; [| | |done].
  - specialize (H1 (Z.to_nat z)). rewrite Z2Nat.id in H1 by (int_ranges; lia).
    apply andb_prop in H1 as [? _]; [done|]. apply in_seq. int_ranges. lia.
  - specialize (H2 (Z.to_nat z)). rewrite Z2Nat.id in H2 by lia.
    apply andb_prop in H2 as [? ?]; [by destruct core|]. apply in_seq. lia.
  - specialize (H1 (Z.to_nat z)). rewrite Z2Nat.id in H1 by (int_ranges; lia).
    apply andb_prop in H1 as [_ ?]; [done|]. apply in_seq. int_ranges. lia.
Qed.

Lemma event_status_ok e : event_ok e -> status_ok e = true.
Proof. apply all_events_ok. vm_compute. reflexivity. Qed.

(** A status word is two bytes. *)
Lemma status_word_range e : event_ok e -> 0 <= status_word e < 2 ^ 16.
Proof.
  intros He. assert ((0 <=? status_word e) && (status_word e <? 2 ^ 16) = true) as E; [|lia].
  revert He. apply (all_events_ok (fun e => (0 <=? status_word e) && (status_word e <? 2 ^ 16))).
  vm_compute. reflexivity.
Qed.

(** It comes back from the [int] the kernel wrote. *)
Lemma dec_status e : event_ok e -> dec_i32 (le_enc 4 (status_word e)) = status_word e.
Proof.
  intros He. pose proof (status_word_range e He). unfold dec_i32.
  rewrite le_dec_enc_small by (change (256 ^ Z.of_nat 4) with (2 ^ 32); lia).
  apply swrap_small; lia.
Qed.

Lemma read_status_of e : event_ok e -> read_status (status_word e) = Some e.
Proof.
  intros He. apply event_status_ok in He. unfold status_ok in He.
  by apply andb_prop in He as [H1%bool_decide_eq_true_1 _].
Qed.

(** The [W*] tests decode every status the kernel reports: exactly one of the
    four holds, and its accessor gives back the exit code, the terminating signal
    (core flag excluded) or the stopping signal. *)
Theorem status_roundtrip e :
  event_ok e ->
  read_status (status_word e) = Some e /\
  length (List.filter (fun b => b) (tests (status_word e))) = 1%nat.
Proof.
  intros He. apply event_status_ok in He. unfold status_ok in He.
  apply andb_prop in He as [H1%bool_decide_eq_true_1 H2%bool_decide_eq_true_1].
  split; [exact H1|]. rewrite H2. by destruct e.
Qed.

Lemma status_roundtrip_witness :
  read_status (status_word (Killed 11 true)) = Some (Killed 11 true).
Proof. apply (status_roundtrip (Killed 11 true)). simpl. lia. Defined.
