(* ===== verification/Events.v ===== *)
(** Event descriptors: [src/epoll.rs], [src/eventfd.rs] and [src/inotify.rs], the
    last with its iterator over a buffer of packed records. *)

From stdpp Require Import base list option numbers strings.
From Stdlib Require Import ZArith Lia.
From S2P Require Import Prelude Prog Layout Asm Arch.

#[local] Obligation Tactic := solve_kstruct.

(** ** epoll *)

Definition EPOLL_CTL_ADD : Z := 1.
Definition EPOLL_CTL_DEL : Z := 2.
Definition EPOLL_CTL_MOD : Z := 3.
Definition EPOLLIN : Z := 0x001.
Definition EPOLLOUT : Z := 0x004.
Definition EPOLLERR : Z := 0x008.
Definition EPOLLHUP : Z := 0x010.
Definition EPOLLET : Z := Z.shiftl 1 31.

(** [struct epoll_event]: packed on x86_64, naturally aligned on aarch64. *)
Record EpollEvent := mkEpollEvent {
  ep_events : Z; ep_data : Z }.

#[export] Program Instance EpollEvent_kstruct `{Target} : KStruct EpollEvent := {
  ks_packed := match arch with X86_64 => true | Aarch64 => false end;
  ks_fields := [u32; u64];
  ks_vals p :=
    [VI (ep_events p); VI (ep_data p)];
  ks_of vs :=
    mkEpollEvent (vi vs 0) (vi vs 1) }.

Definition EpollEvent_new (events data : Z) : EpollEvent := mkEpollEvent events data.
Definition EpollEvent_events (e : EpollEvent) : Z := ep_events e.
Definition EpollEvent_data (e : EpollEvent) : Z := ep_data e.

Section Epoll.
Context `{Target}.

Definition epoll_create1 (flags : Z) : Prog (result Z) :=
  let* r := syscall1 (nr EPOLL_CREATE1) (int flags) in Ret (from_ret_i32 (r_ret r)).

Definition epoll_ctl (epfd op fd : Z) (event : option EpollEvent) : Prog (result unit) :=
  let event_ptr := match event with Some e => ARef (encode e) | None => null end in
  let* r := syscall4 (nr EPOLL_CTL) (int epfd) (int op) (int fd) event_ptr in
  Ret (ret_unit r).

Definition epoll_wait_x86_64 (epfd : Z) (events : list EpollEvent) (timeout_ms : Z) :
    Prog (list EpollEvent * result Z) :=
  let* r := syscall4 (nr EPOLL_WAIT) (int epfd) (AMut (encode_all events)) (len events)
              (int timeout_ms) in
  Ret (decode_all (length events) (out 0 r), from_ret (r_ret r)).

Definition epoll_wait_aarch64 (epfd : Z) (events : list EpollEvent) (timeout_ms : Z) :
    Prog (list EpollEvent * result Z) :=
  let* r := syscall6 (nr EPOLL_PWAIT) (int epfd) (AMut (encode_all events)) (len events)
              (int timeout_ms) (int 0) (int 8) in
  Ret (decode_all (length events) (out 0 r), from_ret (r_ret r)).

Definition epoll_wait (epfd : Z) (events : list EpollEvent) (timeout_ms : Z) :
    Prog (list EpollEvent * result Z) :=
  match arch with
  | X86_64 => epoll_wait_x86_64 epfd events timeout_ms
  | Aarch64 => epoll_wait_aarch64 epfd events timeout_ms
  end.
End Epoll.

(** ** eventfd *)

Definition EFD_SEMAPHORE : Z := Z.shiftl 1 0.
Definition EFD_CLOEXEC : Z := oct 2000000.
Definition EFD_NONBLOCK : Z := oct 4000.

Definition eventfd `{Target} (initval flags : Z) : Prog (result Z) :=
  let* r := syscall2 (nr EVENTFD2) (int initval) (int flags) in
  Ret (from_ret_i32 (r_ret r)).

(** ** inotify *)

Definition IN_CLOEXEC : Z := oct 2000000.
Definition IN_NONBLOCK : Z := oct 4000.
Definition IN_ACCESS : Z := 0x00000001.
Definition IN_MODIFY : Z := 0x00000002.
Definition IN_ATTRIB : Z := 0x00000004.
Definition IN_CLOSE_WRITE : Z := 0x00000008.
Definition IN_CLOSE_NOWRITE : Z := 0x00000010.
Definition IN_OPEN : Z := 0x00000020.
Definition IN_MOVED_FROM : Z := 0x00000040.
Definition IN_MOVED_TO : Z := 0x00000080.
Definition IN_CREATE : Z := 0x00000100.
Definition IN_DELETE : Z := 0x00000200.
Definition IN_DELETE_SELF : Z := 0x00000400.
Definition IN_MOVE_SELF : Z := 0x00000800.
Definition IN_UNMOUNT : Z := 0x00002000.
Definition IN_Q_OVERFLOW : Z := 0x00004000.
Definition IN_IGNORED : Z := 0x00008000.
Definition IN_CLOSE : Z := Z.lor IN_CLOSE_WRITE IN_CLOSE_NOWRITE.
Definition IN_MOVE : Z := Z.lor IN_MOVED_FROM IN_MOVED_TO.
Definition IN_ONLYDIR : Z := 0x01000000.
Definition IN_DONT_FOLLOW : Z := 0x02000000.
Definition IN_EXCL_UNLINK : Z := 0x04000000.
Definition IN_MASK_CREATE : Z := 0x10000000.
Definition IN_MASK_ADD : Z := 0x20000000.
Definition IN_ISDIR : Z := 0x40000000.
Definition IN_ONESHOT : Z := 0x80000000.

Section Inotify.
Context `{Target}.

Definition inotify_init1 (flags : Z) : Prog (result Z) :=
  let* r := syscall1 (nr INOTIFY_INIT1) (int flags) in Ret (from_ret_i32 (r_ret r)).

Definition inotify_add_watch (fd : Z) (path : list Z) (mask : Z) : Prog (result Z) :=
  let* r := syscall3 (nr INOTIFY_ADD_WATCH) (int fd) (cstr path) (int mask) in
  Ret (from_ret_i32 (r_ret r)).

Definition inotify_rm_watch (fd wd : Z) : Prog (result unit) :=
  let* r := syscall2 (nr INOTIFY_RM_WATCH) (int fd) (int wd) in Ret (ret_unit r).
End Inotify.

Record InotifyEvent := mkInotifyEvent {
  ie_wd : Z; ie_mask : Z; ie_cookie : Z; ie_name : list Z }.

(** [InotifyEvent::name] *)
Definition event_name (e : InotifyEvent) : option (list Z) :=
  match ie_name e with [] => None | n => until_nul n end.

Definition INOTIFY_HEADER : Z := 16.

(** [Iterator::next]: the event and the rest of the buffer; a slice out of
    range panics. *)
Definition inotify_next (buf : list Z) : Prog (option (InotifyEvent * list Z)) :=
  match buf with
  | [] => Ret None
  | rec =>
      let* wd := or_panic (sub_slice 0 4 rec) in
      let* mask := or_panic (sub_slice 4 4 rec) in
      let* cookie := or_panic (sub_slice 8 4 rec) in
      let* n := or_panic (sub_slice 12 4 rec) in
      let n := le_dec n in
      let* name := or_panic (sub_slice INOTIFY_HEADER n rec) in
      let* rest := or_panic (slice_from (INOTIFY_HEADER + n) rec) in
      Ret (Some (mkInotifyEvent (dec_i32 wd) (le_dec mask) (le_dec cookie) name, rest))
  end.

(** [inotify_events(buf).collect()]: each step consumes at least a header, so
    the buffer's length is fuel enough. *)
Fixpoint inotify_collect (fuel : nat) (buf : list Z) : Prog (list InotifyEvent) :=
  let* e := inotify_next buf in
  match e with
  | None => Ret []
  | Some (e, rest) =>
      match fuel with
      | O => NoFuel
      | S fuel => let* es := inotify_collect fuel rest in Ret (e :: es)
      end
  end.

Definition inotify_events (buf : list Z) : Prog (list InotifyEvent) :=
  inotify_collect (length buf) buf.
