(* ===== verification/Fs.v ===== *)
(** The filesystem ([src/fs.rs]): [statx] and its shorthands, the [*at] path
    operations, and the directory-entry iterator. *)

From stdpp Require Import base list option numbers strings.
From Stdlib Require Import ZArith Lia.
From S2P Require Import Prelude Prog Layout Asm Arch Fd Vdso Time.

#[local] Obligation Tactic := solve_kstruct.

Definition AT_SYMLINK_NOFOLLOW : Z := 0x100.
Definition AT_EMPTY_PATH : Z := 0x1000.
Definition AT_REMOVEDIR : Z := 0x200.
Definition F_OK : Z := 0.
Definition X_OK : Z := 1.
Definition W_OK : Z := 2.
Definition R_OK : Z := 4.
Definition STATX_BASIC_STATS : Z := 0x000007ff.
Definition S_IFMT : Z := oct 170000.
Definition S_IFIFO : Z := oct 10000.
Definition S_IFCHR : Z := oct 20000.
Definition S_IFDIR : Z := oct 40000.
Definition S_IFBLK : Z := oct 60000.
Definition S_IFREG : Z := oct 100000.
Definition S_IFLNK : Z := oct 120000.
Definition S_IFSOCK : Z := oct 140000.
Definition RENAME_NOREPLACE : Z := 1.
Definition RENAME_EXCHANGE : Z := 2.
Definition AT_SYMLINK_FOLLOW : Z := 0x400.
Definition DONT_CHANGE : Z := 2 ^ 32 - 1.
Definition UTIME_NOW : Z := Z.shiftl 1 30 - 1.
Definition UTIME_OMIT : Z := Z.shiftl 1 30 - 2.
Definition DT_UNKNOWN : Z := 0.
Definition DT_REG : Z := 8.
Definition DT_DIR : Z := 4.
Definition DT_LNK : Z := 10.

(** [struct statx_timestamp] *)
Record StatxTimestamp := mkStatxTimestamp {
  sxt_sec : Z; sxt_nsec : Z; sxt_reserved : Z }.

#[export] Program Instance StatxTimestamp_kstruct : KStruct StatxTimestamp := {
  ks_packed := false;
  ks_fields := [i64; u32; i32];
  ks_vals p :=
    [VI (sxt_sec p); VI (sxt_nsec p); VI (sxt_reserved p)];
  ks_of vs :=
    mkStatxTimestamp (vi vs 0) (vi vs 1) (vi vs 2) }.

(** [struct statx]; its four nested timestamps are kept field by field. *)
Record Statx := mkStatx {
  stx_mask : Z; stx_blksize : Z; stx_attributes : Z; stx_nlink : Z; stx_uid : Z;
  stx_gid : Z; stx_mode : Z; stx_spare0 : Z; stx_ino : Z; stx_size : Z; stx_blocks : Z;
  stx_attributes_mask : Z; stx_atime_sec : Z; stx_atime_nsec : Z; stx_atime_reserved : Z;
  stx_btime_sec : Z; stx_btime_nsec : Z; stx_btime_reserved : Z; stx_ctime_sec : Z;
  stx_ctime_nsec : Z; stx_ctime_reserved : Z; stx_mtime_sec : Z; stx_mtime_nsec : Z;
  stx_mtime_reserved : Z; stx_rdev_major : Z; stx_rdev_minor : Z; stx_dev_major : Z;
  stx_dev_minor : Z; stx_mnt_id : Z; stx_dio_mem_align : Z; stx_dio_offset_align : Z;
  stx_spare3 : list Z }.

#[export] Program Instance Statx_kstruct : KStruct Statx := {
  ks_packed := false;
  ks_fields := [u32; u32; u64; u32; u32; u32; u16; u16; u64; u64; u64; u64; i64; u32; i32; i64; u32;
    i32; i64; u32; i32; i64; u32; i32; u32; u32; u32; u32; u64; u32; u32; FArr 8 12];
  ks_vals p :=
    [VI (stx_mask p); VI (stx_blksize p); VI (stx_attributes p); VI (stx_nlink p);
     VI (stx_uid p); VI (stx_gid p); VI (stx_mode p); VI (stx_spare0 p); VI (stx_ino p);
     VI (stx_size p); VI (stx_blocks p); VI (stx_attributes_mask p); VI (stx_atime_sec p);
     VI (stx_atime_nsec p); VI (stx_atime_reserved p); VI (stx_btime_sec p);
     VI (stx_btime_nsec p); VI (stx_btime_reserved p); VI (stx_ctime_sec p);
     VI (stx_ctime_nsec p); VI (stx_ctime_reserved p); VI (stx_mtime_sec p);
     VI (stx_mtime_nsec p); VI (stx_mtime_reserved p); VI (stx_rdev_major p);
     VI (stx_rdev_minor p); VI (stx_dev_major p); VI (stx_dev_minor p); VI (stx_mnt_id p);
     VI (stx_dio_mem_align p); VI (stx_dio_offset_align p); VA (stx_spare3 p)];
  ks_of vs :=
    mkStatx (vi vs 0) (vi vs 1) (vi vs 2) (vi vs 3) (vi vs 4) (vi vs 5) (vi vs 6) (vi vs 7)
      (vi vs 8) (vi vs 9) (vi vs 10) (vi vs 11) (vi vs 12) (vi vs 13) (vi vs 14)
      (vi vs 15) (vi vs 16) (vi vs 17) (vi vs 18) (vi vs 19) (vi vs 20) (vi vs 21)
      (vi vs 22) (vi vs 23) (vi vs 24) (vi vs 25) (vi vs 26) (vi vs 27) (vi vs 28)
      (vi vs 29) (vi vs 30) (va vs 31) }.

Definition stx_mtime (s : Statx) : StatxTimestamp :=
  mkStatxTimestamp (stx_mtime_sec s) (stx_mtime_nsec s) (stx_mtime_reserved s).

Definition Statx_default : Statx :=
  mkStatx 0 0 0 0 0 0 0 0 0 0 0 0 0 0 0 0 0 0 0 0 0 0 0 0 0 0 0 0 0 0 0 (replicate 12 0).

Definition file_type (s : Statx) : Z := Z.land (stx_mode s) S_IFMT.
Definition is_file (s : Statx) : bool := file_type s =? S_IFREG.
Definition is_dir (s : Statx) : bool := file_type s =? S_IFDIR.
Definition is_symlink (s : Statx) : bool := file_type s =? S_IFLNK.

Section Fs.
Context `{Target}.

Definition faccessat (dirfd : Z) (path : list Z) (mode : Z) : Prog (result unit) :=
  let* r := syscall3 (nr FACCESSAT) (int dirfd) (cstr path) (int mode) in Ret (ret_unit r).
Definition access (path : list Z) (mode : Z) : Prog (result unit) :=
  faccessat AT_FDCWD path mode.

Definition statx (dirfd : Z) (path : list Z) (flags mask : Z) : Prog (result Statx) :=
  let buf := Statx_default in
  let* r := syscall5 (nr STATX) (int dirfd) (cstr path) (int flags) (int mask)
              (AMut (encode buf)) in
  let? _ := Ret (from_ret (r_ret r)) in
  Ret (Ok (decode (out 0 r))).

Definition stat (path : list Z) : Prog (result Statx) :=
  statx AT_FDCWD path 0 STATX_BASIC_STATS.
Definition lstat (path : list Z) : Prog (result Statx) :=
  statx AT_FDCWD path AT_SYMLINK_NOFOLLOW STATX_BASIC_STATS.
Definition fstat (fd : Z) : Prog (result Statx) :=
  statx fd [] AT_EMPTY_PATH STATX_BASIC_STATS.

Definition unlinkat (dirfd : Z) (path : list Z) (flags : Z) : Prog (result unit) :=
  let* r := syscall3 (nr UNLINKAT) (int dirfd) (cstr path) (int flags) in Ret (ret_unit r).
Definition unlink (path : list Z) : Prog (result unit) := unlinkat AT_FDCWD path 0.
Definition rmdir (path : list Z) : Prog (result unit) := unlinkat AT_FDCWD path AT_REMOVEDIR.

Definition mkdirat (dirfd : Z) (path : list Z) (mode : Z) : Prog (result unit) :=
  let* r := syscall3 (nr MKDIRAT) (int dirfd) (cstr path) (int mode) in Ret (ret_unit r).
Definition mkdir (path : list Z) (mode : Z) : Prog (result unit) :=
  mkdirat AT_FDCWD path mode.

Definition renameat2 (olddirfd : Z) (old : list Z) (newdirfd : Z) (new : list Z)
    (flags : Z) : Prog (result unit) :=
  let* r := syscall5 (nr RENAMEAT2) (int olddirfd) (cstr old) (int newdirfd) (cstr new)
              (int flags) in
  Ret (ret_unit r).
Definition rename (old new : list Z) : Prog (result unit) :=
  renameat2 AT_FDCWD old AT_FDCWD new 0.

Definition symlinkat (target : list Z) (newdirfd : Z) (linkpath : list Z) :
    Prog (result unit) :=
  let* r := syscall3 (nr SYMLINKAT) (cstr target) (int newdirfd) (cstr linkpath) in
  Ret (ret_unit r).
Definition symlink (target linkpath : list Z) : Prog (result unit) :=
  symlinkat target AT_FDCWD linkpath.

Definition linkat (olddirfd : Z) (oldpath : list Z) (newdirfd : Z) (newpath : list Z)
    (flags : Z) : Prog (result unit) :=
  let* r := syscall5 (nr LINKAT) (int olddirfd) (cstr oldpath) (int newdirfd)
              (cstr newpath) (int flags) in
  Ret (ret_unit r).
Definition link (oldpath newpath : list Z) : Prog (result unit) :=
  linkat AT_FDCWD oldpath AT_FDCWD newpath 0.

(** The result borrows the filled prefix of [buf]; the whole buffer is
    returned beside it. *)
Definition readlinkat (dirfd : Z) (path buf : list Z) : Prog (list Z * result (list Z)) :=
  let* r := syscall4 (nr READLINKAT) (int dirfd) (cstr path) (AMut buf) (len buf) in
  let buf := out 0 r in
  match from_ret (r_ret r) with
  | Err e => Ret (buf, Err e)
  | Ok n => let* t := or_panic (slice_to n buf) in Ret (buf, Ok t)
  end.
Definition readlink (path buf : list Z) : Prog (list Z * result (list Z)) :=
  readlinkat AT_FDCWD path buf.

Definition fchmodat (dirfd : Z) (path : list Z) (mode : Z) : Prog (result unit) :=
  let* r := syscall3 (nr FCHMODAT) (int dirfd) (cstr path) (int mode) in Ret (ret_unit r).
Definition chmod (path : list Z) (mode : Z) : Prog (result unit) :=
  fchmodat AT_FDCWD path mode.

Definition truncate (path : list Z) (length : Z) : Prog (result unit) :=
  let* r := syscall2 (nr TRUNCATE) (cstr path) (int length) in Ret (ret_unit r).

Definition fchownat (dirfd : Z) (path : list Z) (uid gid flags : Z) : Prog (result unit) :=
  let* r := syscall5 (nr FCHOWNAT) (int dirfd) (cstr path) (int uid) (int gid) (int flags) in
  Ret (ret_unit r).
Definition chown (path : list Z) (uid gid : Z) : Prog (result unit) :=
  fchownat AT_FDCWD path uid gid 0.
Definition lchown (path : list Z) (uid gid : Z) : Prog (result unit) :=
  fchownat AT_FDCWD path uid gid AT_SYMLINK_NOFOLLOW.

(** [times] is [atime, mtime]. *)
Definition utimensat (dirfd : Z) (path : list Z) (times : option (Timespec * Timespec))
    (flags : Z) : Prog (result unit) :=
  let ptr := match times with Some (a, m) => ARef (encode_all [a; m]) | None => null end in
  let* r := syscall4 (nr UTIMENSAT) (int dirfd) (cstr path) ptr (int flags) in
  Ret (ret_unit r).
Definition utimens (path : list Z) (times : option (Timespec * Timespec)) :
    Prog (result unit) :=
  utimensat AT_FDCWD path times 0.

Definition getdents64 (fd : Z) (buf : list Z) : Prog (list Z * result Z) :=
  let* r := syscall3 (nr GETDENTS64) (int fd) (AMut buf) (len buf) in
  Ret (out 0 r, from_ret (r_ret r)).
End Fs.

(** ** Directory entries *)

Record RawDirent := mkRawDirent { d_ino : Z; d_type : Z; d_name : list Z }.

(** [position(|&b| b == 0).unwrap_or(len)], then the slice up to it. *)
Fixpoint before_nul (b : list Z) : list Z :=
  match b with
  | [] => []
  | c :: b => if c =? 0 then [] else c :: before_nul b
  end.

(** [Dirents::next] at [pos]: the entry and the next position. *)
Definition dirents_next (buf : list Z) (pos : Z) : Prog (option (RawDirent * Z)) :=
  if Z.of_nat (length buf) <=? pos then Ret None
  else
    let* rec := or_panic (slice_from pos buf) in
    let* ino := or_panic (sub_slice 0 8 rec) in
    let* reclen := or_panic (sub_slice 16 2 rec) in
    let reclen := le_dec reclen in
    let* ty := or_panic (rec !! 18%nat) in
    let* name_region :=
      if reclen <? 19 then Panic else or_panic (sub_slice 19 (reclen - 19) rec) in
    let* pos := usize_add pos reclen in
    Ret (Some (mkRawDirent (le_dec ino) ty (before_nul name_region), pos)).

Fixpoint dirents_from (fuel : nat) (buf : list Z) (pos : Z) : Prog (list RawDirent) :=
  let* e := dirents_next buf pos in
  match e with
  | None => Ret []
  | Some (e, pos) =>
      match fuel with
      | O => NoFuel
      | S fuel => let* es := dirents_from fuel buf pos in Ret (e :: es)
      end
  end.

(** [dirents(buf).collect()]: every record is at least 19 bytes, so the
    buffer's length is fuel enough. *)
Definition dirents (buf : list Z) : Prog (list RawDirent) :=
  dirents_from (length buf) buf 0.
