(* ===== verification/Process.v ===== *)
(** Processes ([src/process.rs]): identity and credentials, priorities, [uname],
    signalling, [fork], [clone3], [exec] and the spawn wrappers. *)

From stdpp Require Import base list option numbers strings.
From Stdlib Require Import ZArith Lia.
From S2P Require Import Prelude Prog Layout Asm Arch Fd Trampoline.

#[local] Obligation Tactic := solve_kstruct.

Definition KEEP_ID : Z := 2 ^ 32 - 1.
Definition PRIO_PROCESS : Z := 0.
Definition PRIO_PGRP : Z := 1.
Definition PRIO_USER : Z := 2.
Definition PR_SET_PDEATHSIG : Z := 1.
Definition PR_GET_PDEATHSIG : Z := 2.
Definition FORK_SIGCHLD : Z := 17.
Definition CLONE_PIDFD : Z := 0x1000.
Definition CLONE_VM : Z := 0x100.
Definition CLONE_VFORK : Z := 0x4000.

(** [struct new_utsname] *)
Record Utsname := mkUtsname {
  sysname : list Z; nodename : list Z; release : list Z; version : list Z;
  machine : list Z; domainname : list Z }.

#[export] Program Instance Utsname_kstruct : KStruct Utsname := {
  ks_packed := false;
  ks_fields := [FArr 1 65; FArr 1 65; FArr 1 65; FArr 1 65; FArr 1 65; FArr 1 65];
  ks_vals p :=
    [VA (sysname p); VA (nodename p); VA (release p); VA (version p); VA (machine p);
     VA (domainname p)];
  ks_of vs :=
    mkUtsname (va vs 0) (va vs 1) (va vs 2) (va vs 3) (va vs 4) (va vs 5) }.

Definition Utsname_default : Utsname :=
  mkUtsname (replicate 65 0) (replicate 65 0) (replicate 65 0) (replicate 65 0)
    (replicate 65 0) (replicate 65 0).

(** [Utsname::field]: the C string in the field; no NUL panics. *)
Definition uts_field (b : list Z) : Prog (list Z) := or_panic (until_nul b).

(** A range of another process: its base is a number, never a pointer. *)
Record RemoteIoVec := mkRemoteIoVec {
  riov_base : Z; riov_len : Z }.

#[export] Program Instance RemoteIoVec_kstruct : KStruct RemoteIoVec := {
  ks_packed := false;
  ks_fields := [u64; u64];
  ks_vals p :=
    [VI (riov_base p); VI (riov_len p)];
  ks_of vs :=
    mkRemoteIoVec (vi vs 0) (vi vs 1) }.

Definition RemoteIoVec_new (base len : Z) : RemoteIoVec := mkRemoteIoVec base len.

(** [struct clone_args] *)
Record Clone3Args := mkClone3Args {
  cl_flags : Z; cl_pidfd : Z; cl_child_tid : Z; cl_parent_tid : Z; cl_exit_signal : Z;
  cl_stack : Z; cl_stack_size : Z; cl_tls : Z; cl_set_tid : Z; cl_set_tid_size : Z;
  cl_cgroup : Z }.

#[export] Program Instance Clone3Args_kstruct : KStruct Clone3Args := {
  ks_packed := false;
  ks_fields := [u64; u64; u64; u64; u64; u64; u64; u64; u64; u64; u64];
  ks_vals p :=
    [VI (cl_flags p); VI (cl_pidfd p); VI (cl_child_tid p); VI (cl_parent_tid p);
     VI (cl_exit_signal p); VI (cl_stack p); VI (cl_stack_size p); VI (cl_tls p);
     VI (cl_set_tid p); VI (cl_set_tid_size p); VI (cl_cgroup p)];
  ks_of vs :=
    mkClone3Args (vi vs 0) (vi vs 1) (vi vs 2) (vi vs 3) (vi vs 4) (vi vs 5) (vi vs 6) (vi vs 7)
      (vi vs 8) (vi vs 9) (vi vs 10) }.

Definition Clone3Args_default : Clone3Args := mkClone3Args 0 0 0 0 0 0 0 0 0 0 0.

Section Process.
Context `{Target}.

(** ** Identity *)

Definition getpid : Prog Z :=
  let* r := syscall0 (nr GETPID) in Ret (as_i32 (r_ret r)).

Definition getppid : Prog Z :=
  let* r := syscall0 (nr GETPPID) in Ret (as_i32 (r_ret r)).

Definition gettid : Prog Z :=
  let* r := syscall0 (nr GETTID) in Ret (as_i32 (r_ret r)).

Definition getuid : Prog Z :=
  let* r := syscall0 (nr GETUID) in Ret (as_u32 (r_ret r)).

Definition geteuid : Prog Z :=
  let* r := syscall0 (nr GETEUID) in Ret (as_u32 (r_ret r)).

Definition getgid : Prog Z :=
  let* r := syscall0 (nr GETGID) in Ret (as_u32 (r_ret r)).

Definition getegid : Prog Z :=
  let* r := syscall0 (nr GETEGID) in Ret (as_u32 (r_ret r)).

Definition ngroups : Prog (result Z) :=
  let* r := syscall2 (nr GETGROUPS) (int 0) (int 0) in Ret (from_ret (r_ret r)).

(** A slice of [u32] as the kernel sees it. *)
Definition u32s (l : list Z) : list Z := concat (map (le_enc 4) l).

(** The whole buffer, and the filled prefix the result borrows. *)
Definition getgroups (buf : list Z) : Prog (list Z * result (list Z)) :=
  let* r := syscall2 (nr GETGROUPS) (len buf) (AMut (u32s buf)) in
  let buf := arr_dec 4 (length buf) (out 0 r) in
  match from_ret (r_ret r) with
  | Err e => Ret (buf, Err e)
  | Ok n => let* t := or_panic (slice_to n buf) in Ret (buf, Ok t)
  end.

(** ** Credentials *)

Definition setuid (uid : Z) : Prog (result unit) :=
  let* r := syscall1 (nr SETUID) (int uid) in Ret (ret_unit r).

Definition setgid (gid : Z) : Prog (result unit) :=
  let* r := syscall1 (nr SETGID) (int gid) in Ret (ret_unit r).

Definition getresuid : Prog (result (Z * Z * Z)) :=
  let* r := syscall3 (nr GETRESUID) (AMut (le_enc 4 0)) (AMut (le_enc 4 0)) (AMut (le_enc 4 0)) in
  let? _ := Ret (from_ret (r_ret r)) in
  Ret (Ok (dec_u32 (out 0 r), dec_u32 (out 1 r), dec_u32 (out 2 r))).

Definition getresgid : Prog (result (Z * Z * Z)) :=
  let* r := syscall3 (nr GETRESGID) (AMut (le_enc 4 0)) (AMut (le_enc 4 0)) (AMut (le_enc 4 0)) in
  let? _ := Ret (from_ret (r_ret r)) in
  Ret (Ok (dec_u32 (out 0 r), dec_u32 (out 1 r), dec_u32 (out 2 r))).

Definition setresuid (ruid euid suid : Z) : Prog (result unit) :=
  let* r := syscall3 (nr SETRESUID) (int ruid) (int euid) (int suid) in Ret (ret_unit r).

Definition setresgid (rgid egid sgid : Z) : Prog (result unit) :=
  let* r := syscall3 (nr SETRESGID) (int rgid) (int egid) (int sgid) in Ret (ret_unit r).

Definition seteuid (euid : Z) : Prog (result unit) := setresuid KEEP_ID euid KEEP_ID.
Definition setegid (egid : Z) : Prog (result unit) := setresgid KEEP_ID egid KEEP_ID.

Definition setgroups (gids : list Z) : Prog (result unit) :=
  let* r := syscall2 (nr SETGROUPS) (len gids) (ARef (u32s gids)) in Ret (ret_unit r).

(** ** Priorities *)

(** The raw call answers [20 - nice]; the subtraction is on [i32] and checked. *)
Definition getpriority (which who : Z) : Prog (result Z) :=
  let* r := syscall2 (nr GETPRIORITY) (int which) (int who) in
  let? raw := Ret (from_ret (r_ret r)) in
  let n := 20 - as_i32 raw in
  if decide (is_i32 n) then Ret (Ok n) else Panic.

Definition setpriority (which who prio : Z) : Prog (result unit) :=
  let* r := syscall3 (nr SETPRIORITY) (int which) (int who) (int prio) in Ret (ret_unit r).

(** [current + inc] is on [i32] and checked. *)
Definition nice (inc : Z) : Prog (result Z) :=
  let? current := getpriority PRIO_PROCESS 0 in
  let target := current + inc in
  if decide (is_i32 target) then
    let? _ := setpriority PRIO_PROCESS 0 target in
    getpriority PRIO_PROCESS 0
  else Panic.

(** ** prctl *)

(** [arg2] may be a pointer: what it pointed at is returned too. *)
Definition prctl (option : Z) (arg2 : Arg) (arg3 arg4 arg5 : Z) :
    Prog (list Z * result Z) :=
  let* r := syscall5 (nr PRCTL) (int option) arg2 (int arg3) (int arg4) (int arg5) in
  Ret (out 0 r, from_ret_i32 (r_ret r)).

Definition set_pdeathsig (sig : Z) : Prog (result unit) :=
  let* (_, r) := prctl PR_SET_PDEATHSIG (int sig) 0 0 0 in Ret (map_ok (fun _ => tt) r).

Definition get_pdeathsig : Prog (result Z) :=
  let* (sig, r) := prctl PR_GET_PDEATHSIG (AMut (le_enc 4 0)) 0 0 0 in
  let? _ := Ret r in
  Ret (Ok (dec_i32 sig)).

Definition uname : Prog (result Utsname) :=
  let buf := Utsname_default in
  let* r := syscall1 (nr UNAME) (AMut (encode buf)) in
  let? _ := Ret (from_ret (r_ret r)) in
  Ret (Ok (decode (out 0 r))).

(** ** Groups and signals *)

Definition setpgid (pid pgid : Z) : Prog (result unit) :=
  let* r := syscall2 (nr SETPGID) (int pid) (int pgid) in Ret (ret_unit r).

Definition kill (pid sig : Z) : Prog (result unit) :=
  let* r := syscall2 (nr KILL) (int pid) (int sig) in Ret (ret_unit r).

(** [pgrp.wrapping_neg()] *)
Definition killpg (pgrp sig : Z) : Prog (result unit) := kill (as_i32 (- pgrp)) sig.

Definition pidfd_open (pid flags : Z) : Prog (result Z) :=
  let* r := syscall2 (nr PIDFD_OPEN) (int pid) (int flags) in Ret (from_ret_i32 (r_ret r)).

Definition pidfd_send_signal (pidfd sig : Z) : Prog (result unit) :=
  let* r := syscall4 (nr PIDFD_SEND_SIGNAL) (int pidfd) (int sig) (int 0) (int 0) in
  Ret (ret_unit r).

(** ** Another process's memory *)

Definition process_vm_readv (pid : Z) (local : list IoSliceMut) (remote : list RemoteIoVec) :
    Prog (list IoSliceMut * result Z) :=
  let* r := syscall6 (nr PROCESS_VM_READV) (int pid) (AMutV local) (len local)
              (ARef (encode_all remote)) (len remote) (int 0) in
  Ret (r_outs r, from_ret (r_ret r)).

Definition process_vm_writev (pid : Z) (local : list IoSlice) (remote : list RemoteIoVec) :
    Prog (result Z) :=
  let* r := syscall6 (nr PROCESS_VM_WRITEV) (int pid) (ARefV local) (len local)
              (ARef (encode_all remote)) (len remote) (int 0) in
  Ret (from_ret (r_ret r)).

(** ** Exit, fork, exec *)

(** [-> !]: if the kernel ever came back, [unreachable_unchecked] would be
    reached, which the model takes as stuck. *)
Definition exit_group (status : Z) : Prog False :=
  let* _ := syscall1 (nr EXIT_GROUP) (int status) in Panic.

Definition fork : Prog (result Z) :=
  let* r := syscall5 (nr CLONE) (int FORK_SIGCHLD) (int 0) (int 0) (int 0) (int 0) in
  Ret (from_ret_i32 (r_ret r)).

Definition pidfd_clone_args : Clone3Args :=
  mkClone3Args CLONE_PIDFD 0 0 0 FORK_SIGCHLD 0 0 0 0 0 0.

Definition fork_with_pidfd : Prog (result (Z * Z)) :=
  let* r := syscall2 (nr CLONE3) (AMut (encode pidfd_clone_args))
              (int (Z.of_nat (size_of Clone3Args))) in
  let args := decode (out 0 r) in
  let? pid := Ret (from_ret_i32 (r_ret r)) in
  if pid =? 0 then Ret (Ok (0, -1)) else Ret (Ok (pid, as_i32 (cl_pidfd args))).

(** [argv] and [envp] are raw pointers: addresses. *)
Definition execve (path : list Z) (argv envp : Z) : Prog Errno :=
  let* r := syscall3 (nr EXECVE) (cstr path) (int argv) (int envp) in
  Ret (match from_ret (r_ret r) with Ok _ => mkErrno 0 | Err e => e end).

Definition execveat (dirfd : Z) (path : list Z) (argv envp flags : Z) : Prog Errno :=
  let* r := syscall5 (nr EXECVEAT) (int dirfd) (cstr path) (int argv) (int envp) (int flags) in
  Ret (match from_ret (r_ret r) with Ok _ => mkErrno 0 | Err e => e end).

Definition vfork_flags : Z := Z.lor (Z.lor CLONE_VFORK CLONE_VM) FORK_SIGCHLD.

(** [text] locates the trampoline's instructions. *)
Definition vfork_exec (text : nat -> Z) (path : list Z) (argv envp : Z) : Prog (result Z) :=
  let* r := vfork_execve text (int vfork_flags) (cstr path) (int argv) (int envp) in
  Ret (from_ret_i32 (r_ret r)).

Definition vfork_exec_redirected (text : nat -> Z) (path : list Z) (argv envp : Z)
    (redirects : list Redirect) : Prog (result Z) :=
  let* r := vfork_execve_redirected text (int vfork_flags) (cstr path) (int argv) (int envp)
              redirects in
  Ret (from_ret_i32 (r_ret r)).

(** ** Directories and sessions *)

Definition chdir (path : list Z) : Prog (result unit) :=
  let* r := syscall1 (nr CHDIR) (cstr path) in Ret (ret_unit r).

Definition fchdir (fd : Z) : Prog (result unit) :=
  let* r := syscall1 (nr FCHDIR) (int fd) in Ret (ret_unit r).

(** [len.saturating_sub(1)] drops the NUL the kernel counts. *)
Definition getcwd (buf : list Z) : Prog (list Z * result (list Z)) :=
  let* r := syscall2 (nr GETCWD) (AMut buf) (len buf) in
  let buf := out 0 r in
  match from_ret (r_ret r) with
  | Err e => Ret (buf, Err e)
  | Ok n => let* t := or_panic (slice_to (Z.max 0 (n - 1)) buf) in Ret (buf, Ok t)
  end.

Definition setsid : Prog (result Z) :=
  let* r := syscall0 (nr SETSID) in Ret (from_ret_i32 (r_ret r)).

Definition getpgid (pid : Z) : Prog (result Z) :=
  let* r := syscall1 (nr GETPGID) (int pid) in Ret (from_ret_i32 (r_ret r)).

Definition getsid (pid : Z) : Prog (result Z) :=
  let* r := syscall1 (nr GETSID) (int pid) in Ret (from_ret_i32 (r_ret r)).

Definition getpgrp : Prog (result Z) := getpgid 0.
End Process.

(** ** [CStrArray]

    [CString::new] refuses an interior NUL; [new] stops at the first refusal. *)
Definition cstring_new (s : list Z) : option (list Z) :=
  if existsb (fun c => c =? 0) s then None else Some (s ++ [0]).

Fixpoint collect_cstrings (l : list (list Z)) : option (list (list Z)) :=
  match l with
  | [] => Some []
  | s :: l =>
      match cstring_new s with
      | None => None
      | Some c => option_map (cons c) (collect_cstrings l)
      end
  end.

(** The pointer array: each pointer is modelled by the string it points at, the
    trailing null by [None]. *)
Record CStrArray := mkCStrArray {
  owned : list (list Z);
  ptrs : list (option (list Z)) }.

Definition CStrArray_new (strings : list (list Z)) : option CStrArray :=
  match collect_cstrings strings with
  | None => None
  | Some owned => Some (mkCStrArray owned (map Some owned ++ [None]))
  end.

Definition as_ptr (a : CStrArray) : list (option (list Z)) := ptrs a.
