(* ===== verification/Signal.v ===== *)
(** Signals ([src/signal.rs]): dispositions, masks, [signalfd], [sigqueue], and
    the x86_64 return trampoline; and the theorem on mask bits. *)

From stdpp Require Import base list option numbers strings.
From Stdlib Require Import ZArith Lia.
From S2P Require Import Prelude Prog Layout Asm Arch Process.

#[local] Obligation Tactic := solve_kstruct.

Definition SIG_DFL : Z := 0.
Definition SIG_IGN : Z := 1.

Definition SIGHUP : Z := 1.
Definition SIGINT : Z := 2.
Definition SIGQUIT : Z := 3.
Definition SIGILL : Z := 4.
Definition SIGTRAP : Z := 5.
Definition SIGABRT : Z := 6.
Definition SIGBUS : Z := 7.
Definition SIGFPE : Z := 8.
Definition SIGKILL : Z := 9.
Definition SIGUSR1 : Z := 10.
Definition SIGSEGV : Z := 11.
Definition SIGUSR2 : Z := 12.
Definition SIGPIPE : Z := 13.
Definition SIGALRM : Z := 14.
Definition SIGTERM : Z := 15.
Definition SIGSTKFLT : Z := 16.
Definition SIGCHLD : Z := 17.
Definition SIGCONT : Z := 18.
Definition SIGSTOP : Z := 19.
Definition SIGTSTP : Z := 20.
Definition SIGTTIN : Z := 21.
Definition SIGTTOU : Z := 22.
Definition SIGURG : Z := 23.
Definition SIGXCPU : Z := 24.
Definition SIGXFSZ : Z := 25.
Definition SIGVTALRM : Z := 26.
Definition SIGPROF : Z := 27.
Definition SIGWINCH : Z := 28.
Definition SIGIO : Z := 29.
Definition SIGPWR : Z := 30.
Definition SIGSYS : Z := 31.

Definition SA_NOCLDSTOP : Z := 0x00000001.
Definition SA_NOCLDWAIT : Z := 0x00000002.
Definition SA_SIGINFO : Z := 0x00000004.
Definition SA_RESTART : Z := 0x10000000.
Definition SA_NODEFER : Z := 0x40000000.
Definition SA_RESETHAND : Z := 0x80000000.
Definition SA_RESTORER : Z := 0x04000000.

Definition SIGSETSIZE : Z := 8.
Definition SIG_BLOCK : Z := 0.
Definition SIG_UNBLOCK : Z := 1.
Definition SIG_SETMASK : Z := 2.
Definition SFD_NONBLOCK : Z := oct 4000.
Definition SFD_CLOEXEC : Z := oct 2000000.
Definition SI_QUEUE : Z := -1.

(** The kernel's [struct sigaction]. *)
Record KernelSigaction := mkKernelSigaction {
  sa_handler : Z; sa_flags : Z; sa_restorer : Z; sa_mask : Z }.

#[export] Program Instance KernelSigaction_kstruct : KStruct KernelSigaction := {
  ks_packed := false;
  ks_fields := [u64; u64; u64; u64];
  ks_vals p :=
    [VI (sa_handler p); VI (sa_flags p); VI (sa_restorer p); VI (sa_mask p)];
  ks_of vs :=
    mkKernelSigaction (vi vs 0) (vi vs 1) (vi vs 2) (vi vs 3) }.

(** [struct signalfd_siginfo] *)
Record SignalfdSiginfo := mkSignalfdSiginfo {
  ssi_signo : Z; ssi_errno : Z; ssi_code : Z; ssi_pid : Z; ssi_uid : Z; ssi_fd : Z;
  ssi_tid : Z; ssi_band : Z; ssi_overrun : Z; ssi_trapno : Z; ssi_status : Z; ssi_int : Z;
  ssi_ptr : Z; ssi_utime : Z; ssi_stime : Z; ssi_addr : Z; ssi_addr_lsb : Z; ssi_pad2 : Z;
  ssi_syscall : Z; ssi_call_addr : Z; ssi_arch : Z; ssi_pad : list Z }.

#[export] Program Instance SignalfdSiginfo_kstruct : KStruct SignalfdSiginfo := {
  ks_packed := false;
  ks_fields := [u32; i32; i32; u32; u32; i32; u32; u32; u32; u32; i32; i32; u64; u64; u64; u64; u16;
    u16; i32; u64; u32; FArr 1 28];
  ks_vals p :=
    [VI (ssi_signo p); VI (ssi_errno p); VI (ssi_code p); VI (ssi_pid p); VI (ssi_uid p);
     VI (ssi_fd p); VI (ssi_tid p); VI (ssi_band p); VI (ssi_overrun p);
     VI (ssi_trapno p); VI (ssi_status p); VI (ssi_int p); VI (ssi_ptr p);
     VI (ssi_utime p); VI (ssi_stime p); VI (ssi_addr p); VI (ssi_addr_lsb p);
     VI (ssi_pad2 p); VI (ssi_syscall p); VI (ssi_call_addr p); VI (ssi_arch p);
     VA (ssi_pad p)];
  ks_of vs :=
    mkSignalfdSiginfo (vi vs 0) (vi vs 1) (vi vs 2) (vi vs 3) (vi vs 4) (vi vs 5) (vi vs 6) (vi vs 7)
      (vi vs 8) (vi vs 9) (vi vs 10) (vi vs 11) (vi vs 12) (vi vs 13) (vi vs 14)
      (vi vs 15) (vi vs 16) (vi vs 17) (vi vs 18) (vi vs 19) (vi vs 20) (va vs 21) }.

(** The part of [siginfo_t] [rt_sigqueueinfo] reads. *)
Record SigqueueInfo := mkSigqueueInfo {
  sq_signo : Z; sq_errno : Z; sq_code : Z; sq_pad0 : Z; sq_pid : Z; sq_uid : Z;
  sq_value : Z; sq_pad : list Z }.

#[export] Program Instance SigqueueInfo_kstruct : KStruct SigqueueInfo := {
  ks_packed := false;
  ks_fields := [i32; i32; i32; i32; i32; u32; u64; FArr 1 96];
  ks_vals p :=
    [VI (sq_signo p); VI (sq_errno p); VI (sq_code p); VI (sq_pad0 p); VI (sq_pid p);
     VI (sq_uid p); VI (sq_value p); VA (sq_pad p)];
  ks_of vs :=
    mkSigqueueInfo (vi vs 0) (vi vs 1) (vi vs 2) (vi vs 3) (vi vs 4) (vi vs 5) (vi vs 6) (va vs 7) }.

(** [1u64 << (sig - 1) as u64]: the subtraction and the shift amount are
    checked. *)
Definition sigmask (sig : Z) : Prog Z :=
  let n := sig - 1 in
  if n <? - 2 ^ 31 then Panic
  else if as_u64 n <? 64 then Ret (as_u64 (Z.shiftl 1 (as_u64 n))) else Panic.

(** [sigreturn_trampoline]: [mov rax, RT_SIGRETURN; syscall]. *)
Definition sigreturn_trampoline `{Target} : list xinstr :=
  [XMovI RAX (nrz RT_SIGRETURN); XSyscall].

Section Signal.
(** [trampoline]: the address of [sigreturn_trampoline]. *)
Context `{Target} (trampoline : Z).

Definition sigprocmask (how set : Z) : Prog (result Z) :=
  let* r := syscall4 (nr RT_SIGPROCMASK) (int how) (ARef (le_enc 8 set))
              (AMut (le_enc 8 0)) (int SIGSETSIZE) in
  let? _ := Ret (from_ret (r_ret r)) in
  Ret (Ok (dec_u64 (out 0 r))).

Definition new_sigaction (handler flags : Z) : KernelSigaction :=
  let (sa_flags, sa_restorer) :=
    match arch with
    | X86_64 => (Z.lor flags SA_RESTORER, trampoline)
    | Aarch64 => (flags, 0)
    end in
  mkKernelSigaction handler sa_flags sa_restorer 0.

Definition install (sig handler flags : Z) : Prog (result Z) :=
  let old := mkKernelSigaction 0 0 0 0 in
  let* r := syscall4 (nr RT_SIGACTION) (int sig) (ARef (encode (new_sigaction handler flags)))
              (AMut (encode old)) (int SIGSETSIZE) in
  let? _ := Ret (from_ret (r_ret r)) in
  Ret (Ok (sa_handler (decode (out 0 r)))).

Definition signal (sig handler : Z) : Prog (result Z) := install sig handler SA_RESTART.
Definition sigaction (sig handler flags : Z) : Prog (result Z) := install sig handler flags.

Definition sigpending : Prog (result Z) :=
  let* r := syscall2 (nr RT_SIGPENDING) (AMut (le_enc 8 0)) (int SIGSETSIZE) in
  let? _ := Ret (from_ret (r_ret r)) in
  Ret (Ok (dec_u64 (out 0 r))).

Definition sigsuspend (mask : Z) : Prog Errno :=
  let* r := syscall2 (nr RT_SIGSUSPEND) (ARef (le_enc 8 mask)) (int SIGSETSIZE) in
  Ret (match from_ret (r_ret r) with Ok _ => mkErrno 0 | Err e => e end).

Definition signalfd (fd mask flags : Z) : Prog (result Z) :=
  let* r := syscall4 (nr SIGNALFD4) (int fd) (ARef (le_enc 8 mask)) (int SIGSETSIZE)
              (int flags) in
  Ret (from_ret_i32 (r_ret r)).

Definition sigqueue (pid sig value : Z) : Prog (result unit) :=
  let* si_pid := getpid in
  let* si_uid := getuid in
  let info := mkSigqueueInfo sig 0 SI_QUEUE 0 si_pid si_uid value (replicate 96 0) in
  let* r := syscall3 (nr RT_SIGQUEUEINFO) (int pid) (int sig) (ARef (encode info)) in
  Ret (ret_unit r).
End Signal.

(** ** Properties *)

Lemma sigmask_cases sig :
  is_i32 sig -> sigmask sig = (if (1 <=? sig) && (sig <=? 64) then Ret (2 ^ (sig - 1)) else Panic).
Proof.
  intros Hs. int_ranges. unfold sigmask. destruct (Z.ltb_spec (sig - 1) (- 2 ^ 31)).
  { by destruct (Z.leb_spec 1 sig); [lia|]. }
  unfold as_u64. destruct (Z.leb_spec 1 sig); cbn [andb].
  - rewrite !(wrap_small _ (sig - 1)) by lia.
    destruct (Z.ltb_spec (sig - 1) 64), (Z.leb_spec sig 64); try lia; [|done].
    rewrite Z.shiftl_1_l. rewrite wrap_small; [done|].
    split; [by apply Z.pow_nonneg|]. apply Z.pow_lt_mono_r; lia.
  - assert (wrap 64 (sig - 1) = sig - 1 + 2 ^ 64) as ->.
    { unfold wrap. rewrite <- (Z.mod_add (sig - 1) 1) by lia. rewrite Z.mod_small; lia. }
    by destruct (Z.ltb_spec (sig - 1 + 2 ^ 64) 64); [lia|].
Qed.

Lemma sigbit_range sig : 1 <= sig <= 64 -> is_u64 (2 ^ (sig - 1)).
Proof. intros. split; [by apply Z.pow_nonneg|]. apply Z.pow_lt_mono_r; lia. Qed.

(** [sigmask] maps the 64 signals one to one onto the bits of a mask, signal
    [n] to bit [n - 1], and panics on every other number rather than shift out of
    range. *)
Theorem sigmask_correct sig :
  is_i32 sig ->
  sigmask sig = (if (1 <=? sig) && (sig <=? 64) then Ret (2 ^ (sig - 1)) else Panic) /\
  (1 <= sig <= 64 -> is_u64 (2 ^ (sig - 1)) /\
    forall i, 0 <= i -> Z.testbit (2 ^ (sig - 1)) i = (i =? sig - 1)).
Proof.
  intros Hs. split; [by apply sigmask_cases|]. intros H. split; [by apply sigbit_range|].
  intros i Hi. rewrite Z.pow2_bits_eqb by lia. apply Z.eqb_sym.
Qed.

Lemma sigmask_correct_witness : sigmask SIGTERM = Ret 0x4000 /\ sigmask 0 = Panic.
Proof.
  split.
  - apply (sigmask_correct SIGTERM). by split.
  - apply (sigmask_correct 0). by split.
Defined.
