(* ===== verification/Socket.v ===== *)
(** TCP and UDP sockets ([src/socket.rs]). *)

From stdpp Require Import base list option numbers strings.
From Stdlib Require Import ZArith Lia.
From S2P Require Import Prelude Prog Layout Asm Arch.

#[local] Obligation Tactic := solve_kstruct.

Definition AF_INET : Z := 2.
Definition AF_INET6 : Z := 10.
Definition SOCK_STREAM : Z := 1.
Definition SOCK_DGRAM : Z := 2.
Definition SOCK_CLOEXEC : Z := oct 2000000.
Definition SOCK_NONBLOCK : Z := oct 4000.
Definition SHUT_RD : Z := 0.
Definition SHUT_WR : Z := 1.
Definition SHUT_RDWR : Z := 2.

(** [struct sockaddr_in]; [sin_port] is in network byte order. *)
Record SockAddrIn := mkSockAddrIn {
  sin_family : Z; sin_port : Z; sin_addr : list Z; sin_zero : list Z }.

#[export] Program Instance SockAddrIn_kstruct : KStruct SockAddrIn := {
  ks_packed := false;
  ks_fields := [u16; u16; FArr 1 4; FArr 1 8];
  ks_vals p :=
    [VI (sin_family p); VI (sin_port p); VA (sin_addr p); VA (sin_zero p)];
  ks_of vs :=
    mkSockAddrIn (vi vs 0) (vi vs 1) (va vs 2) (va vs 3) }.

(** [struct sockaddr_in6] *)
Record SockAddrIn6 := mkSockAddrIn6 {
  sin6_family : Z; sin6_port : Z; sin6_flowinfo : Z; sin6_addr : list Z; sin6_scope_id : Z }.

#[export] Program Instance SockAddrIn6_kstruct : KStruct SockAddrIn6 := {
  ks_packed := false;
  ks_fields := [u16; u16; u32; FArr 1 16; u32];
  ks_vals p :=
    [VI (sin6_family p); VI (sin6_port p); VI (sin6_flowinfo p); VA (sin6_addr p);
     VI (sin6_scope_id p)];
  ks_of vs :=
    mkSockAddrIn6 (vi vs 0) (vi vs 1) (vi vs 2) (va vs 3) (vi vs 4) }.

(** [u16::to_be] and [u16::from_be] on a little-endian target: the two bytes
    swapped. *)
Definition swap16 (z : Z) : Z := le_dec (be_enc 2 z).
Definition to_be16 (z : Z) : Z := swap16 z.
Definition from_be16 (z : Z) : Z := swap16 z.

Definition SockAddrIn_new (octets : list Z) (port : Z) : SockAddrIn :=
  mkSockAddrIn (as_u16 AF_INET) (to_be16 port) octets (replicate 8 0).
Definition sin_octets (a : SockAddrIn) : list Z := sin_addr a.
Definition sin_port_host (a : SockAddrIn) : Z := from_be16 (sin_port a).

Definition SockAddrIn6_new (octets : list Z) (port : Z) : SockAddrIn6 :=
  mkSockAddrIn6 (as_u16 AF_INET6) (to_be16 port) 0 octets 0.
Definition sin6_octets (a : SockAddrIn6) : list Z := sin6_addr a.
Definition sin6_port_host (a : SockAddrIn6) : Z := from_be16 (sin6_port a).

(** The zeroed address a query passes for the kernel to fill. *)
Definition SockAddrIn_zero : SockAddrIn := mkSockAddrIn 0 0 (replicate 4 0) (replicate 8 0).
Definition SockAddrIn6_zero : SockAddrIn6 := mkSockAddrIn6 0 0 0 (replicate 16 0) 0.

Section Socket.
Context `{Target}.

(** [size_of::<T>()] as an argument, and [&mut addrlen] holding it. *)
Definition sizeof (A : Type) `{KStruct A} : Arg := int (Z.of_nat (size_of A)).
Definition addrlen (A : Type) `{KStruct A} : Arg :=
  AMut (le_enc 4 (as_u32 (Z.of_nat (size_of A)))).

Definition socket (domain ty protocol : Z) : Prog (result Z) :=
  let* r := syscall3 (nr SOCKET) (int domain) (int ty) (int protocol) in
  Ret (from_ret_i32 (r_ret r)).

Definition bind_in (fd : Z) (addr : SockAddrIn) : Prog (result unit) :=
  let* r := syscall3 (nr BIND) (int fd) (ARef (encode addr)) (sizeof SockAddrIn) in
  Ret (ret_unit r).

Definition bind_in6 (fd : Z) (addr : SockAddrIn6) : Prog (result unit) :=
  let* r := syscall3 (nr BIND) (int fd) (ARef (encode addr)) (sizeof SockAddrIn6) in
  Ret (ret_unit r).

Definition connect_in (fd : Z) (addr : SockAddrIn) : Prog (result unit) :=
  let* r := syscall3 (nr CONNECT) (int fd) (ARef (encode addr)) (sizeof SockAddrIn) in
  Ret (ret_unit r).

Definition connect_in6 (fd : Z) (addr : SockAddrIn6) : Prog (result unit) :=
  let* r := syscall3 (nr CONNECT) (int fd) (ARef (encode addr)) (sizeof SockAddrIn6) in
  Ret (ret_unit r).

Definition listen (fd backlog : Z) : Prog (result unit) :=
  let* r := syscall2 (nr LISTEN) (int fd) (int backlog) in Ret (ret_unit r).

Definition accept (fd : Z) : Prog (result Z) :=
  let* r := syscall3 (nr ACCEPT) (int fd) (int 0) (int 0) in Ret (from_ret_i32 (r_ret r)).

Definition accept4_in (fd flags : Z) : Prog (result (Z * SockAddrIn)) :=
  let* r := syscall4 (nr ACCEPT4) (int fd) (AMut (encode SockAddrIn_zero)) (addrlen SockAddrIn)
              (int flags) in
  let? newfd := Ret (from_ret_i32 (r_ret r)) in
  Ret (Ok (newfd, decode (out 0 r))).

Definition accept4_in6 (fd flags : Z) : Prog (result (Z * SockAddrIn6)) :=
  let* r := syscall4 (nr ACCEPT4) (int fd) (AMut (encode SockAddrIn6_zero)) (addrlen SockAddrIn6)
              (int flags) in
  let? newfd := Ret (from_ret_i32 (r_ret r)) in
  Ret (Ok (newfd, decode (out 0 r))).

Definition getsockname_in (fd : Z) : Prog (result SockAddrIn) :=
  let* r := syscall3 (nr GETSOCKNAME) (int fd) (AMut (encode SockAddrIn_zero)) (addrlen SockAddrIn) in
  let? _ := Ret (from_ret (r_ret r)) in
  Ret (Ok (decode (out 0 r))).

Definition getsockname_in6 (fd : Z) : Prog (result SockAddrIn6) :=
  let* r := syscall3 (nr GETSOCKNAME) (int fd) (AMut (encode SockAddrIn6_zero)) (addrlen SockAddrIn6) in
  let? _ := Ret (from_ret (r_ret r)) in
  Ret (Ok (decode (out 0 r))).

Definition getpeername_in (fd : Z) : Prog (result SockAddrIn) :=
  let* r := syscall3 (nr GETPEERNAME) (int fd) (AMut (encode SockAddrIn_zero)) (addrlen SockAddrIn) in
  let? _ := Ret (from_ret (r_ret r)) in
  Ret (Ok (decode (out 0 r))).

Definition getpeername_in6 (fd : Z) : Prog (result SockAddrIn6) :=
  let* r := syscall3 (nr GETPEERNAME) (int fd) (AMut (encode SockAddrIn6_zero)) (addrlen SockAddrIn6) in
  let? _ := Ret (from_ret (r_ret r)) in
  Ret (Ok (decode (out 0 r))).

Definition send (fd : Z) (buf : list Z) (flags : Z) : Prog (result Z) :=
  let* r := syscall6 (nr SENDTO) (int fd) (ARef buf) (len buf) (int flags) (int 0) (int 0) in
  Ret (from_ret (r_ret r)).

Definition recv (fd : Z) (buf : list Z) (flags : Z) : Prog (list Z * result Z) :=
  let* r := syscall6 (nr RECVFROM) (int fd) (AMut buf) (len buf) (int flags) (int 0) (int 0) in
  Ret (out 0 r, from_ret (r_ret r)).

Definition sendto_in (fd : Z) (buf : list Z) (flags : Z) (dest : SockAddrIn) : Prog (result Z) :=
  let* r := syscall6 (nr SENDTO) (int fd) (ARef buf) (len buf) (int flags)
              (ARef (encode dest)) (sizeof SockAddrIn) in
  Ret (from_ret (r_ret r)).

Definition sendto_in6 (fd : Z) (buf : list Z) (flags : Z) (dest : SockAddrIn6) : Prog (result Z) :=
  let* r := syscall6 (nr SENDTO) (int fd) (ARef buf) (len buf) (int flags)
              (ARef (encode dest)) (sizeof SockAddrIn6) in
  Ret (from_ret (r_ret r)).

Definition recvfrom_in (fd : Z) (buf : list Z) (flags : Z) :
    Prog (list Z * result (Z * SockAddrIn)) :=
  let* r := syscall6 (nr RECVFROM) (int fd) (AMut buf) (len buf) (int flags)
              (AMut (encode SockAddrIn_zero)) (addrlen SockAddrIn) in
  Ret (out 0 r, map_ok (fun n => (n, decode (out 1 r))) (from_ret (r_ret r))).

Definition recvfrom_in6 (fd : Z) (buf : list Z) (flags : Z) :
    Prog (list Z * result (Z * SockAddrIn6)) :=
  let* r := syscall6 (nr RECVFROM) (int fd) (AMut buf) (len buf) (int flags)
              (AMut (encode SockAddrIn6_zero)) (addrlen SockAddrIn6) in
  Ret (out 0 r, map_ok (fun n => (n, decode (out 1 r))) (from_ret (r_ret r))).

Definition shutdown (fd how : Z) : Prog (result unit) :=
  let* r := syscall2 (nr SHUTDOWN) (int fd) (int how) in Ret (ret_unit r).
End Socket.

(** ** Properties *)

Lemma swap16_involutive z : is_u16 z -> swap16 (swap16 z) = z.
Proof.
  intros Hz. unfold swap16.
  pose proof (le_dec_range (be_enc 2 z) (be_enc_bytes 2 z)) as Hr. rewrite be_enc_length in Hr.
  set (l := be_enc 2 z) in *. assert (length l = 2%nat) as Hl by apply be_enc_length.
  assert (be_enc 2 (le_dec l) = rev l) as ->.
  { unfold be_enc. rewrite <- Hl. by rewrite le_enc_dec by apply be_enc_bytes. }
  change (le_dec (rev l)) with (be_dec l). apply be_dec_enc_small. exact Hz.
Qed.

Lemma le_enc_swap16 z : le_enc 2 (swap16 z) = be_enc 2 z.
Proof.
  unfold swap16. rewrite <- (be_enc_length 2 z) at 1. apply le_enc_dec, be_enc_bytes.
Qed.

Lemma octets_fit n l : length l = n -> bytes_ok l -> fits (FArr 1 n) (VA l).
Proof. done. Qed.
Lemma zeros_fit n : fits (FArr 1 n) (VA (replicate n 0)).
Proof. split; [apply length_replicate|]. apply Forall_replicate. simpl. lia. Qed.
Lemma swap16_range z : is_u16 (swap16 z).
Proof.
  pose proof (le_dec_range (be_enc 2 z) (be_enc_bytes 2 z)) as Hr. by rewrite be_enc_length in Hr.
Qed.

Lemma SockAddrIn_new_typed octets port :
  length octets = 4%nat -> bytes_ok octets -> well_typed (SockAddrIn_new octets port).
Proof.
  intros Hl Ho. unfold well_typed. cbn [ks_fields ks_vals SockAddrIn_kstruct].
  repeat apply Forall2_cons_2; auto using octets_fit, Forall2_nil_2.
  - by split.
  - apply swap16_range.
  - apply (zeros_fit 8).
Qed.

Lemma SockAddrIn6_new_typed octets port :
  length octets = 16%nat -> bytes_ok octets -> well_typed (SockAddrIn6_new octets port).
Proof.
  intros Hl Ho. unfold well_typed. cbn [ks_fields ks_vals SockAddrIn6_kstruct].
  repeat apply Forall2_cons_2; auto using octets_fit, Forall2_nil_2; try by split.
  apply swap16_range.
Qed.

Lemma swap16_bytes z :
  swap16 z mod 256 = z / 256 mod 256 /\ swap16 z / 256 mod 256 = z mod 256.
Proof. pose proof (le_enc_swap16 z) as E. by injection E. Qed.

(** Compute the bytes of a structure with symbolic fields. *)
Ltac compute_bytes port :=
  cbv -[Z.modulo Z.div swap16];
  rewrite (proj1 (swap16_bytes port)), (proj2 (swap16_bytes port));
  repeat match goal with
  | H : is_byte ?z |- context [?z mod 256] => rewrite (Z.mod_small z 256 H)
  end; reflexivity.

(** Socket addresses on the wire: [SockAddrIn::new] and [SockAddrIn6::new]
    lay out the family in host order, the port in network order and the octets
    as given, with the rest zero, in the kernel's 16 and 28 bytes; reading the
    bytes back, [port] and [octets] return what was put in. *)
Theorem sockaddr_roundtrip octets port :
  is_u16 port -> bytes_ok octets ->
  (length octets = 4%nat ->
    let a := SockAddrIn_new octets port in
    encode a = [2; 0] ++ be_enc 2 port ++ octets ++ replicate 8 0 /\
    sin_port_host (decode (encode a)) = port /\ sin_octets (decode (encode a)) = octets) /\
  (length octets = 16%nat ->
    let a := SockAddrIn6_new octets port in
    encode a = [10; 0] ++ be_enc 2 port ++ replicate 4 0 ++ octets ++ replicate 4 0 /\
    sin6_port_host (decode (encode a)) = port /\ sin6_octets (decode (encode a)) = octets).
Proof.
  intros Hp Ho. split; intros Hl a.
  - rewrite decode_encode by (by apply SockAddrIn_new_typed).
    split_and!; [|by apply swap16_involutive|done].
    unfold a; clear a. do 4 (destruct octets as [|? octets]; [done|]; apply Forall_cons in Ho as [? Ho]).
    destruct octets; [|done]. compute_bytes port.
  - rewrite decode_encode by (by apply SockAddrIn6_new_typed).
    split_and!; [|by apply swap16_involutive|done].
    unfold a; clear a. do 16 (destruct octets as [|? octets]; [done|]; apply Forall_cons in Ho as [? Ho]).
    destruct octets; [|done]. compute_bytes port.
Qed.

Lemma sockaddr_roundtrip_witness :
  encode (SockAddrIn_new [127; 0; 0; 1] 8080) =
  [2; 0; 0x1F; 0x90; 127; 0; 0; 1; 0; 0; 0; 0; 0; 0; 0; 0].
Proof.
  apply (sockaddr_roundtrip [127; 0; 0; 1] 8080); [by split|repeat constructor; by vm_compute|done].
Defined.
