(* ===== verification/Ptrace.v ===== *)
(** [ptrace(2)] ([src/ptrace.rs]): one typed function per request. *)

From stdpp Require Import base list option numbers strings.
From Stdlib Require Import ZArith Lia.
From S2P Require Import Prelude Prog Layout Asm Arch Wait Fd Trampoline Process Signal.

#[local] Obligation Tactic := solve_kstruct.

Definition PTRACE_TRACEME : Z := 0.
Definition PTRACE_CONT : Z := 7.
Definition PTRACE_SINGLESTEP : Z := 9.
Definition PTRACE_DETACH : Z := 17.
Definition PTRACE_SYSCALL : Z := 24.
Definition PTRACE_SETOPTIONS : Z := 0x4200.
Definition PTRACE_GETREGSET : Z := 0x4204.
Definition PTRACE_SETREGSET : Z := 0x4205.
Definition PTRACE_SEIZE : Z := 0x4206.
Definition NT_PRSTATUS : Z := 1.
Definition PTRACE_O_EXITKILL : Z := Z.shiftl 1 20.
Definition PTRACE_O_TRACESYSGOOD : Z := 1.

(** [struct user_regs_struct] (x86_64) *)
Record GpRegsX86 := mkGpRegsX86 {
  r15 : Z; r14 : Z; r13 : Z; r12 : Z; rbp : Z; rbx : Z; r11 : Z; r10 : Z; r9 : Z; r8 : Z;
  rax : Z; rcx : Z; rdx : Z; rsi : Z; rdi : Z; r_orig_rax : Z; rip : Z; r_cs : Z;
  r_eflags : Z; rsp : Z; r_ss : Z; r_fs_base : Z; r_gs_base : Z; r_ds : Z; r_es : Z;
  r_fs : Z; r_gs : Z }.

#[export] Program Instance GpRegsX86_kstruct : KStruct GpRegsX86 := {
  ks_packed := false;
  ks_fields := [u64; u64; u64; u64; u64; u64; u64; u64; u64; u64; u64; u64; u64; u64; u64; u64; u64;
    u64; u64; u64; u64; u64; u64; u64; u64; u64; u64];
  ks_vals p :=
    [VI (r15 p); VI (r14 p); VI (r13 p); VI (r12 p); VI (rbp p); VI (rbx p); VI (r11 p);
     VI (r10 p); VI (r9 p); VI (r8 p); VI (rax p); VI (rcx p); VI (rdx p); VI (rsi p);
     VI (rdi p); VI (r_orig_rax p); VI (rip p); VI (r_cs p); VI (r_eflags p); VI (rsp p);
     VI (r_ss p); VI (r_fs_base p); VI (r_gs_base p); VI (r_ds p); VI (r_es p);
     VI (r_fs p); VI (r_gs p)];
  ks_of vs :=
    mkGpRegsX86 (vi vs 0) (vi vs 1) (vi vs 2) (vi vs 3) (vi vs 4) (vi vs 5) (vi vs 6) (vi vs 7)
      (vi vs 8) (vi vs 9) (vi vs 10) (vi vs 11) (vi vs 12) (vi vs 13) (vi vs 14)
      (vi vs 15) (vi vs 16) (vi vs 17) (vi vs 18) (vi vs 19) (vi vs 20) (vi vs 21)
      (vi vs 22) (vi vs 23) (vi vs 24) (vi vs 25) (vi vs 26) }.

(** [struct user_pt_regs] (aarch64) *)
Record GpRegsA64 := mkGpRegsA64 {
  a_xs : list Z; a_sp : Z; a_pc : Z; a_pstate : Z }.

#[export] Program Instance GpRegsA64_kstruct : KStruct GpRegsA64 := {
  ks_packed := false;
  ks_fields := [FArr 8 31; u64; u64; u64];
  ks_vals p :=
    [VA (a_xs p); VI (a_sp p); VI (a_pc p); VI (a_pstate p)];
  ks_of vs :=
    mkGpRegsA64 (va vs 0) (vi vs 1) (vi vs 2) (vi vs 3) }.

Definition x86_instruction_pointer (r : GpRegsX86) : Z := rip r.
Definition x86_stack_pointer (r : GpRegsX86) : Z := rsp r.
Definition a64_instruction_pointer (r : GpRegsA64) : Z := a_pc r.
Definition a64_stack_pointer (r : GpRegsA64) : Z := a_sp r.

(** [struct iovec] for the register sets: a single entry naming one buffer.
    The arguments below pass the buffer it names. *)
Record RegSetIoVec := mkRegSetIoVec { rs_base : Z; rs_len : Z }.

#[export] Program Instance RegSetIoVec_kstruct : KStruct RegSetIoVec := {
  ks_packed := false;
  ks_fields := [u64; u64];
  ks_vals p := [VI (rs_base p); VI (rs_len p)];
  ks_of vs := mkRegSetIoVec (vi vs 0) (vi vs 1) }.

Section Ptrace.
Context `{Target}.

Definition ptrace_traceme : Prog (result unit) :=
  let* r := syscall4 (nr PTRACE) (int PTRACE_TRACEME) (int 0) (int 0) (int 0) in
  Ret (ret_unit r).

Definition ptrace_seize (pid options : Z) : Prog (result unit) :=
  let* r := syscall4 (nr PTRACE) (int PTRACE_SEIZE) (int pid) (int 0) (int options) in
  Ret (ret_unit r).

Definition ptrace_cont (pid signal : Z) : Prog (result unit) :=
  let* r := syscall4 (nr PTRACE) (int PTRACE_CONT) (int pid) (int 0) (int signal) in
  Ret (ret_unit r).

Definition ptrace_singlestep (pid signal : Z) : Prog (result unit) :=
  let* r := syscall4 (nr PTRACE) (int PTRACE_SINGLESTEP) (int pid) (int 0) (int signal) in
  Ret (ret_unit r).

Definition ptrace_syscall (pid signal : Z) : Prog (result unit) :=
  let* r := syscall4 (nr PTRACE) (int PTRACE_SYSCALL) (int pid) (int 0) (int signal) in
  Ret (ret_unit r).

Definition ptrace_detach (pid signal : Z) : Prog (result unit) :=
  let* r := syscall4 (nr PTRACE) (int PTRACE_DETACH) (int pid) (int 0) (int signal) in
  Ret (ret_unit r).

Definition ptrace_setoptions (pid options : Z) : Prog (result unit) :=
  let* r := syscall4 (nr PTRACE) (int PTRACE_SETOPTIONS) (int pid) (int 0) (int options) in
  Ret (ret_unit r).

(** The register structure is the target's. *)
Definition ptrace_getregset {Regs} `{KStruct Regs} (zero : Regs) (pid : Z) :
    Prog (result Regs) :=
  let* r := syscall4 (nr PTRACE) (int PTRACE_GETREGSET) (int pid) (int NT_PRSTATUS)
              (AMutV [encode zero]) in
  let? _ := Ret (from_ret (r_ret r)) in
  Ret (Ok (decode (out 0 r))).

Definition ptrace_setregset {Regs} `{KStruct Regs} (pid : Z) (regs : Regs) :
    Prog (result unit) :=
  let* r := syscall4 (nr PTRACE) (int PTRACE_SETREGSET) (int pid) (int NT_PRSTATUS)
              (ARefV [encode regs]) in
  Ret (ret_unit r).
End Ptrace.

Definition is_syscall_stop (status : Z) : bool :=
  wifstopped status && (wstopsig status =? Z.lor SIGTRAP 0x80).
