(* ===== verification/Termios.v ===== *)
(** Terminals ([src/termios.rs]): attributes and raw mode, the terminal
    [ioctl]s, and [ttyname]. *)

From stdpp Require Import base list option numbers strings.
From Stdlib Require Import ZArith Lia.
From S2P Require Import Prelude Prog Layout Asm Arch Fd Vdso Time Fs.

#[local] Obligation Tactic := solve_kstruct.

Definition NCCS : Z := 19.
Definition TCGETS : Z := 0x5401.
Definition TCSETS : Z := 0x5402.
Definition TCSETSW : Z := 0x5403.
Definition TCSETSF : Z := 0x5404.
Definition TCSBRK : Z := 0x5409.
Definition TCXONC : Z := 0x540a.
Definition TCFLSH : Z := 0x540b.
Definition TIOCGPGRP : Z := 0x540f.
Definition TIOCSPGRP : Z := 0x5410.
Definition TCSBRKP : Z := 0x5425.
Definition TIOCGSID : Z := 0x5429.
Definition TCSANOW : Z := 0.
Definition TCSADRAIN : Z := 1.
Definition TCSAFLUSH : Z := 2.
Definition TCIFLUSH : Z := 0.
Definition TCOFLUSH : Z := 1.
Definition TCIOFLUSH : Z := 2.
Definition TCOOFF : Z := 0.
Definition TCOON : Z := 1.
Definition TCIOFF : Z := 2.
Definition TCION : Z := 3.
Definition IGNBRK : Z := oct 1.
Definition BRKINT : Z := oct 2.
Definition PARMRK : Z := oct 10.
Definition ISTRIP : Z := oct 40.
Definition INLCR : Z := oct 100.
Definition IGNCR : Z := oct 200.
Definition ICRNL : Z := oct 400.
Definition IXON : Z := oct 2000.
Definition OPOST : Z := oct 1.
Definition CSIZE : Z := oct 60.
Definition CS8 : Z := oct 60.
Definition PARENB : Z := oct 400.
Definition ISIG : Z := oct 1.
Definition ICANON : Z := oct 2.
Definition ECHO : Z := oct 10.
Definition ECHONL : Z := oct 100.
Definition IEXTEN : Z := oct 100000.
Definition VINTR : Z := 0.
Definition VQUIT : Z := 1.
Definition VERASE : Z := 2.
Definition VKILL : Z := 3.
Definition VEOF : Z := 4.
Definition VTIME : Z := 5.
Definition VMIN : Z := 6.
Definition VSWTC : Z := 7.
Definition VSTART : Z := 8.
Definition VSTOP : Z := 9.
Definition VSUSP : Z := 10.
Definition VEOL : Z := 11.
Definition VREPRINT : Z := 12.
Definition VDISCARD : Z := 13.
Definition VWERASE : Z := 14.
Definition VLNEXT : Z := 15.
Definition VEOL2 : Z := 16.

(** The kernel's [struct termios]. *)
Record Termios := mkTermios {
  c_iflag : Z; c_oflag : Z; c_cflag : Z; c_lflag : Z; c_line : Z; c_cc : list Z }.

#[export] Program Instance Termios_kstruct : KStruct Termios := {
  ks_packed := false;
  ks_fields := [u32; u32; u32; u32; u8; FArr 1 19];
  ks_vals p :=
    [VI (c_iflag p); VI (c_oflag p); VI (c_cflag p); VI (c_lflag p); VI (c_line p);
     VA (c_cc p)];
  ks_of vs :=
    mkTermios (vi vs 0) (vi vs 1) (vi vs 2) (vi vs 3) (vi vs 4) (va vs 5) }.

Definition Termios_default : Termios := mkTermios 0 0 0 0 0 (replicate 19 0).

(** [flags & !mask] on [u32]. *)
Definition clear (flags mask : Z) : Z := Z.ldiff flags mask.

Definition lors (l : list Z) : Z := fold_left Z.lor l 0.

Definition RAW_IFLAGS : Z := lors [IGNBRK; BRKINT; PARMRK; ISTRIP; INLCR; IGNCR; ICRNL; IXON].
Definition RAW_LFLAGS : Z := lors [ECHO; ECHONL; ICANON; ISIG; IEXTEN].

Definition make_raw (t : Termios) : Termios :=
  mkTermios
    (clear (c_iflag t) RAW_IFLAGS)
    (clear (c_oflag t) OPOST)
    (Z.lor (clear (c_cflag t) (Z.lor CSIZE PARENB)) CS8)
    (clear (c_lflag t) RAW_LFLAGS)
    (c_line t)
    (<[Z.to_nat VTIME := 0]> (<[Z.to_nat VMIN := 1]> (c_cc t))).

Section Termios.
Context `{Target}.

Definition tcgetattr (fd : Z) : Prog (result Termios) :=
  let t := Termios_default in
  let* (t, r) := ioctl fd TCGETS (AMut (encode t)) in
  let? _ := Ret r in
  Ret (Ok (decode t)).

Definition set_request (actions : Z) : Z :=
  if actions =? TCSANOW then TCSETS
  else if actions =? TCSAFLUSH then TCSETSF
  else TCSETSW.

Definition tcsetattr_with (fd actions : Z) (termios : Termios) : Prog (result unit) :=
  let* (_, r) := ioctl fd (set_request actions) (ARef (encode termios)) in
  let? _ := Ret r in
  Ret (Ok tt).

Definition tcsetattr (fd : Z) (termios : Termios) : Prog (result unit) :=
  tcsetattr_with fd TCSADRAIN termios.

Definition tcflush (fd queue : Z) : Prog (result unit) :=
  let* (_, r) := ioctl fd TCFLSH (int queue) in
  let? _ := Ret r in
  Ret (Ok tt).

Definition tcflow (fd action : Z) : Prog (result unit) :=
  let* (_, r) := ioctl fd TCXONC (int action) in
  let? _ := Ret r in
  Ret (Ok tt).

Definition tcsendbreak (fd duration : Z) : Prog (result unit) :=
  let* (_, r) := ioctl fd TCSBRKP (int duration) in
  let? _ := Ret r in
  Ret (Ok tt).

Definition tcdrain (fd : Z) : Prog (result unit) :=
  let* (_, r) := ioctl fd TCSBRK (int 1) in
  let? _ := Ret r in
  Ret (Ok tt).

Definition tcgetpgrp (fd : Z) : Prog (result Z) :=
  let* (pgrp, r) := ioctl fd TIOCGPGRP (AMut (le_enc 4 0)) in
  let? _ := Ret r in
  Ret (Ok (dec_i32 pgrp)).

Definition tcsetpgrp (fd pgrp : Z) : Prog (result unit) :=
  let* (_, r) := ioctl fd TIOCSPGRP (ARef (le_enc 4 pgrp)) in
  let? _ := Ret r in
  Ret (Ok tt).

Definition tcgetsid (fd : Z) : Prog (result Z) :=
  let* (sid, r) := ioctl fd TIOCGSID (AMut (le_enc 4 0)) in
  let? _ := Ret r in
  Ret (Ok (dec_i32 sid)).

Definition isatty (fd : Z) : Prog bool :=
  let* r := tcgetattr fd in Ret (is_ok r).
End Termios.

(** ** Decimal digits into a fixed buffer *)

(** [out[pos] = v; pos += 1]: writing past the end panics. *)
Definition put_byte (out : list Z) (pos v : Z) : Prog (list Z * Z) :=
  if pos <? Z.of_nat (length out) then Ret (<[Z.to_nat pos := v]> out, pos + 1) else Panic.

(** The digit loop, least significant first; a [u32] has at most ten digits. *)
Fixpoint put_digits (fuel : nat) (out : list Z) (pos n : Z) : Prog (list Z * Z) :=
  match fuel with
  | O => NoFuel
  | S fuel =>
      let* (out, pos) := put_byte out pos (48 + n mod 10) in
      let n := n / 10 in
      if n =? 0 then Ret (out, pos) else put_digits fuel out pos n
  end.

(** [out[a..b].reverse()] *)
Definition reverse_range (a b : Z) (out : list Z) : list Z :=
  let a := Z.to_nat a in
  let b := Z.to_nat b in
  take a out ++ rev (slice a (b - a) out) ++ drop b out.

(** [out[..src.len()].copy_from_slice(src)] *)
Definition copy_prefix (src out : list Z) : Prog (list Z) :=
  if Nat.leb (length src) (length out) then Ret (src ++ drop (length src) out) else Panic.

(** [CStr::from_bytes_with_nul(b).unwrap()]: exactly one NUL, at the end. *)
Definition from_bytes_with_nul (b : list Z) : Prog (list Z) :=
  match until_nul b with
  | Some s => if Nat.eqb (S (length s)) (length b) then Ret s else Panic
  | None => Panic
  end.

Definition proc_fd_path (fd : Z) (out : list Z) : Prog (list Z) :=
  let prefix := str "/proc/self/fd/" in
  let* out := copy_prefix prefix out in
  let pos := Z.of_nat (length prefix) in
  let* (out, pos) := if fd <? 0 then put_byte out pos 45 else Ret (out, pos) in
  let start := pos in
  let* (out, pos) := put_digits 10 out pos (Z.abs fd) in
  let out := reverse_range start pos out in
  let* (out, _) := put_byte out pos 0 in
  let* s := or_panic (slice_to (pos + 1) out) in
  from_bytes_with_nul s.

Definition ttyname `{Target} (fd : Z) (buf : list Z) : Prog (list Z * result (list Z)) :=
  let* tty := isatty fd in
  if negb tty then Ret (buf, Err ENOTTY)
  else
    let* path := proc_fd_path fd (replicate 32 0) in
    let full_len := length buf in
    let* (buf, target) := readlinkat AT_FDCWD path buf in
    match target with
    | Err e => Ret (buf, Err e)
    | Ok target =>
        if Nat.eqb (length target) full_len then Ret (buf, Err ERANGE)
        else Ret (buf, Ok target)
    end.

(** ** Raw mode *)

Lemma ldiff_ldiff a m : Z.ldiff (Z.ldiff a m) m = Z.ldiff a m.
Proof.
  apply Z.bits_inj'. intros n Hn. rewrite !Z.ldiff_spec.
  destruct (Z.testbit a n), (Z.testbit m n); done.
Qed.

Lemma ldiff_lor_inside a m k : Z.ldiff k m = 0 -> Z.ldiff (Z.lor (Z.ldiff a m) k) m = Z.ldiff a m.
Proof.
  intros H. apply Z.bits_inj'. intros n Hn. rewrite !Z.ldiff_spec, Z.lor_spec, Z.ldiff_spec.
  pose proof (f_equal (fun z => Z.testbit z n) H) as Hb. cbv beta in Hb.
  rewrite Z.ldiff_spec, Z.bits_0 in Hb.
  destruct (Z.testbit a n), (Z.testbit m n), (Z.testbit k n); done.
Qed.

Lemma below_pow2 a w : 0 <= w -> 0 <= a < 2 ^ w <-> Z.land a (Z.ones w) = a.
Proof.
  intros Hw. rewrite Z.land_ones by done. split.
  - by apply Z.mod_small.
  - intros <-. apply Z.mod_pos_bound. by apply Z.pow_pos_nonneg.
Qed.

Lemma ldiff_range a m w : 0 <= w -> 0 <= a < 2 ^ w -> 0 <= Z.ldiff a m < 2 ^ w.
Proof.
  intros Hw Ha. rewrite below_pow2 in * by done. rewrite <- Ha at 2.
  apply Z.bits_inj'. intros n Hn. rewrite Z.land_spec, !Z.ldiff_spec, Z.land_spec.
  destruct (Z.testbit a n), (Z.testbit m n), (Z.testbit (Z.ones w) n); done.
Qed.

Lemma lor_range a b w : 0 <= w -> 0 <= a < 2 ^ w -> 0 <= b < 2 ^ w -> 0 <= Z.lor a b < 2 ^ w.
Proof. intros Hw Ha Hb. rewrite below_pow2 in * by done. by rewrite Z.land_lor_distr_l, Ha, Hb. Qed.

Lemma termios_typed t :
  well_typed t <->
  is_u32 (c_iflag t) /\ is_u32 (c_oflag t) /\ is_u32 (c_cflag t) /\ is_u32 (c_lflag t) /\
  is_byte (c_line t) /\ fits (FArr 1 19) (VA (c_cc t)).
Proof.
  unfold well_typed. cbn [ks_fields ks_vals Termios_kstruct]. split.
  - intros H. repeat match goal with
    | H : Forall2 _ (_ :: _) (_ :: _) |- _ => apply Forall2_cons in H as [? H]
    end. auto 10.
  - intros (? & ? & ? & ? & ? & ?). repeat apply Forall2_cons_2; done.
Qed.

Lemma make_raw_typed t : well_typed t -> well_typed (make_raw t).
Proof.
  destruct t as [i o c l line cc]. intros Hw. apply termios_typed in Hw as (Hi & Ho & Hc & Hl & Hn & [Hlen Hcb]).
  apply termios_typed. unfold make_raw, clear. cbn [c_iflag c_oflag c_cflag c_lflag c_line c_cc] in *.
  split_and!; try (by apply (ldiff_range _ _ 32)); [|done|].
  - apply (lor_range _ _ 32); [lia|by apply ldiff_range|by vm_compute].
  - split; [by rewrite !length_insert|]. by repeat (apply Forall_insert; [|done]).
Qed.

(** A flag word, bit by bit: the bits of [on] are set, those of [off] cleared, and the
    others as they were. *)
Definition rewritten (on off : list Z) (old new : Z) : Prop :=
  forall i, 0 <= i -> Z.testbit new i =
    if bool_decide (i ∈ on) then true else if bool_decide (i ∈ off) then false else Z.testbit old i.

Lemma testbit_lors l : forall acc i,
  Forall (fun b => 0 <= b) l -> 0 <= i ->
  Z.testbit (fold_left Z.lor (map (fun b => 2 ^ b) l) acc) i = Z.testbit acc i || bool_decide (i ∈ l).
Proof.
  induction l as [|b l IH]; intros acc i Hl Hi; cbn [map fold_left].
  - by rewrite bool_decide_false, orb_false_r by apply not_elem_of_nil.
  - apply Forall_cons in Hl as [Hb Hl]. rewrite IH, Z.lor_spec, Z.pow2_bits_eqb, <- orb_assoc by done. f_equal.
    destruct (Z.eqb_spec b i) as [->|Hne]; cbn [orb].
    + symmetry. apply bool_decide_eq_true_2. by left.
    + apply bool_decide_ext. rewrite elem_of_cons. naive_solver.
Qed.

(** Masks given by their bits. *)
Lemma rewritten_by on off old m k :
  m = lors (map (fun b => 2 ^ b) (on ++ off)) -> k = lors (map (fun b => 2 ^ b) on) ->
  Forall (fun b => 0 <= b) (on ++ off) -> rewritten on off old (Z.lor (clear old m) k).
Proof.
  intros -> -> Hb i Hi. pose proof Hb as [Hon _]%Forall_app. unfold clear, lors.
  rewrite Z.lor_spec, Z.ldiff_spec, !testbit_lors, Z.bits_0 by done. cbn [orb].
  rewrite !bool_decide_decide. destruct (decide (i ∈ on)), (decide (i ∈ off)), (decide (i ∈ on ++ off));
    rewrite elem_of_app in *; try tauto; by destruct (Z.testbit old i).
Qed.

Lemma rewritten_off off old m :
  m = lors (map (fun b => 2 ^ b) off) -> Forall (fun b => 0 <= b) off -> rewritten [] off old (clear old m).
Proof. intros Hm Hb. rewrite <- (Z.lor_0_r (clear old m)). by apply (rewritten_by [] off old m 0). Qed.

(** [C25] [make_raw] is [cfmakeraw], the flags given by their bits in the kernel's
    words: of the input flags IGNBRK (0), BRKINT (1), PARMRK (3), ISTRIP (5), INLCR (6),
    IGNCR (7), ICRNL (8) and IXON (10) are off, of the output flags OPOST (0), of the
    local flags ISIG (0), ICANON (1), ECHO (3), ECHONL (6) and IEXTEN (15), and of the
    control flags PARENB (8), while both bits of the character size (4 and 5, eight
    bits) are on.  A read waits for one byte (VMIN, 6) with no timer (VTIME, 5).
    Every other bit, the line discipline and the other control characters are as
    they were, the structure stays well typed, and doing it again changes nothing. *)
Theorem make_raw_correct t :
  well_typed t ->
  let r := make_raw t in
  rewritten [] [0; 1; 3; 5; 6; 7; 8; 10] (c_iflag t) (c_iflag r) /\
  rewritten [] [0] (c_oflag t) (c_oflag r) /\
  rewritten [4; 5] [8] (c_cflag t) (c_cflag r) /\
  rewritten [] [0; 1; 3; 6; 15] (c_lflag t) (c_lflag r) /\
  c_line r = c_line t /\ length (c_cc r) = length (c_cc t) /\
  c_cc r !! 6%nat = Some 1 /\ c_cc r !! 5%nat = Some 0 /\
  (forall i, i <> 6%nat -> i <> 5%nat -> c_cc r !! i = c_cc t !! i) /\
  make_raw r = r /\ well_typed r.
Proof.
  intros Hw r. pose proof (make_raw_typed t Hw) as Hw'.
  destruct t as [i o c l line cc]. apply termios_typed in Hw as (_ & _ & _ & _ & _ & Hcc).
  assert (length cc = 19%nat) as Hlen by apply Hcc.
  subst r. unfold make_raw in *. cbn [c_iflag c_oflag c_cflag c_lflag c_line c_cc] in *.
  change (Z.to_nat VMIN) with 6%nat in *. change (Z.to_nat VTIME) with 5%nat in *.
  split_and!; try done.
  - by apply rewritten_off; [|repeat constructor].
  - by apply rewritten_off; [|repeat constructor].
  - by apply rewritten_by; [..|repeat constructor].
  - by apply rewritten_off; [|repeat constructor].
  - by rewrite !length_insert.
  - rewrite list_lookup_insert_ne by done. apply list_lookup_insert_eq. lia.
  - apply list_lookup_insert_eq. rewrite length_insert. lia.
  - intros j H1 H2. by rewrite !list_lookup_insert_ne by done.
  - unfold clear. rewrite !ldiff_ldiff. f_equal; [by rewrite ldiff_lor_inside by reflexivity|].
    rewrite (list_insert_id _ 6), list_insert_id; [done| |].
    + apply list_lookup_insert_eq. rewrite length_insert. lia.
    + rewrite list_lookup_insert_ne by done. apply list_lookup_insert_eq. lia.
Qed.

(** A serial line left in canonical mode with echo, seven bits and parity. *)
Definition cooked : Termios :=
  mkTermios (lors [BRKINT; ICRNL; IXON]) (Z.lor OPOST 4) (Z.lor PARENB (oct 40)) (lors [ISIG; ICANON; ECHO; IEXTEN]) 0
    (replicate 19 7).

Lemma make_raw_correct_witness :
  well_typed cooked /\ rewritten [4; 5] [8] (c_cflag cooked) (c_cflag (make_raw cooked)) /\
  make_raw (make_raw cooked) = make_raw cooked.
Proof.
  assert (well_typed cooked) as Hw by (apply (bool_decide_eq_true_1 _); vm_compute; reflexivity).
  split; [exact Hw|]. split; apply (make_raw_correct cooked Hw).
Defined.

(** ** Decimal output *)

(** The digits of [n], least significant first. *)
Fixpoint lsb_digits (fuel : nat) (n : Z) : list Z :=
  match fuel with
  | O => []
  | S fuel => (48 + n mod 10) :: if n / 10 =? 0 then [] else lsb_digits fuel (n / 10)
  end.

Definition decimal (n : Z) : list Z := rev (lsb_digits 10 n).

(** The number a string of digits denotes. *)
Definition digits_value (l : list Z) : Z := fold_left (fun acc d => acc * 10 + (d - 48)) l 0.
Definition is_digit (d : Z) : Prop := 48 <= d <= 57.

Lemma lsb_digits_spec fuel n :
  (0 < fuel)%nat -> 0 <= n < 10 ^ Z.of_nat fuel ->
  digits_value (rev (lsb_digits fuel n)) = n /\ Forall is_digit (lsb_digits fuel n) /\
  (length (lsb_digits fuel n) <= fuel)%nat /\
  (n <> 0 -> exists l d, lsb_digits fuel n = l ++ [d] /\ d <> 48).
Proof.
  revert n. induction fuel as [|fuel IH]; intros n Hf Hn; [lia|]. cbn [lsb_digits].
  pose proof (Z.mod_pos_bound n 10 ltac:(lia)) as Hm. pose proof (Z.div_mod n 10 ltac:(lia)) as Hdm.
  assert (is_digit (48 + n mod 10)) as Hd by (unfold is_digit; lia).
  assert (0 <= n / 10) by (apply Z.div_pos; lia).
  destruct (Z.eqb_spec (n / 10) 0) as [E|E].
  - split_and!; [unfold digits_value; simpl; lia|by apply Forall_cons; split|simpl; lia|].
    intros Hn0. exists [], (48 + n mod 10). split; [done|lia].
  - assert (n / 10 < 10 ^ Z.of_nat fuel) as Hlt.
    { apply Z.div_lt_upper_bound; [lia|]. rewrite <- Z.pow_succ_r by lia.
      rewrite <- Nat2Z.inj_succ. lia. }
    destruct fuel as [|fuel]; [simpl in Hlt; lia|].
    destruct (IH (n / 10) ltac:(lia) ltac:(lia)) as (Hv & Hall & Hlen & Hlast).
    split_and!; [|by constructor|cbn [length]; lia|].
    + cbn [rev]. unfold digits_value in *. rewrite fold_left_app, Hv. simpl. lia.
    + intros _. destruct (Hlast ltac:(lia)) as (l & d & -> & Hd48).
      exists ((48 + n mod 10) :: l), d. done.
Qed.

(** [decimal n] is the decimal numeral of [n]: it denotes [n], it has no leading
    zero, and at most ten digits. *)
Lemma decimal_spec n :
  0 <= n < 10 ^ 10 ->
  digits_value (decimal n) = n /\ Forall is_digit (decimal n) /\
  (0 < length (decimal n) <= 10)%nat /\ (n <> 0 -> hd 48 (decimal n) <> 48) /\
  (n = 0 -> decimal n = [48]).
Proof.
  intros Hn. destruct (lsb_digits_spec 10 n ltac:(lia) Hn) as (Hv & Hall & Hlen & Hlast).
  unfold decimal. split_and!; [exact Hv|by apply Forall_rev| |by rewrite length_rev| |by intros ->].
  - rewrite length_rev. simpl. lia.
  - intros Hn0. destruct (Hlast Hn0) as (l & d & -> & Hd). rewrite rev_app_distr. exact Hd.
Qed.

Lemma put_byte_at pre x rest v :
  put_byte (pre ++ x :: rest) (Z.of_nat (length pre)) v =
  Ret (pre ++ v :: rest, Z.of_nat (length pre) + 1).
Proof.
  unfold put_byte. rewrite length_app. cbn [length].
  destruct (Z.ltb_spec (Z.of_nat (length pre)) (Z.of_nat (length pre + S (length rest)))); [|lia].
  rewrite Nat2Z.id. by rewrite insert_app_r_alt, Nat.sub_diag by lia.
Qed.

Lemma put_digits_at fuel n : forall pre rest,
  (0 < fuel)%nat -> 0 <= n < 10 ^ Z.of_nat fuel ->
  (length (lsb_digits fuel n) <= length rest)%nat ->
  put_digits fuel (pre ++ rest) (Z.of_nat (length pre)) n =
  Ret (pre ++ lsb_digits fuel n ++ drop (length (lsb_digits fuel n)) rest,
       Z.of_nat (length pre + length (lsb_digits fuel n))).
Proof.
  revert n. induction fuel as [|fuel IH]; intros n pre rest Hf Hn Hl; [lia|].
  cbn [put_digits lsb_digits] in *. destruct rest as [|x rest]; [simpl in Hl; lia|].
  rewrite put_byte_at. cbn [bind].
  destruct (Z.eqb_spec (n / 10) 0) as [E|E].
  - simpl. do 2 f_equal. lia.
  - assert (n / 10 < 10 ^ Z.of_nat fuel) as Hlt.
    { apply Z.div_lt_upper_bound; [lia|]. rewrite <- Z.pow_succ_r by lia.
      rewrite <- Nat2Z.inj_succ. lia. }
    assert (0 <= n / 10) by (apply Z.div_pos; lia).
    destruct fuel as [|fuel]; [simpl in Hlt; lia|].
    specialize (IH (n / 10) (pre ++ [48 + n mod 10]) rest ltac:(lia) ltac:(lia)).
    rewrite length_app, <- app_assoc in IH. cbn [app length] in IH, Hl.
    replace (Z.of_nat (length pre) + 1) with (Z.of_nat (length pre + 1)) by lia.
    rewrite IH by lia. rewrite <- app_assoc. cbn [app length drop]. do 2 f_equal. lia.
Qed.

Lemma reverse_range_at pre mid post a b :
  a = Z.of_nat (length pre) -> b = Z.of_nat (length pre + length mid) ->
  reverse_range a b (pre ++ mid ++ post) = pre ++ rev mid ++ post.
Proof.
  intros -> ->. unfold reverse_range. rewrite !Nat2Z.id, take_app_length.
  rewrite slice_middle by lia. do 2 f_equal.
  rewrite app_assoc, drop_app_length'; [done|]. by rewrite length_app.
Qed.

Lemma until_nul_end s : Forall (fun c => c <> 0) s -> until_nul (s ++ [0]) = Some s.
Proof.
  induction 1 as [|c s Hc _ IH]; [done|]. simpl. rewrite IH. by destruct (Z.eqb_spec c 0).
Qed.

Lemma from_bytes_with_nul_ok s : Forall (fun c => c <> 0) s -> from_bytes_with_nul (s ++ [0]) = Ret s.
Proof.
  intros Hs. unfold from_bytes_with_nul. rewrite until_nul_end by done.
  by rewrite length_app, Nat.add_1_r, Nat.eqb_refl.
Qed.

Lemma digits_nonzero l : Forall is_digit l -> Forall (fun c => c <> 0) l.
Proof. intros H. eapply Forall_impl; [exact H|]. unfold is_digit. lia. Qed.

(** Text followed by a NUL, cut out of a buffer. *)
Lemma finish_cstr s x rest :
  Forall (fun c => c <> 0) s ->
  bind (put_byte (s ++ x :: rest) (Z.of_nat (length s)) 0) (fun '(out, _) =>
    bind (or_panic (slice_to (Z.of_nat (length s) + 1) out)) from_bytes_with_nul) = Ret s.
Proof.
  intros Hs. rewrite put_byte_at. cbn [bind]. unfold slice_to. rewrite length_app. cbn [length].
  destruct (Z.leb_spec (Z.of_nat (length s) + 1) (Z.of_nat (length s + S (length rest)))); [|lia].
  cbn [or_panic bind].
  replace (Z.to_nat (Z.of_nat (length s) + 1)) with (length (s ++ [0]))
    by (rewrite length_app; simpl; lia).
  change (s ++ 0 :: rest) with (s ++ [0] ++ rest). rewrite app_assoc, take_app_length.
  by apply from_bytes_with_nul_ok.
Qed.

Definition fd_path_prefix : list Z := str "/proc/self/fd/".

(** The path for a descriptor: the sign, if any, then the magnitude. *)
Definition fd_path (fd : Z) : list Z :=
  fd_path_prefix ++ (if fd <? 0 then [45] else []) ++ decimal (Z.abs fd).

Lemma proc_fd_path_eq fd out :
  is_i32 fd -> length out = 32%nat -> proc_fd_path fd out = Ret (fd_path fd).
Proof.
  intros Hfd Hout. int_ranges.
  destruct (decimal_spec (Z.abs fd) ltac:(lia)) as (Hv & Hdig & Hlen & _).
  unfold proc_fd_path, copy_prefix. fold fd_path_prefix. rewrite Hout.
  change (Nat.leb (length fd_path_prefix) 32) with true. cbn [bind].
  set (sign := if fd <? 0 then [45] else []). set (pre := fd_path_prefix ++ sign).
  set (room := drop (length pre) out).
  assert (length pre <= 15)%nat as Hpre by (unfold pre, sign; by destruct (fd <? 0); vm_compute; lia).
  assert (bind (if fd <? 0
      then put_byte (fd_path_prefix ++ drop (length fd_path_prefix) out) (Z.of_nat (length fd_path_prefix)) 45
      else Ret (fd_path_prefix ++ drop (length fd_path_prefix) out, Z.of_nat (length fd_path_prefix))) =
    bind (B := list Z) (Ret (pre ++ room, Z.of_nat (length pre)))) as ->.
  { f_equal. unfold pre, sign, room, pre, sign. destruct (fd <? 0).
    - destruct (drop (length fd_path_prefix) out) as [|x rest] eqn:E.
      + apply (f_equal length) in E. rewrite length_drop, Hout in E. discriminate E.
      + rewrite put_byte_at, <- app_assoc. do 3 f_equal. cbn [app]. f_equal.
        rewrite length_app, <- drop_drop, E. done.
    - by rewrite app_nil_r. }
  cbn [bind]. set (ds := lsb_digits 10 (Z.abs fd)).
  assert (length ds = length (decimal (Z.abs fd))) as Hds by (unfold decimal; by rewrite length_rev).
  assert (length room = 32 - length pre)%nat as Hroom by (unfold room; rewrite length_drop; lia).
  rewrite put_digits_at by (fold ds; lia). fold ds. cbn [bind].
  rewrite reverse_range_at by lia. fold (decimal (Z.abs fd)).
  destruct (drop (length ds) room) as [|x rest] eqn:E.
  { apply (f_equal length) in E. rewrite length_drop in E. cbn [length] in E. lia. }
  assert (pre ++ rev ds ++ x :: rest = fd_path fd ++ x :: rest) as ->.
  { unfold fd_path, pre. fold sign. change (rev ds) with (decimal (Z.abs fd)). by rewrite <- !app_assoc. }
  assert (length pre + length ds = length (fd_path fd))%nat as ->.
  { unfold fd_path, pre. fold sign. rewrite !length_app. lia. }
  apply finish_cstr. unfold fd_path. apply Forall_app. split; [by repeat constructor|].
  apply Forall_app. split; [by destruct (fd <? 0); repeat constructor|by apply digits_nonzero].
Qed.

(** [C36] [proc_fd_path] never panics and formats every [i32] descriptor, the
    most negative included: its 32-byte buffer holds the prefix, the sign, the
    decimal numeral of the magnitude and the terminating NUL, with exactly one
    NUL, at the end. *)
Theorem proc_fd_path_correct fd out :
  is_i32 fd -> length out = 32%nat ->
  proc_fd_path fd out = Ret (fd_path fd) /\
  digits_value (decimal (Z.abs fd)) = Z.abs fd /\ Forall is_digit (decimal (Z.abs fd)) /\
  (fd <> 0 -> hd 48 (decimal (Z.abs fd)) <> 48).
Proof.
  intros Hfd Hout. split; [by apply proc_fd_path_eq|].
  destruct (decimal_spec (Z.abs fd)) as (Hv & Hdig & _ & Hhd & _); [int_ranges; lia|].
  split_and!; [done..|]. intros. apply Hhd. lia.
Qed.

Lemma proc_fd_path_correct_witness :
  proc_fd_path (- 2 ^ 31) (replicate 32 0) = Ret (str "/proc/self/fd/-2147483648").
Proof.
  apply (proc_fd_path_correct (- 2 ^ 31) (replicate 32 0)); [by split|reflexivity].
Defined.
