(* ===== verification/Tty.v ===== *)
(** Window sizes and pseudo-terminals ([src/tty.rs]). *)

From stdpp Require Import base list option numbers strings.
From Stdlib Require Import ZArith Lia.
From S2P Require Import Prelude Prog Layout Asm Arch Fd Vdso Time Fs Termios.

#[local] Obligation Tactic := solve_kstruct.

Definition TIOCGWINSZ : Z := 0x5413.
Definition TIOCSPTLCK : Z := 0x40045431.
Definition TIOCGPTN : Z := 0x80045430.

(** [struct winsize] *)
Record Winsize := mkWinsize {
  ws_row : Z; ws_col : Z; ws_xpixel : Z; ws_ypixel : Z }.

#[export] Program Instance Winsize_kstruct : KStruct Winsize := {
  ks_packed := false;
  ks_fields := [u16; u16; u16; u16];
  ks_vals p :=
    [VI (ws_row p); VI (ws_col p); VI (ws_xpixel p); VI (ws_ypixel p)];
  ks_of vs :=
    mkWinsize (vi vs 0) (vi vs 1) (vi vs 2) (vi vs 3) }.

Definition Winsize_default : Winsize := mkWinsize 0 0 0 0.

(** [digits] is a separate ten-byte buffer, copied after the prefix. *)
Definition format_pts_path (ptn : Z) (buf : list Z) : Prog (list Z) :=
  let prefix := str "/dev/pts/" in
  let* buf := copy_prefix prefix buf in
  let n := as_u32 ptn in
  let* (digits, len) := put_digits 10 (replicate 10 0) 0 n in
  let digits := reverse_range 0 len digits in
  let plen := Z.of_nat (length prefix) in
  let end_ := plen + len in
  let* src := or_panic (slice_to len digits) in
  let* _ := or_panic (sub_slice plen len buf) in
  let buf := take (Z.to_nat plen) buf ++ src ++ drop (Z.to_nat end_) buf in
  let* (buf, _) := put_byte buf end_ 0 in
  let* s := or_panic (slice_to (end_ + 1) buf) in
  from_bytes_with_nul s.

Section Tty.
Context `{Target}.

Definition window_size (fd : Z) : Prog (result Winsize) :=
  let ws := Winsize_default in
  let* (ws, r) := ioctl fd TIOCGWINSZ (AMut (encode ws)) in
  let? _ := Ret r in
  Ret (Ok (decode ws)).

(** Each failure after the master is open closes it. *)
Definition openpty : Prog (result (Z * Z)) :=
  let? master := open (str "/dev/ptmx") O_RDWR 0 in
  let* (_, r) := ioctl master TIOCSPTLCK (ARef (le_enc 4 0)) in
  match r with
  | Err e => let* _ := close master in Ret (Err e)
  | Ok _ =>
      let* (ptn, r) := ioctl master TIOCGPTN (AMut (le_enc 4 0)) in
      match r with
      | Err e => let* _ := close master in Ret (Err e)
      | Ok _ =>
          let* path := format_pts_path (dec_i32 ptn) (replicate 21 0) in
          let* r := open path O_RDWR 0 in
          match r with
          | Ok slave => Ret (Ok (master, slave))
          | Err e => let* _ := close master in Ret (Err e)
          end
      end
  end.
End Tty.

(** ** Properties *)

Definition pts_prefix : list Z := str "/dev/pts/".

(** The slave's path for a pseudo-terminal number. *)
Definition pts_path (ptn : Z) : list Z := pts_prefix ++ decimal (as_u32 ptn).

(** [format_pts_path] never panics: the 21-byte buffer holds the path of
    every number [TIOCGPTN] can write, read as the [u32] it is, in decimal and
    NUL-terminated. *)
Theorem format_pts_path_correct ptn buf :
  length buf = 21%nat ->
  format_pts_path ptn buf = Ret (pts_path ptn) /\
  digits_value (decimal (as_u32 ptn)) = as_u32 ptn /\ Forall is_digit (decimal (as_u32 ptn)).
Proof.
  intros Hbuf. set (n := as_u32 ptn).
  assert (0 <= n < 10 ^ 10) as Hn.
  { pose proof (wrap_range 32 ptn ltac:(lia)) as Hw. change (wrap 32 ptn) with n in Hw. lia. }
  destruct (decimal_spec n Hn) as (Hv & Hdig & Hlen & _). split_and!; [|done|done].
  unfold format_pts_path, copy_prefix. fold pts_prefix. rewrite Hbuf. fold n.
  change (Nat.leb (length pts_prefix) 21) with true. cbn [bind].
  set (ds := lsb_digits 10 n).
  assert (length ds = length (decimal n)) as Hds by (unfold decimal; by rewrite length_rev).
  pose proof (put_digits_at 10 n [] (replicate 10 0)) as Hput. cbn [app length] in Hput. change (Z.of_nat 0) with 0 in Hput. fold ds in Hput.
  rewrite Hput by (rewrite ?length_replicate; lia). cbn [bind Nat.add].
  pose proof (reverse_range_at [] ds (drop (length ds) (replicate 10 0)) 0 (Z.of_nat (length ds)))
    as Hrev. cbn [app length] in Hrev. rewrite Hrev by done. change (rev ds) with (decimal n).
  set (digits := decimal n ++ drop (length ds) (replicate 10 0)).
  assert (slice_to (Z.of_nat (length ds)) digits = Some (decimal n)) as ->.
  { unfold slice_to, digits. rewrite length_app, Nat2Z.id, Hds, take_app_length.
    by destruct (Z.leb_spec (Z.of_nat (length (decimal n)))
      (Z.of_nat (length (decimal n) + length (drop (length (decimal n)) (replicate 10 0))))); [|lia]. }
  cbn [or_panic bind].
  set (rest := drop (length pts_prefix) buf).
  assert (length rest = 12)%nat as Hrest by (unfold rest; rewrite length_drop, Hbuf; done).
  unfold sub_slice. rewrite length_app, Hrest.
  destruct (Z.leb_spec (Z.of_nat (length pts_prefix) + Z.of_nat (length ds))
    (Z.of_nat (length pts_prefix + 12))); [|lia]. cbn [or_panic bind].
  rewrite Nat2Z.id, take_app_length.
  replace (Z.to_nat (Z.of_nat (length pts_prefix) + Z.of_nat (length ds)))
    with (length pts_prefix + length ds)%nat by lia.
  rewrite drop_app_add.
  destruct (drop (length ds) rest) as [|x tail] eqn:E.
  { apply (f_equal length) in E. rewrite length_drop in E. cbn [length] in E. lia. }
  assert (Z.of_nat (length pts_prefix) + Z.of_nat (length ds) = Z.of_nat (length (pts_path ptn))) as ->.
  { unfold pts_path. fold n. rewrite length_app. lia. }
  rewrite app_assoc. fold n. change (pts_prefix ++ decimal n) with (pts_path ptn).
  apply finish_cstr. unfold pts_path. apply Forall_app.
  split; [by repeat constructor|by apply digits_nonzero].
Qed.

Lemma format_pts_path_correct_witness :
  format_pts_path (-1) (replicate 21 0) = Ret (str "/dev/pts/4294967295").
Proof. apply (format_pts_path_correct (-1) (replicate 21 0)). reflexivity. Defined.
