(* ===== verification/Dns.v ===== *)
(** The stub resolver ([src/dns.rs]): reading [/etc/resolv.conf], encoding a
    query, walking a reply, and the query loop that owns the socket. *)

From stdpp Require Import base list option numbers strings.
From Stdlib Require Import ZArith Lia.
From S2P Require Import Prelude Prog Layout Asm Arch Fd Misc Socket.

Definition QTYPE_A : Z := 1.
Definition QTYPE_AAAA : Z := 28.
Definition QCLASS_IN : Z := 1.
Definition MAX_NAMESERVERS : Z := 3.
Definition MAX_ADDRS : Z := 8.
Definition RESPONSE_TIMEOUT_MS : Z := 2000.

(** ** What the module uses of [core::str]

    A [&str] read from bytes is its list of scalar values; a [&str] the caller
    passes ([hostname]) is its UTF-8 bytes.  ['.'] and the digits are one byte
    and one scalar alike, so [split_on] and [parse_u8] serve both. *)

Definition is_cont (b : Z) : bool := (0x80 <=? b) && (b <=? 0xBF).

(** One scalar from the front: its value and the bytes after it; [None] for an
    ill-formed sequence (overlong, a surrogate, above U+10FFFF, truncated). *)
Definition utf8_next (l : list Z) : option (Z * list Z) :=
  match l with
  | [] => None
  | a :: l =>
      if a <? 0x80 then Some (a, l)
      else if (0xC2 <=? a) && (a <=? 0xDF) then
        match l with
        | b :: l => if is_cont b then Some ((a - 0xC0) * 64 + (b - 0x80), l) else None
        | _ => None
        end
      else if (0xE0 <=? a) && (a <=? 0xEF) then
        match l with
        | b :: c :: l =>
            if is_cont b && is_cont c && (negb (a =? 0xE0) || (0xA0 <=? b)) &&
               (negb (a =? 0xED) || (b <=? 0x9F))
            then Some ((a - 0xE0) * 4096 + (b - 0x80) * 64 + (c - 0x80), l) else None
        | _ => None
        end
      else if (0xF0 <=? a) && (a <=? 0xF4) then
        match l with
        | b :: c :: d :: l =>
            if is_cont b && is_cont c && is_cont d && (negb (a =? 0xF0) || (0x90 <=? b)) &&
               (negb (a =? 0xF4) || (b <=? 0x8F))
            then Some ((a - 0xF0) * 262144 + (b - 0x80) * 4096 + (c - 0x80) * 64 + (d - 0x80), l)
            else None
        | _ => None
        end
      else None
  end.

Fixpoint utf8_decode (fuel : nat) (l : list Z) : option (list Z) :=
  match l, fuel with
  | [], _ => Some []
  | _, O => None
  | _, S fuel =>
      match utf8_next l with
      | None => None
      | Some (c, l) => option_map (cons c) (utf8_decode fuel l)
      end
  end.

(** [core::str::from_utf8]: each step consumes a byte, so the length is fuel
    enough. *)
Definition from_utf8 (l : list Z) : option (list Z) := utf8_decode (length l) l.

(** [str::split(c)]: always at least one part. *)
Fixpoint split_on (c : Z) (l : list Z) : list (list Z) :=
  match l with
  | [] => [[]]
  | x :: l =>
      if x =? c then [] :: split_on c l
      else match split_on c l with
           | p :: ps => (x :: p) :: ps
           | [] => [[x]]
           end
  end.

(** [str::lines]: split after each newline, the newline and a carriage return
    before it removed; no empty last line. *)
Definition strip_cr (l : list Z) : list Z :=
  match rev l with
  | c :: r => if c =? 13 then rev r else l
  | [] => l
  end.
Fixpoint lines_from (l : list (list Z)) : list (list Z) :=
  match l with
  | [] => []
  | [last] => match last with [] => [] | _ => [last] end
  | p :: ps => strip_cr p :: lines_from ps
  end.
Definition lines (l : list Z) : list (list Z) := lines_from (split_on 10 l).

(** [char::is_whitespace] (the Unicode property White_Space). *)
Definition is_whitespace (c : Z) : bool :=
  ((9 <=? c) && (c <=? 13)) || (c =? 0x20) || (c =? 0x85) || (c =? 0xA0) || (c =? 0x1680) ||
  ((0x2000 <=? c) && (c <=? 0x200A)) || (c =? 0x2028) || (c =? 0x2029) || (c =? 0x202F) ||
  (c =? 0x205F) || (c =? 0x3000).
Fixpoint trim_start (l : list Z) : list Z :=
  match l with
  | c :: l' => if is_whitespace c then trim_start l' else l
  | [] => []
  end.
Definition trim (l : list Z) : list Z := rev (trim_start (rev (trim_start l))).

Fixpoint strip_prefix (p l : list Z) : option (list Z) :=
  match p, l with
  | [], _ => Some l
  | a :: p, b :: l => if a =? b then strip_prefix p l else None
  | _, [] => None
  end.

(** [<u8 as FromStr>::from_str]: an optional [+], at least one digit, no
    overflow. *)
Fixpoint parse_digits (acc : Z) (l : list Z) : option Z :=
  match l with
  | [] => Some acc
  | d :: l =>
      if (48 <=? d) && (d <=? 57) then
        let acc := acc * 10 + (d - 48) in
        if acc <? 256 then parse_digits acc l else None
      else None
  end.
Definition parse_u8 (l : list Z) : option Z :=
  match l with
  | [] => None
  | [c] => if (c =? 43) || (c =? 45) then None else parse_digits 0 l
  | c :: r => if c =? 43 then parse_digits 0 r else parse_digits 0 l
  end.

(** ** Addresses *)

(** [out] holds the octets parsed so far; [count] is its length. *)
Fixpoint parse_ipv4_parts (parts : list (list Z)) (out : list Z) : option (list Z) :=
  match parts with
  | [] => if Z.of_nat (length out) =? 4 then Some out else None
  | p :: parts =>
      if 4 <=? Z.of_nat (length out) then None
      else match parse_u8 p with
           | None => None
           | Some b => parse_ipv4_parts parts (out ++ [b])
           end
  end.
Definition parse_ipv4 (s : list Z) : option (list Z) := parse_ipv4_parts (split_on 46 s) [].

(** [AddrList4] and [AddrList6]: a fixed array and how much of it is in use. *)
Record AddrList := mkAddrList { addrs : list (list Z); al_len : Z }.
Definition AddrList4 := AddrList.
Definition AddrList6 := AddrList.
Definition AddrList4_empty : AddrList4 := mkAddrList (replicate 8 (replicate 4 0)) 0.
Definition AddrList6_empty : AddrList6 := mkAddrList (replicate 8 (replicate 16 0)) 0.
Definition AddrList4_as_slice (a : AddrList4) : option (list (list Z)) :=
  slice_to (al_len a) (addrs a).
Definition AddrList6_as_slice (a : AddrList6) : option (list (list Z)) :=
  slice_to (al_len a) (addrs a).

(** ** The resolver configuration *)

(** The body of [for line in text.lines()]; [servers] are the ones kept. *)
Definition scan_line (servers : list (list Z)) (line : list Z) : list (list Z) :=
  match strip_prefix (str "nameserver") (trim line) with
  | None => servers
  | Some rest =>
      match parse_ipv4 (trim rest) with
      | None => servers
      | Some addr =>
          if Z.of_nat (length servers) <? MAX_NAMESERVERS then servers ++ [addr] else servers
      end
  end.

Definition scan_config (raw : list Z) : result (list (list Z)) :=
  match from_utf8 raw with
  | None => Err EINVAL
  | Some text =>
      match fold_left scan_line (lines text) [] with
      | [] => Err EINVAL
      | servers => Ok servers
      end
  end.

Section Config.
Context `{Target}.

(** The [loop]: what was read, or the error after closing [f]. *)
Fixpoint read_config (fuel : nat) (f : Z) (raw : list Z) (total : Z) :
    Prog (result (list Z * Z)) :=
  match fuel with
  | O => NoFuel
  | S fuel =>
      let* tail := or_panic (slice_from total raw) in
      let* (tail, r) := read f tail in
      let raw := take (Z.to_nat total) raw ++ tail in
      match r with
      | Err e => let* _ := close f in Ret (Err e)
      | Ok n =>
          let* sum := usize_add total n in
          if (n =? 0) || (Z.of_nat (length raw) <=? sum)
          then Ret (Ok (raw, sum))
          else read_config fuel f raw sum
      end
  end.

(** Each turn but the last reads a byte or more of the 4096. *)
Definition read_nameservers : Prog (result (list (list Z))) :=
  let? f := open (str "/etc/resolv.conf") O_RDONLY 0 in
  let raw := replicate 4096 0 in
  let? (raw, total) := read_config 4097 f raw 0 in
  let* _ := close f in
  let* raw := or_panic (slice_to total raw) in
  Ret (scan_config raw).
End Config.

(** ** Encoding a query *)

(** A step of the encoder: it writes at [pos] of the buffer and moves on. *)
Definition Enc := list Z -> Z -> list Z * result Z.

Definition enc_seq (a b : Enc) : Enc := fun buf pos =>
  match a buf pos with
  | (buf, Ok pos) => b buf pos
  | (buf, Err e) => (buf, Err e)
  end.
Infix ">>>" := enc_seq (at level 60, right associativity) : prog_scope.

Definition enc_fail (e : Errno) : Enc := fun buf pos => (buf, Err e).

(** The closure [put]. *)
Definition put (bytes : list Z) : Enc := fun buf pos =>
  if Z.of_nat (length buf) <? pos + Z.of_nat (length bytes) then (buf, Err EINVAL)
  else (take (Z.to_nat pos) buf ++ bytes ++ drop (Z.to_nat pos + length bytes) buf,
        Ok (pos + Z.of_nat (length bytes))).

Fixpoint put_labels (labels : list (list Z)) : Enc := fun buf pos =>
  match labels with
  | [] => (buf, Ok pos)
  | label :: labels =>
      (if (length label =? 0)%nat || (63 <? length label)%nat then enc_fail EINVAL
       else put [as_u8 (Z.of_nat (length label))] >>> put label >>> put_labels labels) buf pos
  end.

Definition build_query (buf : list Z) (id : Z) (hostname : list Z) (qtype : Z) :
    list Z * result Z :=
  match hostname with
  | [] => (buf, Err EINVAL)
  | _ =>
      (put (be_enc 2 id) >>> put (be_enc 2 0x0100) >>> put (be_enc 2 1) >>> put (be_enc 2 0) >>>
       put (be_enc 2 0) >>> put (be_enc 2 0) >>>
       put_labels (split_on 46 hostname) >>> put [0] >>>
       put (be_enc 2 qtype) >>> put (be_enc 2 QCLASS_IN)) buf 0
  end.

(** ** Reading a reply

    [buf[i]] is [at_ buf i]; an index out of range panics. *)
Definition at_ (buf : list Z) (i : Z) : Prog Z := or_panic (buf !! Z.to_nat i).

Fixpoint skip_name (fuel : nat) (buf : list Z) (pos : Z) : Prog (result Z) :=
  match fuel with
  | O => NoFuel
  | S fuel =>
      if Z.of_nat (length buf) <=? pos then Ret (Err EINVAL)
      else
        let* len := at_ buf pos in
        if len =? 0 then Ret (Ok (pos + 1))
        else if Z.land len 0xC0 =? 0xC0 then
          if Z.of_nat (length buf) <=? pos + 1 then Ret (Err EINVAL) else Ret (Ok (pos + 2))
        else skip_name fuel buf (pos + (1 + len))
  end.

(** Each turn moves forward by a byte or more. *)
Definition skip_name_fuel (buf : list Z) : nat := S (length buf).

Definition read_u16 (buf : list Z) (pos : Z) : Prog (result Z) :=
  if Z.of_nat (length buf) <? pos + 2 then Ret (Err EINVAL)
  else
    let* hi := at_ buf pos in
    let* lo := at_ buf (pos + 1) in
    Ret (Ok (be_dec [hi; lo])).

Record ParsedHeader := mkParsedHeader { ancount : Z; first_answer : Z }.

(** [for _ in 0..qdcount] *)
Fixpoint skip_questions (count : nat) (buf : list Z) (n pos : Z) : Prog (result Z) :=
  match count with
  | O => Ret (Ok pos)
  | S count =>
      let? pos := skip_name (skip_name_fuel buf) buf pos in
      let pos := pos + 4 in
      if n <? pos then Ret (Err EINVAL) else skip_questions count buf n pos
  end.

Definition parse_header (buf : list Z) (n : Z) : Prog (result ParsedHeader) :=
  if n <? 12 then Ret (Err EINVAL)
  else
    let? flags := read_u16 buf 2 in
    let rcode := Z.land flags 0x000F in
    if rcode =? 3 then Ret (Err ENOENT)
    else if negb (rcode =? 0) then Ret (Err EINVAL)
    else
      let? qdcount := read_u16 buf 4 in
      let? ancount := read_u16 buf 6 in
      let? pos := skip_questions (Z.to_nat qdcount) buf n 12 in
      Ret (Ok (mkParsedHeader ancount pos)).

(** [out.addrs[out.len].copy_from_slice(..); out.len += 1] *)
Definition push_addr (out : AddrList) (a : list Z) : AddrList :=
  mkAddrList (<[Z.to_nat (al_len out) := a]> (addrs out)) (al_len out + 1).

(** [for _ in 0..header.ancount]; the two parsers differ in [qtype] and in the
    size [w] of an address. *)
Fixpoint parse_records (qtype w : Z) (count : nat) (buf : list Z) (n pos : Z)
    (out : AddrList) : Prog (result AddrList) :=
  match count with
  | O => Ret (Ok out)
  | S count =>
      let? pos := skip_name (skip_name_fuel buf) buf pos in
      if n <? pos + 10 then Ret (Err EINVAL)
      else
        let? rtype := read_u16 buf pos in
        let? rdlength := read_u16 buf (pos + 8) in
        let pos := pos + 10 in
        if n <? pos + rdlength then Ret (Err EINVAL)
        else
          let* out :=
            if (rtype =? qtype) && (rdlength =? w) && (al_len out <? MAX_ADDRS) then
              let* a := or_panic (sub_slice pos w buf) in Ret (push_addr out a)
            else Ret out in
          parse_records qtype w count buf n (pos + rdlength) out
  end.

Definition parse_answers (qtype w : Z) (out : AddrList) (buf : list Z) (n : Z) :
    Prog (result AddrList) :=
  let? header := parse_header buf n in
  let? out := parse_records qtype w (Z.to_nat (ancount header)) buf n (first_answer header) out in
  if al_len out =? 0 then Ret (Err ENOENT) else Ret (Ok out).

Definition parse_answers_a (buf : list Z) (n : Z) : Prog (result AddrList4) :=
  parse_answers QTYPE_A 4 AddrList4_empty buf n.
Definition parse_answers_aaaa (buf : list Z) (n : Z) : Prog (result AddrList6) :=
  parse_answers QTYPE_AAAA 16 AddrList6_empty buf n.

(** ** The query loop *)

Section Query.
Context `{Target}.

(** The body of [for server in servers]: [None] is [continue], [Some] leaves
    the closure. *)
Definition ask (sock id : Z) (q : list Z) (server : list Z) :
    Prog (option (result (list Z * Z))) :=
  let dest := SockAddrIn_new server 53 in
  let* sent := sendto_in sock q 0 dest in
  if negb (is_ok sent) then Ret None
  else
    let* (_, ready) := poll [mkPollFd sock POLLIN 0] RESPONSE_TIMEOUT_MS in
    match ready with
    | Err e => Ret (Some (Err e))
    | Ok ready =>
        if ready =? 0 then Ret None
        else
          let* (rbuf, got) := recvfrom_in sock (replicate 512 0) 0 in
          match got with
          | Err _ => Ret None
          | Ok (n, from) =>
              if negb (bool_decide (sin_octets from = server)) || (n <? 12) then Ret None
              else
                let* b0 := at_ rbuf 0 in
                let* b1 := at_ rbuf 1 in
                if negb (be_dec [b0; b1] =? id) then Ret None
                else Ret (Some (Ok (rbuf, n)))
          end
    end.

Fixpoint ask_all (sock id : Z) (q : list Z) (servers : list (list Z)) :
    Prog (option (result (list Z * Z))) :=
  match servers with
  | [] => Ret None
  | server :: servers =>
      let* r := ask sock id q server in
      match r with Some r => Ret (Some r) | None => ask_all sock id q servers end
  end.

(** [for _attempt in 0..2] *)
Fixpoint attempts (k : nat) (sock id : Z) (q : list Z) (servers : list (list Z)) :
    Prog (result (list Z * Z)) :=
  match k with
  | O => Ret (Err ETIMEDOUT)
  | S k =>
      let* r := ask_all sock id q servers in
      match r with Some r => Ret r | None => attempts k sock id q servers end
  end.

Definition query (hostname : list Z) (qtype : Z) : Prog (result (list Z * Z)) :=
  let? servers := read_nameservers in
  let* (id_buf, r) := getrandom (replicate 2 0) 0 in
  let? _ := Ret r in
  let id := be_dec id_buf in
  let '(qbuf, qlen) := build_query (replicate 256 0) id hostname qtype in
  let? qlen := Ret qlen in
  let? sock := socket AF_INET SOCK_DGRAM 0 in
  let* q := or_panic (slice_to qlen qbuf) in
  let* result := attempts 2 sock id q servers in
  let* _ := close sock in
  Ret result.

Definition resolve_a (hostname : list Z) : Prog (result AddrList4) :=
  let? (buf, n) := query hostname QTYPE_A in parse_answers_a buf n.

Definition resolve_aaaa (hostname : list Z) : Prog (result AddrList6) :=
  let? (buf, n) := query hostname QTYPE_AAAA in parse_answers_aaaa buf n.
End Query.
