(* ===== verification/FdSpec.v ===== *)
(** What [write_all] and [read_all] promise, proved against the interface of the
    device behind the descriptor, and a concrete device that implements it. *)

From stdpp Require Import base list option numbers gmap strings.
From Stdlib Require Import ZArith Lia.
From S2P Require Import Prelude Prog Layout Asm Arch Fd.

(** ** The calls *)

Definition write_call `{Target} (fd : Z) (buf : list Z) : Call :=
  Syscall (nrz WRITE) [int fd; ARef buf; len buf].
Definition read_call `{Target} (fd : Z) (buf : list Z) : Call :=
  Syscall (nrz READ) [int fd; AMut buf; len buf].
Definition close_call `{Target} (fd : Z) : Call := Syscall (nrz CLOSE) [int fd].

(** ** Interfaces *)

(** A descriptor that takes bytes: what it has taken, and how many more times
    a signal can interrupt a write.  A [write] accepts a prefix of the buffer,
    possibly empty, or fails and accepts nothing. *)
Class Sink `{Target} (K : Kernel) (fd : Z) := {
  sink_data : kst K -> list Z;
  sink_interrupts : kst K -> nat;
  sink_write : forall buf s, exists r s',
    kstep K (write_call fd buf) s = (Some r, s') /\
    match from_ret (as_u64 (r_ret r)) with
    | Ok n =>
        n <= Z.of_nat (length buf) /\
        sink_data s' = sink_data s ++ take (Z.to_nat n) buf /\
        (sink_interrupts s' <= sink_interrupts s)%nat
    | Err e =>
        sink_data s' = sink_data s /\
        (sink_interrupts s' + (if decide (e = EINTR) then 1 else 0) <= sink_interrupts s)%nat
    end }.

(** A descriptor that gives bytes: what is left to read.  A [read] moves a
    prefix of it into the front of the buffer, and an empty one only at the end
    of the data (or into an empty buffer). *)
Class Source `{Target} (K : Kernel) (fd : Z) := {
  source_data : kst K -> list Z;
  source_interrupts : kst K -> nat;
  source_read : forall buf s, exists r s',
    let c := read_call fd buf in
    kstep K c s = (Some r, s') /\
    match from_ret (as_u64 (r_ret r)) with
    | Ok n =>
        n <= Z.of_nat (length buf) /\ n <= Z.of_nat (length (source_data s)) /\
        (n = 0 -> source_data s = [] \/ buf = []) /\
        out 0 (conform c r) = take (Z.to_nat n) (source_data s) ++ drop (Z.to_nat n) buf /\
        source_data s' = drop (Z.to_nat n) (source_data s) /\
        (source_interrupts s' <= source_interrupts s)%nat
    | Err e =>
        out 0 (conform c r) = buf /\ source_data s' = source_data s /\
        (source_interrupts s' + (if decide (e = EINTR) then 1 else 0) <= source_interrupts s)%nat
    end }.

(** ** A concrete device

    A buffer with a script: each call takes the next entry, a failure or a bound
    on how much it moves; with the script exhausted a call moves all it can, up
    to the kernel's limit on one transfer. *)
Inductive Event := Interrupted | Broken | Moves (most : Z).

Record Device := mkDevice { dev_data : list Z; dev_script : list Event }.

Fixpoint interrupts (l : list Event) : nat :=
  match l with
  | [] => 0
  | Interrupted :: l => S (interrupts l)
  | _ :: l => interrupts l
  end.

Definition MAX_RW_COUNT : Z := 0x7ffff000.

Definition dev_next (d : Device) : Event * list Event :=
  match dev_script d with [] => (Moves MAX_RW_COUNT, []) | e :: l => (e, l) end.

(** How much of [n] bytes one call moves. *)
Definition amount (most n : Z) : Z := Z.max 0 (Z.min (Z.min most MAX_RW_COUNT) n).

Definition dev_step (c : Call) (d : Device) : option Reply * Device :=
  let '(e, script) := dev_next d in
  match e, c with
  | Moves most, Syscall _ (_ :: ARef buf :: _) =>
      let n := amount most (Z.of_nat (length buf)) in
      (Some (mkReply n []), mkDevice (dev_data d ++ take (Z.to_nat n) buf) script)
  | Moves most, Syscall _ (_ :: AMut buf :: _) =>
      let n := amount (Z.max 1 most)
                 (Z.min (Z.of_nat (length buf)) (Z.of_nat (length (dev_data d)))) in
      (Some (mkReply n [take (Z.to_nat n) (dev_data d)]),
       mkDevice (drop (Z.to_nat n) (dev_data d)) script)
  | Interrupted, _ => (Some (mkReply (2 ^ 64 - 4) []), mkDevice (dev_data d) script)
  | _, _ => (Some (mkReply (2 ^ 64 - 5) []), mkDevice (dev_data d) script)
  end.

Definition device : Kernel := mkKernel Device dev_step.

Lemma close_call_inj `{Target} fd fd' : is_i32 fd -> is_i32 fd' -> close_call fd = close_call fd' -> fd = fd'.
Proof.
  intros Hf Hf' E. unfold close_call, int in E. injection E as E.
  rewrite <- (as_i32_as_usize fd), <- (as_i32_as_usize fd') by done. by rewrite E.
Qed.

Lemma interrupts_next d e l : dev_next d = (e, l) ->
  (interrupts l + (if e is Interrupted then 1 else 0) = interrupts (dev_script d))%nat.
Proof.
  unfold dev_next. destruct (dev_script d) as [|[] ?]; intros [= <- <-]; simpl; lia.
Qed.

Lemma amount_range most n : 0 <= n -> 0 <= amount most n <= n /\ amount most n <= MAX_RW_COUNT.
Proof. unfold amount, MAX_RW_COUNT. lia. Qed.

Lemma from_ret_small n : 0 <= n <= MAX_RW_COUNT -> from_ret (as_u64 n) = Ok n.
Proof.
  unfold MAX_RW_COUNT. intros. unfold as_u64. rewrite wrap_small by lia.
  apply from_ret_ok; int_ranges; lia.
Qed.

Lemma nrz_write_read `{Target} : nrz WRITE <> nrz READ.
Proof. unfold nrz, nr_table. destruct arch; vm_compute; congruence. Qed.

Lemma overwrite_prefix old new :
  (length new <= length old)%nat ->
  overwrite old new = map as_u8 new ++ drop (length new) old.
Proof.
  intros. unfold overwrite. rewrite take_ge; [done|].
  rewrite length_app, length_map, length_drop. lia.
Qed.

#[export] Program Instance device_sink `{Target} fd : Sink device fd := {
  sink_data := dev_data;
  sink_interrupts s := interrupts (dev_script s) }.
Next Obligation.
  intros ? fd buf s. cbn [kstep device]. unfold dev_step.
  destruct (dev_next s) as [e script] eqn:E. apply interrupts_next in E.
  destruct e as [| |most]; do 2 eexists; (split; [reflexivity|]); cbn [r_ret].
  - change (from_ret (as_u64 (2 ^ 64 - 4))) with (@Err Z EINTR). simpl in *.
    split; [done|lia].
  - change (from_ret (as_u64 (2 ^ 64 - 5))) with (@Err Z EIO). simpl in *.
    split; [done|lia].
  - pose proof (amount_range most (Z.of_nat (length buf)) ltac:(lia)).
    rewrite from_ret_small by lia. simpl in *. split_and!; [lia|done|lia].
Qed.

#[export] Program Instance device_source `{Target} fd : Source device fd := {
  source_data s := map as_u8 (dev_data s);
  source_interrupts s := interrupts (dev_script s) }.
Next Obligation.
  intros ? fd buf s. cbn [kstep device]. unfold dev_step.
  destruct (dev_next s) as [e script] eqn:E. apply interrupts_next in E.
  destruct e as [| |most]; do 2 eexists; (split; [reflexivity|]); cbn [r_ret].
  - change (from_ret (as_u64 (2 ^ 64 - 4))) with (@Err Z EINTR). simpl in *.
    split_and!; [done|done|lia].
  - change (from_ret (as_u64 (2 ^ 64 - 5))) with (@Err Z EIO). simpl in *.
    split_and!; [done|done|lia].
  - set (m := Z.min (Z.of_nat (length buf)) (Z.of_nat (length (dev_data s)))).
    pose proof (amount_range (Z.max 1 most) m ltac:(lia)).
    rewrite from_ret_small by lia. cbn [dev_data dev_script] in *. rewrite length_map.
    set (n := amount (Z.max 1 most) m) in *.
    split_and!; [lia|lia| | |by rewrite fmap_drop|lia].
    + unfold n, amount, MAX_RW_COUNT, m. intros Hn.
      destruct (dev_data s); [by left|]. destruct buf; [by right|]. simpl in Hn. lia.
    + change (overwrite buf (take (Z.to_nat n) (dev_data s)) =
              take (Z.to_nat n) (map as_u8 (dev_data s)) ++ drop (Z.to_nat n) buf).
      assert (length (take (Z.to_nat n) (dev_data s)) = Z.to_nat n) as Hl
        by (rewrite length_take; lia).
      rewrite overwrite_prefix by lia. by rewrite Hl, fmap_take.
Qed.

(** ** Descriptors in use: the lowest free one from 3 on, of [limit]. *)

Definition fd_range (limit : nat) : list Z := map (fun i => 3 + Z.of_nat i) (seq 0 limit).
Definition free_fd {A} (limit : nat) (m : gmap Z A) : option Z :=
  head (List.filter (fun fd => bool_decide (m !! fd = None)) (fd_range limit)).

Lemma free_fd_some {A} limit (m : gmap Z A) fd :
  free_fd limit m = Some fd -> m !! fd = None /\ 3 <= fd < 3 + Z.of_nat limit.
Proof.
  unfold free_fd. intros Hh. assert (In fd (List.filter (fun fd => bool_decide (m !! fd = None)) (fd_range limit))) as Hin.
  { destruct (List.filter _ _); [done|]. injection Hh as ->. by left. }
  apply filter_In in Hin as [Hin Hb]. apply bool_decide_eq_true in Hb. split; [done|].
  unfold fd_range in Hin. apply in_map_iff in Hin as (i & <- & Hi). apply in_seq in Hi. lia.
Qed.

Lemma free_fd_none {A} limit (m : gmap Z A) : free_fd limit m = None -> (limit <= size m)%nat.
Proof.
  unfold free_fd. intros Hh. assert (forall fd, In fd (fd_range limit) -> is_Some (m !! fd)) as Hall.
  { intros fd Hin. destruct (m !! fd) eqn:E; [done|]. exfalso.
    assert (In fd (List.filter (fun fd => bool_decide (m !! fd = None)) (fd_range limit))) as Hf.
    { apply filter_In. split; [done|]. by apply bool_decide_eq_true. }
    by destruct (List.filter _ _). }
  assert (NoDup (fd_range limit)) as Hnd.
  { apply NoDup_fmap; [intros i j; lia|apply NoDup_ListNoDup, seq_NoDup]. }
  rewrite <- size_dom. transitivity (size (list_to_set (C := gset Z) (fd_range limit))).
  - rewrite size_list_to_set by done. unfold fd_range. by rewrite length_map, length_seq.
  - apply subseteq_size. intros fd. rewrite elem_of_list_to_set, elem_of_dom.
    intros Hin. apply Hall. by apply list_elem_of_In.
Qed.

(** ** [write_all] *)

Section WriteAll.
Context `{Target} (K : Kernel) (fd : Z) `{!Sink K fd}.

(** [write] against a sink: the result, which is the device's, and the bytes taken. *)
Lemma run_write buf s : exists r rep s',
  run K (write fd buf) s = (Done r, [(write_call fd buf, Some rep)], s') /\
  r = from_ret (r_ret rep) /\
  match r with
  | Ok n =>
      0 <= n <= Z.of_nat (length buf) /\
      sink_data s' = sink_data s ++ take (Z.to_nat n) buf /\
      (sink_interrupts s' <= sink_interrupts s)%nat
  | Err e =>
      sink_data s' = sink_data s /\
      (sink_interrupts s' + (if decide (e = EINTR) then 1 else 0) <= sink_interrupts s)%nat
  end.
Proof.
  destruct (sink_write buf s) as (r & s' & Hstep & Hr). unfold write_call in Hstep.
  unfold write. autorewrite with syscalls. unfold raw_call. cbn [bind run].
  rewrite Hstep. cbn [bind run]. do 3 eexists. split; [reflexivity|]. split; [reflexivity|].
  cbn [r_ret conform]. pose proof (conform_ret_range (Syscall 0 []) r) as Hb.
  cbn [r_ret conform] in Hb.
  destruct (from_ret (as_u64 (r_ret r))) as [n|e] eqn:E; [|exact Hr].
  apply from_ret_ok in E as [-> _]; [|exact Hb]. destruct Hr as (? & ? & ?).
  split_and!; [lia|lia|done|done].
Qed.
End WriteAll.

(** [C15] [write_all] returns, given fuel for one turn per byte and one per
    interruption; on success the device took exactly the buffer, and on failure
    a strict prefix of it.  The last call then was a [write] of the rest, and the
    error is what the device answered to it, or [EIO] if it took nothing; never
    [EINTR]. *)
Theorem write_all_correct `{Target} (K : Kernel) (fd : Z) `{!Sink K fd} buf s fuel :
  (length buf + sink_interrupts s <= fuel)%nat ->
  exists r t s',
    run K (write_all fuel fd buf) s = (Done r, t, s') /\
    match r with
    | Ok _ => sink_data s' = sink_data s ++ buf
    | Err e =>
        e <> EINTR /\
        exists k, (k < length buf)%nat /\ sink_data s' = sink_data s ++ take k buf /\
        exists rep, last t = Some (write_call fd (drop k buf), Some rep) /\
          (from_ret (r_ret rep) = Err e \/ from_ret (r_ret rep) = Ok 0 /\ e = EIO)
    end.
Proof.
  revert buf s. induction fuel as [|fuel IH]; intros buf s Hf.
  - destruct buf; [|simpl in *; lia]. do 3 eexists. split; [reflexivity|].
    simpl. by rewrite app_nil_r.
  - destruct buf as [|b buf']; [do 3 eexists; split; [reflexivity|]; by rewrite app_nil_r|].
    cbn [write_all]. remember (b :: buf') as buf eqn:Eb.
    assert (0 < length buf)%nat as Hpos by (subst; simpl; lia). clear Eb.
    rewrite run_bind.
    destruct (run_write K fd buf s) as (r & rep & s1 & -> & Erep & Hr).
    destruct r as [n|e].
    + destruct Hr as (Hn & Hd & Hi). destruct (Z.eqb_spec n 0) as [->|Hn0].
      * do 3 eexists. split; [reflexivity|]. split; [done|]. exists 0%nat. eauto 10.
      * unfold slice_from. destruct (Z.leb_spec n (Z.of_nat (length buf))); [|lia].
        cbn [or_panic bind].
        destruct (IH (drop (Z.to_nat n) buf) s1) as (r' & t' & s2 & -> & Hr').
        { rewrite length_drop. lia. }
        do 3 eexists. split; [reflexivity|]. rewrite Hd in Hr'. destruct r' as [u|e'].
        -- rewrite Hr', <- app_assoc. by rewrite take_drop.
        -- destruct Hr' as (He & k & Hk & -> & rep' & Ht & Hrep'). split; [done|].
           exists (Z.to_nat n + k)%nat. rewrite length_drop in Hk. split; [lia|].
           split; [by rewrite <- app_assoc, take_take_drop|]. exists rep'.
           by rewrite last_app, Ht, drop_drop.
    + destruct Hr as [Hd Hi]. destruct (decide (e = EINTR)) as [->|He].
      * destruct (IH buf s1) as (r' & t' & s2 & -> & Hr'); [lia|].
        do 3 eexists. split; [reflexivity|]. rewrite Hd in Hr'. destruct r' as [u|e']; [done|].
        destruct Hr' as (He & k & Hk & Hd' & rep' & Ht & Hrep'). split; [done|].
        exists k. split; [done|]. split; [done|]. exists rep'. by rewrite last_app, Ht.
      * do 3 eexists. split; [reflexivity|]. split; [done|]. exists 0%nat.
        split; [lia|]. rewrite Hd, app_nil_r. eauto.
Qed.

Lemma write_all_correct_witness :
  let d := mkDevice [] [Moves 2; Interrupted; Moves 1] in
  exists r t s',
    run device (write_all (H := Aarch64) 6 1 (str "hello") ) d = (Done r, t, s') /\
    match r with
    | Ok _ => dev_data s' = str "hello"
    | Err e => e <> EINTR /\ exists k, (k < 5)%nat /\ dev_data s' = take k (str "hello") /\
        exists rep, last t = Some (write_call (H := Aarch64) 1 (drop k (str "hello")), Some rep) /\
          (from_ret (r_ret rep) = Err e \/ from_ret (r_ret rep) = Ok 0 /\ e = EIO)
    end.
Proof.
  intros d.
  apply (@write_all_correct Aarch64 device 1 (@device_sink Aarch64 1) (str "hello") d 6).
  vm_compute. lia.
Defined.

(** ** [read_all] *)

Section ReadAll.
Context `{Target} (K : Kernel) (fd : Z) `{!Source K fd}.

Lemma run_read buf s : exists r t s' b,
  run K (read fd buf) s = (Done (b, r), t, s') /\
  match r with
  | Ok n =>
      0 <= n <= Z.of_nat (length buf) /\ n <= Z.of_nat (length (source_data s)) /\
      (n = 0 -> source_data s = [] \/ buf = []) /\
      b = take (Z.to_nat n) (source_data s) ++ drop (Z.to_nat n) buf /\
      source_data s' = drop (Z.to_nat n) (source_data s) /\
      (source_interrupts s' <= source_interrupts s)%nat
  | Err e =>
      b = buf /\ source_data s' = source_data s /\
      (source_interrupts s' + (if decide (e = EINTR) then 1 else 0) <= source_interrupts s)%nat
  end.
Proof.
  destruct (source_read buf s) as (r & s' & Hstep & Hr). unfold read_call in *.
  unfold read. autorewrite with syscalls. unfold raw_call. cbn [bind run].
  rewrite Hstep. cbn [bind run]. do 4 eexists. split; [reflexivity|].
  pose proof (conform_ret_range (Syscall 0 []) r) as Hb. cbn [r_ret conform] in Hb |- *.
  destruct (from_ret (as_u64 (r_ret r))) as [n|e] eqn:E; [|exact Hr].
  apply from_ret_ok in E as [-> _]; [|exact Hb]. destruct Hr as (? & ? & ? & ? & ? & ?).
  split_and!; try done; lia.
Qed.

(** What reading [k] more bytes at [total] leaves in the buffer. *)
Definition filled (buf data : list Z) (total k : nat) : list Z :=
  take total buf ++ take k data ++ drop (total + k) buf.

Lemma filled_0 buf data total : filled buf data total 0 = buf.
Proof. unfold filled. simpl. by rewrite Nat.add_0_r, take_drop. Qed.

Lemma filled_add buf data total j k :
  (j <= length data)%nat -> (total + j <= length buf)%nat ->
  filled (filled buf data total j) (drop j data) (total + j) k = filled buf data total (j + k).
Proof.
  intros Hj Hb. unfold filled.
  assert (length (take total buf ++ take j data) = total + j)%nat as Hl
    by (rewrite length_app, !length_take; lia).
  rewrite !(app_assoc (take total buf)).
  rewrite take_app_length' by done.
  rewrite drop_app_ge by lia. rewrite Hl, drop_drop.
  rewrite <- !app_assoc. f_equal. rewrite app_assoc, take_take_drop. f_equal.
  f_equal. lia.
Qed.

Lemma filled_length buf data total k :
  (k <= length data)%nat -> (total + k <= length buf)%nat ->
  length (filled buf data total k) = length buf.
Proof.
  intros. unfold filled. rewrite !length_app, !length_take, length_drop. lia.
Qed.

Lemma read_all_from_correct fuel : forall buf (total : nat) s,
  (total <= length buf)%nat -> Z.of_nat (length buf) < 2 ^ 64 ->
  (length buf - total + source_interrupts s <= fuel)%nat ->
  exists r t s' k,
    run K (read_all_from fuel fd buf (Z.of_nat total)) s =
      (Done (filled buf (source_data s) total k, r), t, s') /\
    (k <= length (source_data s) /\ total + k <= length buf)%nat /\
    source_data s' = drop k (source_data s) /\
    match r with
    | Ok n => n = Z.of_nat (total + k) /\
              (total + k < length buf -> source_data s' = [])%nat
    | Err e => e <> EINTR
    end.
Proof.
  induction fuel as [|fuel IH]; intros buf total s Ht Hlen Hf; cbn [read_all_from];
    destruct (Z.ltb_spec (Z.of_nat total) (Z.of_nat (length buf))) as [Hlt|Hge]; [lia| | |].
  1,3: do 3 eexists; exists 0%nat; rewrite filled_0; split; [reflexivity|];
    rewrite Nat.add_0_r; split_and!; try done; lia.
  unfold slice_from at 1.
  destruct (Z.leb_spec (Z.of_nat total) (Z.of_nat (length buf))); [|lia].
  cbn [or_panic bind]. rewrite Nat2Z.id, run_bind.
  destruct (run_read (drop total buf) s) as (r & t & s1 & b & -> & Hr).
  cbv beta iota zeta.
  destruct r as [n|e].
  - destruct Hr as (Hn & Hnd & Hn0 & -> & Hd & Hi). rewrite length_drop in Hn.
    rewrite drop_drop. fold (filled buf (source_data s) total (Z.to_nat n)).
    destruct (Z.eqb_spec n 0) as [->|Hn0'].
    + do 3 eexists; exists 0%nat; split; [reflexivity|].
      rewrite Nat.add_0_r. split_and!; try done; try lia. intros _. rewrite Hd.
      destruct (Hn0 eq_refl) as [->|E]; [done|].
      apply (f_equal length) in E. rewrite length_drop in E. simpl in E. lia.
    + unfold usize_add.
      destruct (Z.ltb_spec (Z.of_nat total + n) (2 ^ 64)); [|lia]. cbn [bind].
      replace (Z.of_nat total + n) with (Z.of_nat (total + Z.to_nat n)) by lia.
      destruct (IH (filled buf (source_data s) total (Z.to_nat n)) (total + Z.to_nat n)%nat s1)
        as (r & t' & s2 & k & -> & Hk & Hd' & Hr); rewrite ?filled_length by lia; try lia.
      rewrite filled_length in Hk by lia.
      rewrite Hd, length_drop in Hk. rewrite Hd in Hd'.
      do 3 eexists; exists (Z.to_nat n + k)%nat. split.
      { rewrite Hd, filled_add by lia. reflexivity. }
      rewrite drop_drop in Hd'. split_and!; [lia|lia|done|].
      destruct r; [|done]. destruct Hr as [-> Hr]. rewrite filled_length in Hr by lia.
      split; [lia|]. intros. apply Hr. lia.
  - destruct Hr as (-> & Hd & Hi). rewrite take_drop.
    destruct (decide (e = EINTR)) as [->|He].
    + destruct (IH buf total s1) as (r & t' & s2 & k & -> & Hk & Hd' & Hr); [done|done|lia|].
      rewrite Hd in *. do 3 eexists; exists k. split; [reflexivity|]. done.
    + do 3 eexists; exists 0%nat. rewrite filled_0. split; [reflexivity|].
      split_and!; [lia|lia|done|done].
Qed.
End ReadAll.

(** [C16] [read_all] returns, given fuel for one turn per byte of the buffer and
    one per interruption.  The [k] bytes it moved are a prefix of the data, at
    the front of the buffer, the rest of which it leaves alone; on success it
    answers [k], which falls short of the buffer only at the end of the data; an
    error is never [EINTR]. *)
Theorem read_all_correct `{Target} (K : Kernel) (fd : Z) `{!Source K fd} buf s fuel :
  Z.of_nat (length buf) < 2 ^ 64 ->
  (length buf + source_interrupts s <= fuel)%nat ->
  exists r t s' k,
    run K (read_all fuel fd buf) s =
      (Done (take k (source_data s) ++ drop k buf, r), t, s') /\
    (k <= length (source_data s) /\ k <= length buf)%nat /\
    source_data s' = drop k (source_data s) /\
    match r with
    | Ok n => n = Z.of_nat k /\ (k < length buf -> source_data s' = [])%nat
    | Err e => e <> EINTR
    end.
Proof.
  intros Hlen Hf. apply (read_all_from_correct K fd fuel buf 0 s); [lia|done|lia].
Qed.

Lemma read_all_correct_witness :
  let d := mkDevice (str "hello") [Moves 2; Interrupted; Moves 1] in
  exists r t s' k,
    run device (read_all (H := X86_64) 9 0 (replicate 8 0)) d =
      (Done (take k (str "hello") ++ drop k (replicate 8 0), r), t, s') /\
    (k <= 5 /\ k <= 8)%nat /\
    map as_u8 (dev_data s') = drop k (str "hello") /\
    match r with
    | Ok n => n = Z.of_nat k /\ (k < 8 -> map as_u8 (dev_data s') = [])%nat
    | Err e => e <> EINTR
    end.
Proof.
  intros d.
  apply (@read_all_correct X86_64 device 0 (@device_source X86_64 0) (replicate 8 0) d 9); vm_compute; [done|lia].
Defined.
