(* ===== verification/Safety.v ===== *)
(** The wrappers against an arbitrary kernel: each returns, without
    panicking, a value of its result type, and an [Err] always carries an error
    number in [1..=4095], the raw [-errno] never escaping. *)

From stdpp Require Import base list option numbers strings.
From Stdlib Require Import ZArith Lia.
From S2P Require Import Prelude Prog Layout Asm Arch Trampoline Fd Vdso Time Misc Wait Events Fs.
From S2P Require Import Process Signal Socket Ptrace Termios Tty.

(** ** The kernel's documented bounds

    What the man pages say of a successful return, for the calls whose result
    the crate indexes or computes with: a transfer never exceeds the buffer,
    [getpriority] answers [1..=40].  Every other reply is unconstrained. *)
Definition result_bound `{Target} (c : Call) : option Z :=
  match c with
  | Syscall n args =>
      match args with
      | [_; _; AMut b; _] =>
          if n =? nrz READLINKAT then Some (Z.of_nat (length b)) else None
      | [AMut b; _] => if n =? nrz GETCWD then Some (Z.of_nat (length b)) else None
      | [AInt k; AMut _] => if n =? nrz GETGROUPS then Some k else None
      | [AInt _; AInt _] => if n =? nrz GETPRIORITY then Some 40 else None
      | _ => None
      end
  | CallFn _ _ => None
  end.

Definition documented `{Target} : Contract := fun c r =>
  match result_bound c, from_ret (r_ret r) with
  | Some m, Ok n => n <= m
  | _, _ => True
  end.

(** ** Result types *)

Definition fallible {A} (P : A -> Prop) (r : result A) : Prop :=
  match r with Ok a => P a | Err e => errno_in_range e end.

Definition anything {A} (_ : A) : Prop := True.

(** A buffer handed back: still its length, still bytes. *)
Definition same_buf (b b' : list Z) : Prop := length b' = length b /\ bytes_ok b'.
Definition buffered {A} (b : list Z) (P : A -> Prop) (r : list Z * result A) : Prop :=
  same_buf b r.1 /\ fallible P r.2.
Definition with_bufs {A} (bs : list (list Z)) (P : A -> Prop) (r : list (list Z) * result A) :
    Prop := Forall2 same_buf bs r.1 /\ fallible P r.2.
Definition with_structs {A B} `{KStruct B} (l : list B) (P : A -> Prop) (r : list B * result A) :
    Prop := (length r.1 = length l /\ Forall well_typed r.1) /\ fallible P r.2.
Definition with_option {A B} `{KStruct B} (P : A -> Prop) (r : option B * result A) : Prop :=
  match r.1 with Some t => well_typed t | None => True end /\ fallible P r.2.
Definition both {A B} (P : A -> Prop) (Q : B -> Prop) (p : A * B) : Prop := P p.1 /\ Q p.2.
Definition three_u32 (p : Z * Z * Z) : Prop := is_u32 p.1.1 /\ is_u32 p.1.2 /\ is_u32 p.2.
Definition errno_or_zero (e : Errno) : Prop := 0 <= code e <= 4095.

(** ** The interface of the crate

    One constructor per public wrapper, with the type of what it returns. *)
Inductive api `{Target} : forall {B : Type}, Prog B -> (B -> Prop) -> Prop :=
(* src/fd.rs *)
| api_openat dirfd path flags mode : api (openat dirfd path flags mode) (fallible is_i32)
| api_open path flags mode : api (open path flags mode) (fallible is_i32)
| api_read fd buf : bytes_ok buf -> api (read fd buf) (buffered buf is_u64)
| api_write fd buf : api (write fd buf) (fallible is_u64)
| api_pread fd buf off : bytes_ok buf -> api (pread fd buf off) (buffered buf is_u64)
| api_pwrite fd buf off : api (pwrite fd buf off) (fallible is_u64)
| api_readv fd bufs : Forall bytes_ok bufs -> api (readv fd bufs) (with_bufs bufs is_u64)
| api_writev fd bufs : api (writev fd bufs) (fallible is_u64)
| api_preadv fd bufs off : Forall bytes_ok bufs -> api (preadv fd bufs off) (with_bufs bufs is_u64)
| api_pwritev fd bufs off : api (pwritev fd bufs off) (fallible is_u64)
| api_poll fds timeout : Forall well_typed fds -> api (poll fds timeout) (with_structs fds is_u64)
| api_pipe2 flags : api (pipe2 flags) (fallible (both is_i32 is_i32))
| api_dup fd : api (dup fd) (fallible is_i32)
| api_dup2 oldfd newfd : is_i32 newfd -> api (dup2 oldfd newfd) (fallible is_i32)
| api_dup3 oldfd newfd flags : api (dup3 oldfd newfd flags) (fallible is_i32)
| api_fcntl fd cmd arg : api (fcntl fd cmd arg) (fallible is_i32)
| api_close fd : api (close fd) (fallible anything)
| api_close_range first last flags : api (close_range first last flags) (fallible anything)
| api_fsync fd : api (fsync fd) (fallible anything)
| api_fdatasync fd : api (fdatasync fd) (fallible anything)
| api_memfd_create name flags : api (memfd_create name flags) (fallible is_i32)
| api_lseek fd off whence : api (lseek fd off whence) (fallible is_i64)
| api_ftruncate fd n : api (ftruncate fd n) (fallible anything)
(* src/mmap.rs, src/rand.rs, src/rlimit.rs, src/sysinfo.rs, src/umask.rs *)
| api_mmap addr n prot flags fd off : api (mmap addr n prot flags fd off) (fallible is_u64)
| api_munmap addr n : api (munmap addr n) (fallible anything)
| api_mprotect addr n prot : api (mprotect addr n prot) (fallible anything)
| api_madvise addr n advice : api (madvise addr n advice) (fallible anything)
| api_mlock addr n : api (mlock addr n) (fallible anything)
| api_munlock addr n : api (munlock addr n) (fallible anything)
| api_msync addr n flags : api (msync addr n flags) (fallible anything)
| api_getrandom buf flags : bytes_ok buf -> api (getrandom buf flags) (buffered buf is_u64)
| api_prlimit pid res new old : api (prlimit pid res new old) (with_option anything)
| api_getrlimit res : api (getrlimit res) (fallible (well_typed (A := Rlimit)))
| api_setrlimit res lim : api (setrlimit res lim) (fallible anything)
| api_sysinfo : api sysinfo (fallible (well_typed (A := Sysinfo)))
| api_umask mask : api (umask mask) is_u32
(* src/time.rs; [clock_gettime] once the vDSO has been looked for *)
| api_clock_gettime mem fuel cache junk id : cache <> 0 -> same_buf (replicate 16 0) junk -> api (clock_gettime mem fuel cache junk id) (fun r => r.1 = cache /\ fallible (well_typed (A := Timespec)) r.2)
| api_clock_getres junk id : same_buf (replicate 16 0) junk -> api (clock_getres junk id) (fallible (well_typed (A := Timespec)))
| api_nanosleep req rem : api (nanosleep req rem) (with_option anything)
| api_clock_nanosleep id flags req rem : api (clock_nanosleep id flags req rem) (with_option anything)
| api_timerfd_create id flags : api (timerfd_create id flags) (fallible is_i32)
| api_timerfd_settime fd flags new : api (timerfd_settime fd flags new) (fallible (well_typed (A := Itimerspec)))
| api_timerfd_gettime fd : api (timerfd_gettime fd) (fallible (well_typed (A := Itimerspec)))
(* src/wait.rs *)
| api_waitpid pid options : api (waitpid pid options) (fallible (both is_i32 is_i32))
| api_getrusage who : api (getrusage who) (fallible (well_typed (A := Rusage)))
| api_waitpid_rusage pid options : api (waitpid_rusage pid options) (fallible (both (both is_i32 is_i32) well_typed))
| api_waitid idtype id options : api (waitid idtype id options) (fallible (well_typed (A := Siginfo)))
| api_waitid_rusage idtype id options : api (waitid_rusage idtype id options) (fallible (both well_typed well_typed))
(* src/epoll.rs, src/eventfd.rs, src/inotify.rs *)
| api_epoll_create1 flags : api (epoll_create1 flags) (fallible is_i32)
| api_epoll_ctl epfd op fd ev : api (epoll_ctl epfd op fd ev) (fallible anything)
| api_epoll_wait epfd evs timeout : Forall well_typed evs -> api (epoll_wait epfd evs timeout) (with_structs evs is_u64)
| api_eventfd init flags : api (eventfd init flags) (fallible is_i32)
| api_inotify_init1 flags : api (inotify_init1 flags) (fallible is_i32)
| api_inotify_add_watch fd path mask : api (inotify_add_watch fd path mask) (fallible is_i32)
| api_inotify_rm_watch fd wd : api (inotify_rm_watch fd wd) (fallible anything)
(* src/fs.rs *)
| api_faccessat dirfd path mode : api (faccessat dirfd path mode) (fallible anything)
| api_access path mode : api (access path mode) (fallible anything)
| api_statx dirfd path flags mask : api (statx dirfd path flags mask) (fallible (well_typed (A := Statx)))
| api_stat path : api (stat path) (fallible (well_typed (A := Statx)))
| api_lstat path : api (lstat path) (fallible (well_typed (A := Statx)))
| api_fstat fd : api (fstat fd) (fallible (well_typed (A := Statx)))
| api_unlinkat dirfd path flags : api (unlinkat dirfd path flags) (fallible anything)
| api_unlink path : api (unlink path) (fallible anything)
| api_rmdir path : api (rmdir path) (fallible anything)
| api_mkdirat dirfd path mode : api (mkdirat dirfd path mode) (fallible anything)
| api_mkdir path mode : api (mkdir path mode) (fallible anything)
| api_renameat2 odir old ndir new flags : api (renameat2 odir old ndir new flags) (fallible anything)
| api_rename old new : api (rename old new) (fallible anything)
| api_symlinkat target ndir path : api (symlinkat target ndir path) (fallible anything)
| api_symlink target path : api (symlink target path) (fallible anything)
| api_linkat odir old ndir new flags : api (linkat odir old ndir new flags) (fallible anything)
| api_link old new : api (link old new) (fallible anything)
| api_readlinkat dirfd path buf : bytes_ok buf -> api (readlinkat dirfd path buf) (buffered buf bytes_ok)
| api_readlink path buf : bytes_ok buf -> api (readlink path buf) (buffered buf bytes_ok)
| api_fchmodat dirfd path mode : api (fchmodat dirfd path mode) (fallible anything)
| api_chmod path mode : api (chmod path mode) (fallible anything)
| api_truncate path n : api (truncate path n) (fallible anything)
| api_fchownat dirfd path uid gid flags : api (fchownat dirfd path uid gid flags) (fallible anything)
| api_chown path uid gid : api (chown path uid gid) (fallible anything)
| api_lchown path uid gid : api (lchown path uid gid) (fallible anything)
| api_utimensat dirfd path times flags : api (utimensat dirfd path times flags) (fallible anything)
| api_utimens path times : api (utimens path times) (fallible anything)
| api_getdents64 fd buf : bytes_ok buf -> api (getdents64 fd buf) (buffered buf is_u64)
(* src/process.rs *)
| api_getpid : api getpid is_i32
| api_getppid : api getppid is_i32
| api_gettid : api gettid is_i32
| api_getuid : api getuid is_u32
| api_geteuid : api geteuid is_u32
| api_getgid : api getgid is_u32
| api_getegid : api getegid is_u32
| api_ngroups : api ngroups (fallible is_u64)
| api_getgroups buf : api (getgroups buf) (fun r => length r.1 = length buf /\ Forall is_u32 r.1 /\ fallible (Forall is_u32) r.2)
| api_setuid uid : api (setuid uid) (fallible anything)
| api_setgid gid : api (setgid gid) (fallible anything)
| api_getresuid : api getresuid (fallible three_u32)
| api_getresgid : api getresgid (fallible three_u32)
| api_setresuid r e s : api (setresuid r e s) (fallible anything)
| api_setresgid r e s : api (setresgid r e s) (fallible anything)
| api_seteuid e : api (seteuid e) (fallible anything)
| api_setegid e : api (setegid e) (fallible anything)
| api_setgroups gids : api (setgroups gids) (fallible anything)
| api_getpriority which who : api (getpriority which who) (fallible (fun n => -20 <= n <= 20))
| api_setpriority which who prio : api (setpriority which who prio) (fallible anything)
| api_nice inc : -2 ^ 30 <= inc < 2 ^ 30 -> api (nice inc) (fallible (fun n => -20 <= n <= 20))
| api_prctl option arg2 arg3 arg4 arg5 : api (prctl option arg2 arg3 arg4 arg5) (fun r => fallible is_i32 r.2)
| api_set_pdeathsig sig : api (set_pdeathsig sig) (fallible anything)
| api_get_pdeathsig : api get_pdeathsig (fallible is_i32)
| api_uname : api uname (fallible (well_typed (A := Utsname)))
| api_setpgid pid pgid : api (setpgid pid pgid) (fallible anything)
| api_kill pid sig : api (kill pid sig) (fallible anything)
| api_killpg pgrp sig : api (killpg pgrp sig) (fallible anything)
| api_pidfd_send_signal pidfd sig : api (pidfd_send_signal pidfd sig) (fallible anything)
| api_chdir path : api (chdir path) (fallible anything)
| api_fchdir fd : api (fchdir fd) (fallible anything)
| api_pidfd_open pid flags : api (pidfd_open pid flags) (fallible is_i32)
| api_process_vm_readv pid loc rem : Forall bytes_ok loc -> api (process_vm_readv pid loc rem) (with_bufs loc is_u64)
| api_process_vm_writev pid loc rem : api (process_vm_writev pid loc rem) (fallible is_u64)
| api_fork : api fork (fallible is_i32)
| api_fork_with_pidfd : api fork_with_pidfd (fallible (both is_i32 is_i32))
| api_execve path argv envp : api (execve path argv envp) errno_or_zero
| api_execveat dirfd path argv envp flags : api (execveat dirfd path argv envp flags) errno_or_zero
| api_getcwd buf : bytes_ok buf -> api (getcwd buf) (buffered buf bytes_ok)
| api_setsid : api setsid (fallible is_i32)
| api_getpgid pid : api (getpgid pid) (fallible is_i32)
| api_getsid pid : api (getsid pid) (fallible is_i32)
| api_getpgrp : api getpgrp (fallible is_i32)
(* src/signal.rs *)
| api_sigmask sig : 1 <= sig <= 64 -> api (sigmask sig) is_u64
| api_sigprocmask how set : api (sigprocmask how set) (fallible is_u64)
| api_install tramp sig handler flags : api (install tramp sig handler flags) (fallible is_u64)
| api_signal tramp sig handler : api (signal tramp sig handler) (fallible is_u64)
| api_sigaction tramp sig handler flags : api (sigaction tramp sig handler flags) (fallible is_u64)
| api_sigpending : api sigpending (fallible is_u64)
| api_sigsuspend mask : api (sigsuspend mask) errno_or_zero
| api_signalfd fd mask flags : api (signalfd fd mask flags) (fallible is_i32)
| api_sigqueue pid sig value : api (sigqueue pid sig value) (fallible anything)
(* src/socket.rs *)
| api_socket domain ty protocol : api (socket domain ty protocol) (fallible is_i32)
| api_bind_in fd addr : api (bind_in fd addr) (fallible anything)
| api_bind_in6 fd addr : api (bind_in6 fd addr) (fallible anything)
| api_connect_in fd addr : api (connect_in fd addr) (fallible anything)
| api_connect_in6 fd addr : api (connect_in6 fd addr) (fallible anything)
| api_listen fd backlog : api (listen fd backlog) (fallible anything)
| api_shutdown fd how : api (shutdown fd how) (fallible anything)
| api_accept fd : api (accept fd) (fallible is_i32)
| api_accept4_in fd flags : api (accept4_in fd flags) (fallible (both is_i32 well_typed))
| api_accept4_in6 fd flags : api (accept4_in6 fd flags) (fallible (both is_i32 well_typed))
| api_getsockname_in fd : api (getsockname_in fd) (fallible (well_typed (A := SockAddrIn)))
| api_getsockname_in6 fd : api (getsockname_in6 fd) (fallible (well_typed (A := SockAddrIn6)))
| api_getpeername_in fd : api (getpeername_in fd) (fallible (well_typed (A := SockAddrIn)))
| api_getpeername_in6 fd : api (getpeername_in6 fd) (fallible (well_typed (A := SockAddrIn6)))
| api_send fd buf flags : api (send fd buf flags) (fallible is_u64)
| api_recv fd buf flags : bytes_ok buf -> api (recv fd buf flags) (buffered buf is_u64)
| api_sendto_in fd buf flags dest : api (sendto_in fd buf flags dest) (fallible is_u64)
| api_sendto_in6 fd buf flags dest : api (sendto_in6 fd buf flags dest) (fallible is_u64)
| api_recvfrom_in fd buf flags : bytes_ok buf -> api (recvfrom_in fd buf flags) (buffered buf (both is_u64 well_typed))
| api_recvfrom_in6 fd buf flags : bytes_ok buf -> api (recvfrom_in6 fd buf flags) (buffered buf (both is_u64 well_typed))
(* src/ptrace.rs *)
| api_ptrace_traceme : api ptrace_traceme (fallible anything)
| api_ptrace_seize pid options : api (ptrace_seize pid options) (fallible anything)
| api_ptrace_cont pid sig : api (ptrace_cont pid sig) (fallible anything)
| api_ptrace_singlestep pid sig : api (ptrace_singlestep pid sig) (fallible anything)
| api_ptrace_syscall pid sig : api (ptrace_syscall pid sig) (fallible anything)
| api_ptrace_detach pid sig : api (ptrace_detach pid sig) (fallible anything)
| api_ptrace_setoptions pid options : api (ptrace_setoptions pid options) (fallible anything)
| api_ptrace_getregset {Regs} `{KStruct Regs} (zero : Regs) pid : well_typed zero -> api (ptrace_getregset zero pid) (fallible (well_typed (A := Regs)))
| api_ptrace_setregset {Regs} `{KStruct Regs} pid (regs : Regs) : api (ptrace_setregset pid regs) (fallible anything)
(* src/termios.rs, src/tty.rs *)
| api_tcgetattr fd : api (tcgetattr fd) (fallible (well_typed (A := Termios)))
| api_tcsetattr_with fd actions t : api (tcsetattr_with fd actions t) (fallible anything)
| api_tcsetattr fd t : api (tcsetattr fd t) (fallible anything)
| api_tcflush fd queue : api (tcflush fd queue) (fallible anything)
| api_tcflow fd action : api (tcflow fd action) (fallible anything)
| api_tcsendbreak fd duration : api (tcsendbreak fd duration) (fallible anything)
| api_tcdrain fd : api (tcdrain fd) (fallible anything)
| api_tcsetpgrp fd pgrp : api (tcsetpgrp fd pgrp) (fallible anything)
| api_tcgetpgrp fd : api (tcgetpgrp fd) (fallible is_i32)
| api_tcgetsid fd : api (tcgetsid fd) (fallible is_i32)
| api_isatty fd : api (isatty fd) anything
| api_ttyname fd buf : is_i32 fd -> bytes_ok buf -> api (ttyname fd buf) (buffered buf bytes_ok)
| api_window_size fd : api (window_size fd) (fallible (well_typed (A := Winsize)))
| api_openpty : api openpty (fallible (both is_i32 is_i32)).

(** ** Facts about one reply *)

Lemma as_i32_range z : is_i32 (as_i32 z).
Proof. apply (swrap_range 32). lia. Qed.
Lemma as_u32_range z : is_u32 (as_u32 z).
Proof. apply (wrap_range 32). lia. Qed.
Lemma as_u64_range z : is_u64 (as_u64 z).
Proof. apply (wrap_range 64). lia. Qed.
Lemma as_i64_range z : is_i64 (as_i64 z).
Proof. apply (swrap_range 64). lia. Qed.

(** What the kernel leaves in a structure the caller passed. *)
Lemma decode_out `{KStruct A} c r i :
  Forall bytes_ok (call_writable c) ->
  length (nth i (call_writable c) []) = size_of A ->
  well_typed (decode (out i (conform c r)) : A).
Proof.
  intros Hb Hl. apply decode_well_typed; [by apply out_bytes|]. by rewrite out_length.
Qed.

Lemma same_buf_out c r b rest :
  call_writable c = b :: rest -> Forall bytes_ok (b :: rest) -> same_buf b (out 0 (conform c r)).
Proof.
  intros E Hb. rewrite <- E in Hb. split; [by rewrite out_length, E|by apply out_bytes].
Qed.

Lemma fallible_i32 x : is_u64 x -> fallible is_i32 (from_ret_i32 x).
Proof.
  intros Hx. unfold from_ret_i32. destruct (from_ret x) eqn:E; simpl.
  - apply as_i32_range.
  - by eapply from_ret_err_range.
Qed.

Lemma fallible_u64 x : is_u64 x -> fallible is_u64 (from_ret x).
Proof.
  intros Hx. destruct (from_ret x) eqn:E; simpl.
  - by apply from_ret_ok in E as [-> _].
  - by eapply from_ret_err_range.
Qed.

Lemma fallible_map {A} (P : A -> Prop) f x :
  is_u64 x -> (forall n, from_ret x = Ok n -> P (f n)) -> fallible P (map_ok f (from_ret x)).
Proof.
  intros Hx Hf. destruct (from_ret x) eqn:E; simpl; [by apply Hf|].
  by eapply from_ret_err_range.
Qed.

Lemma conform_u64 c r : is_u64 (r_ret (conform c r)).
Proof. apply conform_ret_range. Qed.

Lemma from_ret_u64 x n : is_u64 x -> from_ret x = Ok n -> is_u64 n.
Proof. intros Hx E. by apply from_ret_ok in E as [-> _]. Qed.

Lemma reply_eta r : mkReply (r_ret r) (r_outs r) = r.
Proof. by destruct r. Qed.

Lemma fallible_map_i32 {A} (P : A -> Prop) f x :
  is_u64 x -> (forall n, P (f n)) -> fallible P (map_ok f (from_ret_i32 x)).
Proof.
  intros Hx Hf. unfold from_ret_i32. destruct (from_ret x) eqn:E; simpl; [apply Hf|].
  by eapply from_ret_err_range.
Qed.

(** The buffers of a vectored call. *)
Lemma same_bufs_out c r bs :
  call_writable c = bs -> Forall bytes_ok bs -> Forall2 same_buf bs (r_outs (conform c r)).
Proof.
  intros E Hb. unfold conform; cbn [r_outs]. rewrite E. clear E.
  generalize (r_outs r) as news. induction Hb as [|b bs Hb Hbs IH]; intros news; [by destruct news; constructor|].
  assert (same_buf b b) by (by split).
  destruct news as [|n news]; simpl.
  - constructor; [done|]. specialize (IH []). by destruct bs.
  - constructor; [|apply IH]. split; [apply overwrite_length|by apply overwrite_bytes].
Qed.

(** An array of structures the caller passed. *)
Lemma decode_all_out `{KStruct A} (l : list A) c r rest :
  call_writable c = encode_all l :: rest -> Forall bytes_ok (encode_all l :: rest) ->
  Forall well_typed l ->
  length (decode_all (length l) (out 0 (conform c r)) : list A) = length l /\
  Forall well_typed (decode_all (length l) (out 0 (conform c r)) : list A).
Proof.
  intros E Hb Hw. split; [apply decode_all_length|].
  apply decode_all_well_typed.
  - apply out_bytes. by rewrite E.
  - rewrite out_length, E. simpl. by rewrite encode_all_length.
Qed.

(** The bound the kernel documents, at a successful return. *)
Lemma documented_le `{Target} c r n m :
  documented c r -> result_bound c = Some m -> from_ret (r_ret r) = Ok n -> n <= m.
Proof. unfold documented. intros Hd Hm E. by rewrite Hm, E in Hd. Qed.

Lemma slice_to_some n (l : list Z) :
  n <= Z.of_nat (length l) -> slice_to n l = Some (take (Z.to_nat n) l).
Proof. intros. unfold slice_to. by destruct (Z.leb_spec n (Z.of_nat (length l))); [|lia]. Qed.

Create HintDb safety.
#[export] Hint Resolve conform_u64 as_i32_range as_u32_range as_u64_range as_i64_range
  fallible_i32 fallible_u64 encode_bytes encode_all_bytes le_enc_bytes from_ret_u64
  from_ret_err_range Forall_nil_2 Forall_cons_2 : safety.

(** To the next call, and through it. *)
Ltac through :=
  autorewrite with syscalls; unfold raw_call; cbn [bind ensures];
  let r := fresh "r" in let Hr := fresh "Hr" in intros r Hr;
  rewrite ?reply_eta; cbn [bind].

Lemma handler_u64 (k : KernelSigaction) : well_typed k -> is_u64 (sa_handler k).
Proof. intros H. by inversion H. Qed.

Lemma errno_zero : errno_or_zero (mkErrno 0).
Proof. unfold errno_or_zero. simpl. lia. Qed.
Lemma errno_weaken e : errno_in_range e -> errno_or_zero e.
Proof. unfold errno_in_range, errno_or_zero. lia. Qed.

#[export] Hint Resolve errno_zero errno_weaken handler_u64 app_nil_r : safety.
#[export] Hint Extern 1 (is_i32 _) => by int_ranges; lia : safety.

(** Goals about the replies, once they have arrived. *)
Ltac settle :=
  repeat first
    [ progress cbn [ensures fallible bind fst snd call_writable call_args writable map concat
        app nth map_ok int len null cstr sizeof addrlen rem_ptr rem_after or_panic default from_option id] in *
    | match goal with
      | |- _ = length _ /\ Forall well_typed _ =>
          eapply decode_all_out; [reflexivity| |]
      | |- _ /\ _ => split
      | |- anything _ => exact I
      | |- buffered _ _ _ => split
      | |- both _ _ _ => split
      | |- three_u32 _ => split
      | |- with_option _ _ => split
      | |- with_bufs _ _ _ => split
      | |- with_structs _ _ _ => split
      | |- fallible _ (ret_unit _) => apply fallible_map
      | |- fallible _ (map_ok _ (from_ret _)) => apply fallible_map
      | |- fallible _ (map_ok _ (from_ret_i32 _)) => apply fallible_map_i32
      | |- ensures _ (match ret_unit _ with _ => _ end) _ => unfold ret_unit
      | |- context [match from_ret_i32 _ with _ => _ end] => unfold from_ret_i32
      | |- context [match from_ret ?x with _ => _ end] => destruct (from_ret x) eqn:?
      | |- context [match map_ok _ (from_ret ?x) with _ => _ end] => destruct (from_ret x) eqn:?
      | |- context [match ?o with Some _ => _ | None => _ end] => is_var o; destruct o
      | |- context [rem_after ?o _] => is_var o; destruct o
      | H : same_buf _ _ |- _ => destruct H as [? ?]
      | |- context [writable (match ?o with _ => _ end)] => destruct o
      | |- ensures _ (match ?e with _ => _ end) _ => destruct e eqn:?
      | |- is_u64 (sa_handler _) => apply handler_u64
      | |- forall _, _ => intro
      | |- Forall2 same_buf _ (r_outs (conform ?c _)) => apply same_bufs_out
      | |- same_buf _ (out 0 (conform ?c _)) => apply (same_buf_out c _ _ (tail (call_writable c)))
      | |- well_typed (decode (out _ (conform _ _))) => apply decode_out
      end
    | reflexivity
    | solve [eauto with safety]
    | through ].

(** The wrappers that index with a count the kernel returned. *)
Section Counted.
Context `{Target}.

(** The name is a prefix of the buffer. *)
Lemma readlinkat_within dirfd path buf :
  bytes_ok buf -> ensures documented (readlinkat dirfd path buf) (fun r =>
    same_buf buf r.1 /\
    fallible (fun t => bytes_ok t /\ (length t <= length buf)%nat) r.2).
Proof.
  intros Hb. unfold readlinkat. through.
  set (b := out 0 _). assert (same_buf buf b) as Hs
    by (apply (same_buf_out _ r buf []); [reflexivity|by repeat constructor]).
  destruct (from_ret _) as [n|e] eqn:E.
  - assert (n <= Z.of_nat (length buf)) as Hn.
    { eapply documented_le; [exact Hr| |exact E]. cbn. by rewrite Z.eqb_refl. }
    rewrite slice_to_some by (destruct Hs as [Hl _]; lia). cbn [or_panic bind ensures].
    split; [done|]. split; [apply Forall_take, Hs|].
    destruct Hs as [Hl _]. cbn [snd]. rewrite length_take. lia.
  - split; [done|]. eapply from_ret_err_range; [apply conform_u64|exact E].
Qed.

Lemma readlinkat_safe dirfd path buf :
  bytes_ok buf -> ensures documented (readlinkat dirfd path buf) (buffered buf bytes_ok).
Proof.
  intros Hb. eapply ensures_post; [by apply readlinkat_within|].
  intros [b [t|e]] [Hs Hr]; split; try done. by destruct Hr.
Qed.

Lemma getcwd_safe buf :
  bytes_ok buf -> ensures documented (getcwd buf) (buffered buf bytes_ok).
Proof.
  intros Hb. unfold getcwd. through.
  set (b := out 0 _). assert (same_buf buf b) as Hs
    by (apply (same_buf_out _ r buf []); [reflexivity|by repeat constructor]).
  destruct (from_ret _) as [n|e] eqn:E.
  - assert (n <= Z.of_nat (length buf)) as Hn.
    { eapply documented_le; [exact Hr| |exact E]. cbn. by rewrite Z.eqb_refl. }
    rewrite slice_to_some by (destruct Hs as [Hl _]; lia). cbn [or_panic bind ensures].
    split; [done|]. apply Forall_take, Hs.
  - split; [done|]. eapply from_ret_err_range; [apply conform_u64|exact E].
Qed.

Lemma u32s_length l : length (u32s l) = (4 * length l)%nat.
Proof. apply concat_le_length. Qed.
Lemma u32s_bytes l : bytes_ok (u32s l).
Proof. apply Forall_concat, Forall_map, Forall_true. intros. apply le_enc_bytes. Qed.

Lemma getgroups_safe buf :
  ensures documented (getgroups buf) (fun r =>
    length r.1 = length buf /\ Forall is_u32 r.1 /\ fallible (Forall is_u32) r.2).
Proof.
  unfold getgroups. through.
  set (b := out 0 _). assert (length b = (4 * length buf)%nat /\ bytes_ok b) as [Hl Hb].
  { unfold b. split; [rewrite out_length; apply u32s_length|].
    apply out_bytes. repeat constructor. apply u32s_bytes. }
  destruct (arr_dec_fits 4 (length buf) b Hb Hl) as [Hal Hau].
  change (256 ^ Z.of_nat 4) with (2 ^ 32) in Hau. change (Forall is_u32 (arr_dec 4 (length buf) b)) in Hau.
  destruct (from_ret _) as [n|e] eqn:E.
  - assert (n <= Z.of_nat (length buf)) as Hn.
    { eapply documented_le; [exact Hr| |exact E]. cbn. by rewrite Z.eqb_refl. }
    rewrite slice_to_some by (rewrite Hal; done). cbn [or_panic bind ensures fst snd].
    split_and!; [done|done|]. by apply Forall_take.
  - cbn [ensures fst snd]. split_and!; [done|done|]. eapply from_ret_err_range; [apply conform_u64|exact E].
Qed.

Lemma getpriority_safe which who :
  ensures documented (getpriority which who) (fallible (fun n => -20 <= n <= 20)).
Proof.
  unfold getpriority, bind_ok. through. destruct (from_ret _) as [n|e] eqn:E; cbn [bind].
  - assert (n <= 40) as Hn.
    { eapply documented_le; [exact Hr| |exact E]. cbn. by rewrite Z.eqb_refl. }
    assert (0 <= n) as H0.
    { apply from_ret_ok in E as [-> _]; apply conform_ret_range. }
    assert (as_i32 n = n) as -> by (apply swrap_small; lia).
    rewrite decide_True by (int_ranges; lia). simpl. lia.
  - by eapply from_ret_err_range; [|exact E]; apply conform_u64.
Qed.

Lemma setpriority_safe which who prio :
  ensures documented (setpriority which who prio) (fallible anything).
Proof. unfold setpriority. settle. Qed.

Lemma nice_safe inc :
  -2 ^ 30 <= inc < 2 ^ 30 ->
  ensures documented (nice inc) (fallible (fun n => -20 <= n <= 20)).
Proof.
  intros Hi. unfold nice. eapply ensures_bind_ok; [apply getpriority_safe| |done].
  intros n Hn. cbn in Hn. rewrite decide_True by (int_ranges; lia).
  eapply ensures_bind_ok; [apply setpriority_safe| |done].
  intros _ _. apply getpriority_safe.
Qed.

Lemma isatty_ensures C fd : ensures C (isatty fd) anything.
Proof.
  apply (ensures_mono any_reply C _ anything anything); [|done|done].
  unfold isatty, tcgetattr, ioctl, bind_ok. settle.
Qed.

(** A name is shorter than the buffer. *)
Lemma ttyname_within fd buf :
  is_i32 fd -> bytes_ok buf -> ensures documented (ttyname fd buf) (fun r =>
    same_buf buf r.1 /\
    fallible (fun name => bytes_ok name /\ (length name < length buf)%nat) r.2).
Proof.
  intros Hfd Hbuf. unfold ttyname. eapply ensures_bind; [apply isatty_ensures|]. intros tty _.
  destruct tty; cbn [negb ensures]; [|by split].
  rewrite proc_fd_path_eq by done. cbn [bind]. eapply ensures_bind; [by apply readlinkat_within|].
  intros [buf' r] [Hs Hr]. cbn [fst snd] in *. destruct r as [t|e]; [|by split].
  destruct Hr as [Ht Hl]. destruct (Nat.eqb_spec (length t) (length buf)); cbn [ensures].
  + split; [done|]. unfold fallible, errno_in_range. simpl. lia.
  + split; [done|]. split; [done|lia].
Qed.

Lemma ttyname_safe fd buf :
  is_i32 fd -> bytes_ok buf -> ensures documented (ttyname fd buf) (buffered buf bytes_ok).
Proof.
  intros Hfd Hb. eapply ensures_post; [by apply ttyname_within|].
  intros [b [t|e]] [Hs Hr]; split; try done. by destruct Hr.
Qed.

Lemma open_safe path flags mode : ensures documented (open path flags mode) (fallible is_i32).
Proof. unfold open, openat. settle. Qed.

Lemma ioctl_safe fd req arg : ensures documented (ioctl fd req arg) (fun r => fallible anything r.2).
Proof.
  unfold ioctl. through. destruct (from_ret _) eqn:E; [exact I|].
  by eapply from_ret_err_range; [|exact E]; apply conform_u64.
Qed.

Lemma close_safe fd : ensures documented (close fd) (fallible anything).
Proof. unfold close. settle. Qed.

Lemma openpty_safe : ensures documented openpty (fallible (both is_i32 is_i32)).
Proof.
  unfold openpty. eapply ensures_bind_ok; [apply open_safe| |done]. intros m Hm.
  eapply ensures_bind; [apply ioctl_safe|].
  intros [b1 [?|e1]] He1; [|eapply ensures_bind; [apply close_safe|done]].
  eapply ensures_bind; [apply ioctl_safe|].
  intros [b2 [?|e2]] He2; [|eapply ensures_bind; [apply close_safe|done]].
  destruct (format_pts_path_correct (dec_i32 b2) (replicate 21 0) eq_refl) as [-> _]. cbn [bind].
  eapply ensures_bind; [apply open_safe|]. intros [sl|e3] Hs; [done|].
  eapply ensures_bind; [apply close_safe|done].
Qed.

(** Once the vDSO has been looked for, reading a clock is at most two calls. *)
Lemma clock_gettime_safe mem fuel cache junk id :
  cache <> 0 -> same_buf (replicate 16 0) junk ->
  ensures documented (clock_gettime mem fuel cache junk id)
    (fun r => r.1 = cache /\ fallible (well_typed (A := Timespec)) r.2).
Proof.
  intros Hc [Hl Hb].
  assert (forall b, same_buf (replicate 16 0) b -> ensures documented
    (let* t := (let* r := syscall2 (nr CLOCK_GETTIME) (int id) (AMut b) in
       Ret (map_ok (fun _ => decode (out 0 r)) (from_ret (r_ret r)))) in Ret (cache, t))
    (fun r => r.1 = cache /\ fallible (well_typed (A := Timespec)) r.2)) as Hsys.
  { intros b [Hlb Hbb]. eapply (ensures_bind _ _ _ (fallible (well_typed (A := Timespec)))); [settle|done]. }
  unfold clock_gettime, clock_gettime_fn. destruct (cache =? FAILED); [by apply Hsys|].
  apply Z.eqb_neq in Hc. rewrite Hc. cbn [negb bind ensures]. intros r Hr.
  destruct (as_i32 _ =? 0); cbn [ensures].
  - split; [done|]. apply decode_out; [by repeat constructor|done].
  - apply Hsys. split; [by rewrite out_length|]. apply out_bytes. by repeat constructor.
Qed.

Lemma sigmask_safe sig : 1 <= sig <= 64 -> ensures documented (sigmask sig) is_u64.
Proof.
  intros Hs. rewrite sigmask_cases by (int_ranges; lia).
  destruct (Z.leb_spec 1 sig), (Z.leb_spec sig 64); try lia. by apply sigbit_range.
Qed.

Lemma ptrace_getregset_safe {Regs} `{KStruct Regs} (zero : Regs) pid :
  well_typed zero -> ensures documented (ptrace_getregset zero pid) (fallible (well_typed (A := Regs))).
Proof.
  intros Hz. unfold ptrace_getregset, bind_ok. through. destruct (from_ret _) eqn:E; cbn [bind ensures].
  - apply decode_out; [by repeat constructor; apply encode_bytes|]. by apply encode_length.
  - eapply from_ret_err_range; [apply conform_u64|exact E].
Qed.
End Counted.


Create HintDb wrappers.
#[local] Hint Unfold openat open read write pread pwrite readv writev preadv pwritev poll pipe2
  dup dup2 dup3 fcntl close close_range fsync fdatasync memfd_create lseek ftruncate mmap munmap
  mprotect madvise mlock munlock msync getrandom prlimit getrlimit setrlimit sysinfo umask
  clock_getres nanosleep clock_nanosleep timerfd_create timerfd_settime timerfd_gettime waitpid
  getrusage waitpid_rusage waitid waitid_rusage epoll_create1 epoll_ctl epoll_wait eventfd
  inotify_init1 inotify_add_watch inotify_rm_watch faccessat access statx stat lstat fstat
  unlinkat unlink rmdir mkdirat mkdir renameat2 rename symlinkat symlink linkat link readlink
  fchmodat chmod truncate fchownat chown lchown utimensat utimens getdents64 getpid getppid
  gettid getuid geteuid getgid getegid ngroups setuid setgid getresuid getresgid setresuid
  setresgid seteuid setegid setgroups set_pdeathsig get_pdeathsig uname setpgid kill killpg
  pidfd_send_signal chdir fchdir pidfd_open process_vm_readv process_vm_writev fork
  fork_with_pidfd execve execveat setsid getpgid getsid getpgrp sigprocmask install signal
  sigaction sigpending sigsuspend signalfd sigqueue socket bind_in bind_in6 connect_in
  connect_in6 listen shutdown accept accept4_in accept4_in6 getsockname_in getsockname_in6
  getpeername_in getpeername_in6 send recv sendto_in sendto_in6 recvfrom_in recvfrom_in6
  ptrace_traceme ptrace_seize ptrace_cont ptrace_singlestep ptrace_syscall ptrace_detach
  ptrace_setoptions ptrace_setregset tcgetattr tcsetattr_with tcsetattr tcflush tcflow tcsendbreak tcdrain
  tcsetpgrp tcgetpgrp tcgetsid isatty window_size bind_ok poll_x86_64 poll_aarch64 dup2_x86_64
  dup2_aarch64 epoll_wait_x86_64 epoll_wait_aarch64 ioctl prctl : wrappers.

(** [C5] Every wrapper that makes a fixed number of system calls and comes back
    ([api] lists them, by source file), on either target and whatever the kernel
    answers within its documented bounds, returns without panicking a value of
    its result type: descriptors and pids are [i32]s, structures are well typed,
    caller buffers keep their length, and every [Err] carries an error number in
    [1..=4095].  The arguments are of their Rust types; the increment of [nice] is
    one that cannot overflow (under 2^30), a [sigmask] is asked of a signal, and
    [clock_gettime] has looked for the vDSO.  What loops over replies or replaces
    the process ([write_all], [read_all], the vDSO search, the record iterators,
    the resolver, [vfork_exec], [exit_group]) is not of this kind, and has its own
    theorems. *)
Theorem api_safe `{Target} {B} (p : Prog B) (Q : B -> Prop) :
  api p Q -> ensures documented p Q.
Proof.
  intros Hp. destruct Hp; autounfold with wrappers.
  all: try (eauto using readlinkat_safe, getcwd_safe, getgroups_safe, getpriority_safe,
              setpriority_safe, nice_safe, ttyname_safe, openpty_safe, clock_gettime_safe,
              sigmask_safe, ptrace_getregset_safe; fail).
  all: settle.
Qed.

Lemma api_safe_witness :
  ensures (documented (H := X86_64)) (statx (H := X86_64) AT_FDCWD (str "/etc/passwd") 0 STATX_BASIC_STATS)
    (fallible well_typed).
Proof.
  apply (api_safe (H := X86_64)).
  apply (api_statx (H := X86_64) AT_FDCWD (str "/etc/passwd") 0 STATX_BASIC_STATS).
Defined.
