(* ===== verification/SignalSpec.v ===== *)
(** Signal dispositions, against the interface of a kernel that keeps them. *)

From stdpp Require Import base list option numbers gmap.
From Stdlib Require Import ZArith Lia.
From S2P Require Import Prelude Prog Layout Asm Arch Process Signal Termios Safety.

Definition no_action : KernelSigaction := mkKernelSigaction 0 0 0 0.

(** The signals whose action can be set ([sigaction(2)]: [EINVAL] for the others). *)
Definition catchable (sig : Z) : bool :=
  (1 <=? sig) && (sig <=? 64) && negb (sig =? SIGKILL) && negb (sig =? SIGSTOP).

(** What is kept of an action: the flags the kernel knows, and a mask without the
    signals that cannot be blocked. *)
Definition stored (known : Z) (k : KernelSigaction) : KernelSigaction :=
  mkKernelSigaction (sa_handler k) (Z.land (sa_flags k) known) (sa_restorer k)
    (Z.ldiff (sa_mask k) (Z.lor (2 ^ (SIGKILL - 1)) (2 ^ (SIGSTOP - 1)))).

Definition sigaction_call `{Target} (sig : Z) (new : KernelSigaction) : Call :=
  Syscall (nrz RT_SIGACTION) [int sig; ARef (encode new); AMut (encode no_action); int SIGSETSIZE].

(** A kernel that keeps a [struct sigaction] per signal: [rt_sigaction] stores
    the new one and reports the old, or refuses. *)
Class SigactionKernel `{Target} (K : Kernel) := {
  action : kst K -> Z -> KernelSigaction;
  known_flags : Z;
  known_restorer : Z.land SA_RESTORER known_flags = SA_RESTORER;
  rt_sigaction : forall sig new s, is_i32 sig -> well_typed new ->
    exists r s', kstep K (sigaction_call sig new) s = (Some r, s') /\
      if catchable sig then
        from_ret (as_u64 (r_ret r)) = Ok 0 /\
        decode (out 0 (conform (sigaction_call sig new) r)) = action s sig /\
        action s' sig = stored known_flags new /\
        (forall j, is_i32 j -> j <> sig -> action s' j = action s j)
      else from_ret (as_u64 (r_ret r)) = Err EINVAL /\ forall j, action s' j = action s j }.

(** The action a caller asks for: its handler, its flags and an empty mask; on
    x86_64 the handler returns through the trampoline. *)
Definition asked `{Target} (trampoline handler flags known : Z) : KernelSigaction :=
  match arch with
  | X86_64 => mkKernelSigaction handler (Z.lor (Z.land flags known) SA_RESTORER) trampoline 0
  | Aarch64 => mkKernelSigaction handler (Z.land flags known) 0 0
  end.

Lemma new_sigaction_typed `{Target} trampoline handler flags :
  is_u64 trampoline -> is_u64 handler -> is_u64 flags ->
  well_typed (new_sigaction trampoline handler flags).
Proof.
  intros Ht Hh Hf. unfold well_typed, new_sigaction. destruct arch;
    cbn [ks_fields ks_vals KernelSigaction_kstruct sa_handler sa_flags sa_restorer sa_mask];
    repeat apply Forall2_cons_2; try done.
  cbn [fits]. rewrite pow256. split; [apply Z.lor_nonneg; int_ranges; unfold SA_RESTORER; lia|].
  rewrite <- (Z.mod_small flags (2 ^ 64)) by done. rewrite <- Z.land_ones by lia.
  change SA_RESTORER with (Z.land SA_RESTORER (Z.ones 64)).
  rewrite <- Z.land_lor_distr_l, Z.land_ones by lia. by apply Z.mod_pos_bound.
Qed.

(** [C29] [signal] and [sigaction] install what they are given and answer the
    handler that was there: the action kept is exactly the caller's handler and
    flags (those the kernel knows) with an empty mask, on x86_64 with the return
    trampoline and [SA_RESTORER] (the trampoline's code makes exactly the
    [rt_sigreturn] call), and no other signal's action changes.  For SIGKILL,
    SIGSTOP and numbers that are no signal they answer [EINVAL], and nothing
    changes.  [signal] asks for [SA_RESTART]. *)
Theorem install_roundtrip `{Target} (K : Kernel) `{!SigactionKernel K} trampoline sig handler flags p s :
  is_u64 trampoline -> is_i32 sig -> is_u64 handler -> is_u64 flags ->
  p = sigaction trampoline sig handler flags \/ p = signal trampoline sig handler /\ flags = SA_RESTART ->
  (exists r t s', run K p s = (Done r, t, s') /\
    if catchable sig then
      r = Ok (sa_handler (action s sig)) /\ action s' sig = asked trampoline handler flags known_flags /\
      (forall j, is_i32 j -> j <> sig -> action s' j = action s j)
    else r = Err EINVAL /\ forall j, action s' j = action s j) /\
  (arch = X86_64 -> forall text arity regs, arity (nrz RT_SIGRETURN) = 0%nat ->
    exists k, xexec text arity 3 sigreturn_trampoline 0 regs = Sys (Syscall (nrz RT_SIGRETURN) []) k).
Proof.
  intros Ht Hsig Hh Hf Hp. split.
  2: { intros Ha text arity regs Har. eexists. unfold sigreturn_trampoline.
       cbn [xexec nth_error]. unfold x_call, trap. cbn [x_regs xset].
       rewrite decide_True by done. cbn [as_int]. rewrite Har. reflexivity. }
  assert (p = sigaction trampoline sig handler flags) as -> by (by destruct Hp as [->|[-> ->]]).
  destruct (rt_sigaction sig (new_sigaction trampoline handler flags) s) as (r & s' & Hstep & Hr);
    [done|by apply new_sigaction_typed|].
  unfold sigaction, install. rewrite syscall4_eq. unfold raw_call, bind_ok. cbn [bind].
  fold no_action. fold (sigaction_call sig (new_sigaction trampoline handler flags)).
  rewrite (run_sys _ _ _ _ _ _ Hstep). cbn [bind r_ret].
  change (r_ret (conform _ r)) with (as_u64 (r_ret r)).
  destruct (catchable sig); destruct Hr as [-> Hr]; cbn [run].
  - destruct Hr as (Hold & Hnew & Hother). do 3 eexists. split; [reflexivity|].
    split; [by do 2 f_equal|]. split; [|done]. rewrite Hnew. unfold stored, new_sigaction, asked.
    destruct arch; cbn [sa_handler sa_flags sa_restorer sa_mask]; f_equal.
    by rewrite Z.land_lor_distr_l, known_restorer.
  - do 3 eexists. split; [reflexivity|]. by split.
Qed.

(** A kernel with a table of actions, as bytes. *)
Definition actions_step (H : Target) (c : Call) (s : gmap Z (list Z)) : option Reply * gmap Z (list Z) :=
  match c with
  | Syscall n [AInt sig; ARef new; AMut _; AInt _] =>
      if catchable (as_i32 sig) then
        (Some (mkReply 0 [default (encode no_action) (s !! sig)]),
         <[sig := encode (stored (2 ^ 32 - 1) (decode new))]> s)
      else (Some (mkReply (- code EINVAL) []), s)
  | _ => (Some (mkReply (2 ^ 64 - 38) []), s)
  end.
Definition actions_kernel (H : Target) : Kernel := mkKernel (gmap Z (list Z)) (actions_step H).

Definition actions_of (s : gmap Z (list Z)) (sig : Z) : KernelSigaction :=
  decode (overwrite (encode no_action) (default (encode no_action) (s !! as_usize sig))).

Lemma sigaction_typed k :
  well_typed k <-> is_u64 (sa_handler k) /\ is_u64 (sa_flags k) /\ is_u64 (sa_restorer k) /\ is_u64 (sa_mask k).
Proof.
  unfold well_typed. cbn [ks_fields ks_vals KernelSigaction_kstruct]. split.
  - intros H. repeat match goal with
    | H : Forall2 _ (_ :: _) (_ :: _) |- _ => apply Forall2_cons in H as [? H]
    end. auto.
  - intros (? & ? & ? & ?). repeat apply Forall2_cons_2; done.
Qed.

Lemma stored_typed known k : well_typed k -> well_typed (stored known k).
Proof.
  rewrite !sigaction_typed. unfold stored. cbn [sa_handler sa_flags sa_restorer sa_mask].
  intros (? & Hf & ? & Hm). split_and!; try done; [|by apply (ldiff_range _ _ 64)].
  rewrite <- (Z.lnot_involutive known), <- Z.ldiff_land. by apply (ldiff_range _ _ 64).
Qed.

#[export] Program Instance actions_sigaction (H : Target) : SigactionKernel (actions_kernel H) := {
  action := actions_of; known_flags := 2 ^ 32 - 1 }.
Next Obligation. intros H. reflexivity. Qed.
Next Obligation.
  intros H sig new s Hsig Hw. cbn [kstep actions_kernel]. unfold actions_step, sigaction_call, int. cbv iota.
  rewrite as_i32_as_usize by done. destruct (catchable sig) eqn:Ec; do 2 eexists; (split; [reflexivity|]).
  2: { split; [reflexivity|done]. }
  split; [reflexivity|]. split; [reflexivity|]. unfold actions_of.
  rewrite lookup_insert_eq, decode_encode by done. cbn [default from_option id].
  pose proof (stored_typed (2 ^ 32 - 1) new Hw) as Hs. split.
  - rewrite overwrite_full; [by apply decode_encode|apply encode_bytes|].
    by rewrite (encode_length (stored _ new)) by exact Hs.
  - intros j Hj Hne. rewrite lookup_insert_ne; [done|]. intros E. apply Hne.
    by rewrite <- (as_i32_as_usize j), <- (as_i32_as_usize sig), E by done.
Qed.

Lemma install_roundtrip_witness :
  (exists t s',
    run (actions_kernel X86_64) (sigaction (H := X86_64) 0x401000 SIGTERM 0x402000 SA_RESTART) ∅ =
      (Done (Ok SIG_DFL), t, s') /\
    actions_of s' SIGTERM = mkKernelSigaction 0x402000 (Z.lor SA_RESTART SA_RESTORER) 0x401000 0) /\
  (exists t s', run (actions_kernel Aarch64) (signal (H := Aarch64) 0 SIGKILL 0x402000) ∅ =
      (Done (Err EINVAL), t, s')).
Proof.
  split.
  - destruct (@install_roundtrip X86_64 (actions_kernel X86_64) (actions_sigaction X86_64) 0x401000 SIGTERM
      0x402000 SA_RESTART _ ∅ ltac:(by split) ltac:(by split) ltac:(by split) ltac:(by split) (or_introl eq_refl))
      as [(r & t & s' & Hrun & Hr) _].
    change (catchable SIGTERM) with true in Hr. destruct Hr as (-> & Ha & _). exists t, s'.
    split; [exact Hrun|]. exact Ha.
  - destruct (@install_roundtrip Aarch64 (actions_kernel Aarch64) (actions_sigaction Aarch64) 0 SIGKILL
      0x402000 SA_RESTART _ ∅ ltac:(by split) ltac:(by split) ltac:(by split) ltac:(by split)
      (or_intror (conj eq_refl eq_refl))) as [(r & t & s' & Hrun & Hr) _].
    change (catchable SIGKILL) with false in Hr. destruct Hr as [-> _]. by exists t, s'.
Defined.
