(* ===== verification/ProcessSpec.v ===== *)
(** Processes: what [nice] does to the caller's niceness, what [fork_with_pidfd]
    can report, and the argument vectors [CStrArray] builds. *)

From stdpp Require Import base list option numbers.
From Stdlib Require Import ZArith Lia.
From S2P Require Import Prelude Prog Layout Asm Arch Fd Process.

(** ** Priorities *)

(** The range of the nice value; [setpriority] clamps to it. *)
Definition clamp (v : Z) : Z := Z.max (-20) (Z.min 19 v).

(** The kernel's side of [getpriority] and [setpriority] for the caller:
    [niceness] is its nice value, which the raw call reports as [20 - nice], and
    [allowed] the permission to move from one value to another. *)
Class PriorityKernel `{Target} (K : Kernel) (allowed : Z -> Z -> bool) := {
  niceness : kst K -> Z;
  niceness_range : forall s, -20 <= niceness s <= 19;
  prio_get : forall s, exists r s',
    kstep K (Syscall (nrz GETPRIORITY) [int PRIO_PROCESS; int 0]) s = (Some r, s') /\
    as_u64 (r_ret r) = 20 - niceness s /\ niceness s' = niceness s;
  prio_set : forall v s, is_i32 v -> exists r s',
    kstep K (Syscall (nrz SETPRIORITY) [int PRIO_PROCESS; int 0; int v]) s = (Some r, s') /\
    if allowed (niceness s) (clamp v)
    then as_u64 (r_ret r) = 0 /\ niceness s' = clamp v
    else as_u64 (r_ret r) = as_u64 (- code EACCES) /\ niceness s' = niceness s }.

Section Nice.
Context `{HT : Target} (K : Kernel) (allowed : Z -> Z -> bool) `{!PriorityKernel K allowed}.

Lemma run_getpriority s : exists t s',
  run K (getpriority PRIO_PROCESS 0) s = (Done (Ok (niceness s)), t, s') /\
  niceness s' = niceness s.
Proof.
  destruct (prio_get s) as (r & s' & Hstep & Hret & Hs).
  pose proof (niceness_range s) as Hr.
  unfold getpriority. rewrite syscall2_eq. unfold raw_call. cbn [bind run].
  rewrite Hstep. cbn [bind_ok bind r_ret conform]. rewrite Hret.
  assert (from_ret (20 - niceness s) = Ok (20 - niceness s)) as ->.
  { apply from_ret_ok; int_ranges; lia. }
  cbn [bind_ok bind].
  assert (as_i32 (20 - niceness s) = 20 - niceness s) as ->.
  { apply swrap_small; lia. }
  replace (20 - (20 - niceness s)) with (niceness s) by lia.
  rewrite decide_True by (int_ranges; lia). cbn [run]. eauto.
Qed.

Lemma run_setpriority v s : is_i32 v -> exists t s',
  run K (setpriority PRIO_PROCESS 0 v) s =
    (Done (if allowed (niceness s) (clamp v) then Ok tt else Err (EACCES)), t, s') /\
  niceness s' = if allowed (niceness s) (clamp v) then clamp v else niceness s.
Proof.
  intros Hv. destruct (prio_set v s Hv) as (r & s' & Hstep & H).
  unfold setpriority. rewrite syscall3_eq. unfold raw_call. cbn [bind run].
  rewrite Hstep. unfold ret_unit. cbn [run r_ret conform].
  destruct (allowed (niceness s) (clamp v)); destruct H as [-> Hs]; eauto.
Qed.
End Nice.

(** [nice inc] moves the caller's niceness by [inc], clamped to [-20, 19],
    and reports the value it now has; where the move is not allowed it reports
    [EACCES] and the niceness is untouched; where [current + inc] leaves the
    [i32] range it panics before setting anything. *)
Theorem nice_correct `{Target} (K : Kernel) (allowed : Z -> Z -> bool)
    (HK : PriorityKernel K allowed) (inc : Z) (s : kst K) :
  let old := niceness s in
  let new := clamp (old + inc) in
  exists o t s',
    run K (nice inc) s = (o, t, s') /\
    if decide (is_i32 (old + inc)) then
      if allowed old new then o = Done (Ok new) /\ niceness s' = new
      else o = Done (Err (EACCES)) /\ niceness s' = old
    else o = Panicked /\ niceness s' = old.
Proof.
  intros old new. unfold nice, bind_ok.
  destruct (run_getpriority K allowed s) as (t1 & s1 & E1 & H1).
  rewrite run_bind, E1. cbv zeta. fold old.
  destruct (decide (is_i32 (old + inc))) as [Hv|Hv].
  - destruct (run_setpriority K allowed _ s1 Hv) as (t2 & s2 & E2 & H2).
    rewrite H1 in E2, H2. fold old in E2, H2. fold new in E2, H2.
    rewrite run_bind, E2. destruct (allowed old new).
    + destruct (run_getpriority K allowed s2) as (t3 & s3 & E3 & H3).
      rewrite E3. do 3 eexists. split; [reflexivity|]. split; congruence.
    + simpl. do 3 eexists. split; [reflexivity|]. by split.
  - simpl. do 3 eexists. split; [reflexivity|]. by split.
Qed.

(** An unprivileged process: it may only become nicer. *)
Definition may_lower (old new : Z) : bool := old <=? new.

Definition prio_step (H : Target) (c : Call) (n : Z) : option Reply * Z :=
  match c with
  | Syscall k [_; _] => (Some (mkReply (20 - clamp n) []), n)
  | Syscall k [_; _; AInt v] =>
      let v := clamp (as_i32 v) in
      if may_lower (clamp n) v then (Some (mkReply 0 []), v) else (Some (mkReply (-13) []), n)
  | _ => (Some (mkReply (-38) []), n)
  end.
Definition prio_kernel (H : Target) : Kernel := mkKernel Z (prio_step H).

#[export] Program Instance prio_kernel_ok (H : Target) : PriorityKernel (prio_kernel H) may_lower := {
  niceness := clamp }.
Next Obligation. intros H s. unfold clamp. simpl in *. lia. Qed.
Next Obligation.
  intros H s. simpl. do 2 eexists. split; [reflexivity|]. split; [|done].
  apply (wrap_small 64). unfold clamp. simpl in *. lia.
Qed.
Next Obligation.
  intros H v s Hv. simpl. rewrite as_i32_as_usize by done.
  assert (clamp (clamp v) = clamp v) as Hc by (unfold clamp; lia).
  destruct (may_lower (clamp s) (clamp v)); do 2 eexists; (split; [reflexivity|]); by split.
Qed.

Lemma nice_correct_witness :
  exists o t s', run (prio_kernel X86_64) (nice (H := X86_64) 30) 5 = (o, t, s') /\
    o = Done (Ok 19).
Proof.
  destruct (@nice_correct X86_64 (prio_kernel X86_64) may_lower (prio_kernel_ok X86_64) 30 5)
    as (o & t & s' & Hrun & Ho).
  exists o, t, s'. split; [exact Hrun|].
  rewrite decide_True in Ho by (vm_compute; intuition congruence). exact (proj1 Ho).
Defined.

(** ** [fork_with_pidfd] *)

(** [clone3(2)] takes its arguments by reference and leaves the structure as it
    was: what it reports goes to the addresses the structure holds. *)
Class Clone3Kernel `{Target} (K : Kernel) := {
  clone3_reads_args : forall b n s r s',
    kstep K (Syscall (nrz CLONE3) [AMut b; n]) s = (Some r, s') -> r_outs r = [] }.

(** [C39] [fork_with_pidfd] cannot report a pidfd: the structure's [pidfd] field
    is the address [clone3] stores the descriptor at, the function passes 0 there
    and reads the field back, so whatever pid it answers to the parent comes with
    descriptor 0 (and the child's with -1). *)
Theorem fork_with_pidfd_reports_none `{Target} (K : Kernel) (HK : Clone3Kernel K) s pid pidfd :
  outcome K fork_with_pidfd s = Done (Ok (pid, pidfd)) ->
  pidfd = if pid =? 0 then -1 else 0.
Proof.
  unfold outcome, fork_with_pidfd. rewrite syscall2_eq. unfold raw_call, bind_ok. cbn [bind run].
  change (int (Z.of_nat (size_of Clone3Args))) with (AInt 88).
  destruct (kstep K _ s) as [[r|] s'] eqn:E; [|done].
  apply clone3_reads_args in E as Hr. cbn [bind run r_ret].
  destruct (from_ret_i32 _) as [p|e]; [|done]. cbn [bind].
  destruct (Z.eqb_spec p 0) as [->|Hp]; cbn [run fst snd]; [by intros [= <- <-]|].
  unfold conform. rewrite Hr. intros [= <- <-]. destruct (Z.eqb_spec p 0); [done|].
  vm_compute. reflexivity.
Qed.

(** A kernel that ignores the null address and answers the child's pid. *)
Definition clone3_kernel : Kernel :=
  mkKernel unit (fun _ _ => (Some (mkReply 4242 []), tt)).

Lemma fork_with_pidfd_reports_none_witness :
  outcome clone3_kernel (fork_with_pidfd (H := X86_64)) tt = Done (Ok (4242, 0)).
Proof.
  assert (Clone3Kernel (H := X86_64) clone3_kernel) as HK.
  { split. intros b n s r s' [= <- _]. reflexivity. }
  assert (exists fd, outcome clone3_kernel (fork_with_pidfd (H := X86_64)) tt =
    Done (Ok (4242, fd))) as [fd E] by (eexists; vm_compute; reflexivity).
  rewrite E. rewrite (@fork_with_pidfd_reports_none X86_64 clone3_kernel HK tt 4242 fd E).
  reflexivity.
Defined.

(** ** [CStrArray] *)

(** What a C program reads through one pointer of the array, and through the
    array up to its null pointer. *)
Fixpoint read_argv (ptrs : list (option (list Z))) : option (list (list Z)) :=
  match ptrs with
  | None :: _ => Some []
  | Some mem :: ptrs =>
      match until_nul mem, read_argv ptrs with
      | Some s, Some l => Some (s :: l)
      | _, _ => None
      end
  | [] => None
  end.

Definition nul_free (s : list Z) : Prop := Forall (fun c => c <> 0) s.

Lemma cstring_new_spec s :
  match cstring_new s with
  | Some c => nul_free s /\ c = s ++ [0]
  | None => ~ nul_free s
  end.
Proof.
  unfold cstring_new, nul_free. destruct (existsb _ s) eqn:E.
  - apply existsb_exists in E as (c & Hc & Hz). intros Hf.
    apply Z.eqb_eq in Hz. eapply List.Forall_forall in Hf; [by apply Hf|done].
  - split; [|done]. apply List.Forall_forall. intros c Hc Hz.
    assert (existsb (fun c => c =? 0) s = true) as E'; [|congruence].
    apply existsb_exists. exists c. split; [done|by apply Z.eqb_eq].
Qed.

Lemma until_nul_terminated s : nul_free s -> until_nul (s ++ [0]) = Some s.
Proof.
  induction 1 as [|c s Hc Hs IH]; [done|]. simpl. rewrite IH.
  by destruct (Z.eqb_spec c 0).
Qed.

Lemma collect_cstrings_spec l :
  match collect_cstrings l with
  | Some o => Forall nul_free l /\ o = map (fun s => s ++ [0]) l
  | None => Exists (fun s => ~ nul_free s) l
  end.
Proof.
  induction l as [|s l IH]; [by split|]. simpl.
  pose proof (cstring_new_spec s) as Hs. destruct (cstring_new s) as [c|]; [|by left].
  destruct Hs as [Hs ->]. destruct (collect_cstrings l) as [o|]; simpl; [|by right].
  destruct IH as [IH ->]. split; [by constructor|done].
Qed.

(** [CStrArray::new] refuses exactly the lists with a string that contains
    a NUL; otherwise what [execve] reads through the pointer array, each string
    up to its terminator and the array up to its null pointer, is the list it was
    built from, and nothing follows the null pointer. *)
Theorem cstr_array_roundtrip (strings : list (list Z)) :
  match CStrArray_new strings with
  | Some a => Forall nul_free strings /\ read_argv (as_ptr a) = Some strings /\
              length (as_ptr a) = S (length strings)
  | None => Exists (fun s => ~ nul_free s) strings
  end.
Proof.
  unfold CStrArray_new. pose proof (collect_cstrings_spec strings) as H.
  destruct (collect_cstrings strings) as [o|]; [|done]. destruct H as [Hf ->].
  split; [done|]. unfold as_ptr. cbn [ptrs]. split.
  - induction Hf as [|s l Hs Hl IH]; [done|]. simpl. by rewrite until_nul_terminated, IH.
  - rewrite length_app, !length_map. simpl. lia.
Qed.
