(* ===== verification/ClockSpec.v ===== *)
(** Reading a clock: the fast path of [clock_gettime] against the system call it
    stands in for. *)

From stdpp Require Import base list option numbers.
From Stdlib Require Import ZArith Lia.
From S2P Require Import Prelude Prog Layout Asm Arch Fd Vdso Time.

(** What a clock read answers: [now] is the time on each clock, [None] for a
    clock the kernel does not know; it may change with every call.  The code at
    [entry], the vDSO's, either declines with a non-zero result, whatever it left in
    the buffer, or answers what the system call would.  Nothing is known of a call
    to any other address. *)
Class ClockKernel `{Target} (K : Kernel) (entry : Z) := {
  now : kst K -> Z -> option Timespec;
  now_typed : forall s id t, now s id = Some t -> well_typed t;
  clock_syscall : forall id b s, length b = 16%nat -> exists r s',
    kstep K (Syscall (nrz CLOCK_GETTIME) [int id; AMut b]) s = (Some r, s') /\
    match now s id with
    | Some t => as_u64 (r_ret r) = 0 /\ r_outs r = [encode t]
    | None => as_u64 (r_ret r) = as_u64 (- code EINVAL)
    end;
  clock_vdso : forall id b s, length b = 16%nat -> exists r s',
    kstep K (CallFn entry [int id; AMut b]) s = (Some r, s') /\
    (as_i32 (as_u64 (r_ret r)) = 0 -> exists t, now s id = Some t /\ r_outs r = [encode t]) }.

(** The vDSO, if the kernel says where it is mapped, exports its clock at [entry] or
    not at all. *)
Definition vdso_exports `{Target} (mem : Z -> Z) (K : Kernel) (entry : Z) (fuel : nat) (s : kst K) : Prop :=
  exists o t s', run K (vdso_base fuel) s = (Done o, t, s') /\
    forall base, o = Some base ->
      lookup mem fuel base = Ret (Some entry) \/ lookup mem fuel base = Ret None.

(** The moments of a call: before it asks anything, or after the vDSO declined. *)
Definition meanwhile (K : Kernel) (entry : Z) (args : list Arg) (s s' : kst K) : Prop :=
  s' = s \/ exists r, kstep K (CallFn entry args) s = (Some r, s').

Lemma decode_reply (b : list Z) (t : Timespec) c r r' :
  length b = 16%nat -> well_typed t -> call_writable c = [b] -> r_outs r = [encode t] ->
  r_outs r' = r_outs (conform c r) -> decode (out 0 r') = t.
Proof.
  intros Hb Ht Hc Hr E. unfold out. rewrite E. unfold conform. cbn [r_outs]. rewrite Hc, Hr.
  cbn [overwrite_all nth]. rewrite overwrite_full; [by apply decode_encode| |].
  - apply encode_bytes.
  - rewrite encode_length by done. by rewrite Hb.
Qed.

(** The reference: the system call alone. *)
Definition reading (o : option Timespec) : result Timespec :=
  match o with Some t => Ok t | None => Err (EINVAL) end.

(** The cache is unset, marked as failed, or the entry; so is what comes of the search. *)
Lemma search_ends `{Target} mem (K : Kernel) entry fuel cache s :
  entry <> 0 -> entry <> FAILED -> cache = 0 \/ cache = FAILED \/ cache = entry ->
  (cache = 0 -> vdso_exports mem K entry fuel s) ->
  exists c f t s', run K (clock_gettime_fn mem fuel cache) s = (Done (c, f), t, s') /\
    (c = FAILED /\ f = None \/ c = entry /\ f = Some entry).
Proof.
  intros H0 H1 Hc Hex. unfold clock_gettime_fn.
  destruct (Z.eqb_spec cache FAILED) as [->|HF]; [do 4 eexists; split; [reflexivity|by left]|].
  destruct (Z.eqb_spec cache 0) as [E|HN]; cbn [negb].
  2: { destruct Hc as [?|[?| ->]]; [done..|]. do 4 eexists. split; [reflexivity|by right]. }
  destruct (Hex E) as (o & t & s' & Erun & Hlook). unfold vdso_resolve. rewrite bind_assoc, run_bind, Erun.
  destruct o as [base|]; [|do 4 eexists; split; [reflexivity|by left]].
  destruct (Hlook base eq_refl) as [->| ->]; do 4 eexists; (split; [reflexivity|]); [by right|by left].
Qed.

(** The system call alone. *)
Lemma run_clock_syscall `{Target} (K : Kernel) entry (HK : ClockKernel K entry) id b s (c : Z) :
  length b = 16%nat -> exists t s',
  run K (let* t := (let* r := syscall2 (nr CLOCK_GETTIME) (int id) (AMut b) in
    Ret (map_ok (fun _ => decode (out 0 r)) (from_ret (r_ret r)))) in Ret (c, t)) s =
  (Done (c, reading (now s id)), t, s').
Proof.
  intros Hb. rewrite syscall2_eq. unfold raw_call. cbn [bind run].
  destruct (clock_syscall id b s Hb) as (r & s3 & -> & Hr).
  cbn [run]. change (r_ret (conform _ r)) with (as_u64 (r_ret r)).
  destruct (now s id) as [t|] eqn:En.
  - destruct Hr as [-> Ho]. cbn [r_ret]. change (from_ret 0) with (Ok 0). cbn [map_ok].
    erewrite decode_reply; [do 2 eexists; reflexivity|exact Hb|by eapply now_typed|
      |exact Ho|reflexivity]; reflexivity.
  - rewrite Hr. do 2 eexists. reflexivity.
Qed.

(** [C28] [clock_gettime] answers the clock: with the vDSO not looked for yet, found or
    not to be had, and whether its code answers or declines (after which the system
    call reads into the same buffer), it returns, and the result is the time on the
    clock asked for at a moment of the call, or [EINVAL] for a clock the kernel does
    not know.  The only address it ever calls is the vDSO's entry. *)
Theorem clock_gettime_correct `{Target} (mem : Z -> Z) (K : Kernel) entry (HK : ClockKernel K entry)
    fuel cache junk clockid s :
  length junk = 16%nat -> entry <> 0 -> entry <> FAILED ->
  cache = 0 \/ cache = FAILED \/ cache = entry -> (cache = 0 -> vdso_exports mem K entry fuel s) ->
  exists c f t0 s1 t s2 s', run K (clock_gettime_fn mem fuel cache) s = (Done (c, f), t0, s1) /\
    (c = FAILED \/ c = entry) /\ meanwhile K entry [int clockid; AMut junk] s1 s2 /\
    run K (clock_gettime mem fuel cache junk clockid) s =
      (Done (c, reading (now s2 clockid)), t0 ++ t, s').
Proof.
  intros Hj H0 H1 Hc Hex.
  destruct (search_ends mem K entry fuel cache s H0 H1 Hc Hex) as (c & f & t0 & s1 & E & Hf).
  exists c, f, t0, s1. unfold clock_gettime. rewrite run_bind, E.
  destruct Hf as [[-> ->]|[-> ->]].
  - destruct (run_clock_syscall K entry HK clockid junk s1 FAILED Hj) as (t & s' & Et). exists t, s1, s'.
    split; [done|]. split; [by left|]. split; [by left|]. by rewrite Et.
  - cbn [bind run]. destruct (clock_vdso clockid junk s1 Hj) as (r & s2 & Hstep & Hr). rewrite Hstep.
    change (r_ret (conform _ r)) with (as_u64 (r_ret r)).
    destruct (Z.eqb_spec (as_i32 (as_u64 (r_ret r))) 0) as [Hz|Hz].
    + destruct (Hr Hz) as (t & Hnow & Ho). do 2 eexists. exists s2. split; [done|]. split; [by right|].
      split; [by left|]. cbn [run]. rewrite Hnow.
      erewrite decode_reply; [reflexivity|exact Hj|by eapply now_typed| |exact Ho|reflexivity]; reflexivity.
    + destruct (run_clock_syscall K entry HK clockid (out 0 (conform (CallFn entry [int clockid; AMut junk]) r))
        s2 entry) as (t & s3 & Et); [by rewrite out_length|].
      do 2 eexists. exists s3. split; [done|]. split; [by right|]. split; [right; by exists r|].
      by rewrite Et.
Qed.

(** Two clocks that move on with every call, of which the entry at 0x7000 only answers
    the monotonic one, leaving rubbish behind when it declines. *)
Definition two_clocks (s : nat) (id : Z) : option Timespec :=
  let ns := Z.of_nat s mod 1000 in
  if as_usize id =? CLOCK_REALTIME then Some (mkTimespec 1700000000 ns)
  else if as_usize id =? CLOCK_MONOTONIC then Some (mkTimespec 12 ns)
  else None.
Definition clock_step (c : Call) (s : nat) : option Reply * nat :=
  (Some match c with
   | Syscall _ [AInt id; _] =>
       match two_clocks s id with Some t => mkReply 0 [encode t] | None => mkReply (-22) [] end
   | CallFn f [AInt id; _] =>
       if negb (f =? 0x7000) then mkReply 0 []
       else if as_usize id =? CLOCK_MONOTONIC
       then match two_clocks s id with Some t => mkReply 0 [encode t] | None => mkReply 1 [] end
       else mkReply 1 [[255; 255; 255]]
   | _ => mkReply (-38) []
   end, S s).
Definition clock_kernel : Kernel := mkKernel nat clock_step.

#[export] Program Instance clock_kernel_ok `{Target} : ClockKernel clock_kernel 0x7000 := {
  now := two_clocks }.
Next Obligation.
  intros H s id t. unfold two_clocks. pose proof (Z.mod_pos_bound (Z.of_nat s) 1000 ltac:(lia)).
  repeat case_match; intros [= <-]; repeat constructor; simpl; int_ranges; lia.
Qed.
Next Obligation.
  intros H id b s _. simpl. unfold clock_step, int, two_clocks, as_usize. rewrite !wrap_wrap by lia.
  destruct (_ =? _); [do 2 eexists; split; [reflexivity|]; by split|].
  destruct (_ =? _); do 2 eexists; (split; [reflexivity|]); first [done|by split].
Qed.
Next Obligation.
  intros H id b s _. simpl. unfold clock_step, int, two_clocks, as_usize. rewrite !wrap_wrap by lia.
  destruct (Z.eqb_spec (wrap 64 id) CLOCK_MONOTONIC) as [->|];
    do 2 eexists; (split; [reflexivity|]); [|done].
  intros _. eexists. by split.
Qed.

(** The realtime clock through an entry that declines it, a call later. *)
Lemma clock_gettime_correct_witness :
  exists c f t0 s1 t s2 s', run clock_kernel (clock_gettime_fn (H := X86_64) (fun _ => 0) 0 0x7000) 4%nat =
      (Done (c, f), t0, s1) /\
    (c = FAILED \/ c = 0x7000) /\ meanwhile clock_kernel 0x7000 [int CLOCK_REALTIME; AMut (replicate 16 170)] s1 s2 /\
    run clock_kernel (clock_gettime (H := X86_64) (fun _ => 0) 0 0x7000 (replicate 16 170) CLOCK_REALTIME) 4%nat =
      (Done (c, reading (two_clocks s2 CLOCK_REALTIME)), t0 ++ t, s').
Proof.
  apply (@clock_gettime_correct X86_64 (fun _ => 0) clock_kernel 0x7000 (@clock_kernel_ok X86_64)
    0 0x7000 (replicate 16 170) CLOCK_REALTIME 4%nat); [done|done|done|auto|done].
Defined.
