(* ===== verification/DupSpec.v ===== *)
(** [dup2] on both targets: aarch64 has no such call and builds it from [dup3]
    and [fcntl]; one contract on the descriptor table covers both. *)

From stdpp Require Import base list option numbers gmap.
From Stdlib Require Import ZArith Lia.
From S2P Require Import Prelude Prog Layout Asm Arch Fd.

(** A call that answers [e], as the kernel reports it. *)
Definition answers (r : Reply) (res : result Z) : Prop :=
  match res with
  | Ok z => as_u64 (r_ret r) = z
  | Err e => as_u64 (r_ret r) = as_u64 (- code e)
  end.

(** The calls [dup2] is made of, as their manual pages specify them, on a table
    from descriptors below [limit] to open files.  [dup2] itself is only a call
    on x86_64. *)
Class FdTable `{Target} (K : Kernel) (limit : Z) := {
  table : kst K -> gmap Z Z;
  limit_i32 : 0 <= limit <= 2 ^ 31;
  table_below : forall s fd file, table s !! fd = Some file -> 0 <= fd < limit;
  call_dup2 : forall old new s, arch = X86_64 -> is_i32 old -> is_i32 new -> exists r s',
    kstep K (Syscall (nrz DUP2) [int old; int new]) s = (Some r, s') /\
    match table s !! old with
    | Some file =>
        if decide (0 <= new < limit)
        then answers r (Ok new) /\ table s' = (if decide (old = new) then table s
                                               else <[new := file]> (table s))
        else answers r (Err EBADF) /\ table s' = table s
    | None => answers r (Err EBADF) /\ table s' = table s
    end;
  call_dup3 : forall old new s, is_i32 old -> is_i32 new -> exists r s',
    kstep K (Syscall (nrz DUP3) [int old; int new; int 0]) s = (Some r, s') /\
    if decide (old = new) then answers r (Err EINVAL) /\ table s' = table s
    else match table s !! old with
         | Some file =>
             if decide (0 <= new < limit)
             then answers r (Ok new) /\ table s' = <[new := file]> (table s)
             else answers r (Err EBADF) /\ table s' = table s
         | None => answers r (Err EBADF) /\ table s' = table s
         end;
  call_getfd : forall fd s, is_i32 fd -> exists r s' flags,
    kstep K (Syscall (nrz FCNTL) [int fd; int F_GETFD; int 0]) s = (Some r, s') /\
    table s' = table s /\ 0 <= flags <= 1 /\
    answers r (match table s !! fd with Some _ => Ok flags | None => Err EBADF end) }.

(** The contract: the answer, and the table afterwards. *)
Definition dup2_spec (limit : Z) (old new : Z) (t : gmap Z Z) : result Z * gmap Z Z :=
  match t !! old with
  | None => (Err EBADF, t)
  | Some file =>
      if decide (old = new) then (Ok new, t)
      else if decide (0 <= new < limit) then (Ok new, <[new := file]> t)
      else (Err EBADF, t)
  end.

Lemma answers_i32 c r res :
  answers r res ->
  match res with Ok z => 0 <= z < 2 ^ 31 | Err e => errno_in_range e end ->
  from_ret_i32 (r_ret (conform c r)) = res.
Proof.
  unfold answers, from_ret_i32. change (r_ret (conform c r)) with (as_u64 (r_ret r)).
  destruct res as [z|[e]]; intros ->; unfold errno_in_range; simpl code; intros Hz.
  - assert (from_ret z = Ok z) as -> by (apply from_ret_ok; int_ranges; lia).
    cbn. f_equal. apply swrap_small; lia.
  - assert (as_u64 (- e) = 2 ^ 64 - e) as ->.
    { unfold as_u64, wrap. rewrite <- (Z.mod_add (- e) 1) by lia.
      rewrite Z.mod_small; lia. }
    assert (from_ret (2 ^ 64 - e) = Err (mkErrno e)) as ->; [|done].
    apply from_ret_err; [int_ranges; lia|]. by unfold errno_in_range.
Qed.

(** [C23] [dup2] meets one contract on both targets, including the case aarch64
    must emulate: [dup2(fd, fd)] answers [fd] when it is open and [EBADF] when it
    is not, without touching the table, although the [dup3] behind it would
    refuse it with [EINVAL]. *)
Theorem dup2_portable `{Target} (K : Kernel) (limit : Z) (HK : FdTable K limit) old new s :
  is_i32 old -> is_i32 new ->
  exists t s', run K (dup2 old new) s = (Done (fst (dup2_spec limit old new (table s))), t, s') /\
    table s' = snd (dup2_spec limit old new (table s)).
Proof.
  intros Ho Hn. pose proof limit_i32 as Hl. unfold dup2, dup2_spec.
  assert (forall fd file, table s !! fd = Some file -> 0 <= fd < limit) as Hb by apply table_below.
  assert (errno_in_range EBADF) as He by (unfold errno_in_range; simpl; lia).
  destruct arch eqn:Harch.
  - unfold dup2_x86_64. rewrite syscall2_eq. unfold raw_call. cbn [bind run].
    destruct (call_dup2 old new s Harch Ho Hn) as (r & s' & E & Hr). rewrite E. cbn [run r_ret].
    exists [(Syscall (nrz DUP2) [int old; int new],
             Some (conform (Syscall (nrz DUP2) [int old; int new]) r))], s'.
    destruct (table s !! old) as [file|] eqn:Eo; [|destruct Hr as [Ha Ht]; split; [|exact Ht];
      by rewrite (answers_i32 _ _ _ Ha He)].
    specialize (Hb old file Eo).
    destruct (decide (0 <= new < limit)) as [Hnew|Hnew], (decide (old = new)) as [->|Hne];
      destruct Hr as [Ha Ht]; try lia; (split; [|exact Ht]);
      rewrite (answers_i32 _ _ _ Ha); (reflexivity || exact He || (cbn; lia)).
  - unfold dup2_aarch64. destruct (Z.eqb_spec old new) as [->|Hne].
    + unfold fcntl. rewrite syscall3_eq. unfold raw_call, bind_ok. cbn [bind run].
      destruct (call_getfd new s Hn) as (r & s' & flags & E & Ht & Hf & Ha).
      rewrite E. cbn [bind run r_ret].
      destruct (table s !! new) as [file|] eqn:Eo.
      * rewrite (answers_i32 _ _ _ Ha) by lia. rewrite decide_True by done.
        cbn [run]. do 2 eexists. split; [reflexivity|exact Ht].
      * rewrite (answers_i32 _ _ _ Ha He). cbn [run]. do 2 eexists. split; [reflexivity|exact Ht].
    + rewrite syscall3_eq. unfold raw_call. cbn [bind run].
      destruct (call_dup3 old new s Ho Hn) as (r & s' & E & Hr). rewrite E. cbn [run r_ret].
      rewrite decide_False in Hr by done. destruct (decide (old = new)) as [|_]; [done|].
      do 2 eexists.
      destruct (table s !! old) as [file|]; [destruct (decide (0 <= new < limit))|];
        destruct Hr as [Ha Ht]; (split; [|exact Ht]);
        rewrite (answers_i32 _ _ _ Ha); (reflexivity || exact He || (cbn; lia)).
Qed.

(** ** A concrete table *)

Definition fd_limit : Z := 1024.
Definition in_limit (fd : Z) : Prop := 0 <= fd < fd_limit.

(** Only the entries below the limit count. *)
Definition open_files (s : gmap Z Z) : gmap Z Z := filter (fun p => in_limit (fst p)) s.

Definition fail (e : Errno) : Reply := mkReply (- code e) [].

Definition table_dup (old new : Z) (s : gmap Z Z) : Reply * gmap Z Z :=
  match open_files s !! old with
  | Some file =>
      if decide (in_limit new) then
        (mkReply new [], if decide (old = new) then s else <[new := file]> s)
      else (fail EBADF, s)
  | None => (fail EBADF, s)
  end.

Definition fd_step (H : Target) (c : Call) (s : gmap Z Z) : option Reply * gmap Z Z :=
  let '(r, s') :=
    match c with
    | Syscall n (AInt a :: AInt b :: _) =>
        let a := as_i32 a in
        let b := as_i32 b in
        if n =? nrz FCNTL then
          match open_files s !! a with Some _ => (mkReply 1 [], s) | None => (fail EBADF, s) end
        else if (n =? nrz DUP3) && (a =? b) then (fail EINVAL, s)
        else table_dup a b s
    | _ => (fail EINVAL, s)
    end in (Some r, s').
Definition fd_kernel (H : Target) : Kernel := mkKernel (gmap Z Z) (fd_step H).

Lemma open_insert s fd file :
  in_limit fd -> open_files (<[fd := file]> s) = <[fd := file]> (open_files s).
Proof. intros. unfold open_files. by rewrite map_filter_insert_True. Qed.

Lemma answers_fd z : in_limit z -> answers (mkReply z []) (Ok z).
Proof. unfold in_limit, fd_limit. intros. apply (wrap_small 64). simpl. lia. Qed.

Lemma nr_dup_distinct (H : Target) :
  (nrz DUP3 =? nrz FCNTL) = false /\
  (arch = X86_64 -> (nrz DUP2 =? nrz FCNTL) = false /\ (nrz DUP2 =? nrz DUP3) = false).
Proof. unfold nrz, nr_table. destruct arch; split; try done. Qed.

(** What [table_dup] answers. *)
Lemma table_dup_spec old new s :
  let '(r, s') := table_dup old new s in
  match open_files s !! old with
  | Some file =>
      if decide (0 <= new < fd_limit)
      then answers r (Ok new) /\ open_files s' = (if decide (old = new) then open_files s
                                                  else <[new := file]> (open_files s))
      else answers r (Err EBADF) /\ open_files s' = open_files s
  | None => answers r (Err EBADF) /\ open_files s' = open_files s
  end.
Proof.
  unfold table_dup. destruct (open_files s !! old) as [file|]; [|done].
  destruct (decide (in_limit new)) as [Hn|Hn], (decide (0 <= new < fd_limit)); try done.
  split; [by apply answers_fd|]. destruct (decide (old = new)); [done|]. by apply open_insert.
Qed.

#[export] Program Instance fd_kernel_ok (H : Target) : FdTable (fd_kernel H) fd_limit := {
  table := open_files }.
Next Obligation. intros _. unfold fd_limit. lia. Qed.
Next Obligation.
  intros H s fd file Hf. simpl in *. unfold open_files in Hf.
  apply map_lookup_filter_Some in Hf as [_ Hf]. exact Hf.
Qed.
Next Obligation.
  intros H old new s Ha Ho Hn. destruct (nr_dup_distinct H) as [_ E].
  destruct (E Ha) as [E1 E2]. simpl. unfold fd_step, int. rewrite E1, E2, !as_i32_as_usize by done. cbn [andb].
  pose proof (table_dup_spec old new s) as Hd. destruct (table_dup old new s) as [r s'].
  exists r, s'. split; [reflexivity|exact Hd].
Qed.
Next Obligation.
  intros H old new s Ho Hn. destruct (nr_dup_distinct H) as [E _].
  simpl. unfold fd_step, int. rewrite E, Z.eqb_refl, !as_i32_as_usize by done. cbn [andb].
  destruct (Z.eqb_spec old new), (decide (old = new)) as [|Hne]; try done.
  - do 2 eexists. split; [reflexivity|]. by split.
  - pose proof (table_dup_spec old new s) as Hd. destruct (table_dup old new s) as [r s'].
    exists r, s'. split; [reflexivity|].
    destruct (decide (old = new)); [done|exact Hd].
Qed.
Next Obligation.
  intros H fd s Hf. simpl. unfold fd_step, int. rewrite Z.eqb_refl, as_i32_as_usize by done.
  destruct (open_files s !! fd); do 3 eexists; (split; [reflexivity|]); (split; [done|]).
  - split; [|apply answers_fd; split]; done.
  - by split; [instantiate (1 := 0)|].
Qed.

Lemma dup2_portable_witness :
  let s := {[ 5 := 77 ]} : gmap Z Z in
  exists t s', run (fd_kernel Aarch64) (dup2 (H := Aarch64) 5 5) s = (Done (Ok 5), t, s') /\
    open_files s' = open_files s.
Proof.
  intros s.
  destruct (@dup2_portable Aarch64 (fd_kernel Aarch64) fd_limit (fd_kernel_ok Aarch64) 5 5 s)
    as (t & s' & Hrun & Ht); [by split|by split|].
  exists t, s'. split; [exact Hrun|exact Ht].
Defined.
