(* ===== verification/VdsoSpec.v ===== *)
(** The vDSO lookup against the ELF tables it reads: the loops over the program
    headers, the dynamic table and the symbol table find what the tables say. *)

From stdpp Require Import base list option numbers strings.
From Stdlib Require Import ZArith Lia.
From S2P Require Import Prelude Prog Layout Asm Arch Fd Vdso.

Record Phdr := mkPhdr { p_type : Z; p_offset : Z; p_vaddr : Z }.
Record Dyn := mkDynEntry { d_tag : Z; d_val : Z }.
Record Sym := mkSym { st_name : Z; st_value : Z }.

(** The first and the last element that satisfies a test. *)
Definition first_of {A} (p : A -> bool) (l : list A) : option A := head (List.filter p l).
Definition last_of {A} (p : A -> bool) (l : list A) : option A := last (List.filter p l).

Section VdsoSpec.
Context `{Target} (mem : Z -> Z) (base : Z).

(** ** The tables *)

Definition phdr_at (phoff phentsize i : Z) : Phdr :=
  let ph := ptr_off base (phoff + i * phentsize) in
  mkPhdr (rd_u32 mem ph 0) (rd_u64 mem ph 8) (rd_u64 mem ph 16).
Definition dyn_at (d i : Z) : Dyn :=
  let e := ptr_off d (16 * i) in mkDynEntry (rd_i64 mem e 0) (rd_u64 mem e 8).
Definition sym_at (symtab i : Z) : Sym :=
  let s := ptr_off symtab (i * 24) in mkSym (rd_u32 mem s 0) (rd_u64 mem s 8).

Definition entries {A} (at_ : Z -> A) (first : Z) (n : nat) : list A :=
  map (fun i => at_ (first + Z.of_nat i)) (seq 0 n).

(** The bytes at [p] are the C string [s]. *)
Definition c_string_at (p : Z) (s : list Z) : Prop :=
  map (fun i => rd_u8 mem (ptr_off p (Z.of_nat i))) (seq 0 (length s)) = s /\
  rd_u8 mem (ptr_off p (Z.of_nat (length s))) = 0.

#[export] Instance c_string_at_dec p s : Decision (c_string_at p s).
Proof. unfold c_string_at. apply _. Defined.

(** ** What they say *)

Definition load_bias (l : list Phdr) : option Z :=
  option_map (fun p => as_i64 (as_i64 (p_offset p) - as_i64 (p_vaddr p)))
    (first_of (fun p => p_type p =? PT_LOAD) l).
Definition dynamic_addr (l : list Phdr) : option Z :=
  option_map (fun p => ptr_off base (p_offset p))
    (last_of (fun p => p_type p =? PT_DYNAMIC) l).
Definition tag_addr (bias tag : Z) (l : list Dyn) : option Z :=
  option_map (fun e => reloc base bias (d_val e)) (last_of (fun e => d_tag e =? tag) l).
Definition exports (strtab : Z) (s : Sym) : bool :=
  negb (st_name s =? 0) && negb (st_value s =? 0) &&
  bool_decide (c_string_at (ptr_off strtab (st_name s)) SYMBOL).
Definition symbol_addr (bias strtab : Z) (l : list Sym) : option Z :=
  option_map (fun s => reloc base bias (st_value s)) (first_of (exports strtab) l).

Definition header_ok : bool :=
  (rd_u32 mem base 0 =? ELF_MAGIC) && (rd_u8 mem (ptr_off base 4) =? 2) &&
  (rd_u16 mem base 18 =? E_MACHINE) && negb (rd_u16 mem base 54 <? 56).
Definition image_phdrs : list Phdr :=
  entries (phdr_at (rd_u64 mem base 32) (rd_u16 mem base 54)) 0 (Z.to_nat (rd_u16 mem base 56)).

(** The entry point, the dynamic table being [k] entries long. *)
Definition entry_spec (k : nat) : option Z :=
  if header_ok then
    bias ← load_bias image_phdrs;
    d ← dynamic_addr image_phdrs;
    strtab ← tag_addr bias DT_STRTAB (entries (dyn_at d) 0 k);
    symtab ← tag_addr bias DT_SYMTAB (entries (dyn_at d) 0 k);
    hash ← tag_addr bias DT_HASH (entries (dyn_at d) 0 k);
    symbol_addr bias strtab (entries (sym_at symtab) 0 (Z.to_nat (rd_u32 mem hash 4)))
  else None.

(** The dynamic table has [k] entries before its [DT_NULL]. *)
Definition dynamic_length (k : nat) : Prop :=
  forall d, dynamic_addr image_phdrs = Some d ->
    Forall (fun e => d_tag e <> DT_NULL) (entries (dyn_at d) 0 k) /\
    d_tag (dyn_at d (Z.of_nat k)) = DT_NULL.

(** ** The loops *)

Lemma entries_S {A} (at_ : Z -> A) first n :
  entries at_ first (S n) = at_ first :: entries at_ (first + 1) n.
Proof.
  unfold entries. cbn [seq map]. rewrite Z.add_0_r. f_equal.
  rewrite <- seq_shift, map_map. apply map_ext. intros i. f_equal. lia.
Qed.

Lemma ptr_off_add p a b : ptr_off (ptr_off p a) b = ptr_off p (a + b).
Proof.
  unfold ptr_off, as_u64, wrap. rewrite Zplus_mod_idemp_l. f_equal. lia.
Qed.

Lemma cstr_eq_spec s : forall p,
  Forall (fun c => c <> 0) s -> cstr_eq mem p s = bool_decide (c_string_at p s).
Proof.
  assert (forall p, rd_u8 mem (ptr_off p 0) = rd_u8 mem p) as H0.
  { intros p. unfold rd_u8, rd. f_equal. apply map_ext. intros i. do 2 f_equal.
    unfold ptr_off, as_u64, wrap. rewrite <- !Z.add_assoc, Zplus_mod_idemp_l. f_equal. lia. }
  induction s as [|c s IH]; intros p Hs; cbn [cstr_eq].
  - destruct (Z.eqb_spec (rd_u8 mem p) 0); symmetry;
      [apply bool_decide_eq_true_2|apply bool_decide_eq_false_2];
      unfold c_string_at; cbn [seq map length]; change (Z.of_nat 0) with 0; rewrite H0; [done|].
    by intros [_ ?].
  - apply Forall_cons in Hs as [Hc Hs]. rewrite IH by done.
    assert (c_string_at p (c :: s) <-> rd_u8 mem p = c /\ c_string_at (ptr_off p 1) s) as E.
    { unfold c_string_at. cbn [length seq map]. rewrite <- seq_shift, map_map.
      change (Z.of_nat 0) with 0. rewrite H0, ptr_off_add.
      replace (1 + Z.of_nat (length s)) with (Z.of_nat (S (length s))) by lia.
      rewrite (map_ext (fun i => rd_u8 mem (ptr_off p (Z.of_nat (S i))))
                 (fun i => rd_u8 mem (ptr_off (ptr_off p 1) (Z.of_nat i)))).
      - split; [by intros [[= H1 H2] H3]|intros [H1 [H2 H3]]]. by rewrite H1, H2.
      - intros i. rewrite ptr_off_add. do 2 f_equal. lia. }
    destruct (Z.eqb_spec (rd_u8 mem p) c) as [Hp|Hp]; [apply bool_decide_ext; tauto|].
    symmetry. apply bool_decide_eq_false_2. tauto.
Qed.

Lemma first_of_cons {A} (p : A -> bool) x l :
  first_of p (x :: l) = if p x then Some x else first_of p l.
Proof. unfold first_of. simpl. by destruct (p x). Qed.

Lemma last_of_cons {A} (p : A -> bool) x l :
  last_of p (x :: l) =
  match last_of p l with Some y => Some y | None => if p x then Some x else None end.
Proof.
  unfold last_of. simpl. destruct (p x); [apply last_cons|]. by destruct (last _).
Qed.

Definition orelse {A} (a b : option A) : option A :=
  match a with Some x => Some x | None => b end.

Lemma scan_phdrs_spec phoff phentsize n : forall i load dyn,
  0 <= i -> 0 <= phentsize -> phoff + (i + Z.of_nat n - 1) * phentsize < 2 ^ 64 ->
  scan_phdrs mem n i base phoff phentsize load dyn =
  let l := entries (phdr_at phoff phentsize) i n in
  Ret (orelse load (load_bias l), orelse (dynamic_addr l) dyn).
Proof.
  induction n as [|n IH]; intros i load dyn Hi Hp Hb; [by destruct load|].
  cbn [scan_phdrs]. unfold usize_add.
  destruct (Z.ltb_spec (phoff + i * phentsize) (2 ^ 64)); [|nia]. cbn [bind].
  rewrite !IH by lia. rewrite entries_S. cbv zeta.
  generalize (entries (phdr_at phoff phentsize) (i + 1) n) as l. intros l.
  unfold load_bias, dynamic_addr. rewrite first_of_cons, last_of_cons.
  unfold phdr_at. cbn [p_type p_offset p_vaddr].
  destruct (Z.eqb_spec (rd_u32 mem (ptr_off base (phoff + i * phentsize)) 0) PT_LOAD) as [->|Hl].
  - change (PT_LOAD =? PT_DYNAMIC) with false.
    destruct load as [b|]; cbn [andb orelse]; (rewrite bool_decide_eq_true_2 by done) ||
      (rewrite bool_decide_eq_false_2 by done); by destruct (last_of _ l).
  - cbn [andb]. destruct (_ =? PT_DYNAMIC); by destruct (last_of _ l).
Qed.

Lemma rd_range n p o : 0 <= rd mem n p o < 256 ^ Z.of_nat n.
Proof.
  unfold rd. pose proof (le_dec_range (map (fun i => as_u8 (mem (as_u64 (p + o + Z.of_nat i)))) (seq 0 n))) as H0.
  rewrite length_map, length_seq in H0. apply H0, Forall_map, Forall_true. intros i. apply (wrap_range 8). lia.
Qed.

(** A header past the end of the address space stops the scan. *)
Lemma scan_phdrs_overflow phoff phentsize n : forall i load dyn,
  0 <= i -> 0 <= phentsize -> (0 < n)%nat -> 2 ^ 64 <= phoff + (i + Z.of_nat n - 1) * phentsize ->
  scan_phdrs mem n i base phoff phentsize load dyn = Panic.
Proof.
  induction n as [|n IH]; intros i load dyn Hi Hp Hn Hb; [lia|].
  cbn [scan_phdrs]. unfold usize_add.
  destruct (Z.ltb_spec (phoff + i * phentsize) (2 ^ 64)); [|done]. cbn [bind].
  destruct n as [|n]; [replace (i + Z.of_nat 1 - 1) with i in Hb by lia; lia|].
  rewrite !IH by lia. by repeat case_match.
Qed.

Lemma scan_dynamic_spec bias k : forall fuel d (t : DynTables),
  (k < fuel)%nat ->
  Forall (fun e => d_tag e <> DT_NULL) (entries (dyn_at d) 0 k) ->
  d_tag (dyn_at d (Z.of_nat k)) = DT_NULL ->
  scan_dynamic mem fuel base bias d t =
  let l := entries (dyn_at d) 0 k in
  Ret (mkDyn (orelse (tag_addr bias DT_STRTAB l) (strtab t))
         (orelse (tag_addr bias DT_SYMTAB l) (symtab t))
         (orelse (tag_addr bias DT_HASH l) (hash t))).
Proof.
  assert (forall n p o, rd mem n (ptr_off p 0) o = rd mem n p o) as Hrd.
  { intros n p o. unfold rd. f_equal. apply map_ext. intros i. do 2 f_equal.
    unfold ptr_off, as_u64, wrap. rewrite <- !Z.add_assoc, Zplus_mod_idemp_l. f_equal. lia. }
  induction k as [|k IH]; intros [|fuel] d t Hk Hne Hnull; try lia; cbn [scan_dynamic].
  - unfold dyn_at, rd_i64 in Hnull. cbn [d_tag] in Hnull. change (16 * Z.of_nat 0) with 0 in Hnull.
    rewrite Hrd in Hnull. unfold rd_i64. rewrite Hnull. by destruct t.
  - rewrite entries_S in *. apply Forall_cons in Hne as [Hd Hne].
    assert (entries (dyn_at d) (0 + 1) k = entries (dyn_at (ptr_off d 16)) 0 k) as E.
    { apply map_ext. intros i. unfold dyn_at. rewrite ptr_off_add.
      replace (16 + 16 * (0 + Z.of_nat i)) with (16 * (0 + 1 + Z.of_nat i)) by lia. done. }
    rewrite E in *.
    assert (dyn_at d 0 = mkDynEntry (rd_i64 mem d 0) (rd_u64 mem d 8)) as E0.
    { unfold dyn_at, rd_i64, rd_u64. change (16 * 0) with 0. by rewrite !Hrd. }
    rewrite E0 in *. cbn [d_tag] in Hd.
    destruct (Z.eqb_spec (rd_i64 mem d 0) DT_NULL); [done|].
    rewrite IH; [|lia|done|].
    + generalize (entries (dyn_at (ptr_off d 16)) 0 k) as l. intros l. cbv zeta.
      unfold tag_addr. rewrite !last_of_cons. cbn [d_tag d_val].
      destruct (Z.eqb_spec (rd_i64 mem d 0) DT_STRTAB) as [->|]; [|
        destruct (Z.eqb_spec (rd_i64 mem d 0) DT_SYMTAB) as [->|]; [|
          destruct (Z.eqb_spec (rd_i64 mem d 0) DT_HASH) as [->|]]];
        cbn [strtab symtab hash]; do 2 f_equal; by destruct (last_of _ l).
    + rewrite <- Hnull. unfold dyn_at. rewrite ptr_off_add. do 3 f_equal; do 2 f_equal; lia.
Qed.

Lemma scan_symbols_spec bias symtab strtab n : forall i,
  scan_symbols mem n i base bias symtab strtab =
  symbol_addr bias strtab (entries (sym_at symtab) i n).
Proof.
  induction n as [|n IH]; intros i; [done|]. cbn [scan_symbols].
  rewrite !IH, entries_S. unfold symbol_addr. rewrite first_of_cons.
  unfold exports at 3. unfold sym_at at 3 4 5 6. cbn [st_name st_value].
  rewrite cstr_eq_spec; [|unfold SYMBOL; destruct arch; repeat constructor; done].
  destruct (rd_u32 mem _ 0 =? 0); [done|]. destruct (rd_u64 mem _ 8 =? 0); [done|].
  cbn [orb negb andb]. by destruct (bool_decide _).
Qed.
End VdsoSpec.

(** The offset of the last program header is one. *)
Definition phdrs_fit (mem : Z -> Z) (base : Z) : bool :=
  rd_u64 mem base 32 + (rd_u16 mem base 56 - 1) * rd_u16 mem base 54 <? 2 ^ 64.

(** [C19] [lookup] finds what the image's tables say, and nothing else: on an
    image whose header is the target's, it takes the load bias from the first
    [PT_LOAD], the dynamic table from the last [PT_DYNAMIC], each of the three
    table addresses from the last entry with its tag before [DT_NULL], and
    answers the relocated value of the first named, defined symbol whose C string
    is exactly the target's clock entry; on any other image it answers [None].
    Fuel for the [k] entries of a dynamic table that ends is enough.  It panics
    exactly when the header is the target's and places a program header at an
    offset past [2^64], where the addition overflows. *)
Theorem lookup_correct `{Target} (mem : Z -> Z) (base : Z) (k fuel : nat) :
  (header_ok mem base = true -> dynamic_length mem base k) -> (k < fuel)%nat ->
  lookup mem fuel base =
    if header_ok mem base && negb (phdrs_fit mem base) then Panic else Ret (entry_spec mem base k).
Proof.
  unfold lookup, entry_spec, header_ok. intros Hok Hk.
  destruct (rd_u32 mem base 0 =? ELF_MAGIC); [|done].
  destruct (rd_u8 mem (ptr_off base 4) =? 2); [|done].
  destruct (rd_u16 mem base 18 =? E_MACHINE); [|done]. cbn [negb andb].
  destruct (Z.ltb_spec (rd_u16 mem base 54) 56); [done|]. cbn [negb andb].
  pose proof (Hok eq_refl) as Hd. unfold dynamic_length in Hd.
  pose proof (rd_range mem 2 base 56 : _ <= rd_u16 mem base 56 < _) as [H56 _].
  pose proof (rd_range mem 8 base 32 : _ <= rd_u64 mem base 32 < 2 ^ 64) as [_ H32].
  unfold phdrs_fit. destruct (Z.ltb_spec (rd_u64 mem base 32 + (rd_u16 mem base 56 - 1) * rd_u16 mem base 54)
    (2 ^ 64)) as [Hfit|Hfit]; cbn [negb].
  2: { rewrite scan_phdrs_overflow; [done|lia|lia| |rewrite Z2Nat.id by lia; lia].
       destruct (decide (rd_u16 mem base 56 = 0)) as [E|]; [|lia]. rewrite E in Hfit. lia. }
  rewrite scan_phdrs_spec by (rewrite ?Z2Nat.id by lia; lia). cbv zeta. cbn [bind orelse].
  fold (image_phdrs mem base).
  destruct (load_bias (image_phdrs mem base)) as [bias|]; [|by destruct (dynamic_addr _ _)].
  destruct (dynamic_addr base (image_phdrs mem base)) as [d|]; [|done].
  destruct (Hd d eq_refl) as [Hne Hnull]. cbn [orelse mbind option_bind].
  rewrite (scan_dynamic_spec mem base bias k fuel d) by done. cbv zeta.
  cbn [bind Vdso.strtab Vdso.symtab Vdso.hash].
  generalize (entries (dyn_at mem d) 0 k) as l. intros l.
  destruct (tag_addr base bias DT_STRTAB l) as [strtab|]; [|done]. cbn [orelse option_bind mbind].
  destruct (tag_addr base bias DT_SYMTAB l) as [symtab|]; [|done]. cbn [orelse option_bind mbind].
  destruct (tag_addr base bias DT_HASH l) as [hash|]; [|done]. cbn [orelse option_bind mbind].
  by rewrite scan_symbols_spec.
Qed.

(** ** An image *)

Definition at_offset (l : list (nat * list Z)) : list Z :=
  fold_left (fun img '(off, b) => take off (img ++ replicate off 0) ++ b ++ drop (off + length b) img)
    l [].

(** Header, [PT_LOAD] and [PT_DYNAMIC] at 64, the dynamic table at 176, the hash
    header at 240, two symbols at 248, their names at 296; linked at address
    0x1000 and mapped at 0x7f0000. *)
Definition image : list Z := at_offset [
  (0%nat, 127 :: str "ELF" ++ [2]); (18%nat, le_enc 2 62); (32%nat, le_enc 8 64);
  (54%nat, le_enc 2 56); (56%nat, le_enc 2 2);
  (64%nat, le_enc 4 PT_LOAD); (72%nat, le_enc 8 0 ++ le_enc 8 0x1000);
  (120%nat, le_enc 4 PT_DYNAMIC); (128%nat, le_enc 8 176);
  (176%nat, le_enc 8 DT_STRTAB ++ le_enc 8 (0x1000 + 296) ++
            le_enc 8 DT_SYMTAB ++ le_enc 8 (0x1000 + 248) ++
            le_enc 8 DT_HASH ++ le_enc 8 (0x1000 + 240) ++ le_enc 8 DT_NULL);
  (240%nat, le_enc 4 1 ++ le_enc 4 2);
  (272%nat, le_enc 4 1); (280%nat, le_enc 8 (0x1000 + 0x800));
  (296%nat, 0 :: str "__vdso_clock_gettime" ++ [0]) ].
Definition image_base : Z := 0x7f0000.
Definition image_mem (a : Z) : Z := nth (Z.to_nat (a - image_base)) image 0.

Lemma lookup_correct_witness :
  lookup (H := X86_64) image_mem 4 image_base = Ret (Some (image_base + 0x800)).
Proof.
  rewrite (@lookup_correct X86_64 image_mem image_base 3 4).
  - vm_compute. reflexivity.
  - intros _. intros d Hd. vm_compute in Hd. injection Hd as <-.
    split; [|vm_compute; reflexivity]. repeat constructor; vm_compute; discriminate.
  - lia.
Defined.
