(* ===== verification/Abi.v ===== *)
(** The layouts of the structures shared with the kernel: for every [repr(C)]
    structure of the crate a table written from the kernel's headers (each field,
    its type and its byte offset), and the proof that the structure the source
    declares has exactly that layout under Rust's [repr(C)] algorithm. *)

From stdpp Require Import base list option numbers.
From Stdlib Require Import ZArith Lia.
From S2P Require Import Prelude Prog Layout Asm Arch Trampoline Fd Vdso Time Misc Wait Events Fs.
From S2P Require Import Process Signal Socket Ptrace Termios Tty.

(** A line of a table: a field of type [fl_type], at byte [fl_off], whose value
    the record [a] holds as [fl_get a]. *)
Record Field (A : Type) := field { fl_off : nat; fl_type : Fld; fl_get : A -> Val }.
Arguments field {A} _ _ _.
Arguments fl_off {A} _.
Arguments fl_type {A} _.
Arguments fl_get {A} _ _.

Definition int_at {A} (o : nat) (ty : Fld) (get : A -> Z) : Field A := field o ty (fun a => VI (get a)).
Definition arr_at {A} (o : nat) (ty : Fld) (get : A -> list Z) : Field A :=
  field o ty (fun a => VA (get a)).

(** The bytes of memory [b] the field occupies. *)
Definition slice {A} (fl : Field A) (b : list Z) : list Z := take (f_size (fl_type fl)) (drop (fl_off fl) b).

(** [A] occupies [size] bytes; writing one puts each field of the table, and no
    other, in little-endian order at its offset; whatever bytes are in memory,
    reading them as an [A] takes each field from there, with its width and
    signedness; and what was written is read back whole. *)
Definition abi (A : Type) `{KStruct A} (size : nat) (table : list (Field A)) : Prop :=
  length table = length (ks_fields (A := A)) /\
  (forall a : A, well_typed a ->
     length (encode a) = size /\ bytes_ok (encode a) /\
     Forall (fun fl => slice fl (encode a) = f_enc (fl_type fl) (fl_get fl a)) table /\
     decode (encode a) = a) /\
  (forall b, bytes_ok b -> length b = size ->
     well_typed (decode b : A) /\
     Forall (fun fl => fl_get fl (decode b) = f_dec (fl_type fl) (slice fl b)) table).

(** The [i]-th field the source declares is the table's [fl]. *)
Definition declares `{KStruct A} (i : nat) (fl : Field A) : Prop :=
  ks_fields !! i = Some (fl_type fl) /\
  offsets ks_packed 0 ks_fields !! i = Some (fl_off fl) /\
  forall a : A, ks_vals a !! i = Some (fl_get fl a).

Fixpoint declares_all `{KStruct A} (i : nat) (table : list (Field A)) : Prop :=
  match table with
  | [] => True
  | fl :: table => declares i fl /\ declares_all (S i) table
  end.

Lemma declares_all_Forall `{KStruct A} i table :
  declares_all i table -> Forall (fun fl => exists j, declares (A := A) j fl) table.
Proof.
  revert i; induction table as [|fl table IH]; intros i Ht; constructor; destruct Ht; eauto.
Qed.

(** ** Where the algorithm puts the [i]-th field *)

Lemma offsets_ge p off fs i o : offsets p off fs !! i = Some o -> (off <= o)%nat.
Proof.
  revert off i; induction fs as [|f fs IH]; intros off [|i] E; simplify_eq/=; [lia|].
  apply IH in E. lia.
Qed.

Lemma enc_go_slice p off fs vs rest i f o v :
  Forall2 fits fs vs -> fs !! i = Some f -> offsets p off fs !! i = Some o -> vs !! i = Some v ->
  take (f_size f) (drop (o - off) (enc_go p off fs vs ++ rest)) = f_enc f v.
Proof.
  intros Hf; revert off i; induction Hf as [|f' v' fs vs Hv Hf IH]; intros off [|i] E1 E2 E3;
    simplify_eq/=; rewrite <- !app_assoc.
  - replace (off + _ - off)%nat with (length (replicate (fld_pad p f off) 0))
      by (rewrite length_replicate; lia).
    rewrite drop_app_length, take_app_length' by (by rewrite f_enc_length). done.
  - pose proof (offsets_ge _ _ _ _ _ E2) as Ho.
    rewrite drop_app_ge by (rewrite length_replicate; lia).
    rewrite drop_app_ge by (rewrite f_enc_length, length_replicate by done; lia).
    rewrite f_enc_length, length_replicate by done.
    rewrite <- (IH _ _ E1 E2 E3). do 2 f_equal. lia.
Qed.

Lemma dec_go_lookup p off fs b i f o :
  fs !! i = Some f -> offsets p off fs !! i = Some o ->
  dec_go p off fs b !! i = Some (f_dec f (take (f_size f) (drop (o - off) b))).
Proof.
  revert off i b; induction fs as [|f' fs IH]; intros off [|i] b E1 E2; simplify_eq/=.
  - do 4 f_equal. lia.
  - pose proof (offsets_ge _ _ _ _ _ E2) as Ho. rewrite (IH _ _ _ E1 E2), !drop_drop.
    do 4 f_equal. lia.
Qed.

Lemma declares_encode `{KStruct A} i fl (a : A) :
  declares i fl -> well_typed a -> slice fl (encode a) = f_enc (fl_type fl) (fl_get fl a).
Proof.
  intros (Et & Eo & Eg) Ha. unfold slice, encode.
  eapply (enc_go_slice _ 0) in Eo; [|exact Ha|exact Et|exact (Eg a)].
  rewrite Nat.sub_0_r in Eo. exact Eo.
Qed.

Lemma declares_decode `{KStruct A} i fl b :
  declares (A := A) i fl -> bytes_ok b -> length b = size_of A ->
  fl_get fl (decode b : A) = f_dec (fl_type fl) (slice fl b).
Proof.
  intros (Et & Eo & Eg) Hb Hl. specialize (Eg (decode b)).
  unfold decode in Eg. rewrite ks_vals_of in Eg by (by apply dec_go_well_typed).
  rewrite (dec_go_lookup _ _ _ _ _ _ _ Et Eo), Nat.sub_0_r in Eg. by simplify_eq.
Qed.

Lemma abi_intro (A : Type) `{KStruct A} size table :
  size_of A = size -> length table = length (ks_fields (A := A)) -> declares_all (A := A) 0 table ->
  abi A size table.
Proof.
  intros <- Hl Ht%declares_all_Forall. split; [done|]. split.
  - intros a Ha. split; [by apply encode_length|]. split; [apply encode_bytes|].
    split; [|by apply decode_encode].
    revert Ht. apply Forall_impl. intros fl [j Hj]. by eapply declares_encode.
  - intros b Hb Hn. split; [by apply decode_well_typed|].
    revert Ht. apply Forall_impl. intros fl [j Hj]. by eapply declares_decode.
Qed.

(** ** The tables *)

Definition Timespec_abi : list (Field Timespec) :=
  [int_at 0 i64 Time.tv_sec; int_at 8 i64 tv_nsec].

Definition Itimerspec_abi : list (Field Itimerspec) :=
  [int_at 0 i64 it_interval_sec; int_at 8 i64 it_interval_nsec; int_at 16 i64 it_value_sec;
   int_at 24 i64 it_value_nsec].

Definition Timeval_abi : list (Field Timeval) :=
  [int_at 0 i64 Wait.tv_sec; int_at 8 i64 tv_usec].

Definition Rusage_abi : list (Field Rusage) :=
  [int_at 0 i64 utime_sec; int_at 8 i64 utime_usec; int_at 16 i64 stime_sec; int_at 24 i64 stime_usec;
   int_at 32 i64 maxrss; int_at 40 i64 ixrss; int_at 48 i64 idrss; int_at 56 i64 isrss; int_at 64 i64 minflt;
   int_at 72 i64 majflt; int_at 80 i64 nswap; int_at 88 i64 inblock; int_at 96 i64 oublock;
   int_at 104 i64 msgsnd; int_at 112 i64 msgrcv; int_at 120 i64 nsignals; int_at 128 i64 nvcsw;
   int_at 136 i64 nivcsw].

Definition Siginfo_abi : list (Field Siginfo) :=
  [int_at 0 i32 si_signo; int_at 4 i32 si_errno; int_at 8 i32 si_code; int_at 12 i32 si_pad0;
   int_at 16 i32 si_pid; int_at 20 u32 si_uid; int_at 24 i32 si_status; arr_at 28 (FArr 1 100) Wait.si_pad].

Definition PollFd_abi : list (Field PollFd) :=
  [int_at 0 i32 pfd_fd; int_at 4 i16 events; int_at 6 i16 revents].

Definition PollTimespec_abi : list (Field PollTimespec) :=
  [int_at 0 i64 pts_sec; int_at 8 i64 pts_nsec].

Definition IoVec_abi : list (Field IoVec) :=
  [int_at 0 u64 iov_base; int_at 8 u64 iov_len].

Definition StatxTimestamp_abi : list (Field StatxTimestamp) :=
  [int_at 0 i64 sxt_sec; int_at 8 u32 sxt_nsec; int_at 12 i32 sxt_reserved].

Definition Statx_abi : list (Field Statx) :=
  [int_at 0 u32 stx_mask; int_at 4 u32 stx_blksize; int_at 8 u64 stx_attributes; int_at 16 u32 stx_nlink;
   int_at 20 u32 stx_uid; int_at 24 u32 stx_gid; int_at 28 u16 stx_mode; int_at 30 u16 stx_spare0;
   int_at 32 u64 stx_ino; int_at 40 u64 stx_size; int_at 48 u64 stx_blocks; int_at 56 u64 stx_attributes_mask;
   int_at 64 i64 stx_atime_sec; int_at 72 u32 stx_atime_nsec; int_at 76 i32 stx_atime_reserved;
   int_at 80 i64 stx_btime_sec; int_at 88 u32 stx_btime_nsec; int_at 92 i32 stx_btime_reserved;
   int_at 96 i64 stx_ctime_sec; int_at 104 u32 stx_ctime_nsec; int_at 108 i32 stx_ctime_reserved;
   int_at 112 i64 stx_mtime_sec; int_at 120 u32 stx_mtime_nsec; int_at 124 i32 stx_mtime_reserved;
   int_at 128 u32 stx_rdev_major; int_at 132 u32 stx_rdev_minor; int_at 136 u32 stx_dev_major;
   int_at 140 u32 stx_dev_minor; int_at 144 u64 stx_mnt_id; int_at 152 u32 stx_dio_mem_align;
   int_at 156 u32 stx_dio_offset_align; arr_at 160 (FArr 8 12) stx_spare3].

Definition Rlimit_abi : list (Field Rlimit) :=
  [int_at 0 u64 rlim_cur; int_at 8 u64 rlim_max].

Definition Sysinfo_abi : list (Field Sysinfo) :=
  [int_at 0 i64 uptime; arr_at 8 (FArr 8 3) loads; int_at 32 u64 totalram; int_at 40 u64 freeram;
   int_at 48 u64 sharedram; int_at 56 u64 bufferram; int_at 64 u64 totalswap; int_at 72 u64 freeswap;
   int_at 80 u16 procs; int_at 82 u16 Misc.si_pad; int_at 88 u64 totalhigh; int_at 96 u64 freehigh;
   int_at 104 u32 mem_unit].

Definition Utsname_abi : list (Field Utsname) :=
  [arr_at 0 (FArr 1 65) sysname; arr_at 65 (FArr 1 65) nodename; arr_at 130 (FArr 1 65) release;
   arr_at 195 (FArr 1 65) version; arr_at 260 (FArr 1 65) machine; arr_at 325 (FArr 1 65) domainname].

Definition RemoteIoVec_abi : list (Field RemoteIoVec) :=
  [int_at 0 u64 riov_base; int_at 8 u64 riov_len].

Definition Clone3Args_abi : list (Field Clone3Args) :=
  [int_at 0 u64 cl_flags; int_at 8 u64 cl_pidfd; int_at 16 u64 cl_child_tid; int_at 24 u64 cl_parent_tid;
   int_at 32 u64 cl_exit_signal; int_at 40 u64 cl_stack; int_at 48 u64 cl_stack_size; int_at 56 u64 cl_tls;
   int_at 64 u64 cl_set_tid; int_at 72 u64 cl_set_tid_size; int_at 80 u64 cl_cgroup].

Definition Redirect_abi : list (Field Redirect) :=
  [int_at 0 i32 oldfd; int_at 4 i32 newfd].

Definition RegSetIoVec_abi : list (Field RegSetIoVec) :=
  [int_at 0 u64 rs_base; int_at 8 u64 rs_len].

Definition GpRegsX86_abi : list (Field GpRegsX86) :=
  [int_at 0 u64 r15; int_at 8 u64 r14; int_at 16 u64 r13; int_at 24 u64 r12; int_at 32 u64 rbp;
   int_at 40 u64 rbx; int_at 48 u64 r11; int_at 56 u64 r10; int_at 64 u64 r9; int_at 72 u64 r8;
   int_at 80 u64 rax; int_at 88 u64 rcx; int_at 96 u64 rdx; int_at 104 u64 rsi; int_at 112 u64 rdi;
   int_at 120 u64 r_orig_rax; int_at 128 u64 rip; int_at 136 u64 r_cs; int_at 144 u64 r_eflags;
   int_at 152 u64 rsp; int_at 160 u64 r_ss; int_at 168 u64 r_fs_base; int_at 176 u64 r_gs_base;
   int_at 184 u64 r_ds; int_at 192 u64 r_es; int_at 200 u64 r_fs; int_at 208 u64 r_gs].

Definition GpRegsA64_abi : list (Field GpRegsA64) :=
  [arr_at 0 (FArr 8 31) a_xs; int_at 248 u64 a_sp; int_at 256 u64 a_pc; int_at 264 u64 a_pstate].

Definition KernelSigaction_abi : list (Field KernelSigaction) :=
  [int_at 0 u64 sa_handler; int_at 8 u64 sa_flags; int_at 16 u64 sa_restorer; int_at 24 u64 sa_mask].

Definition SignalfdSiginfo_abi : list (Field SignalfdSiginfo) :=
  [int_at 0 u32 ssi_signo; int_at 4 i32 ssi_errno; int_at 8 i32 ssi_code; int_at 12 u32 ssi_pid;
   int_at 16 u32 ssi_uid; int_at 20 i32 ssi_fd; int_at 24 u32 ssi_tid; int_at 28 u32 ssi_band;
   int_at 32 u32 ssi_overrun; int_at 36 u32 ssi_trapno; int_at 40 i32 ssi_status; int_at 44 i32 ssi_int;
   int_at 48 u64 ssi_ptr; int_at 56 u64 ssi_utime; int_at 64 u64 ssi_stime; int_at 72 u64 ssi_addr;
   int_at 80 u16 ssi_addr_lsb; int_at 82 u16 ssi_pad2; int_at 84 i32 ssi_syscall; int_at 88 u64 ssi_call_addr;
   int_at 96 u32 ssi_arch; arr_at 100 (FArr 1 28) ssi_pad].

Definition SigqueueInfo_abi : list (Field SigqueueInfo) :=
  [int_at 0 i32 sq_signo; int_at 4 i32 sq_errno; int_at 8 i32 sq_code; int_at 12 i32 sq_pad0;
   int_at 16 i32 sq_pid; int_at 20 u32 sq_uid; int_at 24 u64 sq_value; arr_at 32 (FArr 1 96) sq_pad].

Definition SockAddrIn_abi : list (Field SockAddrIn) :=
  [int_at 0 u16 sin_family; int_at 2 u16 sin_port; arr_at 4 (FArr 1 4) sin_addr; arr_at 8 (FArr 1 8) sin_zero].

Definition SockAddrIn6_abi : list (Field SockAddrIn6) :=
  [int_at 0 u16 sin6_family; int_at 2 u16 sin6_port; int_at 4 u32 sin6_flowinfo; arr_at 8 (FArr 1 16) sin6_addr;
   int_at 24 u32 sin6_scope_id].

Definition Termios_abi : list (Field Termios) :=
  [int_at 0 u32 c_iflag; int_at 4 u32 c_oflag; int_at 8 u32 c_cflag; int_at 12 u32 c_lflag; int_at 16 u8 c_line;
   arr_at 17 (FArr 1 19) c_cc].

Definition Winsize_abi : list (Field Winsize) :=
  [int_at 0 u16 ws_row; int_at 2 u16 ws_col; int_at 4 u16 ws_xpixel; int_at 6 u16 ws_ypixel].

(** The kernel's [__EPOLL_PACKED]: on x86_64 only. *)
Definition EpollEvent_x86_abi : list (Field EpollEvent) := [int_at 0 u32 ep_events; int_at 4 u64 ep_data].

Definition EpollEvent_a64_abi : list (Field EpollEvent) := [int_at 0 u32 ep_events; int_at 8 u64 ep_data].

(** [C37] Every [repr(C)] structure of the crate has the kernel's layout, on both
    targets, [EpollEvent] differing between them: its size, and for each of its
    fields the offset, width and signedness of the tables above, so that writing the
    structure puts that field's value, and no other's, in those bytes, and reading
    memory the kernel has filled takes the field from those bytes; a well-typed value
    written to memory is read back unchanged. *)
Theorem abi_layout :
  abi Timespec 16 Timespec_abi /\ abi Itimerspec 32 Itimerspec_abi /\ abi Timeval 16 Timeval_abi /\
  abi Rusage 144 Rusage_abi /\ abi Siginfo 128 Siginfo_abi /\ abi PollFd 8 PollFd_abi /\
  abi PollTimespec 16 PollTimespec_abi /\ abi IoVec 16 IoVec_abi /\
  abi StatxTimestamp 16 StatxTimestamp_abi /\ abi Statx 256 Statx_abi /\ abi Rlimit 16 Rlimit_abi /\
  abi Sysinfo 112 Sysinfo_abi /\ abi Utsname 390 Utsname_abi /\ abi RemoteIoVec 16 RemoteIoVec_abi /\
  abi Clone3Args 88 Clone3Args_abi /\ abi Redirect 8 Redirect_abi /\ abi RegSetIoVec 16 RegSetIoVec_abi /\
  abi GpRegsX86 216 GpRegsX86_abi /\ abi GpRegsA64 272 GpRegsA64_abi /\
  abi KernelSigaction 32 KernelSigaction_abi /\ abi SignalfdSiginfo 128 SignalfdSiginfo_abi /\
  abi SigqueueInfo 128 SigqueueInfo_abi /\ abi SockAddrIn 16 SockAddrIn_abi /\
  abi SockAddrIn6 28 SockAddrIn6_abi /\ abi Termios 36 Termios_abi /\ abi Winsize 8 Winsize_abi /\
  @abi EpollEvent (@EpollEvent_kstruct X86_64) 12 EpollEvent_x86_abi /\
  @abi EpollEvent (@EpollEvent_kstruct Aarch64) 16 EpollEvent_a64_abi.
Proof. split_and!; apply abi_intro; try (vm_compute; reflexivity); repeat (split; try reflexivity). Qed.
