(* ===== verification/SpawnSpec.v ===== *)
(** Spawning: what the trampolines do to the child's descriptor table, against
    the interface of a kernel that keeps one. *)

From stdpp Require Import base list option numbers gmap.
From Stdlib Require Import ZArith Lia.
From S2P Require Import Prelude Prog Layout Asm Arch Trampoline.

(** ** The interface *)

(** [dup2(old, new)] of two different descriptors, on the open files behind the
    descriptors [t]: it fails ([EBADF]) when [old] is closed or [new] is not below
    the limit on descriptors ([RLIMIT_NOFILE]) or is negative. *)
Definition dup_onto (limit : Z) (t : gmap Z Z) (r : Redirect) : option (gmap Z Z) :=
  match t !! oldfd r with
  | Some file => if (0 <=? newfd r) && (newfd r <? limit) then Some (<[newfd r := file]> t) else None
  | None => None
  end.

(** The child's side of the kernel: [clone] answers 0, the redirect call [dup]
    with different descriptors does what [dup_onto] says, with an error reply and
    nothing changed where it fails, [execve] and [exit_group] do not come back.
    [fds] maps a descriptor to the open file behind it, [fd_limit] is the limit. *)
Class ChildKernel `{Target} (K : Kernel) (dup : Redirect -> Call) := {
  fds : kst K -> gmap Z Z;
  fd_limit : Z;
  child_clone : forall args s, exists r s',
    kstep K (Syscall (nrz CLONE) args) s = (Some r, s') /\ as_u64 (r_ret r) = 0 /\ fds s' = fds s;
  child_dup : forall r s, well_typed r -> oldfd r <> newfd r -> exists rep s',
    kstep K (dup r) s = (Some rep, s') /\
    match dup_onto fd_limit (fds s) r with
    | Some t => 0 <= as_isize (as_u64 (r_ret rep)) /\ fds s' = t
    | None => as_isize (as_u64 (r_ret rep)) < 0 /\ fds s' = fds s
    end;
  child_execve : forall args s, exists s',
    kstep K (Syscall (nrz EXECVE) args) s = (None, s') /\ fds s' = fds s;
  child_exit : forall args s, exists s',
    kstep K (Syscall (nrz EXIT_GROUP) args) s = (None, s') /\ fds s' = fds s }.

(** The table after the redirects, in order, as [posix_spawn] file actions
    specify it; [None] when one cannot be done. *)
Fixpoint redirected (limit : Z) (t : gmap Z Z) (rs : list Redirect) : option (gmap Z Z) :=
  match rs with
  | [] => Some t
  | r :: rs =>
      if oldfd r =? newfd r then redirected limit t rs
      else match dup_onto limit t r with
           | Some t' => redirected limit t' rs
           | None => None
           end
  end.

Section Child.
Context `{Target} (K : Kernel) (dup : Redirect -> Call) `{!ChildKernel K dup}.
Context (path argv envp : Arg).

(** The child's last call, and the table it leaves. *)
Definition child_ends (t0 : gmap Z Z) (rs : list Redirect) (res : Outcome Reply * Trace * kst K) : Prop :=
  res.1.1 = Gone /\
  match redirected fd_limit t0 rs with
  | Some t => last res.1.2 = Some (Syscall (nrz EXECVE) [path; argv; envp], None) /\ fds res.2 = t
  | None => last res.1.2 = Some (Syscall (nrz EXIT_GROUP) [AInt 126], None)
  end.

Lemma run_exec s : exists s',
  run K (exec_or_exit path argv envp) s =
    (Gone, [(Syscall (nrz EXECVE) [path; argv; envp], None)], s') /\ fds s' = fds s.
Proof.
  destruct (child_execve [path; argv; envp] s) as (s' & E & Hs). exists s'.
  unfold exec_or_exit. cbn [run]. by rewrite E.
Qed.

Lemma run_exit code s : exists s',
  run K (exit_with code) s = (Gone, [(Syscall (nrz EXIT_GROUP) [AInt code], None)], s').
Proof.
  destruct (child_exit [AInt code] s) as (s' & E & _). exists s'.
  unfold exit_with. cbn [run]. by rewrite E.
Qed.

Lemma child_redirects rs : forall s,
  Forall well_typed rs ->
  child_ends (fds s) rs (run K (apply_redirects dup rs (exec_or_exit path argv envp)) s).
Proof.
  induction rs as [|r rs IH]; intros s Hrs; cbn [apply_redirects].
  - destruct (run_exec s) as (s' & -> & Hs). by split.
  - apply Forall_cons in Hrs as [Hr Hrs]. unfold child_ends. cbn [redirected].
    destruct (Z.eqb_spec (oldfd r) (newfd r)) as [|Hne]; [by apply IH|]. cbn [run].
    destruct (child_dup r s Hr Hne) as (rep & s1 & -> & Hd). cbn [r_ret conform].
    destruct (dup_onto fd_limit (fds s) r) as [t1|]; destruct Hd as [Hret Hs].
    + destruct (Z.ltb_spec (as_isize (as_u64 (r_ret rep))) 0); [lia|].
      specialize (IH s1 Hrs). rewrite Hs in IH. unfold child_ends in IH.
      destruct (run K _ s1) as [[o t] s2]. cbn [fst snd] in *. destruct IH as [-> IH].
      split; [done|].
      destruct (redirected _ _ rs); [destruct IH as [IH ?]; split; [|done]|];
        by destruct t as [|x t].
    + destruct (Z.ltb_spec (as_isize (as_u64 (r_ret rep))) 0); [|lia].
      by destruct (run_exit 126 s1) as (s2 & ->).
Qed.

Lemma child_spawn flags rs s :
  Forall well_typed rs ->
  child_ends (fds s) rs (run K (spawn_spec dup flags path argv envp rs) s).
Proof.
  intros Hrs. unfold spawn_spec. cbn [run].
  destruct (child_clone [flags; AInt 0; AInt 0; AInt 0; AInt 0] s) as (r & s1 & -> & Hr & Hs).
  cbn [r_ret conform]. rewrite Hr, Z.eqb_refl.
  pose proof (child_redirects rs s1 Hrs) as Hc. rewrite Hs in Hc. unfold child_ends in *.
  destruct (run K _ s1) as [[o t] s2]. cbn [fst snd] in *. destruct Hc as [-> Hc].
  split; [done|].
  destruct (redirected _ _ rs); [destruct Hc as [Hc ?]; split; [|done]|]; by destruct t as [|x t].
Qed.
End Child.

(** ** A concrete table *)

(** The calls the child makes, on either target. *)
Definition table_step (H : Target) (limit : Z) (c : Call) (t : gmap Z Z) : option Reply * gmap Z Z :=
  match c with
  | Syscall n args =>
      if n =? nrz CLONE then (Some (mkReply 0 []), t)
      else if (n =? nrz EXECVE) || (n =? nrz EXIT_GROUP) then (None, t)
      else match args with
           | AInt old :: AInt new :: _ =>
               if (n =? nrz DUP3) && (as_i32 old =? as_i32 new) then (Some (mkReply (2 ^ 64 - 22) []), t)
               else match dup_onto limit t (mkRedirect (as_i32 old) (as_i32 new)) with
               | Some t' => (Some (mkReply (as_u32 new) []), t')
               | None => (Some (mkReply (2 ^ 64 - 9) []), t)
               end
           | _ => (Some (mkReply (2 ^ 64 - 22) []), t)
           end
  | CallFn _ _ => (None, t)
  end.
Definition table_kernel (H : Target) (limit : Z) : Kernel := mkKernel (gmap Z Z) (table_step H limit).

Lemma nr_distinct (H : Target) :
  (nrz EXECVE =? nrz CLONE) = false /\ (nrz EXIT_GROUP =? nrz CLONE) = false /\
  (forall n, n = nrz DUP2 \/ n = nrz DUP3 ->
     (n =? nrz CLONE) = false /\ (n =? nrz EXECVE) || (n =? nrz EXIT_GROUP) = false).
Proof.
  unfold nrz, nr_table. destruct arch; (split_and!; [done|done|]); by intros n [->| ->].
Qed.

Lemma as_i32_low_u32 z : is_i32 z -> as_i32 (as_u32 z) = z.
Proof.
  intros. unfold as_i32, as_u32. rewrite swrap_of_wrap by lia. apply swrap_small; int_ranges; lia.
Qed.
Lemma as_i32_low_u64 z : is_i32 z -> as_i32 (as_u64 z) = z.
Proof.
  intros. unfold as_i32, as_u64. rewrite swrap_of_wrap by lia. apply swrap_small; int_ranges; lia.
Qed.
Lemma small_ret z : 0 <= as_isize (as_u64 (as_u32 z)).
Proof.
  assert (0 <= as_u32 z < 2 ^ 32) as Hz by (apply (wrap_range 32); lia).
  unfold as_isize, as_u64. rewrite swrap_of_wrap by lia. rewrite swrap_small; lia.
Qed.

(** The redirect call of either target, on the table. *)
Lemma table_dup (H : Target) (dup : Redirect -> Call) limit n low rest r t :
  dup r = Syscall n (AInt (low (oldfd r)) :: AInt (low (newfd r)) :: rest) ->
  n = nrz DUP2 \/ n = nrz DUP3 -> (forall z, is_i32 z -> as_i32 (low z) = z) ->
  well_typed r -> oldfd r <> newfd r ->
  exists rep t', table_step H limit (dup r) t = (Some rep, t') /\
    match dup_onto limit t r with
    | Some t1 => 0 <= as_isize (as_u64 (r_ret rep)) /\ t' = t1
    | None => as_isize (as_u64 (r_ret rep)) < 0 /\ t' = t
    end.
Proof.
  intros E Hn Hlow Hr Hne. destruct (redirect_i32 r Hr) as [Ho Hnew].
  destruct (nr_distinct H) as (_ & _ & Hd). destruct (Hd n Hn) as [E1 E2].
  rewrite E. unfold table_step. rewrite E1, E2, !Hlow by done.
  apply Z.eqb_neq in Hne. rewrite Hne, andb_false_r.
  destruct r as [old new]. cbn [oldfd newfd] in *.
  destruct (dup_onto limit t _); do 2 eexists; split; try reflexivity; (split; [|done]).
  - apply small_ret.
  - done.
Qed.

Lemma table_child (H : Target) (dup : Redirect -> Call) limit :
  (forall r t, well_typed r -> oldfd r <> newfd r -> exists rep t', table_step H limit (dup r) t = (Some rep, t') /\
    match dup_onto limit t r with
    | Some t1 => 0 <= as_isize (as_u64 (r_ret rep)) /\ t' = t1
    | None => as_isize (as_u64 (r_ret rep)) < 0 /\ t' = t
    end) -> ChildKernel (table_kernel H limit) dup.
Proof.
  intros Hdup. refine {| fds := fun t : kst (table_kernel H limit) => t; fd_limit := limit |}.
  - intros args s. exists (mkReply 0 []), s. split; [|split; reflexivity].
    simpl. by rewrite Z.eqb_refl.
  - intros r s Hr Hne. apply (Hdup r s Hr Hne).
  - intros args s. exists s. simpl. destruct (nr_distinct H) as (E1 & _ & _). by rewrite E1, Z.eqb_refl.
  - intros args s. exists s. simpl. destruct (nr_distinct H) as (_ & E2 & _). by rewrite E2, Z.eqb_refl, orb_true_r.
Defined.

#[export] Instance table_child_a64 limit : ChildKernel (H := Aarch64) (table_kernel Aarch64 limit)
  (a64_dup (H := Aarch64)).
Proof.
  apply table_child. intros r t.
  apply (table_dup Aarch64 _ _ (nrz (H := Aarch64) DUP3) as_u32 [AInt 0]); auto using as_i32_low_u32.
Defined.

#[export] Instance table_child_x86 limit : ChildKernel (H := X86_64) (table_kernel X86_64 limit)
  (x86_dup (H := X86_64)).
Proof.
  apply table_child. intros r t.
  apply (table_dup X86_64 _ _ (nrz (H := X86_64) DUP2) as_u64 []); auto using as_i32_low_u64.
Defined.

(** ** The trampolines on a descriptor table *)

(** [C3] On aarch64 the child of [vfork_execve_redirected] applies every
    redirect, in order, to the descriptor table it inherited and then, as its
    last call, executes the program with exactly that table; if a redirect cannot
    be done (its source is closed by then, or its target is negative or not below
    the limit on descriptors) the child exits 126 instead, without executing
    anything; a redirect of a descriptor to itself is skipped.  Against every kernel
    that keeps such a table, whatever its limit. *)
Theorem a64_child_redirected (K : Kernel)
    (HK : ChildKernel (H := Aarch64) K (a64_dup (H := Aarch64)))
    (flags path argv envp : Arg) (rs : list Redirect) (s : kst K) :
  Forall well_typed rs -> Z.of_nat (length rs) < 2 ^ 60 ->
  child_ends (H := Aarch64) K (a64_dup (H := Aarch64)) path argv envp (fds (ChildKernel := HK) s) rs
    (run K (a64_vfork_execve_redirected (H := Aarch64) flags path argv envp rs) s).
Proof.
  intros Hrs Hlen. pose proof (a64_redirected_spec flags path argv envp rs Hrs Hlen K s) as E.
  change aarch64_target with Aarch64 in E. rewrite E.
  by apply (child_spawn (H := Aarch64) K _ path argv envp flags rs s).
Qed.

(** Descriptors 0 to 2 on the terminal, 3 and 4 the ends of a pipe. *)
Definition shell_fds : gmap Z Z := list_to_map [(0, 10); (1, 10); (2, 10); (3, 20); (4, 21)].
(** [< pipe], [2>&1] after [> pipe]: standard error follows the new output. *)
Definition shell_redirects : list Redirect := [mkRedirect 3 0; mkRedirect 4 1; mkRedirect 1 2].

Lemma a64_child_redirected_witness :
  Forall well_typed shell_redirects /\
  child_ends (H := Aarch64) (table_kernel Aarch64 1024) (a64_dup (H := Aarch64)) null null null
    shell_fds shell_redirects
    (run (table_kernel Aarch64 1024)
       (a64_vfork_execve_redirected (H := Aarch64) (AInt 0x4111) null null null shell_redirects)
       shell_fds) /\
  redirected 1024 shell_fds shell_redirects =
    Some (list_to_map [(0, 20); (1, 21); (2, 21); (3, 20); (4, 21)]) /\
  redirected 1024 shell_fds [mkRedirect 3 0; mkRedirect 1 1024] = None /\
  redirected 1024 shell_fds [mkRedirect 3 (-1)] = None.
Proof.
  assert (Forall well_typed shell_redirects) as Hw by
    (repeat constructor; vm_compute; intuition congruence).
  split; [exact Hw|]. split; [|vm_compute; repeat split; reflexivity].
  apply (a64_child_redirected (table_kernel Aarch64 1024) (table_child_a64 1024) (AInt 0x4111) null null null
           shell_redirects shell_fds Hw).
  vm_compute; reflexivity.
Defined.

(** On x86_64 the child executes the program with only the redirects up to
    the first that needs a [dup2] applied: the descriptors the remaining ones
    name are left as they were inherited. *)
Theorem x86_child_redirected (K : Kernel)
    (HK : ChildKernel (H := X86_64) K (x86_dup (H := X86_64)))
    (text : nat -> Z) (flags path argv envp : Arg) (rs : list Redirect) (s : kst K) :
  Forall well_typed rs -> Z.of_nat (length rs) < 2 ^ 60 ->
  Z.of_nat (length rs) <= text 13%nat < 2 ^ 64 - 1 ->
  child_ends (H := X86_64) K (x86_dup (H := X86_64)) path argv envp (fds (ChildKernel := HK) s)
    (through_first_effective rs)
    (run K (x86_vfork_execve_redirected (H := X86_64) text flags path argv envp rs) s).
Proof.
  intros Hrs Hlen Htext.
  pose proof (x86_redirected_spec text flags path argv envp rs Hrs Hlen Htext K s) as E.
  change x86_64_target with X86_64 in E. rewrite E.
  apply (child_spawn (H := X86_64) K _ path argv envp flags _ s).
  clear -Hrs. induction Hrs as [|r rs Hr Hrs IH]; simpl; [constructor|].
  destruct (effective r); auto.
Qed.

Lemma x86_child_redirected_witness :
  Forall well_typed shell_redirects /\
  child_ends (H := X86_64) (table_kernel X86_64 1024) (x86_dup (H := X86_64)) null null null
    shell_fds [mkRedirect 3 0]
    (run (table_kernel X86_64 1024)
       (x86_vfork_execve_redirected (H := X86_64) x86_text (AInt 0x4111) null null null
          shell_redirects) shell_fds) /\
  redirected 1024 shell_fds [mkRedirect 3 0] =
    Some (list_to_map [(0, 20); (1, 10); (2, 10); (3, 20); (4, 21)]).
Proof.
  assert (Forall well_typed shell_redirects) as Hw by
    (repeat constructor; vm_compute; intuition congruence).
  split; [exact Hw|]. split; [|vm_compute; reflexivity].
  apply (x86_child_redirected (table_kernel X86_64 1024) (table_child_x86 1024) x86_text (AInt 0x4111)
           null null null shell_redirects shell_fds Hw); vm_compute; intuition congruence.
Defined.
