(* ===== verification/TtySpec.v ===== *)
(** [ttyname] and [openpty] as wholes: their paths, their branches, and that they
    never panic. *)

From stdpp Require Import base list option numbers strings.
From Stdlib Require Import ZArith Lia.
From S2P Require Import Prelude Prog Layout Asm Arch Fd Vdso Time Fs Termios Tty Safety.

(** ** [ttyname] *)

(** What the function does once the path is built. *)
Definition ttyname_spec `{Target} (fd : Z) (buf : list Z) : Prog (list Z * result (list Z)) :=
  let* tty := isatty fd in
  if tty then
    let* (buf', target) := readlinkat AT_FDCWD (fd_path fd) buf in
    Ret (buf', match target with
               | Ok t => if (length t =? length buf)%nat then Err ERANGE else Ok t
               | Err e => Err e
               end)
  else Ret (buf, Err ENOTTY).

(** [ttyname] is a link read of [/proc/self/fd/<fd>] behind a terminal test:
    [ENOTTY] for anything else, [ERANGE] when the link fills the buffer (it may
    have been cut), the kernel's error, or the whole name.  It never panics, and
    a name it returns is shorter than the buffer. *)
Theorem ttyname_correct `{Target} fd buf :
  is_i32 fd -> bytes_ok buf ->
  prog_equiv (ttyname fd buf) (ttyname_spec fd buf) /\
  ensures documented (ttyname fd buf) (fun r =>
    same_buf buf r.1 /\
    fallible (fun name => bytes_ok name /\ (length name < length buf)%nat) r.2).
Proof.
  intros Hfd Hbuf.
  pose proof (proc_fd_path_eq fd (replicate 32 0) Hfd eq_refl) as Hpath. split; [|by apply ttyname_within].
  unfold ttyname, ttyname_spec. apply bind_proper; [done|]. intros []; cbn [negb]; [|done].
  rewrite Hpath. cbn [bind]. apply bind_proper; [done|]. intros [buf' [t|e]]; [|done].
  by destruct (Nat.eqb _ _).
Qed.

Lemma ttyname_correct_witness :
  ensures (documented (H := X86_64)) (ttyname (H := X86_64) 0 (replicate 64 0)) (fun r =>
    same_buf (replicate 64 0) r.1 /\
    fallible (fun name => bytes_ok name /\ (length name < 64)%nat) r.2).
Proof.
  apply (ttyname_correct (H := X86_64) 0 (replicate 64 0)); [by split|].
  apply Forall_replicate. int_ranges. lia.
Defined.

(** ** [openpty] *)

(** The calls of a successful [openpty], in order. *)
Definition openpty_calls `{Target} (master ptn : Z) : list Call :=
  [Syscall (nrz OPENAT) [int AT_FDCWD; cstr (str "/dev/ptmx"); int O_RDWR; int 0];
   Syscall (nrz IOCTL) [int master; int TIOCSPTLCK; ARef (le_enc 4 0)];
   Syscall (nrz IOCTL) [int master; int TIOCGPTN; AMut (le_enc 4 0)];
   Syscall (nrz OPENAT) [int AT_FDCWD; cstr (pts_path ptn); int O_RDWR; int 0]].

(** [openpty] opens the master, unlocks it ([TIOCSPTLCK] with 0), asks its
    number and opens that slave, in this order and nothing else; the pair is the
    two descriptors.  It never panics: the number the kernel writes, whatever it
    is, fits the path buffer; a failure is the kernel's error. *)
Theorem openpty_correct `{Target} K s :
  match run K openpty s with
  | (Done (Ok (master, slave)), t, _) =>
      exists r1 r2 r3 r4,
        t = zip (openpty_calls master (dec_i32 (out 0 r3)))
                [Some r1; Some r2; Some r3; Some r4] /\
        from_ret_i32 (r_ret r1) = Ok master /\ from_ret_i32 (r_ret r4) = Ok slave
  | (Done (Err e), _, _) => errno_in_range e
  | (Gone, _, _) => True
  | (Panicked, _, _) | (OutOfFuel, _, _) => False
  end.
Proof.
  assert (forall ptn, format_pts_path ptn (replicate 21 0) = Ret (pts_path ptn)) as Hpath
    by (intros; by apply format_pts_path_correct).
  assert (forall c r e, from_ret (r_ret (conform c r)) = Err e -> errno_in_range e) as Herr
    by (intros c r e; apply from_ret_err_range, conform_u64).
  assert (forall c r e, from_ret_i32 (r_ret (conform c r)) = Err e -> errno_in_range e) as Herr32.
  { intros c r e. unfold from_ret_i32. destruct (from_ret _) eqn:E; [done|].
    intros [= <-]. by eapply Herr. }
  unfold openpty, open, openat, ioctl, close, bind_ok.
  repeat first
    [ progress (autorewrite with syscalls; unfold raw_call; rewrite ?Hpath;
                cbn [bind run r_ret r_outs ret_unit])
    | match goal with
      | |- context [kstep K ?c ?s] => destruct (kstep K c s) as [[?r|] ?s]; [|exact I]
      | |- context [match from_ret_i32 (r_ret (conform ?c ?r)) with _ => _ end] =>
          destruct (from_ret_i32 (r_ret (conform c r))) eqn:?
      | |- context [match from_ret (r_ret (conform ?c ?r)) with _ => _ end] =>
          destruct (from_ret (r_ret (conform c r))) eqn:?
      end ]; eauto.
  do 4 eexists. split; [reflexivity|]. done.
Qed.
