(* ===== verification/Ledger.v ===== *)
(** The descriptor ledger: which descriptors a program opened and has not closed,
    read off its trace.  The composite operations are checked against it for
    leaks, on every path. *)

From stdpp Require Import base list option numbers strings.
From Stdlib Require Import ZArith Lia.
From S2P Require Import Prelude Prog Layout Asm Arch Fd Vdso Time Fs Misc Socket Termios Tty Dns.

(** ** The ledger *)

(** Take one occurrence out. *)
Fixpoint release (fd : Z) (l : list Z) : list Z :=
  match l with
  | [] => []
  | x :: l => if x =? fd then l else x :: release fd l
  end.

(** A successful [openat] or [socket] enters its descriptor; [close] takes its
    argument out, whatever it answers (Linux frees the descriptor even then). *)
Definition ledger_step `{Target} (c : Call) (r : Reply) (l : list Z) : list Z :=
  match c with
  | Syscall n args =>
      if (n =? nrz OPENAT) || (n =? nrz SOCKET) then
        match from_ret_i32 (r_ret r) with Ok fd => fd :: l | Err _ => l end
      else if n =? nrz CLOSE then
        match args with AInt fd :: _ => release (as_i32 fd) l | _ => l end
      else l
  | CallFn _ _ => l
  end.

Fixpoint ledger `{Target} (t : Trace) (l : list Z) : list Z :=
  match t with
  | (c, Some r) :: t => ledger t (ledger_step c r l)
  | (_, None) :: t => ledger t l
  | [] => l
  end.

(** ** Reasoning about it *)

(** If [p] returns [a], starting from the ledger [l], then [Q] holds of [a] and
    the ledger it leaves. *)
Fixpoint holding `{Target} {A} (p : Prog A) (l : list Z) (Q : A -> list Z -> Prop) : Prop :=
  match p with
  | Ret a => Q a l
  | Sys c k => forall r, holding (k (conform c r)) (ledger_step c (conform c r) l) Q
  | Panic | NoFuel => True
  end.

Section Rules.
Context `{Target}.

Lemma holding_run {A} K (p : Prog A) s l Q a t s' :
  holding p l Q -> run K p s = (Done a, t, s') -> Q a (ledger t l).
Proof.
  revert s l t. induction p as [b|c k IH| |]; intros s l t Hp; simpl; try done.
  - intros [= <- <- <-]. exact Hp.
  - destruct (kstep K c s) as [[r|] s1]; [|done].
    destruct (run K (k (conform c r)) s1) as [[o t1] s2] eqn:E.
    intros [= -> <- <-]. simpl. eapply IH; [apply Hp|exact E].
Qed.

Lemma holding_mono {A} (p : Prog A) l (P Q : A -> list Z -> Prop) :
  holding p l P -> (forall a l, P a l -> Q a l) -> holding p l Q.
Proof. revert l. induction p; simpl; eauto. Qed.

Lemma holding_bind {A B} (p : Prog A) (f : A -> Prog B) l P Q :
  holding p l P -> (forall a l, P a l -> holding (f a) l Q) -> holding (bind p f) l Q.
Proof. revert l. induction p; simpl; eauto. Qed.

(** [p] leaves the ledger as it found it. *)
Definition neutral {A} (p : Prog A) : Prop := forall l, holding p l (fun _ l' => l' = l).

Lemma neutral_ret {A} (a : A) : neutral (Ret a).
Proof. by intros l. Qed.
Lemma neutral_panic {A} : neutral (@Panic A).
Proof. by intros l. Qed.
Lemma neutral_nofuel {A} : neutral (@NoFuel A).
Proof. by intros l. Qed.
Lemma neutral_or_panic {A} (o : option A) : neutral (or_panic o).
Proof. by destruct o; intros l. Qed.
Lemma neutral_usize_add a b : neutral (usize_add a b).
Proof. unfold usize_add. by destruct (_ <? _); intros l. Qed.

Lemma neutral_bind {A B} (p : Prog A) (f : A -> Prog B) :
  neutral p -> (forall a, neutral (f a)) -> neutral (bind p f).
Proof. intros Hp Hf l. eapply holding_bind; [apply Hp|]. intros a ? ->. apply Hf. Qed.

Lemma neutral_bind_ok {A B} (p : Prog (result A)) (f : A -> Prog (result B)) :
  neutral p -> (forall a, neutral (f a)) -> neutral (bind_ok p f).
Proof. intros. apply neutral_bind; [done|]. intros [a|e]; [done|apply neutral_ret]. Qed.

(** A call that neither opens nor closes. *)
Definition moves_fd (n : Z) : bool := (n =? nrz OPENAT) || (n =? nrz SOCKET) || (n =? nrz CLOSE).

Lemma neutral_raw_call n args : moves_fd n = false -> neutral (raw_call n args).
Proof.
  unfold moves_fd. intros Hn l r. simpl.
  apply orb_false_elim in Hn as [Hn ->]. by rewrite Hn.
Qed.

(** Opening enters the descriptor; closing it takes it out again. *)
Lemma open_holding path flags mode l :
  holding (open path flags mode) l (fun r l' =>
    match r with Ok fd => is_i32 fd /\ l' = fd :: l | Err _ => l' = l end).
Proof.
  unfold open, openat. rewrite syscall4_eq. intros r. cbn [bind raw_call holding].
  unfold ledger_step. rewrite Z.eqb_refl. cbn [orb r_ret].
  unfold from_ret_i32. destruct (from_ret _); simpl; [|done].
  split; [apply (swrap_range 32); lia|done].
Qed.

Lemma socket_holding domain ty protocol l :
  holding (socket domain ty protocol) l (fun r l' =>
    match r with Ok fd => is_i32 fd /\ l' = fd :: l | Err _ => l' = l end).
Proof.
  unfold socket. rewrite syscall3_eq. intros r. cbn [bind raw_call holding].
  unfold ledger_step. rewrite Z.eqb_refl, orb_true_r. cbn [r_ret].
  unfold from_ret_i32. destruct (from_ret _); simpl; [|done].
  split; [apply (swrap_range 32); lia|done].
Qed.

Lemma nr_close_only : (nrz CLOSE =? nrz OPENAT) || (nrz CLOSE =? nrz SOCKET) = false.
Proof. unfold nrz, nr_table. by destruct arch. Qed.

Lemma close_holding fd l :
  is_i32 fd -> holding (close fd) (fd :: l) (fun _ l' => l' = l).
Proof.
  intros Hfd. unfold close. rewrite syscall1_eq. intros r. cbn [bind raw_call holding].
  unfold ledger_step. rewrite nr_close_only, Z.eqb_refl. cbn [int].
  rewrite as_i32_as_usize by done. simpl. by rewrite Z.eqb_refl.
Qed.

(** Open, use, close. *)
Lemma close_after {A B} fd (p : Prog A) (f : A -> result unit -> Prog B) l Q :
  is_i32 fd -> neutral p ->
  (forall a u, holding (f a u) l Q) ->
  holding (bind p (fun a => bind (close fd) (f a))) (fd :: l) Q.
Proof.
  intros Hfd Hp Hf. eapply holding_bind; [apply Hp|]. intros a ? ->.
  eapply holding_bind; [by apply close_holding|]. intros u ? ->. apply Hf.
Qed.
End Rules.

Create HintDb ledger.
#[export] Hint Resolve neutral_ret neutral_panic neutral_nofuel neutral_or_panic
  neutral_usize_add neutral_bind neutral_bind_ok : ledger.

(** A program whose calls move no descriptor. *)
Ltac neutral :=
  repeat first
    [ progress autorewrite with syscalls
    | match goal with
      | |- neutral (bind _ _) => apply neutral_bind; [|intros]
      | |- neutral (bind_ok _ _) => apply neutral_bind_ok; [|intros]
      | |- neutral (raw_call _ _) =>
          apply neutral_raw_call; unfold moves_fd, nrz, nr_table; destruct arch; reflexivity
      | |- neutral (match ?x with _ => _ end) => destruct x
      | |- neutral (let '(_, _) := ?x in _) => destruct x
      end
    | solve [auto with ledger] ].

(** ** The composite operations *)

Section Operations.
Context `{Target}.

Lemma neutral_read fd buf : neutral (read fd buf).
Proof. unfold read. neutral. Qed.
Lemma neutral_getrandom buf flags : neutral (getrandom buf flags).
Proof. unfold getrandom. neutral. Qed.
Lemma neutral_sendto_in fd buf flags dest : neutral (sendto_in fd buf flags dest).
Proof. unfold sendto_in. neutral. Qed.
Lemma neutral_recvfrom_in fd buf flags : neutral (recvfrom_in fd buf flags).
Proof. unfold recvfrom_in. neutral. Qed.
Lemma neutral_poll fds timeout : neutral (poll fds timeout).
Proof. unfold poll, poll_x86_64, poll_aarch64. neutral. Qed.
Lemma neutral_ioctl fd request arg : neutral (ioctl fd request arg).
Proof. unfold ioctl. neutral. Qed.
#[local] Hint Resolve neutral_read neutral_getrandom neutral_sendto_in neutral_recvfrom_in
  neutral_poll neutral_ioctl : ledger.

(** ** The resolver *)

Lemma neutral_ask sock id q server : neutral (ask sock id q server).
Proof. unfold ask, at_. neutral. Qed.

Lemma neutral_ask_all sock id q servers : neutral (ask_all sock id q servers).
Proof. induction servers; simpl; neutral; auto using neutral_ask. Qed.

Lemma neutral_attempts k sock id q servers : neutral (attempts k sock id q servers).
Proof. induction k; simpl; neutral; auto using neutral_ask_all. Qed.

Lemma read_config_holding fuel f raw total l :
  is_i32 f ->
  holding (read_config fuel f raw total) (f :: l) (fun r l' =>
    match r with Ok _ => l' = f :: l | Err _ => l' = l end).
Proof.
  intros Hf. revert raw total. induction fuel as [|fuel IH]; intros raw total; simpl; [done|].
  eapply holding_bind; [apply neutral_or_panic|]. intros tail ? ->.
  eapply holding_bind; [apply neutral_read|]. intros [tail' r] ? ->.
  destruct r as [n|e].
  - eapply holding_bind; [apply neutral_usize_add|]. intros sum ? ->.
    destruct (_ || _); [done|apply IH].
  - eapply holding_bind; [by apply close_holding|]. by intros ? ? ->.
Qed.

Lemma neutral_read_nameservers : neutral read_nameservers.
Proof.
  intros l. unfold read_nameservers.
  eapply holding_bind; [apply open_holding|]. intros [f|e] l1 H1; [|done].
  destruct H1 as [Hf ->].
  eapply holding_bind; [by apply read_config_holding|]. intros [[raw total]|e] l2 H2; [subst|done].
  eapply holding_bind; [by apply close_holding|]. intros ? ? ->.
  eapply holding_bind; [apply neutral_or_panic|]. by intros ? ? ->.
Qed.

Lemma neutral_query hostname qtype : neutral (query hostname qtype).
Proof.
  unfold query. apply neutral_bind_ok; [apply neutral_read_nameservers|]. intros servers.
  apply neutral_bind; [apply neutral_getrandom|]. intros [id_buf r].
  apply neutral_bind_ok; [apply neutral_ret|]. intros _.
  destruct (build_query _ _ _ _) as [qbuf qlen].
  apply neutral_bind_ok; [apply neutral_ret|]. intros n l.
  eapply holding_bind; [apply socket_holding|]. intros [sock|e] l1 H1; [|done].
  destruct H1 as [Hs ->].
  eapply holding_bind; [apply neutral_or_panic|]. intros q ? ->.
  apply close_after; [done|apply neutral_attempts|done].
Qed.

Lemma neutral_parse_answers qtype w out buf n : neutral (parse_answers qtype w out buf n).
Proof.
  assert (forall fuel pos, neutral (skip_name fuel buf pos)) as Hskip.
  { induction fuel; intros; cbn [skip_name]; unfold at_; neutral; auto. }
  assert (forall pos, neutral (read_u16 buf pos)) as Hu16.
  { intros. unfold read_u16, at_. neutral. }
  assert (forall c pos, neutral (skip_questions c buf n pos)) as Hq.
  { induction c; intros; cbn [skip_questions parse_records]; neutral; auto. }
  assert (forall c pos out, neutral (parse_records qtype w c buf n pos out)) as Hr.
  { induction c; intros; cbn [skip_questions parse_records]; neutral; auto. }
  unfold parse_answers, parse_header. neutral; auto.
Qed.

Lemma neutral_resolve hostname :
  neutral (resolve_a hostname) /\ neutral (resolve_aaaa hostname).
Proof.
  split; unfold resolve_a, resolve_aaaa; apply neutral_bind_ok;
    auto using neutral_query; intros [buf n]; apply neutral_parse_answers.
Qed.

(** ** Pseudo-terminals *)

Lemma openpty_holding l :
  holding openpty l (fun r l' =>
    match r with Ok (master, slave) => l' = slave :: master :: l | Err _ => l' = l end).
Proof.
  unfold openpty. eapply holding_bind; [apply open_holding|]. intros [m|e] l1 H1; [|done].
  destruct H1 as [Hm ->].
  eapply holding_bind; [apply neutral_ioctl|]. intros [b r] ? ->. destruct r as [n|e].
  2: { eapply holding_bind; [by apply close_holding|]. by intros ? ? ->. }
  eapply holding_bind; [apply neutral_ioctl|]. intros [ptn r] ? ->. destruct r as [n'|e].
  2: { eapply holding_bind; [by apply close_holding|]. by intros ? ? ->. }
  eapply holding_bind.
  { assert (neutral (format_pts_path (dec_i32 ptn) (replicate 21 0))) as Hn; [|apply Hn].
    assert (forall out pos v, neutral (put_byte out pos v)) as Hpb.
    { intros. unfold put_byte. neutral. }
    assert (forall fuel out pos n, neutral (put_digits fuel out pos n)) as Hpd.
    { induction fuel; intros; simpl; neutral; auto. }
    unfold format_pts_path, copy_prefix, from_bytes_with_nul. neutral; auto. }
  intros path ? ->.
  eapply holding_bind; [apply open_holding|]. intros [s|e] l2 H2.
  - by destruct H2 as [_ ->].
  - subst. eapply holding_bind; [by apply close_holding|]. by intros ? ? ->.
Qed.
End Operations.

(** ** Properties *)

(** [C22] The resolver leaks no descriptor: whatever the kernel and the name
    servers answer, every way [query] and [read_nameservers] return leaves open
    exactly what was open before, the configuration file and the socket closed. *)
Theorem query_leaks_nothing `{Target} K hostname qtype s l r t s' :
  run K (query hostname qtype) s = (Done r, t, s') -> ledger t l = l.
Proof. intros E. by apply (holding_run K _ s l _ r t s' (neutral_query hostname qtype l)). Qed.

(** Opens answer descriptor 3, reads give one name server and then the end of
    the file, and the socket never becomes ready. *)
Definition silent_network (H : Target) : Kernel := mkKernel Z (fun c s =>
  match c with
  | Syscall n [AInt _; AMut b; _] =>
      if (s =? 0) && (n =? nrz READ)
      then (Some (mkReply 18 [str "nameserver 8.8.8.8"]), 1) else (Some (mkReply 0 []), s)
  | Syscall n _ =>
      if (n =? nrz OPENAT) || (n =? nrz SOCKET) then (Some (mkReply 3 []), s)
      else (Some (mkReply 0 []), s)
  | CallFn _ _ => (None, s)
  end).

Lemma query_leaks_nothing_witness :
  exists r t s', run (silent_network X86_64) (query (H := X86_64) (str "a.io") QTYPE_A) 0 = (Done r, t, s')
    /\ r = Err ETIMEDOUT /\ ledger (H := X86_64) t [7] = [7].
Proof.
  do 3 eexists. split; [vm_compute; reflexivity|]. split; [reflexivity|].
  eapply (query_leaks_nothing (H := X86_64) (silent_network X86_64) (str "a.io") QTYPE_A 0).
  vm_compute. reflexivity.
Defined.

(** [C35] [openpty] is all or nothing: when it returns the pair, exactly the
    master and the slave were added to the open descriptors; when it fails, at
    any of its four calls, nothing was. *)
Theorem openpty_all_or_nothing `{Target} K s l r t s' :
  run K openpty s = (Done r, t, s') ->
  match r with
  | Ok (master, slave) => ledger t l = slave :: master :: l
  | Err _ => ledger t l = l
  end.
Proof.
  intros E. pose proof (holding_run K _ s l _ r t s' (openpty_holding l) E) as HQ.
  by destruct r as [[]|].
Qed.

(** A kernel whose [TIOCGPTN] (the second [ioctl]) fails. *)
Definition no_pts (H : Target) : Kernel := mkKernel Z (fun c s =>
  match c with
  | Syscall n _ =>
      if n =? nrz OPENAT then (Some (mkReply 5 []), s)
      else if n =? nrz IOCTL then (Some (mkReply (if s =? 0 then 0 else 2 ^ 64 - 5) []), s + 1)
      else (Some (mkReply 0 []), s)
  | CallFn _ _ => (None, s)
  end).

Lemma openpty_all_or_nothing_witness :
  exists t s', run (no_pts Aarch64) (openpty (H := Aarch64)) 0 = (Done (Err EIO), t, s')
    /\ length t = 4%nat /\ ledger (H := Aarch64) t [] = [].
Proof.
  do 2 eexists. split; [vm_compute; reflexivity|]. split; [reflexivity|].
  apply (openpty_all_or_nothing (H := Aarch64) (no_pts Aarch64) 0 [] (Err EIO) _ 2).
  vm_compute. reflexivity.
Defined.

(** [C40] [vdso_base] does not close [/proc/self/auxv] when reading it fails: the
    descriptor stays open, and the function answers [None]. *)
Theorem vdso_base_leaks_on_read_error `{Target} K s l fuel ro s1 fd rr s2 e :
  let path := Syscall (nrz OPENAT)
    [int AT_FDCWD; cstr (str "/proc/self/auxv"); int O_RDONLY; int 0] in
  let buf := replicate 4096 0 in
  kstep K path s = (Some ro, s1) ->
  from_ret_i32 (as_u64 (r_ret ro)) = Ok fd ->
  kstep K (Syscall (nrz READ) [int fd; AMut buf; len buf]) s1 = (Some rr, s2) ->
  from_ret (as_u64 (r_ret rr)) = Err e -> e <> EINTR ->
  exists t, run K (vdso_base (S fuel)) s = (Done None, t, s2) /\ ledger t l = fd :: l.
Proof.
  intros path buf Hopen Hfd Hread He Hn. unfold vdso_base, open, openat, read_all.
  autorewrite with syscalls. unfold raw_call. cbn [bind run]. fold path. rewrite Hopen.
  cbn [bind run r_ret conform]. rewrite Hfd.
  cbn [read_all_from]. fold buf.
  replace (0 <? Z.of_nat (length buf)) with true by (unfold buf; by rewrite length_replicate).
  replace (slice_from 0 buf) with (Some buf) by (unfold buf, slice_from; by rewrite length_replicate).
  cbn [or_panic bind]. unfold read. autorewrite with syscalls. unfold raw_call.
  cbn [bind run]. rewrite Hread. cbn [bind run r_ret conform]. rewrite He.
  rewrite decide_False by done. cbn [bind run]. eexists. split; [reflexivity|].
  cbn [ledger ledger_step path]. rewrite Z.eqb_refl. cbn [orb r_ret conform]. rewrite Hfd.
  by replace ((nrz READ =? nrz OPENAT) || (nrz READ =? nrz SOCKET)) with false
    by (unfold nrz, nr_table; by destruct arch);
  replace (nrz READ =? nrz CLOSE) with false by (unfold nrz, nr_table; by destruct arch).
Qed.

(** A kernel where the file opens and cannot be read. *)
Definition unreadable (H : Target) : Kernel := mkKernel unit (fun c s =>
  match c with
  | Syscall n _ => (Some (mkReply (if n =? nrz OPENAT then 3 else 2 ^ 64 - 5) []), s)
  | CallFn _ _ => (None, s)
  end).

Lemma vdso_base_leaks_on_read_error_witness :
  exists t, run (unreadable X86_64) (vdso_base (H := X86_64) 8) tt = (Done None, t, tt)
    /\ ledger (H := X86_64) t [] = [3].
Proof.
  apply (vdso_base_leaks_on_read_error (H := X86_64) (unreadable X86_64) tt [] 7
           (mkReply 3 []) tt 3 (mkReply (2 ^ 64 - 5) []) tt EIO); try reflexivity.
  discriminate.
Defined.
