(* ===== verification/DnsSpec.v ===== *)
(** What the resolver promises: the bytes of a query, reading back every
    well-formed reply, and staying in bounds on every ill-formed one.  The file of
    name servers is in [ConfigSpec.v]. *)

From stdpp Require Import base list option numbers strings.
From Stdlib Require Import ZArith Lia.
From S2P Require Import Prelude Prog Layout Asm Arch Fd Misc Socket Dns Safety.

(** ** The query on the wire (RFC 1035, section 4.1) *)

Definition label_ok (label : list Z) : bool :=
  negb ((length label =? 0)%nat || (63 <? length label)%nat).

Definition wire_name (labels : list (list Z)) : list Z :=
  concat (map (fun l => Z.of_nat (length l) :: l) labels).

Definition wire_header (id flags qd an ns ar : Z) : list Z :=
  be_enc 2 id ++ be_enc 2 flags ++ be_enc 2 qd ++ be_enc 2 an ++ be_enc 2 ns ++ be_enc 2 ar.

Definition wire_query (id : Z) (hostname : list Z) (qtype : Z) : list Z :=
  wire_header id 0x0100 1 0 0 0 ++ wire_name (split_on 46 hostname) ++ [0] ++
  be_enc 2 qtype ++ be_enc 2 QCLASS_IN.

(** ** Encoder steps *)

(** [e] appends exactly [w], or fails with [EINVAL] when it does not fit. *)
Definition writes (e : Enc) (w : list Z) : Prop := forall pre rest,
  if decide (length w <= length rest)%nat
  then e (pre ++ rest) (Z.of_nat (length pre)) =
       (pre ++ w ++ drop (length w) rest, Ok (Z.of_nat (length pre + length w)))
  else (e (pre ++ rest) (Z.of_nat (length pre))).2 = Err EINVAL.

Definition fails (e : Enc) : Prop := forall pre rest,
  (e (pre ++ rest) (Z.of_nat (length pre))).2 = Err EINVAL.

Lemma put_writes w : writes (put w) w.
Proof.
  intros pre rest. unfold put. rewrite length_app.
  destruct (decide (length w <= length rest)%nat), (Z.ltb_spec (Z.of_nat (length pre + length rest))
    (Z.of_nat (length pre) + Z.of_nat (length w))); try lia; [|done].
  rewrite Nat2Z.id, take_app_length, drop_app_ge by lia.
  do 3 f_equal; [|lia]. f_equal. lia.
Qed.

Lemma seq_writes a b v w : writes a v -> writes b w -> writes (a >>> b) (v ++ w).
Proof.
  intros Ha Hb pre rest. unfold enc_seq. specialize (Ha pre rest). rewrite length_app.
  destruct (decide (length v <= length rest)%nat).
  - rewrite Ha. specialize (Hb (pre ++ v) (drop (length v) rest)).
    rewrite <- app_assoc, length_app, length_drop in Hb.
    destruct (decide (length w <= length rest - length v)%nat), (decide (length v + length w <= length rest)%nat);
      try lia; [|done].
    rewrite Hb, drop_drop, <- !app_assoc. do 3 f_equal. lia.
  - rewrite decide_False by lia. destruct (a _ _) as [buf [p|e]]; [done|]. exact Ha.
Qed.

Lemma seq_fails_r a v b : writes a v -> fails b -> fails (a >>> b).
Proof.
  intros Ha Hb pre rest. unfold enc_seq. specialize (Ha pre rest).
  destruct (decide (length v <= length rest)%nat).
  - rewrite Ha. specialize (Hb (pre ++ v) (drop (length v) rest)).
    by rewrite <- app_assoc, length_app in Hb.
  - destruct (a _ _) as [buf [p|e]]; [done|]. exact Ha.
Qed.

Lemma seq_fails_l a b : fails a -> fails (a >>> b).
Proof.
  intros Ha pre rest. unfold enc_seq. specialize (Ha pre rest).
  destruct (a _ _) as [buf [p|e]]; [done|]. exact Ha.
Qed.

Lemma put_labels_writes labels :
  forallb label_ok labels = true -> writes (put_labels labels) (wire_name labels).
Proof.
  induction labels as [|l labels IH]; simpl.
  - intros _ pre rest. rewrite decide_True by (simpl; lia). simpl. by rewrite Nat.add_0_r.
  - intros [Hl Hls]%andb_prop. specialize (IH Hls).
    unfold label_ok in Hl. apply negb_true_iff in Hl.
    pose proof (seq_writes _ _ _ _ (put_writes [as_u8 (Z.of_nat (length l))])
      (seq_writes _ _ _ _ (put_writes l) IH)) as Hw.
    apply orb_false_elim in Hl as Hl'. destruct Hl' as [_ H63]. apply Nat.ltb_ge in H63.
    unfold as_u8 in Hw. rewrite wrap_small in Hw by lia.
    intros pre rest. specialize (Hw pre rest). cbn [put_labels]. rewrite Hl.
    unfold as_u8. rewrite wrap_small by lia. exact Hw.
Qed.

Lemma put_labels_fails labels :
  forallb label_ok labels = false -> fails (put_labels labels).
Proof.
  induction labels as [|l labels IH]; simpl; [done|].
  intros Hl pre rest. unfold label_ok in Hl.
  destruct ((length l =? 0)%nat || (63 <? length l)%nat); simpl in Hl; [done|].
  apply (seq_fails_r _ _ _ (put_writes _)), (seq_fails_r _ _ _ (put_writes l)), IH, Hl.
Qed.

Lemma build_query_lemma buf id hostname qtype :
  let q := wire_query id hostname qtype in
  if bool_decide (hostname <> []) && forallb label_ok (split_on 46 hostname) &&
     bool_decide (length q <= length buf)%nat
  then build_query buf id hostname qtype =
       (q ++ drop (length q) buf, Ok (Z.of_nat (length q)))
  else (build_query buf id hostname qtype).2 = Err EINVAL.
Proof.
  intros q. destruct hostname as [|h hs]; [done|].
  rewrite bool_decide_true by done. cbn [andb].
  set (hostname := h :: hs) in *. unfold build_query. fold hostname.
  set (rest := put_labels _ >>> _).
  assert (build_query buf id hostname qtype = (put (be_enc 2 id) >>> put (be_enc 2 0x0100) >>>
    put (be_enc 2 1) >>> put (be_enc 2 0) >>> put (be_enc 2 0) >>> put (be_enc 2 0) >>> rest) buf 0)
    as E by done.
  destruct (forallb label_ok (split_on 46 hostname)) eqn:Hl; cbn [andb].
  - assert (writes rest (wire_name (split_on 46 hostname) ++ [0] ++ be_enc 2 qtype ++ be_enc 2 QCLASS_IN))
      as Hr by (repeat apply seq_writes; auto using put_writes, put_labels_writes).
    assert (writes (put (be_enc 2 id) >>> put (be_enc 2 0x0100) >>> put (be_enc 2 1) >>>
      put (be_enc 2 0) >>> put (be_enc 2 0) >>> put (be_enc 2 0) >>> rest) q) as Hq.
    { unfold q, wire_query, wire_header. rewrite <- !app_assoc.
      repeat (apply seq_writes; [apply put_writes|]). exact Hr. }
    specialize (Hq [] buf). simpl in Hq. case_bool_decide; destruct (decide _); done.
  - assert (fails rest) as Hr by (apply seq_fails_l, put_labels_fails, Hl).
    pose proof (seq_fails_r _ _ _ (put_writes (be_enc 2 id)) (seq_fails_r _ _ _ (put_writes (be_enc 2 0x0100))
      (seq_fails_r _ _ _ (put_writes (be_enc 2 1)) (seq_fails_r _ _ _ (put_writes (be_enc 2 0))
      (seq_fails_r _ _ _ (put_writes (be_enc 2 0)) (seq_fails_r _ _ _ (put_writes (be_enc 2 0)) Hr)))))) as Hq.
    apply (Hq [] buf).
Qed.

(** [C21] [build_query] writes exactly the RFC 1035 query at the front of the
    buffer, leaving the rest alone, and answers its length; an empty name, an
    empty or over-long label, or a query that does not fit is [EINVAL]. *)
Theorem build_query_correct buf id hostname qtype :
  let q := wire_query id hostname qtype in
  if bool_decide (hostname <> []) && forallb label_ok (split_on 46 hostname) &&
     bool_decide (length q <= length buf)%nat
  then build_query buf id hostname qtype =
       (q ++ drop (length q) buf, Ok (Z.of_nat (length q)))
  else (build_query buf id hostname qtype).2 = Err EINVAL.
Proof. apply build_query_lemma. Qed.

Lemma build_query_example :
  build_query (replicate 64 0) 0x1234 (str "a.io") QTYPE_A =
  ([0x12; 0x34; 1; 0; 0; 1; 0; 0; 0; 0; 0; 0; 1; 97; 2; 105; 111; 0; 0; 1; 0; 1] ++ replicate 42 0,
   Ok 22).
Proof. reflexivity. Qed.

(** ** Replies on the wire *)

(** A name: labels, then the root label or a compression pointer. *)
Record Name := mkName { n_labels : list (list Z); n_ptr : option Z }.

Definition wire_full_name (m : Name) : list Z :=
  wire_name (n_labels m) ++
  match n_ptr m with None => [0] | Some p => [0xC0 + p / 256; p mod 256] end.

Definition name_ok (m : Name) : Prop :=
  Forall (fun l => (0 < length l <= 63)%nat) (n_labels m) /\
  match n_ptr m with None => True | Some p => 0 <= p < 2 ^ 14 end.

Record Question := mkQuestion { q_name : Name; q_type : Z; q_class : Z }.
Definition wire_question (q : Question) : list Z :=
  wire_full_name (q_name q) ++ be_enc 2 (q_type q) ++ be_enc 2 (q_class q).

Record RR := mkRR { rr_name : Name; rr_type : Z; rr_class : Z; rr_ttl : Z; rr_data : list Z }.
Definition wire_rr (r : RR) : list Z :=
  wire_full_name (rr_name r) ++ be_enc 2 (rr_type r) ++ be_enc 2 (rr_class r) ++
  be_enc 4 (rr_ttl r) ++ be_enc 2 (Z.of_nat (length (rr_data r))) ++ rr_data r.
Definition rr_ok (r : RR) : Prop :=
  name_ok (rr_name r) /\ is_u16 (rr_type r) /\ is_u16 (Z.of_nat (length (rr_data r))).

Definition wire_questions (qs : list Question) : list Z := concat (map wire_question qs).
Definition wire_rrs (rs : list RR) : list Z := concat (map wire_rr rs).

Definition wire_reply (id flags ns ar : Z) (qs : list Question) (rs : list RR) : list Z :=
  wire_header id flags (Z.of_nat (length qs)) (Z.of_nat (length rs)) ns ar ++
  wire_questions qs ++ wire_rrs rs.

(** The records a query for [qtype] is after. *)
Definition wanted (qtype : Z) (w : nat) (r : RR) : bool :=
  (rr_type r =? qtype) && (length (rr_data r) =? w)%nat.
Definition answers (qtype : Z) (w : nat) (rs : list RR) : list (list Z) :=
  map rr_data (List.filter (wanted qtype w) rs).

(** ** Positions in a buffer *)

(** Decide the first bounds check of the goal, which must pass. *)
Ltac in_bounds :=
  match goal with
  | |- context [Z.leb ?a ?b] => destruct (Z.leb_spec a b); [lia|]
  | |- context [Z.ltb ?a ?b] => destruct (Z.ltb_spec a b); [lia|]
  end.

Lemma at_middle pre x post : at_ (pre ++ x :: post) (Z.of_nat (length pre)) = Ret x.
Proof. unfold at_. by rewrite Nat2Z.id, list_lookup_middle. Qed.

Lemma be_enc_2 v : be_enc 2 v = [v / 256 mod 256; v mod 256].
Proof. done. Qed.

Lemma read_u16_middle pre v post :
  is_u16 v -> read_u16 (pre ++ be_enc 2 v ++ post) (Z.of_nat (length pre)) = Ret (Ok v).
Proof.
  intros Hv. unfold read_u16. rewrite !length_app, be_enc_length.
  destruct (Z.ltb_spec (Z.of_nat (length pre + (2 + length post))) (Z.of_nat (length pre) + 2)); [lia|].
  rewrite be_enc_2. cbn [app]. rewrite at_middle. cbn [bind].
  replace (Z.of_nat (length pre) + 1) with (Z.of_nat (length (pre ++ [v / 256 mod 256])))
    by (rewrite length_app; simpl; lia).
  rewrite (app_assoc pre [_] (_ :: _)) at 1 || idtac.
  change (v / 256 mod 256 :: v mod 256 :: post) with ([v / 256 mod 256] ++ v mod 256 :: post).
  rewrite app_assoc, at_middle. cbn [bind]. do 2 f_equal.
  rewrite <- be_enc_2. apply be_dec_enc_small. exact Hv.
Qed.

Lemma low_length_byte n : (n <= 63)%nat -> Z.land (Z.of_nat n) 0xC0 = 0.
Proof.
  intros Hn.
  assert (forallb (fun k => Z.land (Z.of_nat k) 0xC0 =? 0) (seq 0 64) = true) as E by reflexivity.
  rewrite forallb_forall in E. apply Z.eqb_eq, E, in_seq. lia.
Qed.

Lemma pointer_byte p : 0 <= p < 2 ^ 14 -> Z.land (0xC0 + p / 256) 0xC0 = 0xC0.
Proof.
  intros Hp. assert (0 <= p / 256 < 64) as Hq.
  { split; [apply Z.div_pos; lia|apply Z.div_lt_upper_bound; lia]. }
  assert (forallb (fun k => Z.land (0xC0 + Z.of_nat k) 0xC0 =? 0xC0) (seq 0 64) = true) as E
    by reflexivity.
  rewrite forallb_forall in E. rewrite <- (Z2Nat.id (p / 256)) by lia.
  apply Z.eqb_eq, E, in_seq. lia.
Qed.

Lemma skip_name_wire labels ptr fuel pre post :
  name_ok (mkName labels ptr) -> (length labels < fuel)%nat ->
  skip_name fuel (pre ++ wire_full_name (mkName labels ptr) ++ post) (Z.of_nat (length pre)) =
  Ret (Ok (Z.of_nat (length pre + length (wire_full_name (mkName labels ptr))))).
Proof.
  intros [Hl Hp]. simpl in Hl, Hp. revert fuel pre. unfold wire_full_name. cbn [n_labels n_ptr].
  induction Hl as [|l labels Hl _ IH]; intros [|fuel] pre Hf; try (simpl in Hf; lia); cbn [skip_name].
  - cbn [wire_name map concat app]. rewrite !length_app.
    destruct (Z.leb_spec (Z.of_nat (length pre + (length (match ptr with None => [0]
      | Some p => [0xC0 + p / 256; p mod 256] end) + length post))) (Z.of_nat (length pre)));
      [destruct ptr; cbn [length] in *; lia|].
    destruct ptr as [p|]; cbn [app]; rewrite at_middle; cbn [bind].
    + assert (0 <= p / 256) by (apply Z.div_pos; lia).
      destruct (Z.eqb_spec (0xC0 + p / 256) 0); [lia|].
      rewrite pointer_byte, Z.eqb_refl by done. cbn [length].
      in_bounds. do 2 f_equal. lia.
    + cbn [length]. do 2 f_equal. lia.
  - destruct (Z.leb_spec (Z.of_nat (length (pre ++ (wire_name (l :: labels) ++ match ptr with
      None => [0] | Some p => [0xC0 + p / 256; p mod 256] end) ++ post))) (Z.of_nat (length pre))) as [Hle|_].
    { change (wire_name (l :: labels)) with (Z.of_nat (length l) :: l ++ wire_name labels) in Hle.
      rewrite !length_app in Hle. cbn [length] in Hle. lia. }
    change (wire_name (l :: labels)) with (Z.of_nat (length l) :: l ++ wire_name labels).
    cbn [app]. rewrite at_middle. cbn [bind].
    destruct (Z.eqb_spec (Z.of_nat (length l)) 0); [lia|].
    rewrite low_length_byte by lia. cbn [Z.eqb].
    specialize (IH fuel (pre ++ Z.of_nat (length l) :: l) ltac:(simpl in Hf; lia)).
    rewrite <- !app_assoc in *. cbn [app] in *.
    replace (Z.of_nat (length pre) + (1 + Z.of_nat (length l)))
      with (Z.of_nat (length (pre ++ Z.of_nat (length l) :: l)))
      by (rewrite length_app; cbn [length]; lia).
    rewrite IH. do 2 f_equal. cbn [length]. rewrite !length_app. cbn [length]. lia.
Qed.

Lemma wire_name_long labels : (length labels <= length (wire_name labels))%nat.
Proof.
  induction labels as [|l labels IH]; [simpl; lia|].
  change (wire_name (l :: labels)) with (Z.of_nat (length l) :: l ++ wire_name labels).
  simpl. rewrite length_app. lia.
Qed.

(** [buf] holds the bytes [x] at [p]. *)
Definition holds_at (buf : list Z) (p : Z) (x : list Z) : Prop :=
  exists pre post, buf = pre ++ x ++ post /\ p = Z.of_nat (length pre).

Lemma holds_at_app buf p x y :
  holds_at buf p (x ++ y) -> holds_at buf p x /\ holds_at buf (p + Z.of_nat (length x)) y.
Proof.
  intros (pre & post & -> & ->). split.
  - exists pre, (y ++ post). by rewrite <- app_assoc.
  - exists (pre ++ x), post. rewrite length_app, <- !app_assoc. split; [done|lia].
Qed.

Lemma holds_at_end buf p x : holds_at buf p x -> 0 <= p /\ p + Z.of_nat (length x) <= Z.of_nat (length buf).
Proof. intros (pre & post & -> & ->). rewrite !length_app. lia. Qed.

(** The readers, where the buffer holds what they read. *)
Lemma skip_name_at buf p m :
  holds_at buf p (wire_full_name m) -> name_ok m ->
  skip_name (skip_name_fuel buf) buf p = Ret (Ok (p + Z.of_nat (length (wire_full_name m)))).
Proof.
  intros (pre & post & -> & ->) Hm. destruct m as [labels ptr].
  rewrite skip_name_wire; [do 2 f_equal; lia|done|].
  unfold skip_name_fuel, wire_full_name. cbn [n_labels n_ptr].
  rewrite !length_app. pose proof (wire_name_long labels). lia.
Qed.

Lemma read_u16_at buf p v :
  holds_at buf p (be_enc 2 v) -> is_u16 v -> read_u16 buf p = Ret (Ok v).
Proof. intros (pre & post & -> & ->). apply read_u16_middle. Qed.

Lemma sub_slice_at buf p x n :
  holds_at buf p x -> n = Z.of_nat (length x) -> sub_slice p n buf = Some x.
Proof.
  intros (pre & post & -> & ->) ->. unfold sub_slice. rewrite !length_app.
  destruct (Z.leb_spec (Z.of_nat (length pre) + Z.of_nat (length x))
    (Z.of_nat (length pre + (length x + length post)))); [|lia].
  by rewrite slice_middle by lia.
Qed.

Lemma skip_questions_at qs buf n p :
  holds_at buf p (wire_questions qs) -> Forall (fun q => name_ok (q_name q)) qs ->
  p + Z.of_nat (length (wire_questions qs)) <= n ->
  skip_questions (length qs) buf n p = Ret (Ok (p + Z.of_nat (length (wire_questions qs)))).
Proof.
  intros Hat Hq. revert p Hat. induction Hq as [|q qs Hq _ IH]; intros p Hat Hn.
  - simpl. do 2 f_equal. lia.
  - change (wire_questions (q :: qs)) with (wire_question q ++ wire_questions qs) in *.
    apply holds_at_app in Hat as [Hq0 Hqs]. unfold wire_question in Hq0 at 1.
    apply holds_at_app in Hq0 as [Hname _].
    cbn [length skip_questions]. rewrite (skip_name_at _ _ _ Hname Hq). unfold bind_ok. cbn [bind].
    assert (Z.of_nat (length (wire_full_name (q_name q))) + 4 = Z.of_nat (length (wire_question q)))
      as E by (unfold wire_question; rewrite !length_app, !be_enc_length; lia).
    rewrite length_app in Hn |- *. in_bounds.
    rewrite <- Z.add_assoc, E. rewrite IH; [|done|lia]. do 2 f_equal. lia.
Qed.

(** What the parser keeps of one record. *)
Definition keep (qtype : Z) (w : nat) (out : AddrList) (r : RR) : AddrList :=
  if wanted qtype w r && (al_len out <? MAX_ADDRS) then push_addr out (rr_data r) else out.

(** The fixed part of a record, after its name. *)
Lemma wire_rr_split buf p r rest :
  holds_at buf p (wire_rr r ++ rest) ->
  let q := p + Z.of_nat (length (wire_full_name (rr_name r))) in
  holds_at buf p (wire_full_name (rr_name r)) /\ holds_at buf q (be_enc 2 (rr_type r)) /\
  holds_at buf (q + 8) (be_enc 2 (Z.of_nat (length (rr_data r)))) /\
  holds_at buf (q + 10) (rr_data r) /\
  holds_at buf (q + 10 + Z.of_nat (length (rr_data r))) rest /\
  q + 10 + Z.of_nat (length (rr_data r)) = p + Z.of_nat (length (wire_rr r)).
Proof.
  intros Hat q.
  apply holds_at_app in Hat as [Hat Hrest]. unfold wire_rr in Hat.
  apply holds_at_app in Hat as [Hn Hat]. fold q in Hat.
  apply holds_at_app in Hat as [Ht Hat]. apply holds_at_app in Hat as [_ Hat].
  apply holds_at_app in Hat as [_ Hat]. apply holds_at_app in Hat as [Hl Hd].
  rewrite !be_enc_length in *.
  assert (p + Z.of_nat (length (wire_rr r)) = q + 10 + Z.of_nat (length (rr_data r))) as E.
  { unfold wire_rr, q. rewrite !length_app, !be_enc_length. lia. }
  rewrite E in Hrest. split_and!; try done.
  - by replace (q + 8) with (q + Z.of_nat 2 + Z.of_nat 2 + Z.of_nat 4) by lia.
  - by replace (q + 10) with (q + Z.of_nat 2 + Z.of_nat 2 + Z.of_nat 4 + Z.of_nat 2) by lia.
Qed.

Lemma parse_records_at qtype w rs buf n : forall p out,
  holds_at buf p (wire_rrs rs) -> Forall rr_ok rs ->
  p + Z.of_nat (length (wire_rrs rs)) <= n ->
  parse_records qtype (Z.of_nat w) (length rs) buf n p out =
  Ret (Ok (fold_left (keep qtype w) rs out)).
Proof.
  induction rs as [|r rs IH]; intros p out Hat Hok Hn; [done|].
  apply Forall_cons in Hok as [(Hname & Hty & Hlen) Hok].
  change (wire_rrs (r :: rs)) with (wire_rr r ++ wire_rrs rs) in *.
  apply wire_rr_split in Hat as (Hn0 & Ht & Hl & Hd & Hrest & E).
  rewrite length_app in Hn. cbn [length parse_records fold_left].
  rewrite (skip_name_at _ _ _ Hn0 Hname). unfold bind_ok at 1. cbn [bind].
  set (q := p + _) in *. in_bounds.
  rewrite (read_u16_at _ _ _ Ht Hty). unfold bind_ok at 1. cbn [bind].
  rewrite (read_u16_at _ _ _ Hl Hlen). unfold bind_ok at 1. cbn [bind]. in_bounds.
  rewrite <- (IH (q + 10 + Z.of_nat (length (rr_data r))) (keep qtype w out r)) by (try done; lia).
  unfold keep, wanted.
  destruct (Z.eqb_spec (Z.of_nat (length (rr_data r))) (Z.of_nat w)) as [Ew|Ew],
    (Nat.eqb_spec (length (rr_data r)) w) as [Ew'|Ew']; try lia; rewrite ?andb_true_r, ?andb_false_r;
    [|done].
  destruct ((rr_type r =? qtype) && (al_len out <? MAX_ADDRS)); [|done].
  by rewrite (sub_slice_at _ _ _ _ Hd) by lia.
Qed.

(** [out] holds the addresses [l]. *)
Definition contents (out : AddrList) (l : list (list Z)) : Prop :=
  length (addrs out) = 8%nat /\ (length l <= 8)%nat /\
  al_len out = Z.of_nat (length l) /\ take (length l) (addrs out) = l.

Lemma contents_as_slice out l : contents out l -> slice_to (al_len out) (addrs out) = Some l.
Proof.
  intros (Ha & Hl & -> & Ht). unfold slice_to. rewrite Ha, Nat2Z.id, Ht.
  by destruct (Z.leb_spec (Z.of_nat (length l)) (Z.of_nat 8)); [|lia].
Qed.

Lemma contents_push out l a :
  contents out l -> (length l < 8)%nat -> contents (push_addr out a) (l ++ [a]).
Proof.
  intros (Ha & Hl & Hn & Ht) Hlt. unfold contents, push_addr. cbn [addrs al_len].
  rewrite length_insert, length_app, Hn, Nat2Z.id. cbn [length].
  split_and!; [done|lia|lia|].
  rewrite Nat.add_1_r, (take_S_r _ _ a) by (rewrite list_lookup_insert_eq; [done|lia]).
  by rewrite take_insert_ge, Ht by lia.
Qed.

Lemma keep_contents qtype w rs : forall out l,
  contents out l ->
  contents (fold_left (keep qtype w) rs out) (take 8 (l ++ answers qtype w rs)).
Proof.
  induction rs as [|r rs IH]; intros out l Hc.
  - unfold answers. simpl. destruct Hc as (? & Hl & ?). by rewrite app_nil_r, take_ge by lia.
  - cbn [fold_left]. unfold answers, keep at 2. cbn [List.filter].
    destruct (wanted qtype w r); cbn [andb map]; [|apply IH, Hc].
    pose proof Hc as (Ha & Hl & Hn & _).
    destruct (Z.ltb_spec (al_len out) MAX_ADDRS) as [Hlt|Hge]; unfold MAX_ADDRS in *.
    + specialize (IH _ _ (contents_push out l (rr_data r) Hc ltac:(lia))).
      by rewrite <- app_assoc in IH.
    + specialize (IH _ _ Hc). by rewrite take_app_le in IH |- * by lia.
Qed.

Lemma AddrList4_empty_contents : contents AddrList4_empty [].
Proof. split_and!; simpl; auto; lia. Qed.
Lemma AddrList6_empty_contents : contents AddrList6_empty [].
Proof. split_and!; simpl; auto; lia. Qed.

(** A reply [n] bytes long at the front of [buf], the response to one of our
    queries: no error, every record well formed. *)
Definition reply_in (buf : list Z) (n : Z) (id flags ns ar : Z) (qs : list Question)
    (rs : list RR) : Prop :=
  holds_at buf 0 (wire_reply id flags ns ar qs rs) /\
  Z.of_nat (length (wire_reply id flags ns ar qs rs)) <= n /\
  is_u16 flags /\ Z.land flags 0x000F = 0 /\
  is_u16 (Z.of_nat (length qs)) /\ is_u16 (Z.of_nat (length rs)) /\
  Forall (fun q => name_ok (q_name q)) qs /\ Forall rr_ok rs.

Lemma parse_header_reply buf n id flags ns ar qs rs :
  reply_in buf n id flags ns ar qs rs ->
  let first := 12 + Z.of_nat (length (wire_questions qs)) in
  parse_header buf n = Ret (Ok (mkParsedHeader (Z.of_nat (length rs)) first)) /\
  holds_at buf first (wire_rrs rs) /\
  first + Z.of_nat (length (wire_rrs rs)) <= n.
Proof.
  intros (Hat & Hn & Hf & Hr & Hqn & Han & Hqs & _) first.
  unfold wire_reply in *. apply holds_at_app in Hat as [Hh Hat].
  assert (length (wire_header id flags (Z.of_nat (length qs)) (Z.of_nat (length rs)) ns ar) = 12%nat)
    as Hhl by done.
  rewrite !length_app, Hhl in *. cbn [Z.of_nat] in Hat.
  apply holds_at_app in Hat as [Hq Hrs]. unfold wire_header in Hh.
  apply holds_at_app in Hh as [_ Hh]. apply holds_at_app in Hh as [Hfl Hh].
  apply holds_at_app in Hh as [Hqd Hh]. apply holds_at_app in Hh as [Hand _].
  rewrite !be_enc_length in *.
  split_and!; [|exact Hrs|lia].
  unfold parse_header. in_bounds.
  rewrite (read_u16_at buf 2 flags Hfl Hf). unfold bind_ok at 1. cbn [bind]. rewrite Hr.
  cbn [Z.eqb negb].
  rewrite (read_u16_at buf 4 _ Hqd Hqn). unfold bind_ok at 1. cbn [bind].
  rewrite (read_u16_at buf 6 _ Hand Han). unfold bind_ok at 1. cbn [bind].
  rewrite Nat2Z.id, (skip_questions_at _ _ _ 12 Hq Hqs) by lia. done.
Qed.

Lemma parse_answers_reply buf n id flags ns ar qs rs qtype w out :
  reply_in buf n id flags ns ar qs rs -> contents out [] ->
  parse_answers qtype (Z.of_nat w) out buf n =
  match answers qtype w rs with
  | [] => Ret (Err ENOENT)
  | _ => Ret (Ok (fold_left (keep qtype w) rs out))
  end /\
  contents (fold_left (keep qtype w) rs out) (take 8 (answers qtype w rs)).
Proof.
  intros Hr Hc. pose proof (keep_contents qtype w rs out [] Hc) as Hk. split; [|exact Hk].
  destruct (parse_header_reply _ _ _ _ _ _ _ _ Hr) as (Hh & Hat & Hn).
  destruct Hr as (_ & _ & _ & _ & _ & _ & _ & Hok).
  unfold parse_answers. rewrite Hh. unfold bind_ok at 1. cbn [bind ancount first_answer].
  rewrite Nat2Z.id, (parse_records_at _ _ _ _ _ _ _ Hat Hok Hn). unfold bind_ok. cbn [bind].
  destruct Hk as (_ & _ & Hl & _). rewrite Hl. simpl app.
  destruct (answers qtype w rs); [done|]. cbn [firstn length].
  by destruct (Z.eqb_spec (Z.of_nat (S (length (take 7 l)))) 0); [lia|].
Qed.

(** [C20] Reading back: from any well-formed successful reply (any questions, any
    records, names compressed or not, anything after them in the buffer) the
    parsers return exactly the addresses of the records of the type asked for, in
    order, the first eight of them, or [ENOENT] when there is none. *)
Theorem parse_answers_roundtrip buf n id flags ns ar qs rs :
  reply_in buf n id flags ns ar qs rs ->
  (match answers QTYPE_A 4 rs with
   | [] => parse_answers_a buf n = Ret (Err ENOENT)
   | l => exists out, parse_answers_a buf n = Ret (Ok out) /\
                      AddrList4_as_slice out = Some (take 8 l)
   end) /\
  (match answers QTYPE_AAAA 16 rs with
   | [] => parse_answers_aaaa buf n = Ret (Err ENOENT)
   | l => exists out, parse_answers_aaaa buf n = Ret (Ok out) /\
                      AddrList6_as_slice out = Some (take 8 l)
   end).
Proof.
  intros Hr.
  destruct (parse_answers_reply _ _ _ _ _ _ _ _ QTYPE_A 4 _ Hr AddrList4_empty_contents) as [H4 C4].
  destruct (parse_answers_reply _ _ _ _ _ _ _ _ QTYPE_AAAA 16 _ Hr AddrList6_empty_contents) as [H6 C6].
  apply contents_as_slice in C4, C6. unfold parse_answers_a, parse_answers_aaaa.
  change (Z.of_nat 4) with 4 in H4. change (Z.of_nat 16) with 16 in H6. rewrite H4, H6. split.
  - destruct (answers QTYPE_A 4 rs); [done|]. eexists. split; [reflexivity|exact C4].
  - destruct (answers QTYPE_AAAA 16 rs); [done|]. eexists. split; [reflexivity|exact C6].
Qed.

(** The reply of the unit tests: ["a.io"] resolving to 93.184.216.34. *)
Definition canned_question : Question := mkQuestion (mkName [str "a"; str "io"] None) 1 1.
Definition canned_answer : RR := mkRR (mkName [] (Some 12)) 1 1 300 [93; 184; 216; 34].
Definition canned : list Z := wire_reply 0x1234 0x8180 0 0 [canned_question] [canned_answer].

Lemma parse_answers_roundtrip_witness :
  exists out, parse_answers_a canned 38 = Ret (Ok out) /\
              AddrList4_as_slice out = Some [[93; 184; 216; 34]].
Proof.
  apply (parse_answers_roundtrip canned 38 0x1234 0x8180 0 0 [canned_question] [canned_answer]).
  split; [exists [], []; split; reflexivity|].
  split_and!; repeat constructor; vm_compute; try lia; discriminate.
Defined.

(** ** Ill-formed replies

    [parses p Q]: [p] returns, calling nothing, and what it returns is an [Ok]
    satisfying [Q], [EINVAL] or [ENOENT]. *)
Definition parses {A} (p : Prog (result A)) (Q : A -> Prop) : Prop :=
  exists r, p = Ret r /\ match r with Ok a => Q a | Err e => e = EINVAL \/ e = ENOENT end.

Lemma parses_ret {A} (a : A) (Q : A -> Prop) : Q a -> parses (Ret (Ok a)) Q.
Proof. intros. by exists (Ok a). Qed.
Lemma parses_err {A} e (Q : A -> Prop) : e = EINVAL \/ e = ENOENT -> parses (Ret (Err e)) Q.
Proof. intros. by exists (Err e). Qed.

Lemma parses_bind {A B} (p : Prog (result A)) (f : A -> Prog (result B)) P Q :
  parses p P -> (forall a, P a -> parses (f a) Q) -> parses (bind_ok p f) Q.
Proof.
  intros (r & -> & Hr) Hf. unfold bind_ok. cbn [bind].
  destruct r; [by apply Hf|by apply parses_err].
Qed.

Lemma parses_mono {A} (p : Prog (result A)) (P Q : A -> Prop) :
  parses p P -> (forall a, P a -> Q a) -> parses p Q.
Proof. intros (r & -> & Hr) H. exists r. destruct r; auto. Qed.

Create HintDb dns.
#[local] Hint Resolve parses_ret parses_err : dns.

Section Hostile.
Context (buf : list Z) (Hbuf : bytes_ok buf).

Lemma at_in p : 0 <= p < Z.of_nat (length buf) -> exists b, at_ buf p = Ret b /\ is_byte b.
Proof.
  intros Hp. destruct (lookup_lt_is_Some_2 buf (Z.to_nat p) ltac:(lia)) as [b Hb].
  exists b. unfold at_. rewrite Hb. split; [done|]. eapply Forall_lookup_1; eauto.
Qed.

(** The name walk ends, inside the buffer, past where it started. *)
Lemma skip_name_total fuel p :
  0 <= p -> Z.of_nat (length buf) - p < Z.of_nat fuel -> (0 < fuel)%nat ->
  parses (skip_name fuel buf p) (fun q => p < q <= Z.of_nat (length buf)).
Proof.
  revert p. induction fuel as [|fuel IH]; intros p Hp Hf Hf0; [lia|]. cbn [skip_name].
  destruct (Z.leb_spec (Z.of_nat (length buf)) p); [auto with dns|].
  destruct (at_in p ltac:(lia)) as (b & -> & Hb). cbn [bind]. int_ranges.
  destruct (Z.eqb_spec b 0); [apply parses_ret; lia|].
  destruct (Z.land b 0xC0 =? 0xC0).
  - destruct (Z.leb_spec (Z.of_nat (length buf)) (p + 1)); [auto with dns|].
    apply parses_ret; lia.
  - destruct fuel as [|fuel]; [lia|].
    eapply parses_mono; [apply IH; lia|]. simpl. intros; lia.
Qed.

Lemma skip_name_parses p :
  0 <= p -> parses (skip_name (skip_name_fuel buf) buf p) (fun q => p < q <= Z.of_nat (length buf)).
Proof. intros. apply skip_name_total; unfold skip_name_fuel; lia. Qed.

Lemma read_u16_parses p : 0 <= p -> parses (read_u16 buf p) is_u16.
Proof.
  intros Hp. unfold read_u16. destruct (Z.ltb_spec (Z.of_nat (length buf)) (p + 2)); [auto with dns|].
  destruct (at_in p ltac:(lia)) as (b & -> & Hb).
  destruct (at_in (p + 1) ltac:(lia)) as (c & -> & Hc). cbn [bind].
  apply parses_ret. unfold be_dec. simpl. int_ranges. lia.
Qed.

Lemma skip_questions_parses count n p :
  0 <= p -> parses (skip_questions count buf n p) (fun q => p <= q).
Proof.
  revert p. induction count as [|count IH]; intros p Hp; cbn [skip_questions].
  - apply parses_ret. lia.
  - eapply parses_bind; [by apply skip_name_parses|]. intros q Hq. cbn in Hq.
    destruct (n <? q + 4); [auto with dns|].
    eapply parses_mono; [apply IH; lia|]. simpl. intros; lia.
Qed.

Lemma parse_header_parses n :
  parses (parse_header buf n) (fun h => is_u16 (ancount h) /\ 0 <= first_answer h).
Proof.
  unfold parse_header. destruct (n <? 12); [auto with dns|].
  eapply parses_bind; [by apply read_u16_parses|]. intros flags _.
  destruct (_ =? 3); [auto with dns|]. destruct (negb _); [auto with dns|].
  eapply parses_bind; [by apply read_u16_parses|]. intros qd Hqd.
  eapply parses_bind; [by apply read_u16_parses|]. intros an Han.
  eapply parses_bind; [by apply skip_questions_parses|]. intros p Hp. cbn in Hp.
  apply parses_ret. simpl. auto with lia.
Qed.

(** Each address is [w] bytes of the reply, within its first [n]. *)
Definition from_reply (w : nat) (n : Z) (a : list Z) : Prop :=
  exists p, 0 <= p /\ p + Z.of_nat w <= n /\ a = slice (Z.to_nat p) w buf.

Lemma parse_records_parses qtype w count n : forall p out l,
  0 <= p -> n <= Z.of_nat (length buf) -> contents out l -> Forall (from_reply w n) l ->
  parses (parse_records qtype (Z.of_nat w) count buf n p out)
    (fun out => exists l, contents out l /\ Forall (from_reply w n) l).
Proof.
  induction count as [|count IH]; intros p out l Hp Hn Hc Hl; cbn [parse_records].
  - apply parses_ret. eauto.
  - eapply parses_bind; [by apply skip_name_parses|]. intros q Hq. cbn in Hq.
    destruct (Z.ltb_spec n (q + 10)); [auto with dns|].
    eapply parses_bind; [apply read_u16_parses; lia|]. intros rtype _.
    eapply parses_bind; [apply read_u16_parses; lia|]. intros len Hlen. int_ranges.
    destruct (Z.ltb_spec n (q + 10 + len)); [auto with dns|].
    destruct (Z.eqb_spec len (Z.of_nat w)) as [Ew|Ew]; rewrite ?andb_false_r;
      [|cbn [andb bind]; eapply IH; [lia|done|done|done]].
    destruct (rtype =? qtype); cbn [andb]; [|cbn [bind]; eapply IH; [lia|done|done|done]].
    destruct (Z.ltb_spec (al_len out) MAX_ADDRS) as [Hlt|]; [|cbn [bind]; eapply IH; [lia|done|done|done]].
    unfold sub_slice. destruct (Z.leb_spec (q + 10 + Z.of_nat w) (Z.of_nat (length buf))); [|lia].
    cbn [or_panic bind]. eapply IH; [lia|done| |].
    + apply contents_push; [exact Hc|]. destruct Hc as (_ & _ & E & _). unfold MAX_ADDRS in *. lia.
    + apply Forall_app. split; [done|]. constructor; [|done].
      exists (q + 10). rewrite Nat2Z.id. split_and!; [lia|lia|done].
Qed.

Lemma parse_answers_parses qtype w out n :
  n <= Z.of_nat (length buf) -> contents out [] ->
  parses (parse_answers qtype (Z.of_nat w) out buf n) (fun out => exists l,
    slice_to (al_len out) (addrs out) = Some l /\ (1 <= length l <= 8)%nat /\
    Forall (from_reply w n) l).
Proof.
  intros Hn Hc. unfold parse_answers. eapply parses_bind; [apply parse_header_parses|].
  intros h [_ Hh]. eapply parses_bind; [by eapply parse_records_parses|].
  intros out' (l & Hc' & Hl). pose proof Hc' as (_ & H8 & E & _).
  destruct (Z.eqb_spec (al_len out') 0); [auto with dns|].
  apply parses_ret. exists l. split_and!; [by apply contents_as_slice|lia|done|done].
Qed.
End Hostile.

(** [C32] Whatever bytes a name server sends, the parsers return: no index or
    slice is out of range, no loop runs away, the only errors are [EINVAL] and
    [ENOENT], and on success there are one to eight addresses, each the right
    number of bytes taken from within the reply. *)
Theorem parse_answers_total buf n :
  bytes_ok buf -> n <= Z.of_nat (length buf) ->
  parses (parse_answers_a buf n) (fun out => exists l,
    AddrList4_as_slice out = Some l /\ (1 <= length l <= 8)%nat /\ Forall (from_reply buf 4 n) l) /\
  parses (parse_answers_aaaa buf n) (fun out => exists l,
    AddrList6_as_slice out = Some l /\ (1 <= length l <= 8)%nat /\ Forall (from_reply buf 16 n) l).
Proof.
  intros Hb Hn. split.
  - apply (parse_answers_parses buf Hb QTYPE_A 4); [done|apply AddrList4_empty_contents].
  - apply (parse_answers_parses buf Hb QTYPE_AAAA 16); [done|apply AddrList6_empty_contents].
Qed.

(** A name that points at itself, and a record that claims to be 65535 bytes. *)
Lemma parse_answers_total_witness :
  let buf := [0; 7; 0x81; 0x80; 0; 1; 0; 1; 0; 0; 0; 0; 0xC0; 0x0C; 0; 1; 0; 1;
              0xC0; 0x0C; 0; 1; 0; 1; 0; 0; 0; 0; 0xFF; 0xFF] in
  parses (parse_answers_a buf 30) (fun out => exists l,
    AddrList4_as_slice out = Some l /\ (1 <= length l <= 8)%nat /\ Forall (from_reply buf 4 30) l).
Proof.
  intros buf. apply (parse_answers_total buf 30); [|done].
  repeat constructor; vm_compute; congruence.
Defined.

(** ** The resolver against any network

    The one thing asked of the kernel: a transfer reports no more bytes than the
    buffer it was given. *)
Definition transfers `{Target} : Contract := fun c r =>
  match c with
  | Syscall n args =>
      match args with
      | _ :: AMut b :: _ | AMut b :: _ =>
          match from_ret (r_ret r) with Ok m => m <= Z.of_nat (length b) | Err _ => True end
      | _ => True
      end
  | CallFn _ _ => True
  end.

Section Resolve.
Context `{Target}.

(** Each call the resolver makes. *)
Lemma api_transfers {B} (p : Prog B) Q : ensures any_reply p Q -> ensures transfers p Q.
Proof. intros Hp. eapply ensures_mono; [exact Hp|done|done]. Qed.

Lemma read_ensures fd buf :
  bytes_ok buf ->
  ensures transfers (read fd buf) (fun r => same_buf buf r.1 /\
    fallible (fun n => 0 <= n <= Z.of_nat (length buf)) r.2).
Proof.
  intros Hb. unfold read. through. split; [settle|].
  cbn [fallible snd]. destruct (from_ret _) as [n|e] eqn:E.
  - cbn in Hr. cbn in E. rewrite E in Hr. pose proof (conform_ret_range (Syscall 0 []) r) as Hu.
    apply from_ret_ok in E as [-> _]; [|exact Hu]. cbn in *. lia.
  - eapply from_ret_err_range; [apply conform_u64|exact E].
Qed.

Lemma getrandom_ensures buf flags :
  bytes_ok buf -> ensures transfers (getrandom buf flags) (buffered buf anything).
Proof.
  intros Hb. unfold getrandom. settle. cbn [snd].
  destruct (from_ret _) as [n|e] eqn:E; [done|]. eapply from_ret_err_range; [apply conform_u64|exact E].
Qed.

Lemma open_ensures path flags mode : ensures transfers (open path flags mode) (fallible is_i32).
Proof. unfold open, openat. settle. Qed.
Lemma close_ensures fd : ensures transfers (close fd) anything.
Proof. unfold close. settle. Qed.
Lemma socket_ensures a b c : ensures transfers (socket a b c) (fallible is_i32).
Proof. unfold socket. settle. Qed.
Lemma sendto_ensures fd buf flags dest : ensures transfers (sendto_in fd buf flags dest) anything.
Proof. unfold sendto_in. settle. Qed.
Lemma poll_ensures fds timeout :
  ensures transfers (poll fds timeout) (fun r => fallible anything r.2).
Proof.
  unfold poll, poll_x86_64, poll_aarch64. destruct arch; through; cbn [fallible snd];
    (destruct (from_ret _) as [n|e] eqn:E; [done|eapply from_ret_err_range; [apply conform_u64|exact E]]).
Qed.

Lemma recvfrom_ensures fd buf flags :
  bytes_ok buf ->
  ensures transfers (recvfrom_in fd buf flags) (fun r => same_buf buf r.1 /\
    fallible (fun p => p.1 <= Z.of_nat (length buf)) r.2).
Proof.
  intros Hb. unfold recvfrom_in. through. split.
  - apply (same_buf_out _ _ _ [encode SockAddrIn_zero; le_enc 4 16]); [reflexivity|].
    auto using Forall_cons_2, Forall_nil_2, encode_bytes, le_enc_bytes.
  - cbn [fst snd]. destruct (from_ret _) as [n|e] eqn:E.
    + cbn in Hr, E. rewrite E in Hr. exact Hr.
    + eapply from_ret_err_range; [apply conform_u64|exact E].
Qed.

(** ** The configuration *)

Lemma read_config_ensures fuel f raw total :
  bytes_ok raw -> 0 <= total < Z.of_nat (length raw) -> Z.of_nat (length raw) < 2 ^ 32 ->
  Z.of_nat (length raw) - total < Z.of_nat fuel ->
  ensures transfers (read_config fuel f raw total) (fallible (fun r =>
    bytes_ok r.1 /\ length r.1 = length raw /\ r.2 <= Z.of_nat (length raw))).
Proof.
  revert raw total. induction fuel as [|fuel IH]; intros raw total Hb Ht Hsz Hf; [lia|].
  cbn [read_config]. unfold slice_from. destruct (Z.leb_spec total (Z.of_nat (length raw))); [|lia].
  cbn [or_panic bind]. eapply ensures_bind; [by apply read_ensures, Forall_drop|].
  intros [tail r] [[Hl Htb] Hr]. cbn [fst snd] in *. rewrite length_drop in *.
  assert (bytes_ok (take (Z.to_nat total) raw ++ tail)) as Hb'
    by (apply Forall_app; split; [by apply Forall_take|done]).
  assert (length (take (Z.to_nat total) raw ++ tail) = length raw) as Hl'
    by (rewrite length_app, length_take; lia).
  destruct r as [n|e].
  - cbn [fallible] in Hr. unfold usize_add. destruct (Z.ltb_spec (total + n) (2 ^ 64)); [|lia].
    cbn [bind]. rewrite Hl'.
    destruct (Z.eqb_spec n 0), (Z.leb_spec (Z.of_nat (length raw)) (total + n)); cbn [orb];
      try (cbn; split_and!; [done|done|lia]).
    rewrite <- Hl'. apply IH; rewrite ?Hl'; done || lia.
  - eapply ensures_bind; [apply close_ensures|]. intros _ _. exact Hr.
Qed.

Lemma scan_config_errors raw : fallible anything (scan_config raw).
Proof.
  unfold scan_config. destruct (from_utf8 raw); [|unfold fallible, errno_in_range; simpl; lia].
  destruct (fold_left _ _ _); [unfold fallible, errno_in_range; simpl; lia|done].
Qed.

Lemma read_nameservers_ensures : ensures transfers read_nameservers (fallible anything).
Proof.
  unfold read_nameservers. eapply ensures_bind_ok; [apply open_ensures| |done].
  intros f _. eapply ensures_bind_ok; [apply read_config_ensures| |done];
    rewrite ?length_replicate; try lia; [apply Forall_replicate; int_ranges; lia|].
  intros [raw total] (Hb & Hl & Ht). cbn [fst snd] in Hb, Hl, Ht.
  eapply ensures_bind; [apply close_ensures|]. intros _ _.
  unfold slice_to.
  destruct (Z.leb_spec total (Z.of_nat (length raw))); [|lia].
  cbn [or_panic bind ensures]. apply scan_config_errors.
Qed.

(** ** The query loop *)

(** An accepted reply: from the whole socket buffer, long enough for a header,
    and carrying the id of the query. *)
Definition accepted (id : Z) (r : list Z * Z) : Prop :=
  bytes_ok r.1 /\ length r.1 = 512%nat /\ 12 <= r.2 <= 512 /\ be_dec (slice 0 2 r.1) = id.

Lemma zeros_bytes n : bytes_ok (replicate n 0).
Proof. apply Forall_replicate. int_ranges. lia. Qed.

Lemma first_id rbuf :
  length rbuf = 512%nat ->
  exists a b, at_ rbuf 0 = Ret a /\ at_ rbuf 1 = Ret b /\ slice 0 2 rbuf = [a; b].
Proof. destruct rbuf as [|a [|b l]]; try done. intros _. by exists a, b. Qed.

Lemma ask_ensures sock id q server :
  ensures transfers (ask sock id q server) (fun o =>
    match o with Some r => fallible (accepted id) r | None => True end).
Proof.
  unfold ask. eapply ensures_bind; [apply sendto_ensures|]. intros sent _.
  destruct (negb (is_ok sent)); [done|].
  eapply ensures_bind; [apply poll_ensures|]. intros [pfds ready] Hready. cbn [snd] in Hready.
  destruct ready as [ready|e]; [|exact Hready]. destruct (ready =? 0); [done|].
  eapply ensures_bind; [apply recvfrom_ensures, zeros_bytes|].
  intros [rbuf got] [[Hl Hb] Hgot]. cbn [fst snd] in *. rewrite length_replicate in Hl.
  destruct got as [[n from]|e]; [|done]. cbn [fallible fst] in Hgot. rewrite length_replicate in Hgot.
  destruct (negb _) eqn:Hfrom; cbn [orb]; [done|]. destruct (Z.ltb_spec n 12); [done|].
  destruct (first_id rbuf Hl) as (a & b & -> & -> & Hs). cbn [bind].
  destruct (Z.eqb_spec (be_dec [a; b]) id); cbn [negb]; [|done].
  cbn. unfold accepted. cbn [fst snd]. rewrite Hs. split_and!; try done; lia.
Qed.

Lemma attempts_ensures k sock id q servers :
  ensures transfers (attempts k sock id q servers) (fallible (accepted id)).
Proof.
  induction k as [|k IH]; cbn [attempts]; [unfold fallible, errno_in_range; simpl; lia|].
  eapply ensures_bind with (P := fun o => match o with Some r => fallible (accepted id) r | None => True end).
  - clear IH. induction servers as [|s servers IHs]; cbn [ask_all]; [done|].
    eapply ensures_bind; [apply ask_ensures|]. intros [r|] Hr; [exact Hr|exact IHs].
  - intros [r|] Hr; [exact Hr|exact IH].
Qed.

Lemma build_query_len buf id hostname qtype :
  let '(buf', r) := build_query buf id hostname qtype in
  match r with
  | Ok n => length buf' = length buf /\ 0 <= n <= Z.of_nat (length buf)
  | Err e => e = EINVAL
  end.
Proof.
  pose proof (build_query_lemma buf id hostname qtype) as Hq. cbv zeta in Hq.
  destruct (_ && _) eqn:E in Hq.
  - rewrite Hq. apply andb_prop in E as [_ E%bool_decide_eq_true_1].
    rewrite length_app, length_drop. lia.
  - destruct (build_query _ _ _ _) as [buf' r]. cbn [snd] in Hq. by subst.
Qed.

Lemma query_ensures hostname qtype :
  ensures transfers (query hostname qtype) (fallible (fun r => exists id, accepted id r)).
Proof.
  unfold query. eapply ensures_bind_ok; [apply read_nameservers_ensures| |done]. intros servers _.
  eapply ensures_bind; [apply getrandom_ensures, zeros_bytes|]. intros [idb r] [_ Hr].
  cbn [snd] in Hr. destruct r as [n|e]; [|exact Hr]. unfold bind_ok at 1. cbn [bind].
  pose proof (build_query_len (replicate 256 0) (be_dec idb) hostname qtype) as Hq.
  destruct (build_query _ _ _ _) as [qbuf [qlen|e]].
  2: { subst. unfold bind_ok. simpl. unfold errno_in_range. simpl. lia. }
  destruct Hq as [Hl Hn]. rewrite <- Hl in Hn. unfold bind_ok at 1. cbn [bind].
  eapply ensures_bind_ok; [apply socket_ensures| |done]. intros sock _.
  unfold slice_to. destruct (Z.leb_spec qlen (Z.of_nat (length qbuf))); [|lia].
  cbn [or_panic bind]. eapply ensures_bind; [apply attempts_ensures|]. intros r Hr'.
  eapply ensures_bind; [apply close_ensures|]. intros _ _.
  destruct r; [by exists (be_dec idb)|exact Hr'].
Qed.

Lemma parses_ensures {A} (p : Prog (result A)) P :
  parses p P -> ensures transfers p (fallible P).
Proof.
  intros (r & -> & Hr). destruct r; [exact Hr|].
  cbn. unfold errno_in_range. destruct Hr as [->| ->]; simpl; lia.
Qed.
End Resolve.

(** [C31] Resolution is total and memory-safe against any kernel that honours its
    transfer counts and any network: whatever is in [/etc/resolv.conf] and
    whatever the name servers send, [resolve_a] and [resolve_aaaa] make finitely
    many calls and return, without a panic, either one to eight addresses of the
    right size or an error number in range. *)
Theorem resolve_total `{Target} hostname :
  ensures transfers (resolve_a hostname) (fallible (fun out => exists l,
    AddrList4_as_slice out = Some l /\ (1 <= length l <= 8)%nat /\
    Forall (fun a => length a = 4%nat) l)) /\
  ensures transfers (resolve_aaaa hostname) (fallible (fun out => exists l,
    AddrList6_as_slice out = Some l /\ (1 <= length l <= 8)%nat /\
    Forall (fun a => length a = 16%nat) l)).
Proof.
  assert (forall buf n w a, length buf = 512%nat -> n <= 512 -> from_reply buf w n a -> length a = w) as Hlen.
  { intros buf n w a Hl Hn (p & ? & ? & ->). apply slice_length. lia. }
  split; unfold resolve_a, resolve_aaaa;
    (eapply ensures_bind_ok; [apply query_ensures| |done]);
    intros [buf n] (id & Hb & Hl & Hn & _); cbn [fst snd] in *; apply parses_ensures.
  - eapply parses_mono; [apply (parse_answers_parses buf Hb QTYPE_A 4); [lia|apply AddrList4_empty_contents]|].
    intros out (l & ? & ? & Hf). exists l. split_and!; try done; try lia.
    eapply Forall_impl; [exact Hf|]. intros a. apply Hlen; [done|lia].
  - eapply parses_mono; [apply (parse_answers_parses buf Hb QTYPE_AAAA 16); [lia|apply AddrList6_empty_contents]|].
    intros out (l & ? & ? & Hf). exists l. split_and!; try done; try lia.
    eapply Forall_impl; [exact Hf|]. intros a. apply Hlen; [done|lia].
Qed.

Lemma resolve_total_witness :
  ensures (transfers (H := Aarch64)) (resolve_a (H := Aarch64) (str "a.io")) (fallible (fun out =>
    exists l, AddrList4_as_slice out = Some l /\ (1 <= length l <= 8)%nat /\
    Forall (fun a => length a = 4%nat) l)).
Proof. apply (resolve_total (H := Aarch64) (str "a.io")). Defined.
