(* ===== verification/ConfigSpec.v ===== *)
(** The resolver's configuration file: what a line of [/etc/resolv.conf] says, as a
    grammar, an encoder of text as UTF-8, and the proof that the scan of the file
    reads exactly that, for every file. *)

From stdpp Require Import base list option numbers strings.
From Stdlib Require Import ZArith Lia.
From S2P Require Import Prelude Prog Layout Asm Arch Dns.

(** ** Text and its encoding *)

Definition scalar (c : Z) : Prop := 0 <= c < 0xD800 \/ 0xE000 <= c < 0x110000.

(** UTF-8 (RFC 3629, section 3): one to four bytes, six bits in each but the first. *)
Definition utf8_char (c : Z) : list Z :=
  if c <? 0x80 then [c]
  else if c <? 0x800 then [0xC0 + c / 64; 0x80 + c mod 64]
  else if c <? 0x10000 then [0xE0 + c / 4096; 0x80 + c / 64 mod 64; 0x80 + c mod 64]
  else [0xF0 + c / 262144; 0x80 + c / 4096 mod 64; 0x80 + c / 64 mod 64; 0x80 + c mod 64].
Definition utf8 (text : list Z) : list Z := concat (map utf8_char text).

Ltac cond_cases :=
  repeat match goal with
  | |- context [?a <=? ?b] => destruct (Z.leb_spec a b); try lia
  | |- context [?a <? ?b] => destruct (Z.ltb_spec a b); try lia
  | |- context [?a =? ?b] => destruct (Z.eqb_spec a b); try lia
  end.
Ltac cond_cases_in H :=
  repeat match type of H with
  | context [?a <=? ?b] => destruct (Z.leb_spec a b)
  | context [?a <? ?b] => destruct (Z.ltb_spec a b)
  | context [?a =? ?b] => destruct (Z.eqb_spec a b)
  end.

(** The encoding of a number given by its six-bit digits. *)
Lemma utf8_char_digits x y z w :
  0 <= x -> 0 <= y < 64 -> 0 <= z < 64 -> 0 <= w < 64 ->
  let c := 262144 * x + 4096 * y + 64 * z + w in
  utf8_char c =
  if c <? 0x80 then [c]
  else if c <? 0x800 then [0xC0 + (4096 * x + 64 * y + z); 0x80 + w]
  else if c <? 0x10000 then [0xE0 + (64 * x + y); 0x80 + z; 0x80 + w]
  else [0xF0 + x; 0x80 + y; 0x80 + z; 0x80 + w].
Proof.
  intros Hx Hy Hz Hw c. unfold utf8_char.
  assert (c mod 64 = w /\ c / 64 mod 64 = z /\ c / 4096 mod 64 = y /\ c / 262144 = x /\ c / 4096 = 64 * x + y /\
    c / 64 = 4096 * x + 64 * y + z) as (M0 & M1 & M2 & D3 & D2 & D1).
  { unfold c. Z.to_euclidean_division_equations. lia. }
  by rewrite M2, M1, M0, D3, D2, D1.
Qed.

Lemma digits64 c : 0 <= c ->
  exists x y z w, c = 262144 * x + 4096 * y + 64 * z + w /\ 0 <= x /\ 0 <= y < 64 /\ 0 <= z < 64 /\ 0 <= w < 64.
Proof.
  intros Hc. exists (c / 262144), (c / 4096 mod 64), (c / 64 mod 64), (c mod 64).
  Z.to_euclidean_division_equations. lia.
Qed.

Lemma utf8_next_char c l : scalar c -> utf8_next (utf8_char c ++ l) = Some (c, l).
Proof.
  unfold scalar. intros Hc. destruct (digits64 c) as (x & y & z & w & E & Hx & Hy & Hz & Hw); [lia|].
  rewrite E at 1. rewrite utf8_char_digits by done. rewrite <- E.
  destruct (Z.ltb_spec c 0x80); [|destruct (Z.ltb_spec c 0x800); [|destruct (Z.ltb_spec c 0x10000)]];
    cbn [app utf8_next]; unfold is_cont; cond_cases; cbn [andb orb negb]; do 2 f_equal; lia.
Qed.

Ltac next_bytes H Hl n :=
  lazymatch n with
  | O => idtac
  | S ?n =>
      let Hb := fresh "Hb" in
      match type of H with context [match ?l with _ => _ end] =>
        is_var l; destruct l as [|? l]; [discriminate H|]; apply Forall_cons in Hl as [Hb Hl] end;
      next_bytes H Hl n
  end.

Lemma utf8_next_inv l c r :
  bytes_ok l -> utf8_next l = Some (c, r) -> scalar c /\ l = utf8_char c ++ r /\ bytes_ok r.
Proof.
  intros Hl. destruct l as [|a l]; [done|]. apply Forall_cons in Hl as [Ha Hl]. int_ranges.
  cbn [utf8_next]. destruct (Z.ltb_spec a 0x80).
  { intros [= <- <-]. unfold scalar, utf8_char. split_and!; [lia|by cond_cases|done]. }
  unfold is_cont. intros E.
  destruct (Z.leb_spec 0xC2 a), (Z.leb_spec a 0xDF); cbn [andb] in E; try lia.
  - next_bytes E Hl 1%nat. cond_cases_in E; cbn [andb] in E; try discriminate E. injection E as <- <-.
    split_and!; [unfold scalar; lia| |done].
    replace ((a - 0xC0) * 64 + (z - 0x80)) with (262144 * 0 + 4096 * 0 + 64 * (a - 0xC0) + (z - 0x80)) by lia.
    rewrite utf8_char_digits by lia. cond_cases. cbn [app]. repeat f_equal; lia.
  - destruct (Z.leb_spec 0xE0 a); [|lia]. destruct (Z.leb_spec a 0xEF); cbn [andb] in E.
    + next_bytes E Hl 2%nat. cond_cases_in E; cbn [andb orb negb] in E; try discriminate E; try lia;
        injection E as <- <-; (split_and!; [unfold scalar; lia| |done]);
        replace ((a - 0xE0) * 4096 + (z - 0x80) * 64 + (z0 - 0x80))
          with (262144 * 0 + 4096 * (a - 0xE0) + 64 * (z - 0x80) + (z0 - 0x80)) by lia;
        rewrite utf8_char_digits by lia; cond_cases; cbn [app]; repeat f_equal; lia.
    + destruct (Z.leb_spec 0xF0 a); [|lia]. destruct (Z.leb_spec a 0xF4); cbn [andb] in E; [|done].
      next_bytes E Hl 3%nat. cond_cases_in E; cbn [andb orb negb] in E; try discriminate E; try lia;
        injection E as <- <-; (split_and!; [unfold scalar; lia| |done]);
        replace ((a - 0xF0) * 262144 + (z - 0x80) * 4096 + (z0 - 0x80) * 64 + (z1 - 0x80))
          with (262144 * (a - 0xF0) + 4096 * (z - 0x80) + 64 * (z0 - 0x80) + (z1 - 0x80)) by lia;
        rewrite utf8_char_digits by lia; cond_cases; cbn [app]; repeat f_equal; lia.
  - revert E. by cond_cases.
Qed.

Lemma utf8_char_bytes c : scalar c -> utf8_char c <> [].
Proof. intros _. unfold utf8_char. by repeat case_match. Qed.

Lemma utf8_decode_encode text : Forall scalar text -> forall fuel,
  (length (utf8 text) <= fuel)%nat -> utf8_decode fuel (utf8 text) = Some text.
Proof.
  unfold utf8. induction 1 as [|c text Hc _ IH]; intros fuel Hf; [by destruct fuel|].
  cbn [map concat] in *. rewrite length_app in Hf.
  destruct (utf8_char c) as [|b bs] eqn:E; [by apply utf8_char_bytes in E|].
  destruct fuel as [|fuel]; [simpl in Hf; lia|]. cbn [app utf8_decode].
  pose proof (utf8_next_char c (concat (map utf8_char text)) Hc) as En. rewrite E in En. cbn [app] in En.
  rewrite En, IH by (simpl in Hf; lia). done.
Qed.

Lemma utf8_decode_inv fuel : forall l text,
  bytes_ok l -> utf8_decode fuel l = Some text -> Forall scalar text /\ l = utf8 text.
Proof.
  induction fuel as [|fuel IH]; intros [|b l] text Hl E; cbn [utf8_decode] in E; try discriminate E.
  1,2: injection E as <-; by split; [constructor|].
  destruct (utf8_next (b :: l)) as [[c r]|] eqn:En; [|done].
  destruct (utf8_decode fuel r) as [text'|] eqn:Er; [|done]. injection E as <-.
  destruct (utf8_next_inv _ _ _ Hl En) as (Hc & -> & Hr). destruct (IH r text' Hr Er) as [Ht ->].
  split; [by constructor|done].
Qed.

(** [from_utf8] accepts the encodings of text, and nothing else. *)
Lemma from_utf8_encode text : Forall scalar text -> from_utf8 (utf8 text) = Some text.
Proof. intros Ht. by apply utf8_decode_encode. Qed.

Lemma from_utf8_none l :
  bytes_ok l -> (forall text, Forall scalar text -> l <> utf8 text) -> from_utf8 l = None.
Proof.
  intros Hl Hno. destruct (from_utf8 l) as [text|] eqn:E; [|done].
  apply utf8_decode_inv in E as [Ht E]; [|done]. by destruct (Hno text Ht).
Qed.

(** ** The grammar of a line *)

Definition blanks (l : list Z) : Prop := Forall (fun c => is_whitespace c = true) l.
Definition digit (x : Z) : Prop := 48 <= x <= 57.
Definition numeral (acc : Z) (ds : list Z) : Z := fold_left (fun n d => n * 10 + (d - 48)) ds acc.

(** A decimal number below 256; a plus sign before it and zeros are allowed. *)
Definition octet (o : list Z) (a : Z) : Prop :=
  exists ds, (o = ds \/ o = 43 :: ds) /\ ds <> [] /\ Forall digit ds /\ numeral 0 ds = a /\ a < 256.

Fixpoint join (sep : Z) (ls : list (list Z)) : list Z :=
  match ls with
  | [] => []
  | [l] => l
  | l :: ls => l ++ sep :: join sep ls
  end.

(** Four octets and the dots between them. *)
Definition quad (q : list Z) (addr : list Z) : Prop :=
  exists os, q = join 46 os /\ Forall2 octet os addr /\ length addr = 4%nat.

(** [nameserver] and an IPv4 address, blanks before, between and after. *)
Definition server_line (line addr : list Z) : Prop :=
  exists before gap q after, line = before ++ str "nameserver" ++ gap ++ q ++ after /\
    blanks before /\ blanks gap /\ blanks after /\ quad q addr.

(** What a line says: the address of a server, or nothing. *)
Definition says (line : list Z) (o : option (list Z)) : Prop :=
  match o with
  | Some addr => server_line line addr
  | None => forall addr, ~ server_line line addr
  end.

(** ** Splitting and joining *)

Definition avoids (c : Z) (l : list Z) : Prop := Forall (fun x => x <> c) l.

Lemma split_on_none c l : avoids c l -> split_on c l = [l].
Proof.
  induction 1 as [|x l Hx _ IH]; [done|]. simpl. rewrite IH. by destruct (Z.eqb_spec x c).
Qed.

Lemma split_on_app c l r : avoids c l -> split_on c (l ++ c :: r) = l :: split_on c r.
Proof.
  induction 1 as [|x l Hx _ IH]; simpl; [by rewrite Z.eqb_refl|]. rewrite IH. by destruct (Z.eqb_spec x c).
Qed.

Lemma split_on_join c ls : ls <> [] -> Forall (avoids c) ls -> split_on c (join c ls) = ls.
Proof.
  intros Hne Hls. induction Hls as [|l ls Hl Hls IH]; [done|]. destruct ls as [|l' ls]; [by apply split_on_none|].
  change (join c (l :: l' :: ls)) with (l ++ c :: join c (l' :: ls)). by rewrite split_on_app, IH.
Qed.

Lemma split_on_cons c l : exists p ps, split_on c l = p :: ps.
Proof.
  induction l as [|x l (p & ps & E)]; simpl; [by eexists _, _|]. destruct (x =? c); [by eexists _, _|].
  rewrite E. by eexists _, _.
Qed.

Lemma join_split_on c l : join c (split_on c l) = l.
Proof.
  induction l as [|x l IH]; [done|]. simpl. destruct (split_on_cons c l) as (p & ps & E). rewrite E in *.
  destruct (Z.eqb_spec x c) as [->|].
  - change (join c ([] :: p :: ps)) with (c :: join c (p :: ps)). by rewrite IH.
  - rewrite <- IH. by destruct ps.
Qed.

(** ** Trimming *)

Lemma trim_start_blanks b l : blanks b -> trim_start (b ++ l) = trim_start l.
Proof. induction 1 as [|x b Hx _ IH]; [done|]. simpl. by rewrite Hx. Qed.

Lemma trim_start_split l : exists b, blanks b /\ l = b ++ trim_start l.
Proof.
  induction l as [|x l (b & Hb & E)]; [exists []; split; [constructor|done]|]. simpl.
  destruct (is_whitespace x) eqn:Hx; [|exists []; split; [constructor|done]].
  exists (x :: b). split; [by constructor|]. simpl. by rewrite <- E.
Qed.

Lemma blanks_rev b : blanks b -> blanks (rev b).
Proof. apply Forall_rev. Qed.

Lemma trim_split l : exists b e, blanks b /\ blanks e /\ l = b ++ trim l ++ e.
Proof.
  unfold trim. destruct (trim_start_split l) as (b & Hb & E). set (m := trim_start l) in *.
  destruct (trim_start_split (rev m)) as (e & He & E').
  exists b, (rev e). split_and!; [done|by apply blanks_rev|].
  by rewrite <- rev_app_distr, <- E', rev_involutive.
Qed.

Lemma trim_start_end l e :
  blanks e -> trim_start (l ++ e) = match trim_start l with [] => [] | m => m ++ e end.
Proof.
  intros He. induction l as [|x l IH]; simpl.
  - pose proof (trim_start_blanks e [] He) as E. by rewrite app_nil_r in E.
  - by destruct (is_whitespace x).
Qed.

Lemma trim_around b l e : blanks b -> blanks e -> trim (b ++ l ++ e) = trim l.
Proof.
  intros Hb He. unfold trim. rewrite trim_start_blanks by done. rewrite trim_start_end by done.
  destruct (trim_start l) as [|x m]; [done|]. rewrite rev_app_distr.
  rewrite trim_start_blanks by by apply blanks_rev. done.
Qed.

(** Text with neither a blank in front nor at the end. *)
Definition tight (l : list Z) : Prop :=
  exists x m y, is_whitespace x = false /\ is_whitespace y = false /\ (l = x :: m ++ [y] \/ (l = [x] /\ x = y)).

Lemma trim_tight l : tight l -> trim l = l.
Proof.
  intros (x & m & y & Hx & Hy & [->|[-> ->]]); unfold trim; cbn [trim_start]; rewrite Hx.
  - change (x :: m ++ [y]) with ((x :: m) ++ [y]). rewrite rev_app_distr. cbn [rev app trim_start].
    rewrite Hy. cbn [rev]. by rewrite rev_app_distr, rev_involutive.
  - cbn. rewrite Hx. done.
Qed.

(** A carriage return at the end of a line is a blank like any other. *)
Lemma trim_strip_cr l : trim (strip_cr l) = trim l.
Proof.
  unfold strip_cr. destruct (rev l) as [|c r] eqn:E; [done|]. destruct (Z.eqb_spec c 13) as [->|]; [|done].
  assert (l = [] ++ rev r ++ [13]) as ->.
  { apply (f_equal (@rev Z)) in E. rewrite rev_involutive in E. exact E. }
  rewrite trim_around by (repeat constructor). done.
Qed.

(** ** Numbers and addresses *)

Lemma numeral_ge ds : forall acc, 0 <= acc -> Forall digit ds -> acc <= numeral acc ds.
Proof.
  unfold numeral, digit. induction ds as [|d ds IH]; intros acc Ha Hd; cbn [fold_left]; [lia|].
  apply Forall_cons in Hd as [Hd Hds]. specialize (IH (acc * 10 + (d - 48)) ltac:(lia) Hds). lia.
Qed.

Lemma parse_digits_spec ds : forall acc a, 0 <= acc < 256 ->
  parse_digits acc ds = Some a <-> Forall digit ds /\ numeral acc ds = a /\ a < 256.
Proof.
  induction ds as [|d ds IH]; intros acc a Ha; cbn [parse_digits].
  - unfold numeral. cbn [fold_left]. split; [intros [= <-]; split_and!; [constructor|done|lia]|].
    by intros (_ & -> & _).
  - rewrite Forall_cons. unfold digit at 1. change (numeral acc (d :: ds)) with (numeral (acc * 10 + (d - 48)) ds).
    destruct (Z.leb_spec 48 d), (Z.leb_spec d 57); cbn [andb]; try (split; [discriminate|lia]).
    destruct (Z.ltb_spec (acc * 10 + (d - 48)) 256).
    + rewrite IH by lia. intuition lia.
    + split; [discriminate|]. intros ([_ Hds] & <- & Hlt).
      pose proof (numeral_ge ds (acc * 10 + (d - 48)) ltac:(lia) Hds). lia.
Qed.

Lemma parse_u8_spec o a : parse_u8 o = Some a <-> octet o a.
Proof.
  unfold octet. split.
  - destruct o as [|c [|c' r]]; cbn [parse_u8]; [done| |].
    + destruct ((c =? 43) || (c =? 45)); [done|]. intros (Hd & Hn & Ha)%parse_digits_spec; [|lia].
      exists [c]. split_and!; [by left|done..].
    + destruct (Z.eqb_spec c 43) as [->|]; intros (Hd & Hn & Ha)%parse_digits_spec; try lia;
        eexists; (split; [by (left + right)|]); by split_and!.
  - intros (ds & Ho & Hne & Hd & Hn & Ha).
    assert (parse_digits 0 ds = Some a) as E by (apply parse_digits_spec; [lia|done]).
    destruct ds as [|d ds]; [done|]. apply Forall_cons in Hd as [Hd _]. unfold digit in Hd.
    destruct Ho as [->| ->]; cbn [parse_u8]; [|destruct (Z.eqb_spec 43 43); done].
    destruct (Z.eqb_spec d 43), (Z.eqb_spec d 45); try lia. by destruct ds.
Qed.

Lemma parse_ipv4_parts_spec parts : forall out addr,
  (length out <= 4)%nat ->
  parse_ipv4_parts parts out = Some addr <->
  exists new, addr = out ++ new /\ Forall2 octet parts new /\ length addr = 4%nat.
Proof.
  induction parts as [|p parts IH]; intros out addr Hl; cbn [parse_ipv4_parts].
  - destruct (Z.eqb_spec (Z.of_nat (length out)) 4) as [E|E]; split.
    + intros [= <-]. exists []. rewrite app_nil_r. split_and!; [done|constructor|lia].
    + intros (new & -> & Hf & _). apply Forall2_nil_inv_l in Hf as ->. by rewrite app_nil_r.
    + discriminate.
    + intros (new & -> & Hf & Hn). apply Forall2_nil_inv_l in Hf as ->. rewrite app_nil_r in Hn. lia.
  - destruct (Z.leb_spec 4 (Z.of_nat (length out))).
    + split; [discriminate|]. intros (new & -> & Hf & Hn). apply Forall2_length in Hf.
      rewrite length_app in Hn. simpl in Hf. lia.
    + destruct (parse_u8 p) as [b|] eqn:Ep.
      * rewrite IH by (rewrite length_app; simpl; lia). split.
        -- intros (new & -> & Hf & Hn). exists (b :: new). rewrite <- app_assoc in *. split_and!; [done| |done].
           constructor; [by apply parse_u8_spec|done].
        -- intros (new & -> & Hf & Hn). apply Forall2_cons_inv_l in Hf as (b' & new' & Hb & Hf & ->).
           apply parse_u8_spec in Hb. assert (b' = b) as -> by congruence.
           exists new'. rewrite <- app_assoc. by split_and!.
      * split; [discriminate|]. intros (new & -> & Hf & Hn).
        apply Forall2_cons_inv_l in Hf as (b' & new' & Hb & _). apply parse_u8_spec in Hb. congruence.
Qed.

Lemma octet_avoids o a : octet o a -> avoids 46 o.
Proof.
  intros (ds & Ho & _ & Hd & _). assert (avoids 46 ds) as Ha.
  { eapply Forall_impl; [exact Hd|]. unfold digit. intros x Hx. lia. }
  destruct Ho as [->| ->]; [done|]. by constructor.
Qed.

Lemma parse_ipv4_spec q addr : parse_ipv4 q = Some addr <-> quad q addr.
Proof.
  unfold parse_ipv4, quad. rewrite parse_ipv4_parts_spec by (simpl; lia). cbn [app]. split.
  - intros (new & -> & Hf & Hn). exists (split_on 46 q). by rewrite join_split_on.
  - intros (os & -> & Hf & Hn). exists addr. rewrite split_on_join; [done| |].
    + intros ->. apply Forall2_nil_inv_l in Hf as ->. done.
    + clear Hn. induction Hf; constructor; [by eapply octet_avoids|done].
Qed.

(** ** A line *)

(** What the code makes of a line. *)
Definition line_server (line : list Z) : option (list Z) :=
  match strip_prefix (str "nameserver") (trim line) with
  | Some rest => parse_ipv4 (trim rest)
  | None => None
  end.

Lemma strip_prefix_spec p l r : strip_prefix p l = Some r <-> l = p ++ r.
Proof.
  revert l. induction p as [|a p IH]; intros [|b l]; simpl; try (split; congruence).
  destruct (Z.eqb_spec a b) as [->|]; [rewrite IH|]; split; congruence.
Qed.

Lemma digit_not_blank x : digit x -> is_whitespace x = false.
Proof. unfold digit, is_whitespace. intros Hx. cond_cases; done. Qed.

(** An address starts and ends in something that is no blank. *)
Lemma octet_ends o a : octet o a ->
  (exists x m, o = x :: m /\ is_whitespace x = false) /\ exists m y, o = m ++ [y] /\ is_whitespace y = false.
Proof.
  intros (ds & Ho & Hne & Hd & _). destruct (exists_last Hne) as (m & y & E).
  assert (is_whitespace y = false) as Hy.
  { apply digit_not_blank. rewrite E in Hd. apply Forall_app in Hd as [_ Hd]. by apply Forall_cons in Hd as [? _]. }
  destruct ds as [|d ds]; [done|]. apply Forall_cons in Hd as [Hd%digit_not_blank _].
  destruct Ho as [->| ->]; split; eauto.
  exists (43 :: m), y. by rewrite E.
Qed.

Lemma quad_ends q addr : quad q addr ->
  (exists x m, q = x :: m /\ is_whitespace x = false) /\ exists m y, q = m ++ [y] /\ is_whitespace y = false.
Proof.
  intros (os & -> & Hf & Hn). pose proof (Forall2_length _ _ _ Hf) as Hl. rewrite Hn in Hl.
  destruct os as [|o1 [|o2 [|o3 [|o4 [|]]]]]; try discriminate Hl. cbn [join].
  repeat (apply Forall2_cons_inv_l in Hf as (? & ? & ? & Hf & ->)).
  destruct (octet_ends o1 _ ltac:(eassumption)) as [(c & m & -> & Hc) _].
  destruct (octet_ends o4 _ ltac:(eassumption)) as [_ (m' & e & -> & He)]. split.
  - eexists c, _. by split.
  - eexists ((c :: m) ++ 46 :: o2 ++ 46 :: o3 ++ 46 :: m'), e. split; [|exact He].
    cbn [app]. rewrite <- !app_assoc. cbn [app]. rewrite <- !app_assoc. cbn [app]. by rewrite <- !app_assoc.
Qed.

Lemma line_server_spec line addr : line_server line = Some addr <-> server_line line addr.
Proof.
  unfold line_server, server_line. split.
  - destruct (strip_prefix _ _) as [rest|] eqn:E; [|done]. apply strip_prefix_spec in E.
    intros Hq%parse_ipv4_spec. destruct (trim_split line) as (b & e & Hb & He & El).
    destruct (trim_split rest) as (b' & e' & Hb' & He' & Er).
    exists b, b', (trim rest), (e' ++ e). split_and!; try done; [|by apply Forall_app].
    rewrite El at 1. rewrite E, Er at 1. by rewrite <- !app_assoc.
  - intros (before & gap & q & after & -> & Hb & Hg & Ha & Hq).
    destruct (quad_ends q addr Hq) as [(x & m & Ex & Hx) (m' & y & Ey & Hy)].
    replace (before ++ str "nameserver" ++ gap ++ q ++ after)
      with (before ++ (str "nameserver" ++ gap ++ q) ++ after) by by rewrite <- !app_assoc.
    rewrite trim_around, trim_tight; [|exists 110, (str "ameserver" ++ gap ++ m'), y|done..].
    2: { split_and!; [done|done|left]. rewrite Ey. cbn [app]. by rewrite <- !app_assoc. }
    rewrite (proj2 (strip_prefix_spec _ _ (gap ++ q)) eq_refl).
    rewrite <- (app_nil_r q), trim_around by (done || constructor).
    rewrite trim_tight; [by apply parse_ipv4_spec|].
    destruct m as [|x' m]; [|].
    + exists x, [], x. split_and!; [done|done|right]. done.
    + rewrite Ex in Ey. destruct m' as [|z m']; [discriminate Ey|]. injection Ey as <- Ey.
      exists x, m', y. split_and!; [done|done|left]. by rewrite Ex, Ey.
Qed.

Lemma says_spec line o : says line o <-> line_server line = o.
Proof.
  destruct o as [addr|]; cbn [says]; [symmetry; apply line_server_spec|]. split.
  - intros Hno. destruct (line_server line) as [addr|] eqn:E; [|done].
    by destruct (Hno addr); apply line_server_spec.
  - intros E addr Hs%line_server_spec. congruence.
Qed.

(** ** The file *)

Definition keep (servers : list (list Z)) (o : option (list Z)) : list (list Z) :=
  match o with
  | Some addr => if Z.of_nat (length servers) <? MAX_NAMESERVERS then servers ++ [addr] else servers
  | None => servers
  end.

Lemma scan_line_keep servers line : scan_line servers line = keep servers (line_server line).
Proof. unfold scan_line, keep, line_server. by destruct (strip_prefix _ _). Qed.

Lemma scan_line_cr servers line : scan_line servers (strip_cr line) = scan_line servers line.
Proof. unfold scan_line. by rewrite trim_strip_cr. Qed.

(** Removing the carriage returns and an empty last line makes no difference. *)
Lemma scan_lines_from ls : forall servers,
  fold_left scan_line (lines_from ls) servers = fold_left scan_line ls servers.
Proof.
  induction ls as [|l ls IH]; intros servers; [done|]. destruct ls as [|l' ls]; [by destruct l|].
  change (fold_left scan_line (lines_from (l' :: ls)) (scan_line servers (strip_cr l)) =
          fold_left scan_line (l' :: ls) (scan_line servers l)).
  by rewrite scan_line_cr, IH.
Qed.

Lemma keep_all os : forall servers, (length servers <= 3)%nat ->
  fold_left keep os servers = take 3 (servers ++ omap id os).
Proof.
  induction os as [|o os IH]; intros servers Hs; cbn [fold_left].
  - by rewrite app_nil_r, take_ge by lia.
  - destruct o as [addr|]; cbn [keep omap list_omap id]; [|by apply IH]. unfold MAX_NAMESERVERS.
    destruct (Z.ltb_spec (Z.of_nat (length servers)) 3).
    + rewrite IH; [by rewrite <- app_assoc|]. rewrite length_app. simpl. lia.
    + rewrite IH by done. by rewrite !take_app_le by lia.
Qed.

Lemma scan_says ls os servers :
  Forall2 says ls os -> fold_left scan_line ls servers = fold_left keep os servers.
Proof.
  intros Hs. revert servers. induction Hs as [|l o ls os Hl _ IH]; intros servers; [done|].
  cbn [fold_left]. apply says_spec in Hl. by rewrite scan_line_keep, Hl, IH.
Qed.


(** A file with carriage returns, accents, an IPv6 server and a fourth server; and one
    in Latin-1. *)
Definition demo_config : list (list Z) :=
  [str "# g" ++ [233; 110; 233; 114; 233; 13]; str "nameserver 8.8.8.8" ++ [13];
   str "nameserver 2001:db8::1"; [9] ++ str "nameserver" ++ [9; 9] ++ str "192.168.0.254 "; [];
   str "nameserver 256.1.1.1"; str "nameserver 1.1.1.1"; str "nameserver 1.0.0.1"; []].

Definition demo_servers : list (option (list Z)) :=
  [None; Some [8; 8; 8; 8]; None; Some [192; 168; 0; 254]; None; None; Some [1; 1; 1; 1]; Some [1; 0; 0; 1]; None].

