(* ===== verification/Records.v ===== *)
(** The iterators over kernel record buffers, [fs::dirents] and
    [inotify::inotify_events]: reading back what the kernel packed, and never
    running away. *)

From stdpp Require Import base list option numbers strings.
From Stdlib Require Import ZArith Lia.
From S2P Require Import Prelude Prog Layout Asm Arch Events Fd Vdso Time Fs.

(** ** Slices of a record *)

Lemma slice_from_app {A} (x y : list A) n :
  n = Z.of_nat (length x) -> slice_from n (x ++ y) = Some y.
Proof.
  intros ->. unfold slice_from. rewrite length_app, Nat2Z.id, drop_app_length.
  by destruct (Z.leb_spec (Z.of_nat (length x)) (Z.of_nat (length x + length y))); [|lia].
Qed.

Lemma sub_slice_app {A} (x y z : list A) off n :
  off = Z.of_nat (length x) -> n = Z.of_nat (length y) ->
  sub_slice off n (x ++ y ++ z) = Some y.
Proof.
  intros -> ->. unfold sub_slice. rewrite !length_app, slice_middle by lia.
  by destruct (Z.leb_spec (Z.of_nat (length x) + Z.of_nat (length y))
    (Z.of_nat (length x + (length y + length z)))); [|lia].
Qed.

Lemma before_nul_app s pad : Forall (fun c => c <> 0) s -> before_nul (s ++ 0 :: pad) = s.
Proof.
  induction 1 as [|c s Hc _ IH]; [done|]. simpl. rewrite IH. by destruct (Z.eqb_spec c 0).
Qed.

Lemma until_nul_app s pad : Forall (fun c => c <> 0) s -> until_nul (s ++ 0 :: pad) = Some s.
Proof.
  induction 1 as [|c s Hc _ IH]; [done|]. simpl. rewrite IH. by destruct (Z.eqb_spec c 0).
Qed.

(** ** Directory entries *)

(** A [linux_dirent64] as the kernel lays it out: the name NUL-terminated and
    padded to [d_reclen]. *)
Record WireDirent := mkWireDirent { w_entry : RawDirent; w_off : Z; w_pad : list Z }.

Definition w_reclen (w : WireDirent) : Z :=
  Z.of_nat (20 + length (d_name (w_entry w)) + length (w_pad w)).
Definition wire_dirent (w : WireDirent) : list Z :=
  le_enc 8 (d_ino (w_entry w)) ++ le_enc 8 (w_off w) ++ le_enc 2 (w_reclen w) ++
  [d_type (w_entry w)] ++ d_name (w_entry w) ++ 0 :: w_pad w.
Definition wire_dirent_ok (w : WireDirent) : Prop :=
  is_u64 (d_ino (w_entry w)) /\ is_u16 (w_reclen w) /\
  Forall (fun c => c <> 0) (d_name (w_entry w)).

Lemma wire_dirent_length w : Z.of_nat (length (wire_dirent w)) = w_reclen w.
Proof. unfold wire_dirent, w_reclen. rewrite !length_app, !le_enc_length. simpl. lia. Qed.

Lemma dirents_next_wire w pre rest :
  wire_dirent_ok w -> Z.of_nat (length (pre ++ wire_dirent w ++ rest)) < 2 ^ 64 ->
  dirents_next (pre ++ wire_dirent w ++ rest) (Z.of_nat (length pre)) =
  Ret (Some (w_entry w, Z.of_nat (length (pre ++ wire_dirent w)))).
Proof.
  intros (Hino & Hrec & Hname) Hlen. pose proof (wire_dirent_length w) as Hw.
  assert (w_reclen w = 20 + Z.of_nat (length (d_name (w_entry w)) + length (w_pad w))) as Hr
    by (unfold w_reclen; lia).
  rewrite !length_app in Hlen. unfold dirents_next. rewrite !length_app.
  destruct (Z.leb_spec (Z.of_nat (length pre + (length (wire_dirent w) + length rest)))
    (Z.of_nat (length pre))); [lia|].
  rewrite slice_from_app by done. cbn [or_panic bind].
  destruct w as [[ino ty name] off pad]. cbn [w_entry d_ino d_type d_name w_off w_pad] in *.
  set (w := mkWireDirent _ _ _) in *.
  set (a := le_enc 8 ino). set (b := le_enc 8 off). set (c := le_enc 2 (w_reclen w)).
  assert (wire_dirent w ++ rest = a ++ b ++ c ++ [ty] ++ (name ++ 0 :: pad) ++ rest) as E.
  { unfold wire_dirent, a, b, c. simpl. by rewrite <- !app_assoc. }
  assert (length a = 8 /\ length b = 8 /\ length c = 2)%nat as (Ha & Hb & Hc) by done.
  rewrite E.
  assert (forall z, sub_slice 0 8 (a ++ z) = Some a) as -> by (intros; by apply (sub_slice_app [])).
  cbn [or_panic bind].
  rewrite (app_assoc a b), (sub_slice_app (a ++ b) c) by (rewrite ?length_app; lia).
  cbn [or_panic bind]. assert (le_dec c = w_reclen w) as -> by (apply le_dec_enc_small, Hrec).
  rewrite (app_assoc (a ++ b) c).
  replace 18%nat with (length ((a ++ b) ++ c)) by (rewrite !length_app; lia).
  cbn [app]. rewrite list_lookup_middle by done. cbn [or_panic bind].
  destruct (Z.ltb_spec (w_reclen w) 19); [lia|].
  change (ty :: (name ++ 0 :: pad) ++ rest) with ([ty] ++ (name ++ 0 :: pad) ++ rest).
  rewrite (app_assoc _ [ty]), sub_slice_app
    by (rewrite !length_app, ?Ha, ?Hb, ?Hc; simpl; lia).
  cbn [or_panic bind]. unfold usize_add.
  destruct (Z.ltb_spec (Z.of_nat (length pre) + w_reclen w) (2 ^ 64)); [|lia]. cbn [bind].
  rewrite before_nul_app by exact Hname.
  assert (le_dec a = ino) as -> by (apply le_dec_enc_small, Hino).
  do 4 f_equal. lia.
Qed.

Lemma dirents_from_wire ws : forall fuel pre,
  Forall wire_dirent_ok ws -> (length ws <= fuel)%nat ->
  Z.of_nat (length (pre ++ concat (map wire_dirent ws))) < 2 ^ 64 ->
  dirents_from fuel (pre ++ concat (map wire_dirent ws)) (Z.of_nat (length pre)) =
  Ret (map w_entry ws).
Proof.
  induction ws as [|w ws IH]; intros fuel pre Hok Hf Hlen; cbn [map concat].
  - rewrite app_nil_r. destruct fuel; cbn [dirents_from]; unfold dirents_next;
      destruct (Z.leb_spec (Z.of_nat (length pre)) (Z.of_nat (length pre))); done || lia.
  - apply Forall_cons in Hok as [Hw Hok]. destruct fuel as [|fuel]; [simpl in Hf; lia|].
    cbn [dirents_from map concat] in *.
    rewrite dirents_next_wire by done. cbn [bind].
    rewrite app_assoc in Hlen |- *.
    rewrite IH; [done|done|simpl in Hf; lia|exact Hlen].
Qed.

(** Directory listing: from a [getdents64] buffer holding any sequence of
    well-formed records, [dirents] yields exactly those entries in order, each
    name cut at its terminating NUL. *)
Theorem dirents_roundtrip ws :
  Forall wire_dirent_ok ws ->
  Z.of_nat (length (concat (map wire_dirent ws))) < 2 ^ 64 ->
  dirents (concat (map wire_dirent ws)) = Ret (map w_entry ws).
Proof.
  intros Hok Hlen. apply (dirents_from_wire ws _ []); [done| |done].
  clear Hlen. induction Hok as [|w ws Hw _ IH]; simpl; [lia|].
  rewrite length_app. pose proof (wire_dirent_length w). unfold w_reclen in *. lia.
Qed.

Lemma dirents_roundtrip_witness :
  let dot := mkWireDirent (mkRawDirent 2 DT_DIR (str ".")) 1 [0; 0; 0] in
  let file := mkWireDirent (mkRawDirent 12345 DT_REG (str "notes.txt")) 2 [0; 0; 0] in
  dirents (concat (map wire_dirent [dot; file])) = Ret [w_entry dot; w_entry file].
Proof.
  intros dot file. apply dirents_roundtrip; [|vm_compute; reflexivity].
  repeat constructor; vm_compute; congruence.
Defined.

(** A program that makes no call and does not run out of fuel. *)
Definition settles {A} (p : Prog A) : Prop := (exists a, p = Ret a) \/ p = Panic.

Lemma settles_bind {A B} (p : Prog A) (f : A -> Prog B) :
  settles p -> (forall a, p = Ret a -> settles (f a)) -> settles (bind p f).
Proof. intros [[a E]| ->] Hf; [|by right]. subst. by apply Hf. Qed.

Lemma settles_or_panic {A} (o : option A) : settles (or_panic o).
Proof. destruct o; [left; eauto|by right]. Qed.

Lemma settles_ret {A} (a : A) : settles (Ret a).
Proof. left. eauto. Qed.
Lemma settles_panic {A} : settles (@Panic A).
Proof. by right. Qed.
Lemma settles_usize_add a b : settles (usize_add a b).
Proof. unfold usize_add. destruct (_ <? _); [apply settles_ret|apply settles_panic]. Qed.

Lemma dirents_next_moves buf pos :
  settles (dirents_next buf pos) /\
  forall e pos', dirents_next buf pos = Ret (Some (e, pos')) -> pos + 19 <= pos'.
Proof.
  unfold dirents_next. destruct (_ <=? pos); [split; [apply settles_ret|done]|].
  destruct (slice_from pos buf) as [rec|]; [|split; [apply settles_panic|done]]. cbn [or_panic bind].
  destruct (sub_slice 0 8 rec); [|split; [apply settles_panic|done]]. cbn [or_panic bind].
  destruct (sub_slice 16 2 rec) as [rl|]; [|split; [apply settles_panic|done]]. cbn [or_panic bind].
  destruct (rec !! 18%nat); [|split; [apply settles_panic|done]]. cbn [or_panic bind].
  destruct (Z.ltb_spec (le_dec rl) 19); [split; [apply settles_panic|done]|].
  destruct (sub_slice 19 _ rec); [|split; [apply settles_panic|done]]. cbn [or_panic bind].
  unfold usize_add. destruct (_ <? _); [|split; [apply settles_panic|done]]. cbn [bind].
  split; [apply settles_ret|]. intros e pos' [= <- <-]. lia.
Qed.

Lemma dirents_from_settles fuel : forall buf pos,
  Z.of_nat (length buf) - pos <= Z.of_nat fuel -> settles (dirents_from fuel buf pos).
Proof.
  induction fuel as [|fuel IH]; intros buf pos Hf; cbn [dirents_from];
    destruct (dirents_next_moves buf pos) as [Hs Hm]; apply settles_bind; try exact Hs.
  - intros [[e pos']|] E; [|apply settles_ret]. exfalso. unfold dirents_next in E.
    by destruct (Z.leb_spec (Z.of_nat (length buf)) pos); [|lia].
  - intros [[e pos']|] E; [|apply settles_ret]. specialize (Hm _ _ E).
    apply settles_bind; [apply IH; lia|]. intros. apply settles_ret.
Qed.

(** ** inotify events *)

(** An event as the kernel packs it: [wd], [mask], [cookie], the length of the
    name region, and the region, NUL-padded. *)
Record WireEvent := mkWireEvent {
  v_wd : Z; v_mask : Z; v_cookie : Z; v_name : option (list Z); v_pad : list Z }.

Definition v_region (v : WireEvent) : list Z :=
  match v_name v with None => [] | Some n => n ++ 0 :: v_pad v end.
Definition wire_event (v : WireEvent) : list Z :=
  le_enc 4 (v_wd v) ++ le_enc 4 (v_mask v) ++ le_enc 4 (v_cookie v) ++
  le_enc 4 (Z.of_nat (length (v_region v))) ++ v_region v.
Definition event_of (v : WireEvent) : InotifyEvent :=
  mkInotifyEvent (v_wd v) (v_mask v) (v_cookie v) (v_region v).
Definition wire_event_ok (v : WireEvent) : Prop :=
  is_i32 (v_wd v) /\ is_u32 (v_mask v) /\ is_u32 (v_cookie v) /\
  is_u32 (Z.of_nat (length (v_region v))) /\
  match v_name v with None => True | Some n => Forall (fun c => c <> 0) n end.

Lemma event_name_of v : wire_event_ok v -> event_name (event_of v) = v_name v.
Proof.
  intros (_ & _ & _ & _ & Hn). unfold event_name, event_of, v_region. cbn [ie_name].
  destruct (v_name v) as [n|]; [|done].
  pose proof (until_nul_app n (v_pad v) Hn) as E. by destruct (n ++ 0 :: v_pad v).
Qed.

Lemma inotify_next_wire v rest :
  wire_event_ok v -> inotify_next (wire_event v ++ rest) = Ret (Some (event_of v, rest)).
Proof.
  intros (Hwd & Hm & Hc & Hl & _).
  set (a := le_enc 4 (v_wd v)). set (b := le_enc 4 (v_mask v)). set (c := le_enc 4 (v_cookie v)).
  set (d := le_enc 4 (Z.of_nat (length (v_region v)))).
  assert (wire_event v ++ rest = a ++ b ++ c ++ d ++ v_region v ++ rest) as E.
  { unfold wire_event. fold a b c d. by rewrite <- !app_assoc. }
  assert (length a = 4 /\ length b = 4 /\ length c = 4 /\ length d = 4)%nat as (Ha & Hb & Hc' & Hd) by done.
  assert (exists x l, wire_event v ++ rest = x :: l) as (x & l & E1).
  { rewrite E. unfold a. simpl. eauto. }
  unfold inotify_next. rewrite E1, <- E1, E.
  assert (forall z, sub_slice 0 4 (a ++ z) = Some a) as -> by (intros; by apply (sub_slice_app [])).
  cbn [or_panic bind]. rewrite (sub_slice_app a b) by lia. cbn [or_panic bind].
  rewrite (app_assoc a b), (sub_slice_app (a ++ b) c) by (rewrite ?length_app; lia).
  cbn [or_panic bind].
  rewrite (app_assoc _ c), (sub_slice_app _ d) by (rewrite ?length_app; lia). cbn [or_panic bind].
  assert (le_dec d = Z.of_nat (length (v_region v))) as -> by (apply le_dec_enc_small, Hl).
  rewrite (app_assoc _ d), (sub_slice_app _ (v_region v))
    by (rewrite ?length_app; unfold INOTIFY_HEADER; lia). cbn [or_panic bind].
  rewrite (app_assoc _ (v_region v)), slice_from_app
    by (rewrite !length_app; unfold INOTIFY_HEADER; lia). cbn [or_panic bind].
  unfold event_of. do 4 f_equal; [by apply dec_i32_le|apply le_dec_enc_small, Hm|apply le_dec_enc_small, Hc].
Qed.

Lemma inotify_collect_wire vs : forall fuel,
  Forall wire_event_ok vs -> (length vs <= fuel)%nat ->
  inotify_collect fuel (concat (map wire_event vs)) = Ret (map event_of vs).
Proof.
  induction vs as [|v vs IH]; intros fuel Hok Hf; [by destruct fuel|].
  apply Forall_cons in Hok as [Hv Hok]. destruct fuel as [|fuel]; [simpl in Hf; lia|].
  cbn [inotify_collect map concat]. rewrite inotify_next_wire by done. cbn [bind].
  rewrite IH; [done|done|simpl in Hf; lia].
Qed.

(** [C34] Watching: from a buffer holding any sequence of well-formed inotify
    records, [inotify_events] yields exactly those events in order, and
    [InotifyEvent::name] gives back each event's name, or [None] for an event on
    the watched object itself. *)
Theorem inotify_events_roundtrip vs :
  Forall wire_event_ok vs ->
  exists es, inotify_events (concat (map wire_event vs)) = Ret es /\
    map ie_wd es = map v_wd vs /\ map ie_mask es = map v_mask vs /\
    map ie_cookie es = map v_cookie vs /\ map event_name es = map v_name vs.
Proof.
  intros Hok. exists (map event_of vs). split.
  - apply inotify_collect_wire; [done|]. clear Hok.
    induction vs as [|v vs IH]; simpl; [lia|]. rewrite length_app.
    assert (0 < length (wire_event v))%nat by (unfold wire_event; rewrite !length_app, !le_enc_length; lia).
    lia.
  - rewrite !map_map. split_and!; try done. apply map_ext_in. intros v Hv.
    apply event_name_of. rewrite List.Forall_forall in Hok. by apply Hok.
Qed.

Lemma inotify_events_roundtrip_witness :
  let create := mkWireEvent 1 IN_CREATE 0 (Some (str "notes.txt")) [0; 0; 0; 0; 0; 0] in
  let gone := mkWireEvent 1 IN_DELETE_SELF 0 None [] in
  exists es, inotify_events (concat (map wire_event [create; gone])) = Ret es /\
    map ie_wd es = [1; 1] /\ map ie_mask es = [IN_CREATE; IN_DELETE_SELF] /\
    map ie_cookie es = [0; 0] /\ map event_name es = [Some (str "notes.txt"); None].
Proof.
  intros create gone. apply (inotify_events_roundtrip [create; gone]).
  repeat constructor; vm_compute; congruence.
Defined.

Lemma sub_slice_bytes off n b x : bytes_ok b -> sub_slice off n b = Some x -> bytes_ok x.
Proof. unfold sub_slice. intros Hb. destruct (_ <=? _); [|done]. intros [= <-]. auto with rusty. Qed.

Lemma inotify_next_moves buf :
  bytes_ok buf ->
  settles (inotify_next buf) /\
  forall e rest, inotify_next buf = Ret (Some (e, rest)) ->
    bytes_ok rest /\ (length rest < length buf)%nat.
Proof.
  intros Hb. unfold inotify_next. destruct buf as [|x buf]; [split; [apply settles_ret|done]|].
  set (rec := x :: buf) in *.
  destruct (sub_slice 0 4 rec); [|split; [apply settles_panic|done]]. cbn [or_panic bind].
  destruct (sub_slice 4 4 rec); [|split; [apply settles_panic|done]]. cbn [or_panic bind].
  destruct (sub_slice 8 4 rec); [|split; [apply settles_panic|done]]. cbn [or_panic bind].
  destruct (sub_slice 12 4 rec) as [n|] eqn:En; [|split; [apply settles_panic|done]].
  cbn [or_panic bind].
  pose proof (le_dec_range n (sub_slice_bytes _ _ _ _ Hb En)).
  destruct (sub_slice INOTIFY_HEADER _ rec); [|split; [apply settles_panic|done]]. cbn [or_panic bind].
  unfold slice_from. destruct (Z.leb_spec (INOTIFY_HEADER + le_dec n) (Z.of_nat (length rec)));
    [|split; [apply settles_panic|done]]. cbn [or_panic bind].
  split; [apply settles_ret|]. intros e rest [= <- <-]. unfold INOTIFY_HEADER in *.
  split; [by apply Forall_drop|]. rewrite length_drop. lia.
Qed.

Lemma inotify_collect_settles fuel : forall buf,
  bytes_ok buf -> (length buf <= fuel)%nat -> settles (inotify_collect fuel buf).
Proof.
  induction fuel as [|fuel IH]; intros buf Hb Hf; cbn [inotify_collect];
    destruct (inotify_next_moves buf Hb) as [Hs Hm]; apply settles_bind; try exact Hs.
  - destruct buf; [|simpl in Hf; lia]. intros o [= <-]. apply settles_ret.
  - intros [[e rest]|] E; [|apply settles_ret]. destruct (Hm _ _ E).
    apply settles_bind; [apply IH; [done|lia]|]. intros. apply settles_ret.
Qed.

(** Both iterators finish on every buffer, well formed or not: collecting
    them makes no system call and either returns or panics at a record that
    claims to run past the end; it never loops. *)
Theorem record_iterators_terminate buf :
  bytes_ok buf -> settles (dirents buf) /\ settles (inotify_events buf).
Proof.
  intros Hb. split.
  - apply dirents_from_settles. lia.
  - by apply inotify_collect_settles.
Qed.

(** A record of length 0, and a record whose name is missing. *)
Lemma record_iterators_terminate_witness :
  settles (dirents (replicate 24 0)) /\
  settles (inotify_events [1; 0; 0; 0; 0; 1; 0; 0; 0; 0; 0; 0; 255; 0; 0; 0]).
Proof.
  split.
  - apply (record_iterators_terminate (replicate 24 0)). apply Forall_replicate. int_ranges. lia.
  - apply (record_iterators_terminate [1; 0; 0; 0; 0; 1; 0; 0; 0; 0; 0; 0; 255; 0; 0; 0]).
    repeat constructor; vm_compute; congruence.
Defined.
