(* ===== verification/Threads.v ===== *)
(** Threads that share one atomic cell and the kernel: their programs, and the
    interleavings a scheduler and a weak memory allow.

    The cell is accessed with [Relaxed] ordering.  What the memory model
    guarantees of a single location is coherence: its writes are ordered (here by
    timestamps), a thread never reads a write older than one it has read or
    made, and a write goes after everything its thread has seen, possibly before
    a write of another thread.  Nothing else is assumed: a load may return a
    value that was overwritten long ago. *)

From stdpp Require Import base list option numbers gmap relations.
From Stdlib Require Import ZArith Lia.
From S2P Require Import Prelude Prog.

(** What every step keeps, every execution keeps. *)
Lemma rtc_invariant {A} (R : A -> A -> Prop) (I : A -> Prop) x y :
  (forall a b, I a -> R a b -> I b) -> rtc R x y -> I x -> I y.
Proof. intros HI. induction 1; eauto. Qed.

(** ** Programs *)

Inductive Shared (A : Type) : Type :=
| ShRet (a : A)
| ShLoad (k : Z -> Shared A)
| ShStore (x : Z) (p : Shared A)
| ShSys (c : Call) (k : Reply -> Shared A)
| ShPanic
| ShNoFuel.
Arguments ShRet {_} _.
Arguments ShLoad {_} _.
Arguments ShStore {_} _ _.
Arguments ShSys {_} _ _.
Arguments ShPanic {_}.
Arguments ShNoFuel {_}.

(** A program of one thread, and what follows it; a panic or an exhausted loop
    stops it. *)
Fixpoint share {A B} (p : Prog A) (f : A -> Shared B) : Shared B :=
  match p with
  | Ret a => f a
  | Sys c k => ShSys c (fun r => share (k r) f)
  | Panic => ShPanic
  | NoFuel => ShNoFuel
  end.

(** A thread on its own: the cell is a variable. *)
Fixpoint alone {A} (p : Shared A) (x : Z) : Prog (Z * A) :=
  match p with
  | ShRet a => Ret (x, a)
  | ShLoad k => alone (k x) x
  | ShStore x p => alone p x
  | ShSys c k => Sys c (fun r => alone (k r) x)
  | ShPanic => Panic
  | ShNoFuel => NoFuel
  end.

(** ** Interleavings *)

(** [t_view] is the timestamp of the newest write the thread has seen, [t_code]
    the rest of the call it is in, [t_todo] the calls it has still to make. *)
Record Thread (A : Type) := mkThread {
  t_view : Z; t_code : option (Shared A); t_todo : nat; t_answers : list A }.
Arguments mkThread {_} _ _ _ _.
Arguments t_view {_} _.
Arguments t_code {_} _.
Arguments t_todo {_} _.
Arguments t_answers {_} _.

Section Threads.
Context (K : Kernel) {A : Type} (code : Shared A).

(** [log] is the system calls made, each with the thread that made it. *)
Record State := mkState {
  cell : gmap Z Z; ker : kst K; pool : list (Thread A); log : list (nat * Call) }.

(** One step of one thread, in memory [m] and kernel state [s]: what it leaves
    of them, and the system calls it makes. *)
Inductive tstep (m : gmap Z Z) (s : kst K) :
    Thread A -> gmap Z Z -> kst K -> list Call -> Thread A -> Prop :=
| t_call v n a :
    tstep m s (mkThread v None (S n) a) m s [] (mkThread v (Some code) n a)
| t_load v k n a ts x :
    v <= ts -> m !! ts = Some x ->
    tstep m s (mkThread v (Some (ShLoad k)) n a) m s [] (mkThread ts (Some (k x)) n a)
| t_store v x p n a ts :
    v < ts -> m !! ts = None ->
    tstep m s (mkThread v (Some (ShStore x p)) n a) (<[ts := x]> m) s []
      (mkThread ts (Some p) n a)
| t_sys v c k n a r s' :
    kstep K c s = (Some r, s') ->
    tstep m s (mkThread v (Some (ShSys c k)) n a) m s' [c]
      (mkThread v (Some (k (conform c r))) n a)
| t_ret v x n a :
    tstep m s (mkThread v (Some (ShRet x)) n a) m s [] (mkThread v None n (a ++ [x])).

Inductive step : State -> State -> Prop :=
| step_thread i t m s ts l m' s' cs t' :
    ts !! i = Some t -> tstep m s t m' s' cs t' ->
    step (mkState m s ts l) (mkState m' s' (<[i := t']> ts) (l ++ map (pair i) cs)).

(** [n] threads that will make [calls] calls each, on a cell holding [x]. *)
Definition start (n calls : nat) (x : Z) (s : kst K) : State :=
  mkState {[0 := x]} s (replicate n (mkThread 0 None calls [])) [].

(** ** Every execution is finite

    Programs are finite trees, whatever the loads and the kernel answer. *)

Definition texec (t t' : Thread A) : Prop := exists m s m' s' cs, tstep m s t m' s' cs t'.

Lemma sn_code n :
  (forall v a, sn texec (mkThread v None n a)) ->
  forall p v a, sn texec (mkThread v (Some p) n a).
Proof.
  intros IH p. induction p as [x|k IHk|x p IHp|c k IHk| |]; intros v a;
    constructor; intros t' (m & s & m' & s' & cs & Ht); inversion Ht; subst; auto.
Qed.

Lemma sn_thread t : sn texec t.
Proof.
  assert (forall n v a, sn texec (mkThread v None n a)) as Hidle.
  { induction n as [|n IH]; intros v a; constructor;
      intros t' (m & s & m' & s' & cs & Ht); inversion Ht; subst. by apply sn_code. }
  destruct t as [v [p|] n a]; [apply sn_code|]; apply Hidle.
Qed.

(** One element of a list makes a step. *)
Definition lexec (l l' : list (Thread A)) : Prop :=
  exists i t t', l !! i = Some t /\ texec t t' /\ l' = <[i := t']> l.

Lemma sn_pool l : sn lexec l.
Proof.
  induction l as [|t l IHl].
  - constructor. by intros ? (i & t & t' & [=] & _).
  - revert l IHl. induction (sn_thread t) as [t _ IHt]. intros l IHl.
    induction IHl as [l Hl IHl]. constructor.
    intros ? ([|i] & u & u' & Hu & Hstep & ->); simpl in *.
    + injection Hu as ->. apply IHt; [done|]. by constructor.
    + apply IHl. by exists i, u, u'.
Qed.

Lemma sn_step st : sn step st.
Proof.
  remember (pool st) as l eqn:E. revert st E.
  induction (sn_pool l) as [l _ IH]. intros st ->. constructor.
  intros st' Hstep. unfold flip in *. inversion Hstep as [i t m s ts lg m' s' cs t' Hi Ht]; subst.
  eapply (IH (<[i := t']> ts)); [|done]. exists i, t, t'. split_and!; [done| |done]. by repeat eexists.
Qed.

(** A timestamp is always free for a store. *)
Lemma free_timestamp (m : gmap Z Z) v : exists ts, v < ts /\ m !! ts = None.
Proof.
  assert (exists b, forall ts x, m !! ts = Some x -> ts <= b) as [b Hb].
  { induction m as [|i x m _ [b Hb]] using map_ind; [by exists 0|].
    exists (Z.max i b). intros ts y. rewrite lookup_insert_Some.
    intros [[-> _]|[_ ?%Hb]]; lia. }
  exists (Z.max v b + 1). split; [lia|]. destruct (m !! _) eqn:E; [|done].
  apply Hb in E. lia.
Qed.
End Threads.
Arguments mkState {_ _} _ _ _ _.
Arguments cell {_ _} _.
Arguments ker {_ _} _.
Arguments pool {_ _} _.
Arguments log {_ _} _.

(** A program alone is the program with the cell as a variable of its own. *)
Lemma alone_share {A B} (p : Prog A) (f : A -> Shared B) x :
  prog_equiv (alone (share p f) x) (bind p (fun a => alone (f a) x)).
Proof. induction p as [a|c k IH| |]; simpl; [done| |done|done]. by apply Sys_proper. Qed.
