(* ===== verification/VdsoRace.v ===== *)
(** Threads racing on the cache of the vDSO resolver: [clock_gettime_fn] with its
    atomic loads and stores, under every interleaving a relaxed memory allows. *)

From stdpp Require Import base list option numbers gmap relations strings.
From Stdlib Require Import ZArith Lia.
From S2P Require Import Prelude Prog Layout Asm Arch Fd Vdso VdsoSpec FdSpec Threads.

(** ** The program of one thread *)

(** What a resolution stores in [CACHE]. *)
Definition cached_value (resolved : option Z) : Z :=
  match resolved with None => FAILED | Some f => f end.

Definition clock_gettime_fn_shared `{Target} (mem : Z -> Z) (fuel : nat) : Shared (option Z) :=
  ShLoad (fun cached =>
    if cached =? FAILED then ShRet None
    else if negb (cached =? 0) then ShRet (Some cached)
    else share (vdso_resolve mem fuel) (fun resolved =>
      ShStore (cached_value resolved) (ShRet resolved))).

(** Alone, it is the sequential [clock_gettime_fn]. *)
Lemma clock_gettime_fn_alone `{Target} mem fuel x :
  prog_equiv (alone (clock_gettime_fn_shared mem fuel) x) (clock_gettime_fn mem fuel x).
Proof.
  unfold clock_gettime_fn_shared, clock_gettime_fn. cbn [alone].
  destruct (Z.eqb_spec x FAILED) as [->|_]; [done|].
  destruct (x =? 0); [|done]. cbn [negb]. by rewrite alone_share.
Qed.

(** ** The kernel *)

Definition auxv_path : list Z := str "/proc/self/auxv".
Definition open_call `{Target} : Call :=
  Syscall (nrz OPENAT) [int AT_FDCWD; cstr auxv_path; int O_RDONLY; int 0].

(** The process's auxiliary vector is a file the threads open, read and close on
    descriptors of their own: [open] answers one that is not in use, a [read]
    moves that descriptor's offset and no other's.  At most [limit] can be open
    at a time; signals interrupt a bounded number of reads; when [may_fail]
    holds, [open] and [read] may also fail for other reasons. *)
Class AuxvKernel `{Target} (K : Kernel) (auxv : list Z) (limit : nat) (may_fail : Prop) := {
  files : kst K -> gmap Z nat;
  signals : kst K -> nat;
  auxv_open : forall s, exists r s',
    kstep K open_call s = (Some r, s') /\ (signals s' <= signals s)%nat /\
    match from_ret_i32 (as_u64 (r_ret r)) with
    | Ok fd => files s !! fd = None /\ files s' = <[fd := 0%nat]> (files s)
    | Err _ => files s' = files s /\ (may_fail \/ limit <= size (files s))%nat
    end;
  auxv_read : forall fd o buf s, is_i32 fd -> files s !! fd = Some o -> exists r s',
    kstep K (read_call fd buf) s = (Some r, s') /\
    match from_ret (as_u64 (r_ret r)) with
    | Ok n =>
        let k := Z.to_nat n in
        n <= Z.of_nat (length buf) /\ n <= Z.of_nat (length (drop o auxv)) /\
        (n = 0 -> drop o auxv = [] \/ buf = []) /\
        out 0 (conform (read_call fd buf) r) = take k (drop o auxv) ++ drop k buf /\
        files s' = <[fd := (o + k)%nat]> (files s) /\ (signals s' <= signals s)%nat
    | Err e =>
        out 0 (conform (read_call fd buf) r) = buf /\ files s' = files s /\
        (e = EINTR /\ signals s' < signals s \/
         e <> EINTR /\ may_fail /\ signals s' <= signals s)%nat
    end;
  auxv_close : forall fd o s, is_i32 fd -> files s !! fd = Some o -> exists r s',
    kstep K (close_call fd) s = (Some r, s') /\ files s' = delete fd (files s) /\
    (signals s' <= signals s)%nat }.

(** What a resolution finds: the vector, as far as it fits the buffer, scanned
    for the image's base, and the image's symbol looked up. *)
Definition resolution `{Target} (mem : Z -> Z) (fuel : nat) (auxv : list Z) : Prog (option Z) :=
  let buf := replicate 4096 0 in
  let k := Nat.min (length buf) (length auxv) in
  let* base := scan_auxv 257 (take k auxv ++ drop k buf) (Z.of_nat k) 0 in
  match base with None => Ret None | Some base => lookup mem fuel base end.

(** ** One thread among the others

    A logic for the code of one thread: what it knows of the shared state is
    its own view of the cell, its own descriptor with the offset, and a bound
    on the interruptions to come, all of which the other threads leave alone. *)
Record Local := mkLocal { l_opened : bool; l_view : Z; l_file : option (Z * nat) }.
Definition with_view (v : Z) (l : Local) : Local := mkLocal (l_opened l) v (l_file l).
Definition with_file (f : option (Z * nat)) (l : Local) : Local := mkLocal (l_opened l) (l_view l) f.

Section Race.
Context `{Target} (mem : Z -> Z) (fuel : nat) (auxv : list Z) (may_fail : Prop).
Context (answer : option Z).

Definition good_answer (r : option Z) : Prop := r = answer \/ may_fail /\ r = None.
Definition good_value (x : Z) : Prop := exists r, good_answer r /\ x = cached_value r.
(** A write of the cell: the initial one, or a resolution's. *)
Definition good_write (ts x : Z) : Prop := ts = 0 /\ x = 0 \/ 0 < ts /\ good_value x.

(** A call a thread may make, and what it may assume of the reply. *)
Inductive sys_ok (c : Call) (k : Reply -> Local -> nat -> Prop) (l : Local) (n : nat) : Prop :=
| ok_open :
    c = open_call -> l_opened l = false -> l_file l = None ->
    (forall r, match from_ret_i32 (r_ret (conform c r)) with
     | Ok fd => k (conform c r) (mkLocal true (l_view l) (Some (fd, 0%nat))) n
     | Err _ => may_fail -> k (conform c r) (mkLocal true (l_view l) None) n
     end) -> sys_ok c k l n
| ok_read fd o buf :
    c = read_call fd buf -> l_file l = Some (fd, o) ->
    (forall r, match from_ret (r_ret (conform c r)) with
     | Ok m =>
         let j := Z.to_nat m in
         0 <= m <= Z.of_nat (length buf) -> m <= Z.of_nat (length (drop o auxv)) ->
         (m = 0 -> drop o auxv = [] \/ buf = []) ->
         out 0 (conform c r) = take j (drop o auxv) ++ drop j buf ->
         k (conform c r) (with_file (Some (fd, (o + j)%nat)) l) n
     | Err e =>
         out 0 (conform c r) = buf ->
         (e = EINTR -> forall n', (n' < n)%nat -> k (conform c r) l n') /\
         (e <> EINTR -> may_fail -> k (conform c r) l n)
     end) -> sys_ok c k l n
| ok_close fd o :
    c = close_call fd -> l_file l = Some (fd, o) ->
    (forall r, k (conform c r) (with_file None l) n) -> sys_ok c k l n.

Lemma sys_ok_mono c (k k' : Reply -> Local -> nat -> Prop) l n :
  sys_ok c k l n -> (forall r l n, k r l n -> k' r l n) -> sys_ok c k' l n.
Proof.
  intros [Hc Ho Hf Hr|fd o buf Hc Hf Hr|fd o Hc Hf Hr] Hk.
  - apply ok_open; [done..|]. intros r. specialize (Hr r). destruct (from_ret_i32 _); eauto.
  - eapply ok_read; [done..|]. intros r. specialize (Hr r). destruct (from_ret _); cbv zeta; [eauto|].
    intros Ho. destruct (Hr Ho) as [Hr1 Hr2]. split; eauto.
  - eapply ok_close; eauto.
Qed.

(** [lwp p Q l n]: in the local state [l], with at most [n] interruptions to
    come, [p] makes only such calls, and returns with [Q]. *)
Fixpoint lwp {A} (p : Prog A) (Q : A -> Local -> nat -> Prop) (l : Local) (n : nat) : Prop :=
  match p with
  | Ret a => Q a l n
  | Sys c k => sys_ok c (fun r => lwp (k r) Q) l n
  | Panic | NoFuel => False
  end.

Lemma lwp_bind {A B} (p : Prog A) (f : A -> Prog B) Q l n :
  lwp p (fun a => lwp (f a) Q) l n -> lwp (bind p f) Q l n.
Proof.
  revert l n. induction p as [a|c k IH| |]; intros l n; simpl; [done| |done|done].
  intros Hs. eapply sys_ok_mono; [exact Hs|]. auto.
Qed.

Lemma lwp_mono {A} (p : Prog A) (P Q : A -> Local -> nat -> Prop) l n :
  lwp p P l n -> (forall a l n, P a l n -> Q a l n) -> lwp p Q l n.
Proof.
  intros Hp HQ. revert l n Hp. induction p as [a|c k IH| |]; intros l n; simpl; [auto| |done|done].
  intros Hs. eapply sys_ok_mono; [exact Hs|]. auto.
Qed.

(** The same for shared programs: a load answers any write the view allows, a
    store must be of a good value, and the call ends having seen a write that is
    not the initial one. *)
Fixpoint safe (p : Shared (option Z)) (l : Local) (n : nat) : Prop :=
  match p with
  | ShRet r => good_answer r /\ 0 < l_view l /\ (l_file l = None \/ may_fail)
  | ShLoad k => forall ts x, l_view l <= ts -> good_write ts x -> safe (k x) (with_view ts l) n
  | ShStore x p => good_value x /\ forall ts, l_view l < ts -> safe p (with_view ts l) n
  | ShSys c k => sys_ok c (fun r => safe (k r)) l n
  | ShPanic | ShNoFuel => False
  end.

Lemma safe_share {A} (p : Prog A) (f : A -> Shared (option Z)) l n :
  lwp p (fun a => safe (f a)) l n -> safe (share p f) l n.
Proof.
  revert l n. induction p as [a|c k IH| |]; intros l n; simpl; [done| |done|done].
  intros Hs. eapply sys_ok_mono; [exact Hs|]. auto.
Qed.

(** ** The resolver in that logic *)

Lemma lwp_read fd o buf l n Q :
  l_file l = Some (fd, o) ->
  (forall m b, 0 <= m <= Z.of_nat (length buf) -> m <= Z.of_nat (length (drop o auxv)) ->
    (m = 0 -> drop o auxv = [] \/ buf = []) ->
    b = take (Z.to_nat m) (drop o auxv) ++ drop (Z.to_nat m) buf ->
    Q (b, Ok m) (with_file (Some (fd, (o + Z.to_nat m)%nat)) l) n) ->
  (forall n', (n' < n)%nat -> Q (buf, Err EINTR) l n') ->
  (may_fail -> forall e, e <> EINTR -> Q (buf, Err e) l n) ->
  lwp (read fd buf) Q l n.
Proof.
  intros Hf Hok Hi He. unfold read. rewrite syscall3_eq. unfold raw_call. cbn [bind lwp].
  eapply ok_read; [reflexivity|exact Hf|]. intros r. cbn [r_ret].
  destruct (from_ret (r_ret (conform _ r))) as [m|e] eqn:E.
  - cbv zeta. intros Hm Hm' H0 Hout. by apply Hok.
  - intros Hout. unfold out in *. cbn [lwp r_outs] in *. rewrite Hout.
    split; [intros -> n' Hn; by apply Hi|]. intros ? ?; by apply He.
Qed.

Lemma lwp_read_all_from fd Q fuelr : forall buf total o l n,
  l_file l = Some (fd, o) -> (total <= length buf)%nat -> Z.of_nat (length buf) < 2 ^ 64 ->
  (length buf - total + n <= fuelr)%nat ->
  (forall k n', (k <= length (drop o auxv))%nat -> (total + k <= length buf)%nat ->
    (total + k < length buf -> drop (o + k) auxv = [])%nat ->
    Q (filled buf (drop o auxv) total k, Ok (Z.of_nat (total + k)))
      (with_file (Some (fd, (o + k)%nat)) l) n') ->
  (may_fail -> forall b e o' n', Q (b, Err e) (with_file (Some (fd, o')) l) n') ->
  lwp (read_all_from fuelr fd buf (Z.of_nat total)) Q l n.
Proof.
  induction fuelr as [|fuelr IH]; intros buf total o l n Hf Ht Hlen Hn HQ He; cbn [read_all_from];
    destruct (Z.ltb_spec (Z.of_nat total) (Z.of_nat (length buf))) as [Hlt|Hge]; [lia| | |].
  1,3: specialize (HQ 0%nat n ltac:(lia) ltac:(lia) ltac:(lia));
    rewrite filled_0, !Nat.add_0_r in HQ; unfold with_file in HQ; rewrite <- Hf in HQ; by destruct l.
  unfold slice_from. destruct (Z.leb_spec (Z.of_nat total) (Z.of_nat (length buf))); [|lia].
  cbn [or_panic bind]. rewrite Nat2Z.id. apply lwp_bind, lwp_read with (o := o); [done|..].
  - intros m b Hm Hm' Hz ->. rewrite length_drop in Hm. rewrite drop_drop.
    fold (filled buf (drop o auxv) total (Z.to_nat m)).
    destruct (Z.eqb_spec m 0) as [->|Hm0].
    + specialize (HQ 0%nat n ltac:(lia) ltac:(lia)). rewrite !Nat.add_0_r in HQ.
      change (Z.to_nat 0) with 0%nat. rewrite Nat.add_0_r. apply HQ. intros _.
      destruct (Hz eq_refl) as [E|E]; [done|].
      apply (f_equal length) in E. rewrite length_drop in E. simpl in E. lia.
    + unfold usize_add. destruct (Z.ltb_spec (Z.of_nat total + m) (2 ^ 64)); [|lia]. cbn [bind].
      replace (Z.of_nat total + m) with (Z.of_nat (total + Z.to_nat m)) by lia.
      eapply (IH _ _ (o + Z.to_nat m)%nat); rewrite ?filled_length by lia; try done; try lia.
      intros k n' Hk Hk' Hend. rewrite <- drop_drop in Hk |- *. rewrite length_drop in Hk.
      rewrite filled_add by lia. rewrite <- !Nat.add_assoc in Hend |- *.
      apply (HQ (Z.to_nat m + k)%nat n'); [lia|lia|done].
  - intros n' Hn'. rewrite take_drop. rewrite decide_True by done.
    apply (IH buf total o l n'); auto; lia.
  - intros Hm e Hne. rewrite take_drop. rewrite decide_False by done.
    specialize (He Hm buf e o n). unfold with_file in He. rewrite <- Hf in He. by destruct l.
Qed.

Hypothesis Hanswer : resolution mem fuel auxv = Ret answer.

Lemma lwp_base buf l n Q :
  l_opened l = false -> l_file l = None -> Z.of_nat (length buf) < 2 ^ 64 ->
  (length buf + n <= fuel)%nat ->
  (let k := Nat.min (length buf) (length auxv) in
   forall n', lwp (scan_auxv 257 (take k auxv ++ drop k buf) (Z.of_nat k) 0) Q
     (mkLocal true (l_view l) None) n') ->
  (may_fail -> forall f n', Q None (mkLocal true (l_view l) f) n') ->
  lwp (let* fd := open auxv_path O_RDONLY 0 in
       match fd with
       | Err _ => Ret None
       | Ok fd =>
           let* (buf, n) := read_all fuel fd buf in
           match n with
           | Err _ => Ret None
           | Ok n => let* _ := close fd in scan_auxv 257 buf n 0
           end
       end) Q l n.
Proof.
  intros Hop Hf Hlen Hn Hok Hfail. unfold open, openat. rewrite syscall4_eq.
  unfold raw_call. cbn [bind lwp]. apply ok_open; [done..|]. intros r. cbn [r_ret].
  destruct (from_ret_i32 (r_ret (conform _ r))) as [fd|e]; cbn [bind lwp]; [|auto].
  apply lwp_bind, (lwp_read_all_from fd _ fuel buf 0 0); [done|lia|done|cbn [l_file]; lia|..].
  - intros k n' Hk Hk' Hend. cbn [lwp]. unfold close. rewrite syscall1_eq. unfold raw_call.
    cbn [bind lwp]. eapply ok_close; [reflexivity|reflexivity|]. intros r'.
    assert (k = Nat.min (length buf) (length auxv)) as ->.
    { rewrite drop_0 in Hk. destruct (decide (0 + k < length buf)%nat) as [Hlt|]; [|lia].
      apply Hend, (f_equal length) in Hlt. rewrite length_drop in Hlt. simpl in Hlt. lia. }
    unfold filled. rewrite drop_0. apply Hok.
  - intros Hm b e o' n'. cbn [lwp]. by apply Hfail.
Qed.

Lemma lwp_resolve l n Q :
  l_opened l = false -> l_file l = None -> (4096 + n <= fuel)%nat ->
  (forall r f n', good_answer r -> f = None \/ may_fail -> Q r (mkLocal true (l_view l) f) n') ->
  lwp (vdso_resolve mem fuel) Q l n.
Proof.
  intros Hop Hf Hn HQ. apply lwp_bind. pose proof (length_replicate 4096 (0 : Z)) as Hlen.
  revert Hanswer. unfold resolution, vdso_base. revert Hn. rewrite <- Hlen at 1.
  assert (Z.of_nat (length (replicate 4096 (0 : Z))) < 2 ^ 64) as Hb by (rewrite Hlen; lia).
  clear Hlen. revert Hb. generalize (replicate 4096 (0 : Z)) as buf.
  intros buf Hlen Hn Hres. apply lwp_base; [done..| |].
  - intros k n'. subst k. cbv zeta in Hres.
    destruct (scan_auxv _ _ _ _) as [base|? ?| |]; [|done..]. cbn [bind lwp] in *.
    destruct base; cbv iota in *; rewrite ?Hres; (apply HQ; [left|by left]); congruence.
  - intros Hm f n'. cbn [lwp]. apply HQ; [by right|by right].
Qed.

(** A turn of [read_all] per byte of the 4096 and per interruption. *)
Definition enough_fuel (n : nat) : Prop := (4096 + n <= fuel)%nat.

Lemma enough_fuel_mono a b : enough_fuel a -> (b <= a)%nat -> enough_fuel b.
Proof. unfold enough_fuel. generalize 4096%nat. lia. Qed.

(** A call of a thread that has made its resolution has seen its store. *)
Lemma safe_call l n :
  (l_opened l = true -> 0 < l_view l) -> 0 <= l_view l -> l_file l = None ->
  enough_fuel n -> answer <> Some 0 -> answer <> Some FAILED ->
  safe (clock_gettime_fn_shared mem fuel) l n.
Proof.
  intros Hseen Hv Hf Hn H0 H1 ts x Hts Hx.
  destruct Hx as [[-> ->]|[Hpos (r & Hr & ->)]].
  - cbn [Z.eqb FAILED negb]. change (0 =? FAILED) with false. cbv iota.
    apply safe_share, lwp_resolve; [|exact Hf|exact Hn|]; clear Hn Hanswer.
    + cbn. destruct (l_opened l); [|done]. specialize (Hseen eq_refl). lia.
    + intros r f n' Hr Hlf. split; [by exists r|]. intros ts' Hts'. cbn in *.
      split_and!; [done|lia|done].
  - clear Hn Hanswer. assert (r <> Some 0 /\ r <> Some FAILED) as [Hr0 Hr1] by (destruct Hr as [->|[_ ->]]; done).
    destruct (Z.eqb_spec (cached_value r) FAILED) as [E|E].
    + destruct r as [f|]; [cbn in E; by subst|]. cbn. split_and!; [done|lia|by left].
    + destruct (Z.eqb_spec (cached_value r) 0) as [E0|E0]; destruct r as [f|]; cbn in *; try done.
      * by subst.
      * split_and!; [done|lia|by left].
Qed.

(** ** The state of all threads *)

Context (K : Kernel) (limit : nat) `{HK : !AuxvKernel K auxv limit may_fail}.
Context (calls : nat).
Hypothesis answer_not_0 : answer <> Some 0.
Hypothesis answer_not_1 : answer <> Some FAILED.

Let code : Shared (option Z) := clock_gettime_fn_shared mem fuel.

(** How often thread [i] has opened the file. *)
Definition is_open (c : Call) : bool :=
  match c with Syscall n _ => n =? nrz OPENAT | CallFn _ _ => false end.
Definition opens (i : nat) (l : list (nat * Call)) : nat :=
  length (List.filter (fun e => (e.1 =? i)%nat && is_open e.2) l).

Definition good_cell (m : gmap Z Z) : Prop :=
  m !! 0 = Some 0 /\ forall ts x, m !! ts = Some x -> good_write ts x.

Record thread_ok (i : nat) (t : Thread (option Z)) (l : Local)
    (m : gmap Z Z) (s : kst K) (lg : list (nat * Call)) : Prop := {
  th_view : l_view l = t_view t;
  th_pos : 0 <= t_view t;
  th_seen : is_Some (m !! t_view t);
  th_answers : Forall good_answer (t_answers t);
  th_count : (length (t_answers t) + t_todo t +
              match t_code t with Some _ => 1 | None => 0 end = calls)%nat;
  th_opens : opens i lg = if l_opened l then 1%nat else 0%nat;
  th_code : match t_code t with
            | Some p => exists n, (signals s <= n)%nat /\ safe p l n
            | None => (l_opened l = true -> 0 < l_view l) /\ l_file l = None
            end }.

(** What one step does to the descriptors. *)
Inductive file_change (m : gmap Z nat) (f : option (Z * nat)) :
    gmap Z nat -> option (Z * nat) -> Prop :=
| fc_same : file_change m f m f
| fc_open fd :
    is_i32 fd -> f = None -> m !! fd = None -> file_change m f (<[fd := 0%nat]> m) (Some (fd, 0%nat))
| fc_read fd o o' : f = Some (fd, o) -> file_change m f (<[fd := o']> m) (Some (fd, o'))
| fc_close fd o : f = Some (fd, o) -> file_change m f (delete fd m) None
| fc_leak : may_fail -> file_change m f m None.

Lemma opens_app i l l' : opens i (l ++ l') = (opens i l + opens i l')%nat.
Proof. unfold opens. by rewrite List.filter_app, length_app. Qed.

Lemma opens_other i j cs : i <> j -> opens j (map (pair i) cs) = 0%nat.
Proof.
  intros. unfold opens. induction cs as [|c cs IH]; [done|]. simpl.
  by destruct (Nat.eqb_spec i j).
Qed.

Lemma opens_one i c : opens i (map (pair i) [c]) = if is_open c then 1%nat else 0%nat.
Proof. unfold opens. simpl. rewrite Nat.eqb_refl. by destruct (is_open c). Qed.

Lemma read_not_open : (nrz READ =? nrz OPENAT) = false /\ (nrz CLOSE =? nrz OPENAT) = false.
Proof. unfold nrz, nr_table. by destruct arch. Qed.

(** The other threads, and the kernel's bookkeeping, leave a thread alone. *)
Lemma thread_ok_stable i t l m s lg m' s' lg' :
  thread_ok i t l m s lg -> m ⊆ m' -> (signals s' <= signals s)%nat ->
  opens i lg' = opens i lg -> thread_ok i t l m' s' lg'.
Proof.
  intros [] Hm Hs Hl. split; try done.
  - destruct th_seen0 as [x Hx]. exists x. by eapply lookup_weaken.
  - by rewrite Hl.
  - destruct (t_code t); [|done]. destruct th_code0 as (n & ? & ?). exists n. split; [lia|done].
Qed.

(** What a system call of a thread leads to. *)
Lemma sys_step c (k : Reply -> Local -> nat -> Prop) l n s r s' :
  sys_ok c k l n -> (signals s <= n)%nat -> kstep K c s = (Some r, s') ->
  (forall fd o, l_file l = Some (fd, o) -> is_i32 fd /\ files s !! fd = Some o) ->
  (l_file l = None -> (limit <= size (files s))%nat -> may_fail) ->
  exists l' n',
    k (conform c r) l' n' /\ (signals s' <= n')%nat /\ (signals s' <= signals s)%nat /\
    l_view l' = l_view l /\
    (if l_opened l' then 1 else 0)%nat =
      ((if l_opened l then 1 else 0) + (if is_open c then 1 else 0))%nat /\
    file_change (files s) (l_file l) (files s') (l_file l').
Proof.
  intros [-> Hop Hf Hr|fd o buf -> Hf Hr|fd o -> Hf Hr] Hn Hk Hown Hlim; specialize (Hr r).
  - destruct (auxv_open s) as (r0 & s0 & Hk0 & Hs & Hcase).
    rewrite Hk in Hk0. injection Hk0 as <- <-.
    change (r_ret (conform open_call r)) with (as_u64 (r_ret r)) in Hr.
    assert (is_open open_call = true) as Hio by apply Z.eqb_refl.
    destruct (from_ret_i32 (as_u64 (r_ret r))) as [fd|e] eqn:Hfd.
    + exists (mkLocal true (l_view l) (Some (fd, 0%nat))), n. rewrite Hop, Hio. cbn.
      destruct Hcase as [Hfree ->]. split_and!; try done; [lia|]. apply fc_open; [|done|done].
      unfold from_ret_i32 in Hfd. destruct (from_ret _); [|done]. injection Hfd as <-.
      by apply (swrap_range 32).
    + destruct Hcase as [-> Hm]. exists (mkLocal true (l_view l) None), n. rewrite Hop, Hio. cbn.
      split_and!; try done; [|lia|rewrite Hf; by apply fc_same].
      apply Hr. destruct Hm as [?|?]; auto.
  - destruct (auxv_read fd o buf s (proj1 (Hown _ _ Hf)) (proj2 (Hown _ _ Hf))) as (r0 & s0 & Hk0 & Hcase).
    rewrite Hk in Hk0. injection Hk0 as <- <-.
    pose proof (conform_ret_range (read_call fd buf) r) as Hb.
    change (r_ret (conform (read_call fd buf) r)) with (as_u64 (r_ret r)) in Hr, Hb.
    assert (is_open (read_call fd buf) = false) as Hio by apply read_not_open.
    destruct (from_ret (as_u64 (r_ret r))) as [m|e] eqn:E.
    + apply from_ret_ok in E as [-> _]; [|exact Hb].
      destruct Hcase as (Hm & Hm' & H0 & Hout & -> & Hs).
      exists (with_file (Some (fd, (o + Z.to_nat (as_u64 (r_ret r)))%nat)) l), n. rewrite Hio. cbn.
      split_and!; first [done|lia|by eapply fc_read|apply Hr; [lia|done..]].
    + destruct Hcase as (Hout & -> & Hcase). destruct (Hr Hout) as [Hi He].
      destruct Hcase as [[-> Hs]|(Hne & Hm & Hs)].
      * exists l, (signals s'). rewrite Hio.
        split_and!; [apply Hi; [done|lia]|lia|lia|done|lia|apply fc_same].
      * exists l, n. rewrite Hio. split_and!; [by apply He|lia|lia|done|lia|apply fc_same].
  - destruct (auxv_close fd o s (proj1 (Hown _ _ Hf)) (proj2 (Hown _ _ Hf))) as (r0 & s0 & Hk0 & Hfs & Hs).
    rewrite Hk in Hk0. injection Hk0 as <- <-. rewrite Hfs.
    assert (is_open (close_call fd) = false) as Hio by apply read_not_open.
    exists (with_file None l), n. rewrite Hio. cbn.
    split_and!; first [done|lia|by eapply fc_close].
Qed.

Lemma good_cell_insert m ts x :
  good_cell m -> 0 < ts -> m !! ts = None -> good_value x -> good_cell (<[ts := x]> m).
Proof.
  intros [H0 Hall] Hts Hnone Hx. split; [rewrite lookup_insert_ne; [done|lia]|].
  intros ts' y. rewrite lookup_insert_Some. intros [[<- <-]|[_ Hy]]; [by right|by apply Hall].
Qed.

Lemma thread_step i t l m s lg m' s' cs t' :
  thread_ok i t l m s lg -> good_cell m -> enough_fuel (signals s) ->
  (forall fd o, l_file l = Some (fd, o) -> is_i32 fd /\ files s !! fd = Some o) ->
  (l_file l = None -> (limit <= size (files s))%nat -> may_fail) ->
  tstep K code m s t m' s' cs t' ->
  exists l', thread_ok i t' l' m' s' (lg ++ map (pair i) cs) /\ good_cell m' /\ m ⊆ m' /\
    (signals s' <= signals s)%nat /\ file_change (files s) (l_file l) (files s') (l_file l').
Proof.
  intros [Hv Hp Hseen Ha Hc Ho Hcode] Hcell Hfuel Hown Hlim Hstep.
  assert (forall n, enough_fuel n -> (l_opened l = true -> 0 < l_view l) -> 0 <= l_view l ->
    l_file l = None -> safe code l n) as Hcall.
  { intros. apply safe_call; assumption. }
  clear Hanswer. inversion Hstep; subst; cbn [t_view t_code t_todo t_answers] in *;
    cbn [map]; rewrite ?app_nil_r.
  - destruct Hcode as [Hopen Hf]. exists l. split_and!; try done; [|apply fc_same].
    split; try done; cbn in *; [lia|]. exists (signals s'). split; [done|].
    apply Hcall; [exact Hfuel|exact Hopen|lia|exact Hf].
  - destruct Hcode as (b & Hb & Hsafe). exists (with_view ts l).
    split_and!; try done; [|apply fc_same]. split; try done; cbn in *; [lia|].
    exists b. split; [done|]. apply Hsafe; [lia|]. by apply Hcell.
  - destruct Hcode as (b & Hb & Hx & Hsafe). exists (with_view ts l).
    split_and!; try done; [|apply good_cell_insert; [done|lia|done|done]
                           |by apply insert_subseteq|apply fc_same].
    split; try done; cbn in *; try lia; try by rewrite lookup_insert_eq.
    exists b. split; [done|]. apply Hsafe. lia.
  - destruct Hcode as (b & Hb & Hsafe). simpl in Hsafe.
    edestruct sys_step as (l' & n' & Hk & Hn' & Hs & Hvw & Hop & Hfc); [exact Hsafe|exact Hb|done..|].
    exists l'. split_and!; try done. split; cbn; try done; try congruence.
    + rewrite opens_app. fold (map (pair i) [c]). rewrite opens_one, Ho, Hop. done.
    + by exists n'.
  - destruct Hcode as (b & Hb & Hx & Hpos & Hf). exists (with_file None l).
    split_and!; try done.
    + split; try done; cbn in *.
      * apply Forall_app; split; [done|]. by constructor.
      * rewrite length_app. cbn [length]. lia.
    + destruct Hf as [->|Hm]; [apply fc_same|by apply fc_leak].
Qed.

(** ** Descriptors have one owner each *)

Definition holds_fd (l : Local) : bool := match l_file l with Some _ => true | None => false end.
Definition held (ls : list Local) : nat := length (List.filter holds_fd ls).

Record owned (ls : list Local) (m : gmap Z nat) : Prop := {
  ow_file : forall i l fd o, ls !! i = Some l -> l_file l = Some (fd, o) ->
    is_i32 fd /\ m !! fd = Some o;
  ow_disj : forall i j l l' fd o o', ls !! i = Some l -> ls !! j = Some l' ->
    l_file l = Some (fd, o) -> l_file l' = Some (fd, o') -> i = j;
  ow_size : may_fail \/ (size m <= held ls)%nat }.

Lemma held_insert ls i l l' :
  ls !! i = Some l ->
  (held (<[i := l']> ls) + (if holds_fd l then 1 else 0) =
   held ls + (if holds_fd l' then 1 else 0))%nat.
Proof.
  unfold held. revert i. induction ls as [|x ls IH]; intros [|i] Hi; simpl in *; [done..| |].
  - injection Hi as ->. destruct (holds_fd l), (holds_fd l'); simpl; lia.
  - specialize (IH i Hi). destruct (holds_fd x); simpl; lia.
Qed.

Lemma held_le ls : (held ls <= length ls)%nat.
Proof. induction ls as [|l ls IH]; [done|]. unfold held in *. simpl. destruct (holds_fd l); simpl; lia. Qed.

Lemma held_lt ls i l : ls !! i = Some l -> l_file l = None -> (held ls < length ls)%nat.
Proof.
  intros Hi Hf. pose proof (held_insert ls i l (mkLocal false 0 (Some (0, 0%nat))) Hi) as E.
  pose proof (held_le (<[i := mkLocal false 0 (Some (0, 0%nat))]> ls)) as Hle.
  rewrite length_insert in Hle. unfold holds_fd in E at 1. rewrite Hf in E. simpl in E. lia.
Qed.

(** A step of thread [i] keeps the other threads' descriptors. *)
Lemma change_keeps ls m m' i l f' j l' fd o :
  owned ls m -> ls !! i = Some l -> ls !! j = Some l' -> i <> j ->
  file_change m (l_file l) m' f' -> l_file l' = Some (fd, o) ->
  (is_i32 fd /\ m' !! fd = Some o) /\ forall o', f' <> Some (fd, o').
Proof.
  intros Hw Hi Hj Hne Hfc Hf. pose proof (ow_file _ _ Hw j l' fd o Hj Hf) as [Hr Hm].
  assert (forall fd' o', l_file l = Some (fd', o') -> fd' <> fd) as Hd.
  { intros fd' o' Hl ->. apply Hne. by eapply (ow_disj _ _ Hw). }
  inversion Hfc as [ |fd' Hr' Hn Hfree|fd' o1 o2 Hl|fd' o1 Hl|]; subst.
  - split; [done|]. intros o' Ho. by apply (Hd _ _ Ho).
  - assert (fd' <> fd) by (intros ->; congruence).
    rewrite lookup_insert_ne by done. split; [done|]. by intros o' [=].
  - pose proof (Hd _ _ Hl). rewrite lookup_insert_ne by done. split; [done|]. by intros o' [=].
  - pose proof (Hd _ _ Hl). by rewrite lookup_delete_ne.
  - done.
Qed.

Lemma owned_change ls m m' i l l' :
  owned ls m -> ls !! i = Some l -> file_change m (l_file l) m' (l_file l') ->
  owned (<[i := l']> ls) m'.
Proof.
  intros Hw Hi Hfc. assert (i < length ls)%nat as Hlt by by eapply lookup_lt_Some.
  split.
  - intros j lj fd o Hj Hf. destruct (decide (i = j)) as [<-|Hne].
    + rewrite list_lookup_insert_eq in Hj by done. injection Hj as <-.
      inversion Hfc as [Em E|fd' Hr Hn Hfree Em E|fd' o1 o2 Hl Em E|fd' o1 Hl Em E|Hmf Em E];
        rewrite <- E in Hf; subst.
      * by eapply (ow_file _ _ Hw).
      * injection Hf as <- <-. by rewrite lookup_insert_eq.
      * injection Hf as <- <-. rewrite lookup_insert_eq. split; [|done].
        by apply (ow_file _ _ Hw i l fd' o1).
      * done.
      * done.
    + rewrite list_lookup_insert_ne in Hj by done.
      by destruct (change_keeps _ _ _ _ _ _ _ _ _ _ Hw Hi Hj Hne Hfc Hf).
  - assert (forall j lj fd o o', i <> j -> ls !! j = Some lj -> l_file l' = Some (fd, o) ->
      l_file lj = Some (fd, o') -> False) as Hoth.
    { intros j lj fd o o' Hne Hj Hf Hf'.
      destruct (change_keeps _ _ _ _ _ _ _ _ _ _ Hw Hi Hj Hne Hfc Hf') as [_ Hno]. by eapply Hno. }
    intros j k lj lk fd o o' Hj Hk Hf Hf'.
    destruct (decide (i = j)) as [<-|Hij], (decide (i = k)) as [<-|Hik]; [done|..].
    + rewrite list_lookup_insert_eq in Hj by done. injection Hj as <-.
      rewrite list_lookup_insert_ne in Hk by done. by destruct (Hoth _ _ _ _ _ Hik Hk Hf Hf').
    + rewrite list_lookup_insert_eq in Hk by done. injection Hk as <-.
      rewrite list_lookup_insert_ne in Hj by done. by destruct (Hoth _ _ _ _ _ Hij Hj Hf' Hf).
    + rewrite list_lookup_insert_ne in Hj, Hk by done. by eapply (ow_disj _ _ Hw).
  - destruct (ow_size _ _ Hw) as [|Hsz]; [by left|].
    pose proof (held_insert ls i l l' Hi) as Hh. unfold holds_fd in Hh.
    inversion Hfc as [Em E|fd' Hr Hn Hfree Em E|fd' o1 o2 Hl Em E|fd' o1 Hl Em E|Hmf Em E]; subst.
    + right. rewrite E in Hh. destruct (l_file l'); lia.
    + right. rewrite <- E, Hn in Hh. rewrite map_size_insert_None by done. lia.
    + right. rewrite <- E, Hl in Hh. rewrite map_size_insert_Some; [lia|].
      exists o1. by eapply (ow_file _ _ Hw).
    + right. rewrite <- E, Hl in Hh. rewrite map_size_delete_Some; [lia|].
      exists o1. by eapply (ow_file _ _ Hw).
    + by left.
Qed.

(** ** The invariant of every reachable state *)

Definition inv (st : State K (A := option Z)) : Prop := exists ls,
  length ls = length (pool st) /\ (length (pool st) <= limit)%nat /\
  good_cell (cell st) /\ enough_fuel (signals (ker st)) /\ owned ls (files (ker st)) /\
  forall i t l, pool st !! i = Some t -> ls !! i = Some l ->
    thread_ok i t l (cell st) (ker st) (log st).

Lemma inv_start n s :
  (n <= limit)%nat -> files s = ∅ -> enough_fuel (signals s) -> inv (start K n calls 0 s).
Proof.
  intros Hn Hf Hfuel. exists (replicate n (mkLocal false 0 None)).
  unfold start. cbn [pool cell ker log]. rewrite !length_replicate.
  split_and!; [done|done| |done| |].
  - split; [by rewrite lookup_singleton_eq|]. intros ts x [<- <-]%lookup_singleton_Some. by left.
  - split.
    + intros i l fd o [-> _]%lookup_replicate Hl. done.
    + intros i j l l' fd o o' [-> _]%lookup_replicate _ Hl. done.
    + right. rewrite Hf, map_size_empty. lia.
  - intros i t l [-> _]%lookup_replicate [-> _]%lookup_replicate.
    split; cbn; done.
Qed.

Lemma inv_step st st' : inv st -> step K code st st' -> inv st'.
Proof.
  intros (ls & Hl & Hlim & Hcell & Hfuel & Hown & Hth) Hstep.
  inversion Hstep as [i t m s ts lg m' s' cs t' Hi Ht]; subst.
  cbn [pool cell ker log] in *.
  assert (is_Some (ls !! i)) as [l Hli].
  { apply lookup_lt_is_Some. rewrite Hl. by eapply lookup_lt_Some. }
  destruct (thread_step i t l m s lg m' s' cs t') as (l' & Hok & Hcell' & Hsub & Hs & Hfc);
    [by apply Hth|done|done|exact (fun fd o => ow_file _ _ Hown i l fd o Hli)| |done|].
  { intros Hnone Hfull. destruct (ow_size _ _ Hown) as [|Hsz]; [done|].
    pose proof (held_lt ls i l Hli Hnone). lia. }
  exists (<[i := l']> ls). cbn [pool cell ker log]. rewrite !length_insert.
  split_and!; [done|done|done|by eapply enough_fuel_mono|by eapply owned_change|].
  intros j u lu Hu Hlu. destruct (decide (i = j)) as [<-|Hne].
  - rewrite list_lookup_insert_eq in Hu by (by eapply lookup_lt_Some).
    assert (i < length ls)%nat as Hlt by (by eapply lookup_lt_Some).
    rewrite (list_lookup_insert_eq ls i l' Hlt) in Hlu. congruence.
  - rewrite list_lookup_insert_ne in Hu by done. rewrite list_lookup_insert_ne in Hlu by done.
    eapply thread_ok_stable; eauto.
    rewrite opens_app, opens_other by done. lia.
Qed.

Lemma inv_reachable n s st :
  (n <= limit)%nat -> files s = ∅ -> enough_fuel (signals s) ->
  rtc (step K code) (start K n calls 0 s) st -> inv st.
Proof.
  intros Hn Hf Hfuel Hr. eapply rtc_invariant; [exact inv_step|exact Hr|by apply inv_start].
Qed.

(** ** Progress: a thread with something left to do can do it *)

Lemma sys_ok_answered c k l n s :
  sys_ok c k l n -> (forall fd o, l_file l = Some (fd, o) -> is_i32 fd /\ files s !! fd = Some o) ->
  exists r s', kstep K c s = (Some r, s').
Proof.
  intros [-> _ _ _|fd o buf -> Hf _|fd o -> Hf _] Hown.
  - destruct (auxv_open s) as (r & s' & Hk & _). eauto.
  - destruct (Hown _ _ Hf) as [Hr Hm]. destruct (auxv_read fd o buf s Hr Hm) as (r & s' & Hk & _). eauto.
  - destruct (Hown _ _ Hf) as [Hr Hm]. destruct (auxv_close fd o s Hr Hm) as (r & s' & Hk & _). eauto.
Qed.

Lemma stopped_done st :
  inv st -> nf (step K code) st ->
  Forall (fun t => length (t_answers t) = calls /\ Forall good_answer (t_answers t)) (pool st).
Proof.
  intros (ls & Hl & Hlim & Hcell & Hfuel & Hown & Hth) Hnf.
  apply Forall_lookup. intros i t Hi.
  assert (is_Some (ls !! i)) as [l Hli].
  { apply lookup_lt_is_Some. rewrite Hl. by eapply lookup_lt_Some. }
  destruct (Hth i t l Hi Hli) as [Hv Hp Hseen Ha Hc Ho Hcode]. split; [|done].
  assert (forall m' s' cs t', tstep K code (cell st) (ker st) t m' s' cs t' -> False) as Hstuck.
  { intros m' s' cs t' Ht. destruct st. apply Hnf. eexists. by eapply step_thread. }
  destruct t as [v [p|] [|todo] a]; cbn [t_code t_todo t_answers t_view] in *.
  3: lia.
  3: { exfalso. eapply Hstuck. constructor. }
  all: exfalso; destruct Hcode as (n & Hn & Hsafe); destruct p as [r|k|x p|c k| |]; try exact Hsafe.
  1, 5: eapply Hstuck; by constructor.
  1, 4: destruct Hseen as [x Hx]; eapply Hstuck; by eapply t_load.
  1, 3: destruct (free_timestamp (cell st) v) as (ts & Hts & Hfree); eapply Hstuck; by eapply t_store.
  all: destruct (sys_ok_answered _ _ _ _ (ker st) Hsafe) as (r & s' & Hk);
    [exact (fun fd o => ow_file _ _ Hown i l fd o Hli)|]; eapply Hstuck; by eapply t_sys.
Qed.

(** What holds in every reachable state, as the threads see it. *)
Lemma inv_agree st :
  inv st ->
  Forall (fun t => Forall good_answer (t_answers t)) (pool st) /\
  (forall ts x, cell st !! ts = Some x -> x = 0 \/ good_value x) /\
  (forall i, (i < length (pool st))%nat -> (opens i (log st) <= 1)%nat).
Proof.
  intros (ls & Hl & Hlim & Hcell & Hfuel & Hown & Hth). split_and!.
  - apply Forall_lookup. intros i t Hi. assert (is_Some (ls !! i)) as [l Hli].
    { apply lookup_lt_is_Some. rewrite Hl. by eapply lookup_lt_Some. }
    apply (th_answers _ _ _ _ _ _ (Hth i t l Hi Hli)).
  - intros ts x Hx. destruct Hcell as [_ Hg]. destruct (Hg ts x Hx) as [[_ ->]|[_ ?]]; auto.
  - intros i Hlt. destruct (proj2 (lookup_lt_is_Some (pool st) i) Hlt) as [t Hi].
    assert (is_Some (ls !! i)) as [l Hli] by (apply lookup_lt_is_Some; lia).
    rewrite (th_opens _ _ _ _ _ _ (Hth i t l Hi Hli)). destruct (l_opened l); lia.
Qed.
End Race.

(** [C6] Threads race on the vDSO cache: any number of them, each calling
    [clock_gettime_fn] any number of times, in any interleaving of their loads,
    stores and system calls, the [Relaxed] loads returning any write coherence
    allows.  Every answer is the one a resolution finds (or [None], where calls
    may fail), every value ever in the cache is 0 or such an answer, and no
    thread resolves more than once. *)
Theorem race_agrees `{Target} (mem : Z -> Z) (fuel : nat) (auxv : list Z) (may_fail : Prop)
    (answer : option Z) (K : Kernel) (limit n calls : nat)
    (HK : AuxvKernel K auxv limit may_fail) (s : kst K) :
  resolution mem fuel auxv = Ret answer -> answer <> Some 0 -> answer <> Some FAILED ->
  (n <= limit)%nat -> files s = ∅ -> (4096 + signals s <= fuel)%nat ->
  forall st, rtc (step K (clock_gettime_fn_shared mem fuel)) (start K n calls 0 s) st ->
    Forall (fun t => Forall (fun r => r = answer \/ may_fail /\ r = None) (t_answers t)) (pool st) /\
    (forall ts x, cell st !! ts = Some x ->
       x = 0 \/ exists r, (r = answer \/ may_fail /\ r = None) /\ x = cached_value r) /\
    (forall i, (i < length (pool st))%nat -> (opens i (log st) <= 1)%nat).
Proof.
  intros Hr H0 H1 Hn Hf Hfuel st Hst. eapply inv_agree.
  eapply (inv_reachable mem fuel auxv may_fail answer Hr K limit calls H0 H1); [exact Hn|exact Hf|exact Hfuel|exact Hst].
Qed.

(** [C7] The race always ends, whatever the scheduler does: no execution is
    infinite, and one that cannot go on has every thread back from all its
    calls, each with the answer the resolution finds (on a kernel where opening
    and reading the vector do not fail). *)
Theorem race_finishes `{Target} (mem : Z -> Z) (fuel : nat) (auxv : list Z)
    (answer : option Z) (K : Kernel) (limit n calls : nat)
    (HK : AuxvKernel K auxv limit False) (s : kst K) :
  resolution mem fuel auxv = Ret answer -> answer <> Some 0 -> answer <> Some FAILED ->
  (n <= limit)%nat -> files s = ∅ -> (4096 + signals s <= fuel)%nat ->
  let R := step K (clock_gettime_fn_shared mem fuel) in
  sn R (start K n calls 0 s) /\
  forall st, rtc R (start K n calls 0 s) st -> nf R st ->
    Forall (fun t => t_answers t = replicate calls answer) (pool st).
Proof.
  intros Hr H0 H1 Hn Hf Hfuel R. split; [apply sn_step|]. intros st Hst Hnf.
  eapply Forall_impl; [eapply (stopped_done mem fuel auxv False answer K limit calls)|];
    [|exact Hnf|].
  - eapply (inv_reachable mem fuel auxv False answer Hr K limit calls H0 H1); [exact Hn|exact Hf|exact Hfuel|exact Hst].
  - intros t [Hlen Hall]. apply list_eq_Forall2, Forall2_replicate_r; [done|].
    eapply Forall_impl; [exact Hall|]. by intros r [->|[[] _]].
Qed.

(** ** A kernel with the file, short reads and interruptions *)

Record AuxvState := mkAuxvState { as_files : gmap Z nat; as_signals : nat }.

Section Demo.
Context `{Target} (auxv : list Z).

Definition auxv_step (c : Call) (s : AuxvState) : option Reply * AuxvState :=
  match c with
  | Syscall n args =>
      if n =? nrz OPENAT then
        match free_fd 64 (as_files s) with
        | Some fd => (Some (mkReply fd []), mkAuxvState (<[fd := 0%nat]> (as_files s)) (as_signals s))
        | None => (Some (mkReply (-24) []), s)
        end
      else if n =? nrz READ then
        match args with
        | AInt fd :: AMut buf :: _ =>
            match as_files s !! as_i32 fd, as_signals s with
            | None, _ => (Some (mkReply (-9) []), s)
            | Some o, S k => (Some (mkReply (-4) []), mkAuxvState (as_files s) k)
            | Some o, O =>
                let k := Nat.min (Nat.min 16 (length buf)) (length (drop o auxv)) in
                (Some (mkReply (Z.of_nat k) [take k (drop o auxv)]),
                 mkAuxvState (<[as_i32 fd := (o + k)%nat]> (as_files s)) 0)
            end
        | _ => (Some (mkReply (-22) []), s)
        end
      else if n =? nrz CLOSE then
        match args with
        | AInt fd :: _ => (Some (mkReply 0 []), mkAuxvState (delete (as_i32 fd) (as_files s)) (as_signals s))
        | _ => (Some (mkReply (-22) []), s)
        end
      else (Some (mkReply (-38) []), s)
  | CallFn _ _ => (Some (mkReply (-38) []), s)
  end.
Definition auxv_kernel : Kernel := mkKernel AuxvState auxv_step.

Lemma auxv_kernel_ok : bytes_ok auxv -> AuxvKernel auxv_kernel auxv 64 False.
Proof.
  intros Hb. assert ((nrz READ =? nrz OPENAT) = false /\ (nrz CLOSE =? nrz OPENAT) = false /\
    (nrz CLOSE =? nrz READ) = false) as (E1 & E2 & E3) by (unfold nrz, nr_table; by destruct arch).
  refine {| files := (as_files : kst auxv_kernel -> _); signals := (as_signals : kst auxv_kernel -> _) |}.
  - intros s. cbn [kstep auxv_kernel]. unfold auxv_step, open_call. rewrite Z.eqb_refl.
    destruct (free_fd 64 (as_files s)) as [fd|] eqn:E.
    + apply free_fd_some in E as [Hfree Hr]. do 2 eexists. split; [reflexivity|]. cbn [r_ret as_files as_signals].
      unfold from_ret_i32, as_u64. rewrite wrap_small by lia.
      destruct (from_ret fd) as [v|e] eqn:E.
      * apply from_ret_ok in E as [-> _]; [|int_ranges; lia]. cbn [map_ok].
        unfold as_i32. rewrite swrap_small by lia. done.
      * assert (from_ret fd = Ok fd) as E' by (apply from_ret_ok; int_ranges; lia). congruence.
    + apply free_fd_none in E. do 2 eexists. split; [reflexivity|]. split; [done|].
      change (from_ret_i32 (as_u64 (r_ret (mkReply (-24) [])))) with (@Err Z (mkErrno 24)).
      split; [done|]. by right.
  - intros fd o buf s Hfd Ho. cbn [kstep auxv_kernel]. unfold auxv_step, read_call, int.
    rewrite E1, Z.eqb_refl, as_i32_as_usize, Ho by done.
    destruct (as_signals s) as [|k] eqn:Es; do 2 eexists; (split; [reflexivity|]); cbn [r_ret as_files as_signals].
    + set (k := Nat.min (Nat.min 16 (length buf)) (length (drop o auxv))).
      assert (k <= 16 /\ k <= length buf /\ k <= length (drop o auxv) /\
              (k = 0 -> length buf = 0 \/ length (drop o auxv) = 0))%nat as (? & ? & ? & Hz) by lia.
      assert (from_ret (as_u64 (Z.of_nat k)) = Ok (Z.of_nat k)) as ->.
      { unfold as_u64. rewrite wrap_small by lia. apply from_ret_ok; int_ranges; lia. }
      cbv zeta. rewrite Nat2Z.id. split_and!; try lia; try done.
      * intros Hk. destruct Hz as [Hz|Hz]; [lia|right|left]; by apply length_zero_iff_nil.
      * assert (length (take k (drop o auxv)) = k) as Hl by (rewrite length_take; lia).
        change (overwrite buf (take k (drop o auxv)) = take k (drop o auxv) ++ drop k buf).
        rewrite overwrite_prefix by lia. rewrite Hl. f_equal.
        by apply map_as_u8, Forall_take, Forall_drop.
    + change (from_ret (as_u64 (-4))) with (@Err Z EINTR). split_and!; [done|done|left]. split; [done|]. apply Nat.lt_succ_diag_r.
  - intros fd o s Hfd Ho. cbn [kstep auxv_kernel]. unfold auxv_step, close_call, int.
    rewrite E2, E3, Z.eqb_refl, as_i32_as_usize by done. do 2 eexists. split; [reflexivity|].
    cbn [as_files as_signals]. split; [done|lia].
Defined.
End Demo.

Definition demo_auxv : list Z :=
  le_enc 8 6 ++ le_enc 8 4096 ++ le_enc 8 AT_SYSINFO_EHDR ++ le_enc 8 image_base ++ le_enc 16 0.
Lemma demo_auxv_bytes : bytes_ok demo_auxv.
Proof. unfold demo_auxv. repeat (apply Forall_app; split); apply le_enc_bytes. Qed.

(** A state with the second thread inside its resolution. *)
Lemma race_agrees_witness :
  let K := @auxv_kernel X86_64 demo_auxv in
  exists st : State K (A := option Z),
    rtc (step K (clock_gettime_fn_shared (H := X86_64) image_mem 4099))
        (start K 2 3 0 (mkAuxvState ∅ 3)) st /\
    log st = [(1%nat, @open_call X86_64)] /\
    Forall (fun t => Forall (fun r => r = Some (image_base + 0x800) \/ False /\ r = None) (t_answers t)) (pool st) /\
    (forall ts x, cell st !! ts = Some x -> x = 0 \/
       exists r, (r = Some (image_base + 0x800) \/ False /\ r = None) /\ x = cached_value r) /\
    (forall i, (i < length (pool st))%nat -> (@opens X86_64 i (log st) <= 1)%nat).
Proof.
  intros K.
  assert (exists st : State K (A := option Z),
    rtc (step K (clock_gettime_fn_shared (H := X86_64) image_mem 4099))
        (start K 2 3 0 (mkAuxvState ∅ 3)) st /\ log st = [(1%nat, @open_call X86_64)])
    as (st & Hst & Hlog).
  { eexists. split.
    - eapply rtc_l; [eapply (step_thread _ _ 1); [reflexivity|apply t_call]|].
      eapply rtc_l; [eapply (step_thread _ _ 1); [reflexivity|by eapply (t_load _ _ _ _ 0 _ _ _ 0)]|].
      eapply rtc_l; [eapply (step_thread _ _ 1); [reflexivity|by eapply t_sys]|apply rtc_refl].
    - reflexivity. }
  exists st. split; [exact Hst|]. split; [exact Hlog|].
  apply (@race_agrees X86_64 image_mem 4099 demo_auxv False (Some (image_base + 0x800))
    (@auxv_kernel X86_64 demo_auxv) 64 2 3 (@auxv_kernel_ok X86_64 demo_auxv demo_auxv_bytes)
    (mkAuxvState ∅ 3)).
  - vm_compute. reflexivity.
  - discriminate.
  - discriminate.
  - lia.
  - reflexivity.
  - apply Nat.leb_le. vm_compute. reflexivity.
  - exact Hst.
Defined.

Lemma race_finishes_witness :
  let R := step (@auxv_kernel X86_64 demo_auxv) (clock_gettime_fn_shared (H := X86_64) image_mem 4099) in
  let st0 := start (@auxv_kernel X86_64 demo_auxv) 2 3 0 (mkAuxvState ∅ 3) in
  sn R st0 /\
  forall st, rtc R st0 st -> nf R st ->
    Forall (fun t => t_answers t = replicate 3 (Some (image_base + 0x800))) (pool st).
Proof.
  apply (@race_finishes X86_64 image_mem 4099 demo_auxv (Some (image_base + 0x800))
    (@auxv_kernel X86_64 demo_auxv) 64 2 3 (@auxv_kernel_ok X86_64 demo_auxv demo_auxv_bytes)
    (mkAuxvState ∅ 3)).
  - vm_compute. reflexivity.
  - discriminate.
  - discriminate.
  - lia.
  - reflexivity.
  - apply Nat.leb_le. vm_compute. reflexivity.
Defined.
