(* ===== verification/ResolveSpec.v ===== *)
(** Resolution end to end: [query] against a configuration file and a network,
    from the first [open] to the accepted datagram. *)

From stdpp Require Import base list option numbers strings.
From Stdlib Require Import ZArith Lia.
From S2P Require Import Prelude Prog Layout Asm Arch Fd Misc Socket Dns DnsSpec FdSpec.

(** ** The calls a query makes *)

Section Calls.
Context `{Target}.

Definition conf_open_call : Call :=
  Syscall (nrz OPENAT) [int AT_FDCWD; cstr (str "/etc/resolv.conf"); int O_RDONLY; int 0].
Definition random_call (buf : list Z) : Call := Syscall (nrz GETRANDOM) [AMut buf; len buf; int 0].
Definition socket_call : Call := Syscall (nrz SOCKET) [int AF_INET; int SOCK_DGRAM; int 0].
Definition sendto_call (sock : Z) (q server : list Z) : Call :=
  Syscall (nrz SENDTO) [int sock; ARef q; len q; int 0;
    ARef (encode (SockAddrIn_new server 53)); sizeof SockAddrIn].
Definition poll_call (sock : Z) : Call :=
  let fds := [mkPollFd sock POLLIN 0] in
  match arch with
  | X86_64 => Syscall (nrz POLL) [AMut (encode_all fds); len fds; int RESPONSE_TIMEOUT_MS]
  | Aarch64 =>
      Syscall (nrz PPOLL) [AMut (encode_all fds); len fds;
        ARef (encode (mkPollTimespec (RESPONSE_TIMEOUT_MS / 1000) (RESPONSE_TIMEOUT_MS mod 1000 * 1000000)));
        int 0; int 8]
  end.
Definition recv_call (sock : Z) : Call :=
  Syscall (nrz RECVFROM) [int sock; AMut (replicate 512 0); len (replicate 512 0); int 0;
    AMut (encode SockAddrIn_zero); addrlen SockAddrIn].

(** Each wrapper makes its call. *)
Lemma recvfrom_eq sock :
  recvfrom_in sock (replicate 512 0) 0 =
  Sys (recv_call sock) (fun r => Ret (out 0 r, map_ok (fun n => (n, decode (out 1 r))) (from_ret (r_ret r)))).
Proof. unfold recvfrom_in. by rewrite syscall6_eq. Qed.

Lemma poll_eq sock : exists f, poll [mkPollFd sock POLLIN 0] RESPONSE_TIMEOUT_MS =
  Sys (poll_call sock) (fun r => Ret (f r, from_ret (r_ret r))).
Proof.
  unfold poll, poll_call, poll_x86_64, poll_aarch64. destruct arch; eexists.
  - by rewrite syscall3_eq.
  - by rewrite syscall5_eq.
Qed.

Lemma sendto_eq sock q server :
  sendto_in sock q 0 (SockAddrIn_new server 53) =
  Sys (sendto_call sock q server) (fun r => Ret (from_ret (r_ret r))).
Proof. unfold sendto_in. by rewrite syscall6_eq. Qed.

Lemma close_eq fd : close fd = Sys (close_call fd) (fun r => Ret (ret_unit r)).
Proof. unfold close. by rewrite syscall1_eq. Qed.
End Calls.

(** ** Which datagrams are accepted *)

(** The exchange that ends a query: a datagram sent to [server], a wait, and a
    datagram received from that same address, long enough for a header and
    carrying the query's id. *)
Definition exchange `{Target} (sock id : Z) (q server buf : list Z) (n : Z) (t : Trace) : Prop :=
  exists r1 r2 r3,
    t = [(sendto_call sock q server, Some r1); (poll_call sock, Some r2); (recv_call sock, Some r3)] /\
    is_ok (from_ret (r_ret r1)) = true /\
    from_ret (r_ret r3) = Ok n /\ out 0 r3 = buf /\
    sin_octets (decode (out 1 r3)) = server /\ 12 <= n /\ be_dec (take 2 buf) = id.

Section Accepted.
Context `{Target} (K : Kernel) (sock id : Z) (q : list Z).

Lemma ask_accepted server s buf n t s' :
  run K (ask sock id q server) s = (Done (Some (Ok (buf, n))), t, s') ->
  exchange sock id q server buf n t.
Proof.
  unfold ask. rewrite sendto_eq. cbn [bind].
  intros (r1 & s1 & t1 & _ & E & ->)%run_sys_done. cbn [bind] in E.
  destruct (is_ok (from_ret (r_ret (conform _ r1)))) eqn:Hs; cbn [negb] in E; [|done].
  destruct (poll_eq sock) as [f Hp]. rewrite Hp in E. cbn [bind] in E.
  apply run_sys_done in E as (r2 & s2 & t2 & _ & E & ->). cbn [bind] in E.
  destruct (from_ret (r_ret (conform _ r2))) as [ready|e]; [|done].
  destruct (ready =? 0); [done|]. rewrite recvfrom_eq in E. cbn [bind] in E.
  apply run_sys_done in E as (r3 & s3 & t3 & _ & E & ->). cbn [bind] in E.
  set (r := conform (recv_call sock) r3) in *.
  assert (length (out 0 r) = 512%nat) as Hl.
  { unfold r. rewrite out_length. cbn [call_writable call_args map recv_call concat writable app nth].
    apply length_replicate. }
  destruct (from_ret (r_ret r)) as [m|e] eqn:Hr; cbn [map_ok] in E; [|done].
  destruct (bool_decide (sin_octets (decode (out 1 r)) = server)) eqn:Hfrom; cbn [negb orb] in E; [|done].
  apply bool_decide_eq_true in Hfrom. destruct (Z.ltb_spec m 12); [done|].
  destruct (out 0 r) as [|a [|b l]] eqn:Ho; [done|done|].
  cbn [at_ lookup list_lookup Z.to_nat or_panic bind] in E.
  change (at_ (a :: b :: l) 0) with (@Ret Z a) in E. change (at_ (a :: b :: l) 1) with (@Ret Z b) in E.
  cbn [bind] in E. destruct (Z.eqb_spec (be_dec [a; b]) id) as [Hid|]; cbn [negb] in E; [|done].
  injection E as <- <- <- _. exists (conform (sendto_call sock q server) r1), (conform (poll_call sock) r2), r.
  split_and!; done.
Qed.

Lemma ask_all_accepted servers s buf n t s' :
  run K (ask_all sock id q servers) s = (Done (Some (Ok (buf, n))), t, s') ->
  exists server t1 t2, In server servers /\ t = t1 ++ t2 /\ exchange sock id q server buf n t2.
Proof.
  revert s t. induction servers as [|server servers IH]; intros s t; cbn [ask_all]; [done|].
  intros ([r|] & t1 & s1 & t2 & H1 & H2 & ->)%run_bind_done.
  - simpl in H2. injection H2 as -> <- _. exists server, [], t1. rewrite app_nil_r.
    split_and!; [by left|done|by eapply ask_accepted].
  - destruct (IH _ _ H2) as (sv & t3 & t4 & Hin & -> & Hx). exists sv, (t1 ++ t3), t4.
    split_and!; [by right|by rewrite app_assoc|done].
Qed.

Lemma attempts_accepted k servers s buf n t s' :
  run K (attempts k sock id q servers) s = (Done (Ok (buf, n)), t, s') ->
  exists server t1 t2, In server servers /\ t = t1 ++ t2 /\ exchange sock id q server buf n t2.
Proof.
  revert s t. induction k as [|k IH]; intros s t; cbn [attempts]; [done|].
  intros ([r|] & t1 & s1 & t2 & H1 & H2 & ->)%run_bind_done.
  - simpl in H2. injection H2 as -> <- _. rewrite app_nil_r. by eapply ask_all_accepted.
  - destruct (IH _ _ H2) as (sv & t3 & t4 & Hin & -> & Hx). exists sv, (t1 ++ t3), t4.
    split_and!; [done|by rewrite app_assoc|done].
Qed.
End Accepted.

(** [C13] No reply is accepted but an answer: on any kernel and any network, if
    [query] returns a datagram then its last calls are an exchange with one of
    the configured servers, in which that server was sent the RFC 1035 query for
    the name, and the datagram came back from that server's address, at least a
    header long and carrying the query's own id; after which the socket was
    closed. *)
Theorem query_authentic `{Target} (K : Kernel) hostname qtype s buf n t s' :
  run K (query hostname qtype) s = (Done (Ok (buf, n)), t, s') ->
  exists servers t1 s1 id sock server t2 tx r,
    run K read_nameservers s = (Done (Ok servers), t1, s1) /\
    In server servers /\
    exchange sock id (wire_query id hostname qtype) server buf n tx /\
    t = t1 ++ t2 ++ tx ++ [(close_call sock, Some r)].
Proof.
  unfold query. intros (servers & t1 & s1 & t2 & H1 & E & ->)%run_bind_ok_done.
  apply run_bind_done in E as ([idb r] & t3 & s3 & t4 & _ & E & ->).
  destruct r as [m|e]; [|done]. cbn [bind_ok bind] in E.
  pose proof (build_query_lemma (replicate 256 0) (be_dec idb) hostname qtype) as Hq. cbv zeta in Hq.
  destruct (build_query _ _ _ _) as [qbuf [qlen|e]] eqn:Eq; [|done]. cbn [bind_ok bind] in E.
  destruct (_ && _) in Hq; [|done].
  remember (wire_query (be_dec idb) hostname qtype) as w eqn:Ew. injection Hq as -> ->.
  unfold bind_ok at 1 in E. cbn [bind] in E.
  apply run_bind_ok_done in E as (sock & t5 & s5 & t6 & _ & E & ->).
  unfold slice_to in E. rewrite Nat2Z.id, take_app_length in E.
  destruct (_ <=? _); [|done]. cbn [or_panic bind] in E.
  apply run_bind_done in E as ([[b m']|e] & t7 & s7 & t8 & Ha & E & ->).
  2: { rewrite close_eq in E. apply run_sys_done in E as (r & s8 & t9 & _ & E & _). done. }
  rewrite close_eq in E. apply run_sys_done in E as (r & s8 & t9 & _ & E & ->).
  injection E as -> -> <- _.
  apply attempts_accepted in Ha as (server & t10 & t11 & Hin & -> & Hx).
  exists servers, t1, s1, (be_dec idb), sock, server, (t3 ++ t5 ++ t10), t11, (conform (close_call sock) r).
  rewrite <- Ew. split_and!; [done|done|done|]. by rewrite <- !app_assoc.
Qed.

(** ** A network *)

(** What a server does with a query: it cannot be reached ([sendto] fails), or
    these datagrams arrive at the socket, each with the address it came from. *)
Definition Reaction := option (list (list Z * list Z)).

(** The file and the network, as the calls of a query see them: reads of the
    file move its descriptor forward, a query is delivered and the reactions join
    the end of the socket's queue, [poll] reports whether the queue is empty,
    [recvfrom] takes the first datagram, cut to the buffer. *)
Class DnsKernel `{Target} (K : Kernel) (config : list Z) (react : list Z -> list Z -> Reaction) := {
  conf_at : kst K -> Z -> option nat;
  queue : kst K -> list (list Z * list Z);
  dns_open : forall s, exists r s' fd,
    kstep K conf_open_call s = (Some r, s') /\
    from_ret_i32 (as_u64 (r_ret r)) = Ok fd /\ conf_at s' fd = Some 0%nat /\ queue s' = queue s;
  dns_read : forall fd o buf s, conf_at s fd = Some o -> exists r s' k,
    let c := read_call fd buf in
    kstep K c s = (Some r, s') /\ from_ret (as_u64 (r_ret r)) = Ok (Z.of_nat k) /\
    (k <= length buf)%nat /\ (k <= length (drop o config))%nat /\
    (k = 0%nat -> drop o config = [] \/ buf = []) /\
    out 0 (conform c r) = take k (drop o config) ++ drop k buf /\
    conf_at s' fd = Some (o + k)%nat /\ queue s' = queue s;
  dns_close : forall fd s, exists r s',
    kstep K (close_call fd) s = (Some r, s') /\ queue s' = queue s;
  dns_random : forall buf s, (length buf <= 256)%nat -> exists r s',
    kstep K (random_call buf) s = (Some r, s') /\
    from_ret (as_u64 (r_ret r)) = Ok (Z.of_nat (length buf)) /\ queue s' = queue s;
  dns_socket : forall s, exists r s' sock,
    kstep K socket_call s = (Some r, s') /\
    from_ret_i32 (as_u64 (r_ret r)) = Ok sock /\ queue s' = [];
  dns_send : forall sock q server s, length server = 4%nat -> bytes_ok server -> exists r s',
    kstep K (sendto_call sock q server) s = (Some r, s') /\
    match react server q with
    | None => is_ok (from_ret (as_u64 (r_ret r))) = false /\ queue s' = queue s
    | Some ds => is_ok (from_ret (as_u64 (r_ret r))) = true /\ queue s' = queue s ++ ds
    end;
  dns_poll : forall sock s, exists r s' ready,
    kstep K (poll_call sock) s = (Some r, s') /\ from_ret (as_u64 (r_ret r)) = Ok ready /\
    (ready = 0 <-> queue s = []) /\ queue s' = queue s;
  dns_recv : forall sock s from d ds, queue s = (from, d) :: ds -> exists r s',
    let c := recv_call sock in
    kstep K c s = (Some r, s') /\
    from_ret (as_u64 (r_ret r)) = Ok (Z.of_nat (Nat.min 512 (length d))) /\
    out 0 (conform c r) = take 512 (d ++ replicate 512 0) /\
    sin_octets (decode (out 1 (conform c r))) = from /\ queue s' = ds }.

(** ** What a query does with it

    The reference: a server's turn takes at most one datagram from the queue, and
    accepts it or moves on to the next server. *)
Definition acceptable (id : Z) (server from d : list Z) : bool :=
  bool_decide (from = server) && (12 <=? length d)%nat && (be_dec (take 2 d) =? id).

Definition received (d : list Z) : list Z * Z :=
  (take 512 (d ++ replicate 512 0), Z.of_nat (Nat.min 512 (length d))).

Section Reference.
Context (react : list Z -> list Z -> Reaction) (id : Z) (q : list Z).

Fixpoint turns (servers : list (list Z)) (ds : list (list Z * list Z)) :
    list (list Z * list Z) * option (list Z) :=
  match servers with
  | [] => (ds, None)
  | server :: servers =>
      match react server q with
      | None => turns servers ds
      | Some new =>
          match ds ++ new with
          | [] => turns servers []
          | (from, d) :: ds =>
              if acceptable id server from d then (ds, Some d) else turns servers ds
          end
      end
  end.

Definition two_rounds (servers : list (list Z)) : result (list Z * Z) :=
  match turns servers [] with
  | (_, Some d) => Ok (received d)
  | (ds, None) =>
      match turns servers ds with
      | (_, Some d) => Ok (received d)
      | (_, None) => Err ETIMEDOUT
      end
  end.
End Reference.

Lemma first_two d : (2 <= length d)%nat ->
  exists a b, take 2 d = [a; b] /\ at_ (take 512 (d ++ replicate 512 0)) 0 = Ret a /\
    at_ (take 512 (d ++ replicate 512 0)) 1 = Ret b.
Proof. destruct d as [|a [|b d]]; simpl; try lia. intros _. by exists a, b. Qed.

Section Query.
Context `{Target} (K : Kernel) (config : list Z) (react : list Z -> list Z -> Reaction).
Context `{HK : !DnsKernel K config react}.

(** The outcome and the queue left. *)
Definition yields {A} (p : Prog A) (s : kst K) (a : A) (ds : list (list Z * list Z)) : Prop :=
  exists t s', run K p s = (Done a, t, s') /\ queue s' = ds.

Lemma yields_ret {A} (a : A) s : yields (Ret a) s a (queue s).
Proof. by exists [], s. Qed.

Lemma yields_sys {A} c (k : Reply -> Prog A) s r s' a ds :
  kstep K c s = (Some r, s') -> yields (k (conform c r)) s' a ds -> yields (Sys c k) s a ds.
Proof.
  intros Hk (t & s2 & E & Hq). eexists _, s2. split; [|done].
  by rewrite (run_sys _ _ _ _ _ _ Hk), E.
Qed.

Lemma yields_bind {A B} (p : Prog A) (f : A -> Prog B) s a b ds ds' :
  yields p s a ds -> (forall s', queue s' = ds -> yields (f a) s' b ds') -> yields (bind p f) s b ds'.
Proof.
  intros (t & s1 & E & Hq) Hf. destruct (Hf s1 Hq) as (t2 & s2 & E2 & Hq2).
  exists (t ++ t2), s2. rewrite run_bind, E, E2. done.
Qed.

Lemma yields_run {A B} (p : Prog A) (f : A -> Prog B) s a t1 s1 b ds :
  run K p s = (Done a, t1, s1) -> yields (f a) s1 b ds -> yields (bind p f) s b ds.
Proof. intros E (t2 & s2 & E2 & Hq). exists (t1 ++ t2), s2. by rewrite run_bind, E, E2. Qed.

Lemma ask_yields sock id q server s :
  length server = 4%nat -> bytes_ok server ->
  match react server q with
  | None => yields (ask sock id q server) s None (queue s)
  | Some new =>
      match queue s ++ new with
      | [] => yields (ask sock id q server) s None []
      | (from, d) :: ds =>
          yields (ask sock id q server) s
            (if acceptable id server from d then Some (Ok (received d)) else None) ds
      end
  end.
Proof.
  intros Hl Hb. unfold ask. rewrite sendto_eq. cbn [bind].
  destruct (dns_send sock q server s Hl Hb) as (r1 & s1 & Hk1 & Hr1).
  destruct (react server q) as [new|]; destruct Hr1 as [Hok Hq1].
  2: { eapply yields_sys; [exact Hk1|]. cbn [bind].
       change (r_ret (conform _ r1)) with (as_u64 (r_ret r1)). rewrite Hok, <- Hq1. apply yields_ret. }
  destruct (poll_eq sock) as [f Hp].
  destruct (dns_poll sock s1) as (r2 & s2 & ready & Hk2 & Hr2 & Hz & Hq2).
  rewrite Hq1 in Hz, Hq2. destruct (queue s ++ new) as [|[from d] ds].
  - eapply yields_sys; [exact Hk1|]. cbn [bind].
    change (r_ret (conform _ r1)) with (as_u64 (r_ret r1)). rewrite Hok. cbn [negb].
    rewrite Hp. cbn [bind]. eapply yields_sys; [exact Hk2|]. cbn [bind].
    change (r_ret (conform _ r2)) with (as_u64 (r_ret r2)). rewrite Hr2.
    rewrite (proj2 Hz eq_refl). cbn [Z.eqb]. rewrite <- Hq2. apply yields_ret.
  - eapply yields_sys; [exact Hk1|]. cbn [bind].
    change (r_ret (conform _ r1)) with (as_u64 (r_ret r1)). rewrite Hok. cbn [negb].
    rewrite Hp. cbn [bind]. eapply yields_sys; [exact Hk2|]. cbn [bind].
    change (r_ret (conform _ r2)) with (as_u64 (r_ret r2)). rewrite Hr2.
    destruct (Z.eqb_spec ready 0) as [E|_]; [by apply Hz in E|].
    destruct (dns_recv sock s2 from d ds Hq2) as (r3 & s3 & Hk3 & Hr3 & Hout & Hfrom & Hq3).
    rewrite recvfrom_eq. cbn [bind]. eapply yields_sys; [exact Hk3|]. cbn [bind].
    change (r_ret (conform (recv_call sock) r3)) with (as_u64 (r_ret r3)). rewrite Hr3, Hout. cbn [map_ok].
    rewrite Hfrom, <- Hq3. unfold acceptable.
    destruct (bool_decide (from = server)); cbn [negb orb andb]; [|apply yields_ret].
    destruct (Nat.leb_spec 12 (length d)) as [Hd|Hd]; cbn [andb];
      (destruct (Z.ltb_spec (Z.of_nat (Nat.min 512 (length d))) 12); [try lia|try lia]); [|apply yields_ret].
    destruct (first_two d) as (a & b & -> & -> & ->); [lia|]. cbn [bind].
    destruct (be_dec [a; b] =? id); cbn [negb]; apply yields_ret.
Qed.

Lemma ask_all_yields sock id q servers s :
  Forall (fun a => length a = 4%nat /\ bytes_ok a) servers ->
  yields (ask_all sock id q servers) s
    (option_map (fun d => Ok (received d)) (turns react id q servers (queue s)).2)
    (turns react id q servers (queue s)).1.
Proof.
  intros Hs. revert s. induction Hs as [|server servers [Hl Hb] _ IH]; intros s; cbn [ask_all turns].
  - apply yields_ret.
  - pose proof (ask_yields sock id q server s Hl Hb) as Ha.
    destruct (react server q) as [new|].
    + destruct (queue s ++ new) as [|[from d] ds].
      * eapply yields_bind; [exact Ha|]. intros s' Hq. rewrite <- Hq. apply IH.
      * eapply yields_bind; [exact Ha|]. intros s' Hq. rewrite <- Hq.
        destruct (acceptable id server from d); [apply yields_ret|apply IH].
    + eapply yields_bind; [exact Ha|]. intros s' Hq. rewrite <- Hq. apply IH.
Qed.

Lemma attempts_yields sock id q servers s :
  Forall (fun a => length a = 4%nat /\ bytes_ok a) servers -> queue s = [] ->
  exists ds, yields (attempts 2 sock id q servers) s (two_rounds react id q servers) ds.
Proof.
  intros Hs Hq. unfold two_rounds. cbn [attempts].
  pose proof (ask_all_yields sock id q servers s Hs) as H1. rewrite Hq in H1.
  destruct (turns react id q servers []) as [ds [d|]]; cbn [option_map fst snd] in H1.
  - exists ds. eapply yields_bind; [exact H1|]. intros s' <-. apply yields_ret.
  - assert (forall s', queue s' = ds -> exists ds',
      yields (let* r := ask_all sock id q servers in
              match r with Some r => Ret r | None => Ret (Err ETIMEDOUT) end) s'
        (match turns react id q servers ds with
         | (_, Some d) => Ok (received d) | (_, None) => Err ETIMEDOUT end) ds') as H2.
    { intros s' Hq'. pose proof (ask_all_yields sock id q servers s' Hs) as H2. rewrite Hq' in H2.
      destruct (turns react id q servers ds) as [ds' o]. cbn [fst snd] in H2.
      exists ds'.
      eapply yields_bind; [exact H2|]. intros s2 <-. destruct o; apply yields_ret. }
    destruct H1 as (t & s1 & E & Hq1). destruct (H2 s1 Hq1) as (ds' & t' & s2 & E2 & Hq2).
    exists ds'. exists (t ++ t'), s2. rewrite run_bind, E, E2. done.
Qed.

(** ** The configuration file *)

Lemma read_yields fd o buf s :
  conf_at s fd = Some o ->
  exists k t s', run K (read fd buf) s =
      (Done (take k (drop o config) ++ drop k buf, Ok (Z.of_nat k)), t, s') /\
    (k <= length buf)%nat /\ (k <= length (drop o config))%nat /\
    (k = 0%nat -> drop o config = [] \/ buf = []) /\
    conf_at s' fd = Some (o + k)%nat /\ queue s' = queue s.
Proof.
  intros Ho. destruct (dns_read fd o buf s Ho) as (r & s' & k & Hk & Hr & H1 & H2 & H3 & Hout & H4 & H5).
  exists k. unfold read. rewrite syscall3_eq. unfold raw_call. cbn [bind].
  rewrite (run_sys K (read_call fd buf) _ s r s' Hk).
  change (out 0 (mkReply _ _)) with (out 0 (conform (read_call fd buf) r)). rewrite Hout.
  cbn [r_ret]. change (r_ret (conform _ r)) with (as_u64 (r_ret r)). rewrite Hr.
  do 2 eexists. split_and!; try done.
Qed.

Lemma read_config_yields fd fuel : forall raw t s,
  conf_at s fd = Some t -> (t <= length raw)%nat -> (t <= length config)%nat ->
  Z.of_nat (length raw) < 2 ^ 64 -> (length raw - t < fuel)%nat -> take t raw = take t config ->
  exists raw' tr s', let k := Nat.min (length raw) (length config) in
    run K (read_config fuel fd raw (Z.of_nat t)) s = (Done (Ok (raw', Z.of_nat k)), tr, s') /\
    length raw' = length raw /\ take k raw' = take k config /\ queue s' = queue s.
Proof.
  induction fuel as [|fuel IH]; intros raw t s Ho Hr Hc Hlen Hf Ht; [lia|].
  cbn [read_config]. unfold slice_from. destruct (Z.leb_spec (Z.of_nat t) (Z.of_nat (length raw))); [|lia].
  cbn [or_panic bind]. rewrite Nat2Z.id, run_bind.
  destruct (read_yields fd t (drop t raw) s Ho) as (k & tr & s1 & -> & Hk & Hk' & Hz & Ho' & Hq).
  cbv beta iota zeta. rewrite length_drop in Hk, Hk'.
  set (raw1 := take t raw ++ take k (drop t config) ++ drop k (drop t raw)).
  assert (length raw1 = length raw) as Hl1.
  { unfold raw1. rewrite !length_app, !length_take, !length_drop. lia. }
  assert (take (t + k) raw1 = take (t + k) config) as Ht1.
  { unfold raw1. rewrite Ht, app_assoc, take_take_drop. apply take_app_length'.
    rewrite length_take. lia. }
  unfold usize_add. destruct (Z.ltb_spec (Z.of_nat t + Z.of_nat k) (2 ^ 64)); [|lia]. cbn [bind].
  rewrite Hl1. destruct (Z.eqb_spec (Z.of_nat k) 0) as [Hk0|Hk0]; cbn [orb].
  - assert (k = 0%nat) as -> by lia. rewrite Nat.add_0_r in Ht1.
    assert (t = Nat.min (length raw) (length config)) as Et.
    { destruct (Hz eq_refl) as [E|E]; apply (f_equal length) in E;
        rewrite length_drop in E; simpl in E; lia. }
    exists raw1. do 2 eexists. rewrite <- Et. rewrite Z.add_0_r.
    split_and!; [reflexivity|done|done|done].
  - destruct (Z.leb_spec (Z.of_nat (length raw)) (Z.of_nat t + Z.of_nat k)).
    + assert (Nat.min (length raw) (length config) = t + k)%nat as -> by lia.
      exists raw1. do 2 eexists. rewrite Nat2Z.inj_add. split_and!; [reflexivity|done|done|done].
    + destruct (IH raw1 (t + k)%nat s1) as (raw2 & tr2 & s2 & E & Hl2 & Ht2 & Hq2); [done|lia..|done|].
      rewrite Hl1 in *. rewrite Nat2Z.inj_add in E. exists raw2. do 2 eexists. cbv zeta. rewrite E.
      split_and!; [reflexivity|done|done|congruence].
Qed.

Lemma read_nameservers_yields s :
  yields read_nameservers s (scan_config (take 4096 config)) (queue s).
Proof.
  destruct (dns_open s) as (r & s1 & fd & Hk & Hr & Ho & Hq).
  unfold read_nameservers, open, openat. rewrite syscall4_eq. unfold raw_call. cbn [bind bind_ok].
  eapply yields_sys; [exact Hk|]. unfold bind_ok at 1. cbn [bind r_ret].
  change (r_ret (conform _ r)) with (as_u64 (r_ret r)). rewrite Hr. unfold bind_ok.
  rewrite <- Hq. pose proof (length_replicate 4096 (0 : Z)) as Hl.
  destruct (read_config_yields fd 4097 (replicate 4096 0) 0 s1) as (raw & tr & s2 & E & Hl2 & Ht & Hq2);
    [done|lia|lia|rewrite Hl; lia|rewrite Hl; apply Nat.leb_le; vm_compute; done|done|].
  change (Z.of_nat 0) with 0 in E. cbv zeta in E.
  eapply yields_bind; [by exists tr, s2|]. intros s3 Hq3. cbv beta iota.
  destruct (dns_close fd s3) as (rc & s4 & Hkc & Hqc).
  eapply yields_bind.
  { rewrite close_eq. eapply yields_sys; [exact Hkc|]. apply yields_ret. }
  intros s5 Hq5. unfold slice_to. rewrite Hl2, Nat2Z.id.
  destruct (Z.leb_spec (Z.of_nat (Nat.min (length (replicate 4096 0)) (length config))) (Z.of_nat (length (replicate 4096 0)))); [|lia].
  cbn [or_panic bind]. rewrite Ht.
  assert (take (Nat.min (length (replicate 4096 0)) (length config)) config = take 4096 config) as ->.
  { rewrite Hl. destruct (Nat.min_spec 4096 (length config)) as [[_ ->]|[? ->]]; [done|].
    rewrite !take_ge by done. done. }
  rewrite <- Hq3, <- Hqc, <- Hq5. apply yields_ret.
Qed.

(** ** The whole query *)

(** A name [build_query] accepts: non-empty labels of at most 63 bytes, and a
    query that fits the buffer. *)
Definition query_ok (hostname : list Z) (qtype : Z) : Prop :=
  hostname <> [] /\ forallb label_ok (split_on 46 hostname) = true /\
  (length (wire_query 0 hostname qtype) <= 256)%nat.

Lemma query_yields hostname qtype servers s :
  scan_config (take 4096 config) = Ok servers ->
  Forall (fun a => length a = 4%nat /\ bytes_ok a) servers -> query_ok hostname qtype ->
  exists id ds, is_u16 id /\
    yields (query hostname qtype) s (two_rounds react id (wire_query id hostname qtype) servers) ds.
Proof.
  intros Hconf Hs (Hne & Hlab & Hfit).
  destruct (read_nameservers_yields s) as (t1 & s1 & E1 & Hq1). rewrite Hconf in E1.
  destruct (dns_random (replicate 2 0) s1 ltac:(simpl; lia)) as (r2 & s2 & Hk2 & Hr2 & Hq2).
  set (idb := out 0 (conform (random_call (replicate 2 0)) r2)).
  assert (bytes_ok idb /\ length idb = 2%nat) as [Hib Hil].
  { split; [|unfold idb; by rewrite out_length]. apply out_bytes. constructor; [|constructor].
    apply (zeros_bytes 2). }
  assert (is_u16 (be_dec idb)) as Hid.
  { unfold be_dec. pose proof (le_dec_range (rev idb) ltac:(by apply Forall_rev)) as Hr.
    rewrite length_rev, Hil in Hr. exact Hr. }
  pose proof (build_query_lemma (replicate 256 0) (be_dec idb) hostname qtype) as Hb. cbv zeta in Hb.
  assert (length (wire_query (be_dec idb) hostname qtype) = length (wire_query 0 hostname qtype)) as Hlen by done.
  rewrite bool_decide_eq_true_2, Hlab, bool_decide_eq_true_2 in Hb;
    [|by rewrite Hlen, length_replicate|done]. cbn [andb] in Hb.
  remember (wire_query (be_dec idb) hostname qtype) as q eqn:Eq.
  destruct (dns_socket s2) as (r3 & s3 & sock & Hk3 & Hr3 & Hq3).
  exists (be_dec idb). rewrite <- Eq.
  destruct (attempts_yields sock (be_dec idb) q servers s3 Hs Hq3) as (ds & t4 & s4 & E4 & Hq4).
  destruct (dns_close sock s4) as (r5 & s5 & Hk5 & Hq5).
  exists (queue s5). split; [done|].
  unfold query. eapply yields_run; [exact E1|]. cbv beta iota.
  unfold getrandom. rewrite syscall3_eq. unfold raw_call. cbn [bind].
  eapply yields_sys; [exact Hk2|]. cbn [bind r_ret].
  change (out 0 (mkReply _ _)) with idb.
  change (r_ret (conform _ r2)) with (as_u64 (r_ret r2)). rewrite Hr2.
  unfold bind_ok at 1. cbn [bind]. rewrite Hb. unfold bind_ok at 1. cbn [bind].
  unfold bind_ok. unfold socket. rewrite syscall3_eq. unfold raw_call. cbn [bind].
  eapply yields_sys; [exact Hk3|]. cbn [bind r_ret].
  change (r_ret (conform _ r3)) with (as_u64 (r_ret r3)). rewrite Hr3. cbv beta iota.
  unfold slice_to. rewrite Nat2Z.id, take_app_length.
  destruct (Z.leb_spec (Z.of_nat (length q)) (Z.of_nat (length (q ++ drop (length q) (replicate 256 0)))));
    [|rewrite length_app in *; lia].
  cbn [or_panic bind]. eapply yields_run; [exact E4|].
  rewrite close_eq. cbn [bind]. eapply yields_sys; [exact Hk5|]. apply yields_ret.
Qed.
End Query.

(** ** Servers are IPv4 addresses *)

Lemma parse_digits_byte l : forall acc b,
  0 <= acc < 256 -> parse_digits acc l = Some b -> is_byte b.
Proof.
  induction l as [|d l IH]; intros acc b Hacc; cbn [parse_digits]; [by intros [= <-]|].
  destruct (Z.leb_spec 48 d), (Z.leb_spec d 57); cbn [andb]; try done.
  destruct (Z.ltb_spec (acc * 10 + (d - 48)) 256); [|done]. apply IH. lia.
Qed.

Lemma parse_u8_byte l b : parse_u8 l = Some b -> is_byte b.
Proof.
  unfold parse_u8. destruct l as [|c [|d r]]; [done| |].
  - destruct (_ || _); [done|]. by apply parse_digits_byte.
  - destruct (c =? 43); by apply parse_digits_byte.
Qed.

Lemma parse_ipv4_ok s a : parse_ipv4 s = Some a -> length a = 4%nat /\ bytes_ok a.
Proof.
  assert (forall parts out, bytes_ok out -> parse_ipv4_parts parts out = Some a ->
    length a = 4%nat /\ bytes_ok a) as Hgo.
  { induction parts as [|p parts IH]; intros out Ho; cbn [parse_ipv4_parts].
    - destruct (Z.eqb_spec (Z.of_nat (length out)) 4); [|done]. intros [= <-]. split; [lia|done].
    - destruct (4 <=? _); [done|]. destruct (parse_u8 p) eqn:E; [|done]. apply IH.
      apply Forall_app. split; [done|]. constructor; [by eapply parse_u8_byte|constructor]. }
  apply Hgo. constructor.
Qed.

Lemma scan_config_servers raw servers :
  scan_config raw = Ok servers -> Forall (fun a => length a = 4%nat /\ bytes_ok a) servers.
Proof.
  unfold scan_config. destruct (from_utf8 raw) as [text|]; [|done].
  assert (forall ls acc, Forall (fun a => length a = 4%nat /\ bytes_ok a) acc ->
    Forall (fun a => length a = 4%nat /\ bytes_ok a) (fold_left scan_line ls acc)) as Hgo.
  { induction ls as [|l ls IH]; intros acc Hacc; [done|]. cbn [fold_left]. apply IH.
    unfold scan_line. destruct (strip_prefix _ _) as [rest|]; [|done].
    destruct (parse_ipv4 (trim rest)) as [a|] eqn:E; [|done]. destruct (_ <? _); [|done].
    apply Forall_app. split; [done|]. constructor; [by eapply parse_ipv4_ok|constructor]. }
  specialize (Hgo (lines text) [] ltac:(constructor)).
  destruct (fold_left _ _ _); [done|]. by intros [= <-].
Qed.

(** ** When the answer gets through *)

(** A server that costs the query nothing but its turn: not reached, silent, or
    sending one datagram that is not acceptable. *)
Definition useless (id : Z) (server : list Z) (r : Reaction) : Prop :=
  match r with
  | None | Some [] => True
  | Some [(from, d)] => acceptable id server from d = false
  | Some _ => False
  end.

Lemma turns_reach react id q pre server post d :
  Forall (fun s => useless id s (react s q)) pre ->
  react server q = Some [(server, d)] -> acceptable id server server d = true ->
  turns react id q (pre ++ server :: post) [] = ([], Some d).
Proof.
  intros Hpre Hs Hd. induction Hpre as [|s pre Hu _ IH]; cbn [turns app].
  - rewrite Hs. cbn [app]. by rewrite Hd.
  - unfold useless in Hu. destruct (react s q) as [[|[from d'] [|]]|]; cbn [app]; try done.
    by rewrite Hu.
Qed.

(** The contents of a well-formed successful reply that fits the buffer. *)
Definition good_reply (flags ns ar : Z) (qs : list Question) (rs : list RR) : Prop :=
  is_u16 flags /\ Z.land flags 0x000F = 0 /\
  is_u16 (Z.of_nat (length qs)) /\ is_u16 (Z.of_nat (length rs)) /\
  Forall (fun q => name_ok (q_name q)) qs /\ Forall rr_ok rs /\
  (length (wire_reply 0 flags ns ar qs rs) <= 512)%nat.

Lemma wire_reply_head id flags ns ar qs rs :
  exists rest, wire_reply id flags ns ar qs rs = be_enc 2 id ++ rest.
Proof. unfold wire_reply, wire_header. rewrite <- !app_assoc. eauto. Qed.

Lemma reply_acceptable id server flags ns ar qs rs :
  is_u16 id -> acceptable id server server (wire_reply id flags ns ar qs rs) = true.
Proof.
  intros Hid. unfold acceptable. rewrite bool_decide_eq_true_2 by done.
  assert (12 <= length (wire_reply id flags ns ar qs rs))%nat as Hl.
  { unfold wire_reply. rewrite !length_app.
    change (length (wire_header id flags (Z.of_nat (length qs)) (Z.of_nat (length rs)) ns ar)) with 12%nat. lia. }
  destruct (Nat.leb_spec 12 (length (wire_reply id flags ns ar qs rs))); [|lia].
  destruct (wire_reply_head id flags ns ar qs rs) as [rest ->].
  rewrite take_app_length' by done. rewrite be_dec_enc_small by exact Hid. by rewrite Z.eqb_refl.
Qed.

Lemma received_reply id flags ns ar qs rs :
  good_reply flags ns ar qs rs ->
  let d := wire_reply id flags ns ar qs rs in
  reply_in (received d).1 (received d).2 id flags ns ar qs rs.
Proof.
  intros (Hf & Hr & Hq & Ha & Hqs & Hrs & Hlen) d.
  assert (length d <= 512)%nat as Hd by exact Hlen.
  unfold received. cbn [fst snd]. split_and!; try done.
  - rewrite take_app_ge by done. exists [], (take (512 - length d) (replicate 512 0)). done.
  - fold d. lia.
Qed.

(** The file lists [server], which answers a query of this type with these
    records; the servers before it are of no use. *)
Definition answered_by (config : list Z) (react : list Z -> list Z -> Reaction)
    (hostname : list Z) (qtype : Z) (pre : list (list Z)) (server : list Z)
    (post : list (list Z)) (flags ns ar : Z) (qs : list Question) (rs : list RR) : Prop :=
  scan_config (take 4096 config) = Ok (pre ++ server :: post) /\
  query_ok hostname qtype /\ good_reply flags ns ar qs rs /\
  forall id, is_u16 id ->
    let q := wire_query id hostname qtype in
    Forall (fun s => useless id s (react s q)) pre /\
    react server q = Some [(server, wire_reply id flags ns ar qs rs)].

Lemma query_reaches `{Target} (K : Kernel) config react (HK : DnsKernel K config react)
    hostname qtype pre server post flags ns ar qs rs (s : kst K) :
  answered_by config react hostname qtype pre server post flags ns ar qs rs ->
  exists id buf n t s', run K (query hostname qtype) s = (Done (Ok (buf, n)), t, s') /\
    reply_in buf n id flags ns ar qs rs.
Proof.
  intros (Hconf & Hq & Hgood & Hnet).
  destruct (query_yields K config react hostname qtype _ s Hconf (scan_config_servers _ _ Hconf) Hq)
    as (id & ds & Hid & t & s' & E & _).
  destruct (Hnet id Hid) as (Hpre & Hs).
  pose proof (turns_reach react id _ pre server post _ Hpre Hs (reply_acceptable _ _ _ _ _ _ _ Hid)) as Ht.
  unfold two_rounds in E. rewrite Ht in E.
  pose proof (received_reply id _ _ _ _ _ Hgood) as Hr. cbv zeta in Hr.
  destruct (received _) as [buf n]. by exists id, buf, n, t, s'.
Qed.

(** [C14] Resolution gets through: if the file lists a server that answers the
    query with a well-formed reply of at most 512 bytes, and the servers before it
    are unreachable, silent, or send one datagram that is no answer, then
    [resolve_a] and [resolve_aaaa] return: exactly the addresses of their family in
    that reply (the first eight of them), or [ENOENT] when it has none. *)
Theorem resolve_reaches `{Target} (K : Kernel) (config : list Z)
    (react : list Z -> list Z -> Reaction) (HK : DnsKernel K config react)
    hostname qtype pre server post flags ns ar qs rs (s : kst K) :
  answered_by config react hostname qtype pre server post flags ns ar qs rs ->
  (qtype = QTYPE_A -> exists r t s', run K (resolve_a hostname) s = (Done r, t, s') /\
     match answers QTYPE_A 4 rs with
     | [] => r = Err ENOENT
     | l => exists out, r = Ok out /\ AddrList4_as_slice out = Some (take 8 l)
     end) /\
  (qtype = QTYPE_AAAA -> exists r t s', run K (resolve_aaaa hostname) s = (Done r, t, s') /\
     match answers QTYPE_AAAA 16 rs with
     | [] => r = Err ENOENT
     | l => exists out, r = Ok out /\ AddrList6_as_slice out = Some (take 8 l)
     end).
Proof.
  intros Hby. destruct (query_reaches K config react HK _ _ _ _ _ _ _ _ _ _ s Hby)
    as (id & buf & n & t & s' & E & Hr).
  split; intros ->; unfold resolve_a, resolve_aaaa, bind_ok; rewrite run_bind, E; cbv beta iota zeta.
  - destruct (parse_answers_reply _ _ _ _ _ _ _ _ QTYPE_A 4 _ Hr AddrList4_empty_contents) as [Hp Hc].
    apply contents_as_slice in Hc. unfold parse_answers_a. change 4 with (Z.of_nat 4). rewrite Hp.
    destruct (answers QTYPE_A 4 rs); do 3 eexists; (split; [reflexivity|]); [done|].
    eexists. split; [reflexivity|exact Hc].
  - destruct (parse_answers_reply _ _ _ _ _ _ _ _ QTYPE_AAAA 16 _ Hr AddrList6_empty_contents) as [Hp Hc].
    apply contents_as_slice in Hc. unfold parse_answers_aaaa. change 16 with (Z.of_nat 16). rewrite Hp.
    destruct (answers QTYPE_AAAA 16 rs); do 3 eexists; (split; [reflexivity|]); [done|].
    eexists. split; [reflexivity|exact Hc].
Qed.

(** [C38] One stray datagram costs a server its turn: when two datagrams that are
    no answer reach the socket before the only server's reply, the query gives up
    with [ETIMEDOUT] although the reply was delivered, because each of the two
    rounds reads one datagram and then moves on instead of waiting for the next. *)
Theorem query_drops_queued_reply `{Target} (K : Kernel) (config : list Z)
    (react : list Z -> list Z -> Reaction) (HK : DnsKernel K config react)
    hostname qtype server (s : kst K) :
  scan_config (take 4096 config) = Ok [server] -> query_ok hostname qtype ->
  (forall id, is_u16 id -> exists f1 d1 f2 d2 rest,
     react server (wire_query id hostname qtype) = Some ((f1, d1) :: (f2, d2) :: rest) /\
     acceptable id server f1 d1 = false /\ acceptable id server f2 d2 = false) ->
  exists t s', run K (query hostname qtype) s = (Done (Err ETIMEDOUT), t, s').
Proof.
  intros Hconf Hq Hnet.
  destruct (query_yields K config react hostname qtype _ s Hconf (scan_config_servers _ _ Hconf) Hq)
    as (id & ds & Hid & t & s' & E & _).
  destruct (Hnet id Hid) as (f1 & d1 & f2 & d2 & rest & Hr & H1 & H2).
  exists t, s'. rewrite E. unfold two_rounds. cbn [turns]. rewrite Hr. cbn [app].
  rewrite H1. cbn [app turns]. by rewrite H2.
Qed.

(** ** A concrete network

    Reads of at most 16 bytes; what arrives is any function of the server and the
    query. *)
Record NetState := mkNetState { ns_offset : option nat; ns_queue : list (list Z * list Z) }.

Definition norm_dgram (p : list Z * list Z) : list Z * list Z :=
  (take 4 (map as_u8 p.1 ++ replicate 4 0), map as_u8 p.2).

Lemma received_cut n (d : list Z) :
  take n (take n d ++ drop (Nat.min n (length d)) (replicate n 0)) = take n (d ++ replicate n 0).
Proof.
  destruct (decide (n <= length d)%nat).
  - rewrite Nat.min_l by done. rewrite drop_ge by (by rewrite length_replicate).
    rewrite app_nil_r, take_take, Nat.min_id. by rewrite take_app_le.
  - rewrite Nat.min_r by lia. rewrite (take_ge d) by lia.
    rewrite !take_app_ge by lia. f_equal. rewrite drop_replicate, !take_replicate. f_equal. lia.
Qed.

Section Net.
Context `{Target} (config : list Z) (raw : list Z -> list Z -> Reaction).

Definition net_step (c : Call) (s : NetState) : option Reply * NetState :=
  match c with
  | Syscall n args =>
      if n =? nrz OPENAT then (Some (mkReply 3 []), mkNetState (Some 0%nat) (ns_queue s))
      else if n =? nrz SOCKET then (Some (mkReply 4 []), mkNetState (ns_offset s) [])
      else if n =? nrz CLOSE then (Some (mkReply 0 []), s)
      else if n =? nrz GETRANDOM then
        match args with
        | AMut buf :: _ => (Some (mkReply (Z.of_nat (length buf)) [[0x12; 0x34]]), s)
        | _ => (Some (mkReply (-22) []), s)
        end
      else if n =? nrz READ then
        match args, ns_offset s with
        | AInt fd :: AMut buf :: _, Some o =>
            let k := Nat.min (Nat.min 16 (length buf)) (length (drop o config)) in
            (Some (mkReply (Z.of_nat k) [take k (drop o config)]),
             mkNetState (Some (o + k)%nat) (ns_queue s))
        | _, _ => (Some (mkReply (-9) []), s)
        end
      else if n =? nrz SENDTO then
        match args with
        | _ :: ARef q :: _ :: _ :: ARef dest :: _ =>
            match raw (sin_octets (decode dest)) q with
            | Some ds => (Some (mkReply (Z.of_nat (length q) mod 4096) []),
                          mkNetState (ns_offset s) (ns_queue s ++ ds))
            | None => (Some (mkReply (-101) []), s)
            end
        | _ => (Some (mkReply (-22) []), s)
        end
      else if n =? nrz RECVFROM then
        match ns_queue s with
        | p :: ds =>
            let '(from, d) := norm_dgram p in
            (Some (mkReply (Z.of_nat (Nat.min 512 (length d)))
                     [take 512 d; encode (SockAddrIn_new from 53)]),
             mkNetState (ns_offset s) ds)
        | [] => (Some (mkReply (-11) []), s)
        end
      else if (n =? nrz PPOLL) || (n =? match arch with X86_64 => nrz POLL | Aarch64 => nrz PPOLL end) then
        (Some (mkReply (match ns_queue s with [] => 0 | _ => 1 end) []), s)
      else (Some (mkReply (-38) []), s)
  | CallFn _ _ => (Some (mkReply (-38) []), s)
  end.
Definition net_kernel : Kernel := mkKernel NetState net_step.

Lemma norm_dgram_ok p : length (norm_dgram p).1 = 4%nat /\ bytes_ok (norm_dgram p).1 /\ bytes_ok (norm_dgram p).2.
Proof.
  assert (forall l, bytes_ok (map as_u8 l)) as Hb.
  { intros l. apply Forall_map, Forall_true. intros z. apply (wrap_range 8). lia. }
  unfold norm_dgram. cbn [fst snd]. split_and!; [|apply Forall_take, Forall_app; split; [apply Hb|apply zeros_bytes]|apply Hb].
  rewrite length_take, length_app, length_replicate. lia.
Qed.


#[local] Ltac net_call :=
  cbn [kstep net_kernel]; unfold net_step;
  unfold conf_open_call, read_call, close_call, random_call, socket_call, sendto_call, recv_call;
  nr_case; cbv iota.

Lemma net_read o buf (s : kst net_kernel) :
  ns_offset s = Some o -> exists r s' k,
    let c := read_call 3 buf in
    kstep net_kernel c s = (Some r, s') /\ from_ret (as_u64 (r_ret r)) = Ok (Z.of_nat k) /\
    (k <= length buf)%nat /\ (k <= length (drop o (map as_u8 config)))%nat /\
    (k = 0%nat -> drop o (map as_u8 config) = [] \/ buf = []) /\
    out 0 (conform c r) = take k (drop o (map as_u8 config)) ++ drop k buf /\
    ns_offset s' = Some (o + k)%nat /\ ns_queue s' = ns_queue s.
Proof.
  intros Ho. net_call.
  unfold int. cbv iota. rewrite Ho.
  set (k := Nat.min (Nat.min 16 (length buf)) (length (drop o config))).
  assert (k <= 16 /\ k <= length buf /\ k <= length (drop o config) /\
          (k = 0 -> length buf = 0 \/ length (drop o config) = 0))%nat as (? & ? & ? & Hz) by lia.
  exists (mkReply (Z.of_nat k) [take k (drop o config)]). eexists. exists k.
  split; [reflexivity|]. cbn [ns_offset ns_queue r_ret].
  rewrite !length_drop, !length_map in *.
  split_and!; [apply from_ret_nat; lia|lia|lia| | |done|done].
  + intros E. destruct (Hz E) as [Hb|Hc]; [right|left];
      apply length_zero_iff_nil; [done|]. by rewrite length_drop, length_map.
  + assert (length (take k (drop o config)) = k) as Hl by (rewrite length_take, length_drop; lia).
    change (overwrite buf (take k (drop o config)) = take k (drop o (map as_u8 config)) ++ drop k buf).
    unfold overwrite. rewrite Hl, take_ge.
    * by rewrite <- fmap_drop, <- fmap_take.
    * rewrite length_app, length_map, length_drop. lia.
Qed.

Lemma net_recv sock (s : kst net_kernel) from d ds :
  map norm_dgram (ns_queue s) = (from, d) :: ds -> exists r s',
    let c := recv_call sock in
    kstep net_kernel c s = (Some r, s') /\
    from_ret (as_u64 (r_ret r)) = Ok (Z.of_nat (Nat.min 512 (length d))) /\
    out 0 (conform c r) = take 512 (d ++ replicate 512 0) /\
    sin_octets (decode (out 1 (conform c r))) = from /\ map norm_dgram (ns_queue s') = ds.
Proof.
  intros Hq. net_call.
  destruct (ns_queue s) as [|p ds0]; [done|]. cbn [map] in Hq.
  destruct (norm_dgram_ok p) as (Hl & Hb & Hd).
  destruct (norm_dgram p) as [from' d']. injection Hq as -> -> Hds. cbn [fst snd] in Hl, Hb, Hd.
  do 2 eexists. split; [reflexivity|]. cbn [r_ret ns_queue].
  set (outs := [take 512 d; encode (SockAddrIn_new from 53)]).
  assert (forall i, out i (conform (recv_call sock) (mkReply (Z.of_nat (Nat.min 512 (length d))) outs)) =
    nth i (overwrite_all [replicate 512 0; encode SockAddrIn_zero; le_enc 4 16] outs) []) as Hout by done.
  split_and!; [apply from_ret_nat; lia| | |done].
  + etransitivity; [exact (Hout 0%nat)|]. cbn [outs overwrite_all nth]. unfold overwrite.
    rewrite map_as_u8 by (by apply Forall_take). rewrite length_replicate, length_take.
    apply received_cut.
  + unfold sin_octets. etransitivity; [apply f_equal, f_equal; exact (Hout 1%nat)|].
    cbn [outs overwrite_all nth]. rewrite overwrite_full; [|apply encode_bytes|].
    * rewrite decode_encode by (by apply SockAddrIn_new_typed). done.
    * rewrite encode_length by (by apply SockAddrIn_new_typed). done.
Qed.

Lemma net_kernel_ok :
  DnsKernel net_kernel (map as_u8 config) (fun s q => option_map (map norm_dgram) (raw s q)).
Proof.
  refine {| conf_at (s : kst net_kernel) fd := if fd =? 3 then ns_offset s else None;
            queue (s : kst net_kernel) := map norm_dgram (ns_queue s) |}.
  - intros s. net_call. exists (mkReply 3 []). eexists. exists 3.
    split_and!; [reflexivity|by apply from_ret_i32_fd|reflexivity|done].
  - intros fd o buf s. destruct (Z.eqb_spec fd 3) as [->|]; [|done]. intros Ho.
    destruct (net_read o buf s Ho) as (r & s' & k & ? & ? & ? & ? & ? & ? & ? & Hq).
    exists r, s', k. cbv zeta. by rewrite Hq.
  - intros fd s. net_call. do 2 eexists. split; [reflexivity|done].
  - intros buf s Hb. net_call. do 2 eexists. split; [reflexivity|]. split; [|done].
    apply from_ret_nat. lia.
  - intros s. net_call. exists (mkReply 4 []). eexists. exists 4.
    split_and!; [reflexivity|by apply from_ret_i32_fd|reflexivity].
  - intros sock q server s Hl Hb. net_call.
    rewrite decode_encode by (by apply SockAddrIn_new_typed). cbn [sin_octets SockAddrIn_new sin_addr].
    destruct (raw server q) as [ds|]; do 2 eexists; (split; [reflexivity|]); cbn [option_map r_ret ns_queue].
    + rewrite map_app. split; [|done]. rewrite from_ret_nat; [done|].
      pose proof (Z.mod_pos_bound (Z.of_nat (length q)) 4096). lia.
    + done.
  - intros sock s. exists (mkReply (match ns_queue s with [] => 0 | _ => 1 end) []), s,
      (match ns_queue s with [] => 0 | _ => 1 end).
    split_and!; [| |by destruct (ns_queue s)|done].
    + cbn [kstep net_kernel]. unfold net_step, poll_call. destruct arch eqn:Ea; nr_case; reflexivity.
    + cbn [r_ret]. apply from_ret_nat. destruct (ns_queue s); lia.
  - intros sock s from d ds Hq. by apply net_recv.
Defined.
End Net.

(** Two servers: the first out of reach, the second answering every query for
    ["a.io"]; after the file's comment line. *)
Definition demo_config : list Z :=
  str "# local" ++ [10] ++ str "nameserver 10.0.0.1" ++ [10] ++ str "nameserver 10.0.0.2" ++ [10].
Definition demo_reply (q : list Z) : list Z :=
  wire_reply (be_dec (take 2 q)) 0x8180 0 0 [canned_question] [canned_answer].
Definition demo_react (server q : list Z) : Reaction :=
  if bool_decide (server = [10; 0; 0; 2]) then Some [(server, demo_reply q)] else None.

Lemma demo_reply_query id hostname qtype :
  is_u16 id -> demo_reply (wire_query id hostname qtype) =
    wire_reply id 0x8180 0 0 [canned_question] [canned_answer].
Proof.
  intros Hid. unfold demo_reply. f_equal. unfold wire_query, wire_header. rewrite <- !app_assoc.
  rewrite take_app_length' by done. apply be_dec_enc_small. exact Hid.
Qed.

Lemma demo_norm id from :
  length from = 4%nat -> bytes_ok from ->
  norm_dgram (from, wire_reply id 0x8180 0 0 [canned_question] [canned_answer]) =
  (from, wire_reply id 0x8180 0 0 [canned_question] [canned_answer]).
Proof.
  intros Hl Hb. unfold norm_dgram. cbn [fst snd]. rewrite (map_as_u8 from) by done. rewrite map_as_u8.
  - by rewrite <- Hl, take_app_length.
  - unfold wire_reply. apply Forall_app. split; [|repeat constructor; by vm_compute].
    unfold wire_header. do 5 (apply Forall_app; split; [apply be_enc_bytes|]). apply be_enc_bytes.
Qed.

Lemma demo_answered qtype :
  query_ok (str "a.io") qtype ->
  answered_by (map as_u8 demo_config) (fun s q => option_map (map norm_dgram) (demo_react s q))
    (str "a.io") qtype [[10; 0; 0; 1]] [10; 0; 0; 2] [] 0x8180 0 0 [canned_question] [canned_answer].
Proof.
  intros Hq. split_and!; [vm_compute; reflexivity|exact Hq| |].
  - split_and!; try (repeat constructor; vm_compute; lia || discriminate || reflexivity).
  - intros id Hid q. subst q. split.
    + repeat constructor.
    + unfold demo_react. rewrite bool_decide_eq_true_2 by done. cbn [option_map map].
      rewrite demo_reply_query by done. by rewrite demo_norm by (by repeat constructor).
Qed.

Lemma resolve_reaches_witness :
  (exists r t s', run (@net_kernel X86_64 demo_config demo_react)
      (resolve_a (H := X86_64) (str "a.io")) (mkNetState None []) = (Done r, t, s') /\
    exists out, r = Ok out /\ AddrList4_as_slice out = Some [[93; 184; 216; 34]]) /\
  (exists r t s', run (@net_kernel Aarch64 demo_config demo_react)
      (resolve_aaaa (H := Aarch64) (str "a.io")) (mkNetState None []) = (Done r, t, s') /\
    r = Err ENOENT).
Proof.
  assert (forall qtype, is_u16 qtype -> query_ok (str "a.io") qtype) as Hq.
  { intros qtype Hu. split_and!; [done|reflexivity|]. apply Nat.leb_le. reflexivity. }
  split.
  - apply (proj1 (@resolve_reaches X86_64 _ _ _ (@net_kernel_ok X86_64 demo_config demo_react)
      (str "a.io") QTYPE_A [[10; 0; 0; 1]] [10; 0; 0; 2] [] 0x8180 0 0 [canned_question] [canned_answer]
      (mkNetState None []) (demo_answered QTYPE_A (Hq QTYPE_A ltac:(unfold is_u16, QTYPE_A; lia)))) eq_refl).
  - apply (proj2 (@resolve_reaches Aarch64 _ _ _ (@net_kernel_ok Aarch64 demo_config demo_react)
      (str "a.io") QTYPE_AAAA [[10; 0; 0; 1]] [10; 0; 0; 2] [] 0x8180 0 0 [canned_question] [canned_answer]
      (mkNetState None []) (demo_answered QTYPE_AAAA (Hq QTYPE_AAAA ltac:(unfold is_u16, QTYPE_AAAA; lia)))) eq_refl).
Defined.

(** Two datagrams from elsewhere before the reply. *)
Definition stray_react (server q : list Z) : Reaction :=
  Some [([10; 9; 9; 9], [0]); ([10; 9; 9; 9], [0]); (server, demo_reply q)].

Lemma query_drops_queued_reply_witness :
  exists t s', run (@net_kernel Aarch64 (str "nameserver 10.0.0.2") stray_react)
      (query (H := Aarch64) (str "a.io") QTYPE_A) (mkNetState None []) = (Done (Err ETIMEDOUT), t, s').
Proof.
  apply (@query_drops_queued_reply Aarch64 _ _ _ (@net_kernel_ok Aarch64 (str "nameserver 10.0.0.2") stray_react)
    (str "a.io") QTYPE_A [10; 0; 0; 2] (mkNetState None [])).
  - vm_compute. reflexivity.
  - split_and!; [done|reflexivity|]. apply Nat.leb_le. reflexivity.
  - intros id Hid. do 5 eexists. split; [reflexivity|]. split; reflexivity.
Defined.

(** An execution that ends in an accepted reply. *)
Lemma query_authentic_witness :
  let K := @net_kernel X86_64 demo_config demo_react in
  exists buf n t s' servers t1 s1 id sock server t2 tx r,
    run K (query (H := X86_64) (str "a.io") QTYPE_A) (mkNetState None []) = (Done (Ok (buf, n)), t, s') /\
    run K (read_nameservers (H := X86_64)) (mkNetState None []) = (Done (Ok servers), t1, s1) /\
    In server servers /\
    @exchange X86_64 sock id (wire_query id (str "a.io") QTYPE_A) server buf n tx /\
    t = t1 ++ t2 ++ tx ++ [(@close_call X86_64 sock, Some r)].
Proof.
  intros K.
  destruct (run K (query (H := X86_64) (str "a.io") QTYPE_A) (mkNetState None []))
    as [[[[[buf n]|e]| | |] t] s'] eqn:E.
  1: { exists buf, n, t, s'.
       destruct (@query_authentic X86_64 K (str "a.io") QTYPE_A (mkNetState None []) buf n t s' E)
         as (servers & t1 & s1 & id & sock & server & t2 & tx & r & H1 & H2 & H3 & H4).
       exists servers, t1, s1, id, sock, server, t2, tx, r. split_and!; done. }
  all: exfalso; apply (f_equal (fun x => x.1.1)) in E; vm_compute in E; discriminate E.
Defined.
