(* ===== verification/WaitSpec.v ===== *)
(** One event, two views: what [waitid] and [waitpid] report of a child that has
    ended, peeked at and then reaped. *)

From stdpp Require Import base list option numbers gmap strings.
From Stdlib Require Import ZArith Lia.
From S2P Require Import Prelude Prog Layout Asm Arch Socket Wait.

(** ** The two encodings of an event *)

Definition SIGCHLD_NO : Z := 17.

(** How the kernel fills [siginfo_t] for a child that ended. *)
Definition siginfo_of (pid uid : Z) (e : ChildEvent) : Siginfo :=
  let '(how, status) :=
    match e with
    | Exited n => (CLD_EXITED, n)
    | Killed sig core => (if core then CLD_DUMPED else CLD_KILLED, sig)
    | Stopped sig => (CLD_STOPPED, sig)
    | Continued => (CLD_CONTINUED, 18)
    end in
  mkSiginfo SIGCHLD_NO 0 how 0 pid uid status (replicate 100 0).

(** The reading of it by the [CLD_*] constants of the crate. *)
Definition read_siginfo (i : Siginfo) : option ChildEvent :=
  if si_code i =? CLD_EXITED then Some (Exited (si_status i))
  else if si_code i =? CLD_KILLED then Some (Killed (si_status i) false)
  else if si_code i =? CLD_DUMPED then Some (Killed (si_status i) true)
  else if si_code i =? CLD_STOPPED then Some (Stopped (si_status i))
  else if si_code i =? CLD_CONTINUED then Some Continued
  else None.

(** The child is gone, not stopped or resumed. *)
Definition ended (e : ChildEvent) : Prop :=
  match e with Exited _ | Killed _ _ => True | _ => False end.

Definition how_of (e : ChildEvent) : Z := si_code (siginfo_of 0 0 e).
Definition status_of (e : ChildEvent) : Z := si_status (siginfo_of 0 0 e).

Lemma fits_i32 z : is_i32 z -> fits i32 (VI z).
Proof. intros Hz. split; [simpl; lia|exact Hz]. Qed.

Lemma siginfo_typed pid uid e :
  is_i32 pid -> is_u32 uid -> event_ok e -> well_typed (siginfo_of pid uid e).
Proof.
  intros Hp Hu He.
  assert (siginfo_of pid uid e =
    mkSiginfo SIGCHLD_NO 0 (how_of e) 0 pid uid (status_of e) (replicate 100 0)) as -> by (by destruct e).
  assert (is_i32 (how_of e) /\ is_i32 (status_of e)) as [Hh Hs].
  { destruct e as [n|sig [] |sig|]; cbn in *; int_ranges; unfold CLD_EXITED, CLD_KILLED, CLD_DUMPED,
      CLD_STOPPED, CLD_CONTINUED; lia. }
  unfold well_typed. cbn [ks_fields ks_vals Siginfo_kstruct].
  repeat apply Forall2_cons_2; try apply Forall2_nil_2; try apply fits_i32;
    cbn [si_signo si_errno si_code si_pad0 si_pid si_uid si_status si_pad]; try done;
    try (split; done). apply (zeros_fit 100).
Qed.

Lemma read_siginfo_of pid uid e : read_siginfo (siginfo_of pid uid e) = Some e.
Proof. by destruct e as [n|sig []|sig|]. Qed.

(** ** The interface *)

(** Children that have ended and have not been waited for.  [waitid] with
    [WNOWAIT] reports one and leaves it; [wait4] reports it and takes it away;
    neither finds a child that is not there. *)
Class WaitKernel `{Target} (K : Kernel) := {
  ended_children : kst K -> gmap Z ChildEvent;
  ended_ok : forall s pid e, ended_children s !! pid = Some e -> 0 < pid < 2 ^ 31 /\ event_ok e /\ ended e;
  call_waitid : forall pid s, is_i32 pid -> exists r s',
    let c := Syscall (nrz WAITID) [int P_PID; int pid; AMut (encode Siginfo_default);
                                   int (Z.lor WEXITED WNOWAIT); int 0] in
    kstep K c s = (Some r, s') /\ ended_children s' = ended_children s /\
    match ended_children s !! pid with
    | Some e => as_u64 (r_ret r) = 0 /\
                exists uid, is_u32 uid /\ r_outs r = [encode (siginfo_of pid uid e)]
    | None => as_u64 (r_ret r) = as_u64 (- code ECHILD)
    end;
  call_wait4 : forall pid s, is_i32 pid -> exists r s',
    let c := Syscall (nrz WAIT4) [int pid; AMut (le_enc 4 0); int 0; int 0] in
    kstep K c s = (Some r, s') /\ ended_children s' = delete pid (ended_children s) /\
    match ended_children s !! pid with
    | Some e => as_u64 (r_ret r) = pid /\ r_outs r = [le_enc 4 (status_word e)]
    | None => as_u64 (r_ret r) = as_u64 (- code ECHILD)
    end }.

Section Waiting.
Context `{Target} (K : Kernel) `{HK : !WaitKernel K}.

Lemma run_peek pid s : is_i32 pid -> exists r t s',
  run K (waitid P_PID pid (Z.lor WEXITED WNOWAIT)) s = (Done r, t, s') /\
  ended_children s' = ended_children s /\
  match ended_children s !! pid with
  | Some e => exists uid, r = Ok (siginfo_of pid uid e)
  | None => r = Err ECHILD
  end.
Proof.
  intros Hp. destruct (call_waitid pid s Hp) as (r & s' & E & Hc & Hr).
  unfold waitid. rewrite syscall5_eq. unfold raw_call. cbn [bind].
  rewrite (run_sys _ _ _ _ _ _ E). cbn [bind run r_ret].
  change (r_ret (conform _ r)) with (as_u64 (r_ret r)).
  destruct (ended_children s !! pid) as [e|] eqn:Ee.
  - destruct Hr as [-> (uid & Hu & Ho)]. destruct (ended_ok _ _ _ Ee) as (Hpid & He & _).
    change (from_ret 0) with (@Ok Z 0). cbn [bind_ok bind run].
    do 3 eexists. split_and!; [reflexivity|done|]. exists uid.
    pose proof (siginfo_typed pid uid e ltac:(int_ranges; lia) Hu He) as Hty.
    rewrite <- (decode_encode (siginfo_of pid uid e)) by done. do 2 f_equal.
    eapply out_written; [reflexivity|exact Ho|apply encode_bytes|by rewrite encode_length by done].
  - rewrite Hr. change (from_ret (as_u64 (- code ECHILD))) with (@Err Z ECHILD). cbn [bind_ok bind run].
    do 3 eexists. split_and!; [reflexivity|done|done].
Qed.

Lemma run_reap pid s : is_i32 pid -> exists r t s',
  run K (waitpid pid 0) s = (Done r, t, s') /\
  ended_children s' = delete pid (ended_children s) /\
  match ended_children s !! pid with
  | Some e => r = Ok (pid, status_word e)
  | None => r = Err ECHILD
  end.
Proof.
  intros Hp. destruct (call_wait4 pid s Hp) as (r & s' & E & Hc & Hr).
  unfold waitpid. rewrite syscall4_eq. unfold raw_call. cbn [bind].
  rewrite (run_sys _ _ _ _ _ _ E). cbn [bind run r_ret].
  change (r_ret (conform _ r)) with (as_u64 (r_ret r)).
  destruct (ended_children s !! pid) as [e|] eqn:Ee.
  - destruct Hr as [Hret Ho]. destruct (ended_ok _ _ _ Ee) as (Hpid & He & Hend).
    assert (as_u64 (r_ret r) = as_u64 pid) as ->.
    { rewrite Hret. symmetry. apply wrap_small. lia. }
    rewrite from_ret_i32_fd by lia. cbn [bind_ok bind run].
    do 3 eexists. split_and!; [reflexivity|done|].
    do 2 f_equal.
    assert (out 0 (conform (Syscall (nrz WAIT4) [int pid; AMut (le_enc 4 0); int 0; int 0]) r) =
      le_enc 4 (status_word e)) as Hout
      by (eapply out_written; [reflexivity|exact Ho|apply le_enc_bytes|done]).
    etransitivity; [apply f_equal; exact Hout|]. by apply dec_status.
  - rewrite Hr. change (from_ret_i32 (as_u64 (- code ECHILD))) with (@Err Z ECHILD).
    cbn [bind_ok bind run]. do 3 eexists. split_and!; [reflexivity|done|done].
Qed.
End Waiting.

(** Look, reap, look for it again. *)
Definition peek_reap_reap `{Target} (pid : Z) :
    Prog (result Siginfo * result (Z * Z) * result (Z * Z)) :=
  let* peeked := waitid P_PID pid (Z.lor WEXITED WNOWAIT) in
  let* reaped := waitpid pid 0 in
  let* again := waitpid pid 0 in
  Ret (peeked, reaped, again).

(** [C24] The two ways of waiting agree: of a child that has ended, [waitid] with
    [WNOWAIT] and [waitpid] report the same pid and, read with the [CLD_*]
    constants and with the [W*] tests, the same event; only the second takes the
    child away, after which there is no such child ([ECHILD]).  Other children
    stay as they are. *)
Theorem wait_views_agree `{Target} (K : Kernel) (HK : WaitKernel K) pid e s :
  ended_children s !! pid = Some e ->
  exists info status t s',
    run K (peek_reap_reap pid) s = (Done (Ok info, Ok (pid, status), Err ECHILD), t, s') /\
    si_pid info = pid /\ read_siginfo info = Some e /\ read_status status = Some e /\
    ended_children s' = delete pid (ended_children s).
Proof.
  intros He. destruct (ended_ok _ _ _ He) as (Hp & Hok & _).
  assert (is_i32 pid) as Hpid by (int_ranges; lia).
  destruct (run_peek K pid s Hpid) as (r1 & t1 & s1 & E1 & H1 & Hr1). rewrite He in Hr1.
  destruct Hr1 as [uid ->].
  destruct (run_reap K pid s1 Hpid) as (r2 & t2 & s2 & E2 & H2 & Hr2). rewrite H1, He in Hr2. subst r2.
  destruct (run_reap K pid s2 Hpid) as (r3 & t3 & s3 & E3 & H3 & Hr3).
  rewrite H2, H1, lookup_delete_eq in Hr3. subst r3.
  exists (siginfo_of pid uid e), (status_word e). do 2 eexists.
  unfold peek_reap_reap. rewrite run_bind, E1. cbv beta iota. rewrite run_bind, E2. cbv beta iota.
  rewrite run_bind, E3. cbn [run]. split_and!; [reflexivity| |apply read_siginfo_of|by apply read_status_of|].
  - by destruct e.
  - by rewrite H3, H2, H1, delete_delete_eq.
Qed.

(** ** A concrete table of children *)

Definition ended_b (e : ChildEvent) : bool := match e with Exited _ | Killed _ _ => true | _ => false end.
#[export] Instance event_ok_dec e : Decision (event_ok e).
Proof. destruct e; simpl; apply _. Defined.
#[export] Instance ended_dec e : Decision (ended e).
Proof. destruct e; simpl; apply _. Defined.

Definition waitable (p : Z * ChildEvent) : Prop := 0 < p.1 < 2 ^ 31 /\ event_ok p.2 /\ ended p.2.
#[export] Instance waitable_dec p : Decision (waitable p).
Proof. unfold waitable. apply _. Defined.

Definition zombies (s : gmap Z ChildEvent) : gmap Z ChildEvent := filter waitable s.

Definition wait_step (H : Target) (c : Call) (s : gmap Z ChildEvent) : option Reply * gmap Z ChildEvent :=
  match c with
  | Syscall n args =>
      if n =? nrz WAITID then
        match args with
        | _ :: AInt pid :: _ =>
            match zombies s !! as_i32 pid with
            | Some e => (Some (mkReply 0 [encode (siginfo_of (as_i32 pid) 1000 e)]), s)
            | None => (Some (mkReply (-10) []), s)
            end
        | _ => (Some (mkReply (-22) []), s)
        end
      else match args with
        | AInt pid :: _ =>
            match zombies s !! as_i32 pid with
            | Some e => (Some (mkReply (as_i32 pid) [le_enc 4 (status_word e)]), delete (as_i32 pid) s)
            | None => (Some (mkReply (-10) []), delete (as_i32 pid) s)
            end
        | _ => (Some (mkReply (-22) []), s)
        end
  | CallFn _ _ => (Some (mkReply (-38) []), s)
  end.
Definition wait_kernel (H : Target) : Kernel := mkKernel (gmap Z ChildEvent) (wait_step H).

Lemma zombies_delete s pid : zombies (delete pid s) = delete pid (zombies s).
Proof. unfold zombies. by rewrite map_filter_delete. Qed.

#[export] Program Instance wait_kernel_ok (H : Target) : WaitKernel (wait_kernel H) := {
  ended_children := zombies }.
Next Obligation.
  intros H s pid e He. simpl in *. unfold zombies in He. by apply map_lookup_filter_Some in He as [_ He].
Qed.
Next Obligation.
  intros H pid s Hp. cbn [kstep wait_kernel]. unfold wait_step, int. nr_case. cbv iota.
  rewrite as_i32_as_usize by done. destruct (zombies s !! pid) as [e|]; do 2 eexists; (split; [reflexivity|]).
  - split; [done|]. split; [done|]. by exists 1000.
  - by split.
Qed.
Next Obligation.
  intros H pid s Hp. cbn [kstep wait_kernel]. unfold wait_step, int. nr_case. cbv iota.
  rewrite as_i32_as_usize by done. destruct (zombies s !! pid) as [e|] eqn:E; do 2 eexists; (split; [reflexivity|]).
  - split; [apply zombies_delete|]. split; [|done]. unfold zombies in E.
    apply map_lookup_filter_Some in E as [_ [Hpid _]]. apply wrap_small. simpl in *. lia.
  - split; [apply zombies_delete|done].
Qed.

Lemma wait_views_agree_witness :
  exists info status t s',
    run (wait_kernel Aarch64) (peek_reap_reap (H := Aarch64) 42) {[ 42 := Killed 11 true; 7 := Exited 3 ]} =
      (Done (Ok info, Ok (42, status), Err ECHILD), t, s') /\
    si_pid info = 42 /\ read_siginfo info = Some (Killed 11 true) /\
    read_status status = Some (Killed 11 true) /\
    zombies s' = delete 42 (zombies {[ 42 := Killed 11 true; 7 := Exited 3 ]}).
Proof.
  apply (@wait_views_agree Aarch64 (wait_kernel Aarch64) (wait_kernel_ok Aarch64) 42 (Killed 11 true)
    {[ 42 := Killed 11 true; 7 := Exited 3 ]}).
  reflexivity.
Defined.
