(* ===== verification/RestoreSpec.v ===== *)
(** Borrowed state that is given back: a critical section with a signal blocked,
    and a session on a terminal in raw mode. *)

From stdpp Require Import base list option numbers strings.
From Stdlib Require Import ZArith Lia.
From S2P Require Import Prelude Prog Layout Asm Arch Fd Signal Termios.

(** ** The signal mask *)

(** [SIGKILL] and [SIGSTOP] cannot be blocked. *)
Definition unblockable : Z := Z.lor (2 ^ 8) (2 ^ 18).

(** What [rt_sigprocmask] makes of the mask. *)
Definition mask_after (how old set : Z) : option Z :=
  if how =? SIG_BLOCK then Some (Z.ldiff (Z.lor old set) unblockable)
  else if how =? SIG_UNBLOCK then Some (Z.ldiff (Z.ldiff old set) unblockable)
  else if how =? SIG_SETMASK then Some (Z.ldiff set unblockable)
  else None.

Definition mask_call `{Target} (how set : Z) : Call :=
  Syscall (nrz RT_SIGPROCMASK) [int how; ARef (le_enc 8 set); AMut (le_enc 8 0); int SIGSETSIZE].

Class MaskKernel `{Target} (K : Kernel) := {
  mask : kst K -> Z;
  mask_u64 : forall s, is_u64 (mask s);
  mask_blockable : forall s, Z.ldiff (mask s) unblockable = mask s;
  call_sigprocmask : forall how set s, is_i32 how -> is_u64 set -> exists r s',
    kstep K (mask_call how set) s = (Some r, s') /\
    match mask_after how (mask s) set with
    | Some m => as_u64 (r_ret r) = 0 /\ r_outs r = [le_enc 8 (mask s)] /\ mask s' = m
    | None => as_u64 (r_ret r) = as_u64 (- code EINVAL) /\ mask s' = mask s
    end }.

Lemma run_sigprocmask `{Target} (K : Kernel) `{HK : !MaskKernel K} how set s :
  is_i32 how -> is_u64 set -> exists t s',
  match mask_after how (mask s) set with
  | Some m => run K (sigprocmask how set) s = (Done (Ok (mask s)), t, s') /\ mask s' = m
  | None => run K (sigprocmask how set) s = (Done (Err EINVAL), t, s') /\ mask s' = mask s
  end.
Proof.
  intros Hh Hs. destruct (call_sigprocmask how set s Hh Hs) as (r & s' & E & Hr).
  unfold sigprocmask. rewrite syscall4_eq. unfold raw_call. cbn [bind].
  fold (mask_call how set). rewrite (run_sys _ _ _ _ _ _ E). cbn [bind run r_ret].
  change (r_ret (conform _ r)) with (as_u64 (r_ret r)). do 2 eexists.
  destruct (mask_after how (mask s) set) as [m|].
  - destruct Hr as (-> & Ho & Hm). change (from_ret 0) with (@Ok Z 0). cbn [bind_ok bind run].
    split; [|exact Hm].
    assert (out 0 (conform (mask_call how set) r) = le_enc 8 (mask s)) as Hout
      by (eapply out_written; [reflexivity|exact Ho|apply le_enc_bytes|done]).
    change (out 0 (mkReply _ _)) with (out 0 (conform (mask_call how set) r)). rewrite Hout.
    unfold dec_u64, as_u64. rewrite le_dec_enc_small, wrap_small by apply mask_u64. reflexivity.
  - destruct Hr as [-> Hm]. split; [reflexivity|exact Hm].
Qed.

(** Run [p] with [sig] blocked, then put the mask back. *)
Definition with_blocked `{Target} {A} (sig : Z) (p : Prog A) : Prog (result A) :=
  let* set := sigmask sig in
  let? old := sigprocmask SIG_BLOCK set in
  let* a := p in
  let? _ := sigprocmask SIG_SETMASK old in
  Ret (Ok a).

(** A critical section restores the mask: [sigmask], [sigprocmask(SIG_BLOCK)]
    and [sigprocmask(SIG_SETMASK)] of the answer compose.  The body runs with the
    signal blocked (unless it cannot be) and every other signal as it was; and
    whatever the body does, to the mask included, once it returns the mask is
    exactly the one before, and the section answers the body's result. *)
Theorem critical_section_restores `{Target} {A} (K : Kernel) (HK : MaskKernel K) sig (p : Prog A) s :
  1 <= sig <= 64 ->
  exists t1 s1,
    (forall i, 0 <= i -> Z.testbit (mask s1) i =
       if i =? sig - 1 then negb (Z.testbit unblockable i) else Z.testbit (mask s) i) /\
    forall a t2 s2, run K p s1 = (Done a, t2, s2) ->
      exists t3 s3, run K (with_blocked sig p) s = (Done (Ok a), t1 ++ t2 ++ t3, s3) /\
        mask s3 = mask s.
Proof.
  intros Hsig. unfold with_blocked. rewrite sigmask_cases by (int_ranges; lia).
  destruct (Z.leb_spec 1 sig), (Z.leb_spec sig 64); try lia. cbn [andb bind].
  pose proof (sigbit_range sig Hsig) as Hbit.
  destruct (run_sigprocmask K SIG_BLOCK (2 ^ (sig - 1)) s) as (t1 & s1 & E1 & Hm1); [by vm_compute|done|].
  exists t1, s1. split.
  - intros i Hi. rewrite Hm1. rewrite Z.ldiff_spec, Z.lor_spec, Z.pow2_bits_eqb by lia.
    rewrite (Z.eqb_sym (sig - 1)). destruct (i =? sig - 1); [by rewrite orb_true_r|].
    rewrite orb_false_r, <- Z.ldiff_spec. by rewrite mask_blockable.
  - intros a t2 s2 E2. unfold bind_ok. rewrite run_bind, E1. cbv beta iota. rewrite run_bind, E2.
    destruct (run_sigprocmask K SIG_SETMASK (mask s) s2) as (t3 & s3 & E3 & Hm3);
      [by vm_compute|apply mask_u64|].
    exists t3, s3. rewrite run_bind, E3. cbn [run]. rewrite app_nil_r.
    split; [done|]. rewrite Hm3. apply mask_blockable.
Qed.

(** ** The terminal *)

(** The settings in force, and whether [fd] names the terminal ([close] ends that;
    the settings stay).  [driver] is what the terminal makes of a request: as
    [termios(3)] says, [tcsetattr] succeeds when any of it could be carried out, so
    what is then in force need not be what was asked; asking for settings that are in
    force changes nothing.  A call fails, changing nothing, when [fd] does not name the
    terminal, and setting also when a signal interrupts the wait for the output. *)
Class TtyKernel `{Target} (K : Kernel) (fd : Z) := {
  tty : kst K -> Termios;
  names : kst K -> bool;
  driver : Termios -> Termios;
  tty_typed : forall s, well_typed (tty s);
  driver_typed : forall t, well_typed t -> well_typed (driver t);
  tty_driven : forall s, driver (tty s) = tty s;
  call_tcgets : forall b s, length b = size_of Termios -> exists r s',
    kstep K (Syscall (nrz IOCTL) [int fd; int TCGETS; AMut b]) s = (Some r, s') /\
    tty s' = tty s /\ names s' = names s /\
    if names s then as_u64 (r_ret r) = 0 /\ r_outs r = [encode (tty s)]
    else exists e, errno_in_range e /\ as_u64 (r_ret r) = as_u64 (- code e);
  call_tcsets : forall req t s, req = TCSETS \/ req = TCSETSW \/ req = TCSETSF -> well_typed t ->
    exists r s',
    kstep K (Syscall (nrz IOCTL) [int fd; int req; ARef (encode t)]) s = (Some r, s') /\
    names s' = names s /\
    (names s = true /\ as_u64 (r_ret r) = 0 /\ tty s' = driver t \/
     exists e, errno_in_range e /\ (names s = false \/ e = EINTR) /\
       as_u64 (r_ret r) = as_u64 (- code e) /\ tty s' = tty s) }.

Section Tty.
Context `{Target} (K : Kernel) (fd : Z) `{HK : !TtyKernel K fd}.

Lemma run_tcgetattr s : exists t s' res,
  run K (tcgetattr fd) s = (Done res, t, s') /\ tty s' = tty s /\ names s' = names s /\
  if names s then res = Ok (tty s) else exists e, errno_in_range e /\ res = Err e.
Proof.
  assert (length (encode Termios_default) = size_of Termios) as Hl by reflexivity.
  destruct (call_tcgets (encode Termios_default) s Hl) as (r & s' & E & Ht & Hn & Hr).
  unfold tcgetattr, ioctl. rewrite syscall3_eq. unfold raw_call. cbn [bind].
  rewrite (run_sys _ _ _ _ _ _ E). cbn [bind run r_ret].
  change (r_ret (conform _ r)) with (as_u64 (r_ret r)). destruct (names s).
  2: { destruct Hr as (e & He & ->). rewrite from_ret_fail by done. cbn [bind_ok bind run].
       do 3 eexists. split; [reflexivity|]. split_and!; [done|done|by exists e]. }
  destruct Hr as [-> Ho]. change (from_ret 0) with (@Ok Z 0). cbn [bind_ok bind run].
  do 3 eexists. split; [reflexivity|]. split_and!; [exact Ht|exact Hn|].
  set (c := Syscall (nrz IOCTL) [int fd; int TCGETS; AMut (encode Termios_default)]).
  assert (out 0 (conform c r) = encode (tty s)) as Hout.
  { eapply out_written; [reflexivity|exact Ho|apply encode_bytes|].
    rewrite encode_length by apply tty_typed. done. }
  change (out 0 (mkReply _ _)) with (out 0 (conform c r)).
  by rewrite Hout, decode_encode by apply tty_typed.
Qed.

(** What setting comes to: [want] carried out as far as the terminal can, or an error
    and nothing changed. *)
Definition set_to (want : Termios) (s s' : kst K) (res : result unit) : Prop :=
  match res with
  | Ok _ => names s = true /\ tty s' = driver want
  | Err e => errno_in_range e /\ (names s = false \/ e = EINTR) /\ tty s' = tty s
  end.

Lemma run_tcsetattr_with actions t s : well_typed t -> exists tr s' res,
  run K (tcsetattr_with fd actions t) s = (Done res, tr, s') /\ set_to t s s' res.
Proof.
  intros Hw. destruct (call_tcsets (set_request actions) t s) as (r & s' & E & Hn & Hr); [|done|].
  { unfold set_request. repeat case_match; auto. }
  unfold tcsetattr_with, ioctl. rewrite syscall3_eq. unfold raw_call. cbn [bind].
  rewrite (run_sys _ _ _ _ _ _ E). cbn [bind run r_ret].
  change (r_ret (conform _ r)) with (as_u64 (r_ret r)). destruct Hr as [(Hs & -> & Ht)|(e & He & Hs & -> & Ht)].
  - change (from_ret 0) with (@Ok Z 0). cbn [bind_ok bind run]. do 3 eexists. by split; [reflexivity|].
  - rewrite from_ret_fail by done. cbn [bind_ok bind run]. do 3 eexists. by split; [reflexivity|].
Qed.
End Tty.

(** Put the terminal into raw mode, run [p], put it back as it was. *)
Definition with_raw `{Target} {A} (fd : Z) (p : Prog A) : Prog (result A) :=
  let? saved := tcgetattr fd in
  let? _ := tcsetattr fd (make_raw saved) in
  let* a := p in
  let? _ := tcsetattr fd saved in
  Ret (Ok a).

(** [C26] A raw-mode session gives the terminal back: [tcgetattr], [make_raw] and
    two [tcsetattr] compose.  Either the session fails before the body runs, with the
    settings untouched, because [fd] does not name the terminal or a signal
    interrupted it; or the body runs with [make_raw] of the settings as far as the
    terminal can do it, and whatever it does, to the settings or to [fd], once it
    returns: if the session answers the body's result, every field of the settings
    (flags, line discipline, all control characters) is the one before; otherwise the
    body has closed [fd] or a signal interrupted the last call, the session answers
    that error, and the settings are as the body left them. *)
Theorem raw_session_restores `{Target} {A} (K : Kernel) fd (HK : TtyKernel K fd) (p : Prog A) s :
  exists t1 s1,
    (exists e, run K (with_raw fd p) s = (Done (Err e), t1, s1) /\
       (names s = false \/ e = EINTR) /\ tty s1 = tty s) \/
    (names s = true /\ tty s1 = driver (make_raw (tty s)) /\
     forall a t2 s2, run K p s1 = (Done a, t2, s2) ->
       exists t3 s3 res, run K (with_raw fd p) s = (Done res, t1 ++ t2 ++ t3, s3) /\
         match res with
         | Ok b => b = a /\ tty s3 = tty s
         | Err e => (names s2 = false \/ e = EINTR) /\ tty s3 = tty s2
         end).
Proof.
  destruct (run_tcgetattr K fd s) as (t0 & s0 & r0 & E0 & H0 & N0 & R0). destruct (names s).
  2: { destruct R0 as (e & _ & ->). exists t0, s0. left. exists e. unfold with_raw, bind_ok.
       rewrite run_bind, E0. cbn [run]. rewrite app_nil_r. auto. }
  subst r0.
  destruct (run_tcsetattr_with K fd TCSADRAIN (make_raw (tty s)) s0) as (t1 & s1 & r1 & E1 & H1);
    [apply make_raw_typed, tty_typed|].
  exists (t0 ++ t1), s1. destruct r1 as [[]|e].
  2: { destruct H1 as (_ & [Hn|He] & Ht); [congruence|]. left. exists e. unfold with_raw, tcsetattr, bind_ok.
       rewrite run_bind, E0. cbv beta iota. rewrite run_bind, E1. cbn [run]. rewrite app_nil_r.
       split_and!; [done|by right|congruence]. }
  right. split; [done|]. split; [apply H1|]. intros a t2 s2 E2.
  destruct (run_tcsetattr_with K fd TCSADRAIN (tty s) s2) as (t3 & s3 & r3 & E3 & H3); [apply tty_typed|].
  exists t3, s3, (map_ok (fun _ => a) r3). unfold with_raw, tcsetattr, bind_ok.
  rewrite run_bind, E0. cbv beta iota. rewrite run_bind, E1. cbv beta iota.
  rewrite run_bind, E2. cbv beta iota. rewrite run_bind, E3. destruct r3 as [[]|e]; cbn [run map_ok set_to] in *;
    rewrite app_nil_r, <- app_assoc; (split; [done|]).
  - split; [done|]. destruct H3 as [_ ->]. apply tty_driven.
  - by destruct H3 as (_ & ? & ?).
Qed.

(** ** Concrete kernels *)

Definition mask_fix (m : Z) : Z := Z.ldiff (as_u64 m) unblockable.

Definition mask_step (H : Target) (c : Call) (s : Z) : option Reply * Z :=
  match c with
  | Syscall _ [AInt how; ARef set; AMut _; AInt _] =>
      match mask_after (as_i32 how) (mask_fix s) (le_dec set) with
      | Some m => (Some (mkReply 0 [le_enc 8 (mask_fix s)]), m)
      | None => (Some (mkReply (-22) []), s)
      end
  | _ => (Some (mkReply (-38) []), s)
  end.
Definition mask_kernel (H : Target) : Kernel := mkKernel Z (mask_step H).

Lemma mask_fix_u64 m : is_u64 (mask_fix m).
Proof. apply (ldiff_range _ _ 64); [lia|]. by apply (wrap_range 64). Qed.

Lemma mask_fix_id m : is_u64 m -> mask_fix (Z.ldiff m unblockable) = Z.ldiff m unblockable.
Proof.
  intros Hm. unfold mask_fix, as_u64. rewrite wrap_small; [apply ldiff_ldiff|].
  by apply (ldiff_range _ _ 64).
Qed.

Lemma mask_after_fixed how old set m :
  is_u64 old -> is_u64 set -> mask_after how old set = Some m -> mask_fix m = m.
Proof.
  intros Ho Hs. unfold mask_after. repeat case_match; intros [= <-]; apply mask_fix_id;
    [by apply (lor_range _ _ 64)|by apply (ldiff_range _ _ 64)|done].
Qed.

#[export] Program Instance mask_kernel_ok (H : Target) : MaskKernel (mask_kernel H) := {
  mask := mask_fix }.
Next Obligation. intros H s. apply mask_fix_u64. Qed.
Next Obligation. intros H s. apply ldiff_ldiff. Qed.
Next Obligation.
  intros H how set s Hh Hs. cbn [kstep mask_kernel]. unfold mask_step, mask_call, int. cbv iota.
  rewrite as_i32_as_usize by done. rewrite le_dec_enc_small by exact Hs.
  destruct (mask_after how (mask_fix s) set) as [m|] eqn:Em; do 2 eexists; (split; [reflexivity|]); [|done].
  split; [done|]. split; [done|]. eapply mask_after_fixed; [apply mask_fix_u64|exact Hs|exact Em].
Qed.

(** SIGINT blocked around a body that clears the whole mask. *)
Lemma critical_section_restores_witness :
  exists t1 s1,
    (forall i, 0 <= i -> Z.testbit (mask_fix s1) i =
       if i =? 1 then negb (Z.testbit unblockable i) else Z.testbit (mask_fix 0x4000) i) /\
    forall a t2 s2,
      run (mask_kernel X86_64) (sigprocmask (H := X86_64) SIG_SETMASK 0) s1 = (Done a, t2, s2) ->
      exists t3 s3, run (mask_kernel X86_64)
          (with_blocked (H := X86_64) 2 (sigprocmask (H := X86_64) SIG_SETMASK 0)) 0x4000 =
          (Done (Ok a), t1 ++ t2 ++ t3, s3) /\ mask_fix s3 = mask_fix 0x4000.
Proof.
  apply (@critical_section_restores X86_64 _ (mask_kernel X86_64) (mask_kernel_ok X86_64) 2
    (sigprocmask (H := X86_64) SIG_SETMASK 0) 0x4000).
  lia.
Defined.

(** A pseudoterminal: it keeps eight bits, the receiver on and no parity whatever is
    asked.  Its settings, and whether the descriptor is open. *)
Definition CREAD : Z := 0x80.
Definition pty_driver (t : Termios) : Termios :=
  mkTermios (c_iflag t) (c_oflag t)
    (Z.lor (Z.ldiff (c_cflag t) (Z.lor CSIZE PARENB)) (Z.lor CS8 CREAD)) (c_lflag t) (c_line t) (c_cc t).

Lemma pty_driver_typed t : well_typed t -> well_typed (pty_driver t).
Proof.
  destruct t as [i o c l n cc]. unfold well_typed, pty_driver. cbn [ks_vals Termios_kstruct c_iflag c_oflag
    c_cflag c_lflag c_line c_cc]. intros Ht.
  repeat (apply Forall2_cons in Ht as [? Ht]; apply Forall2_cons; split; [try done|]); [|done].
  simpl in *. apply (lor_range _ _ 32); [lia| |by vm_compute]. by apply (ldiff_range _ _ 32).
Qed.

Lemma pty_driver_again t : pty_driver (pty_driver t) = pty_driver t.
Proof.
  unfold pty_driver. cbn [c_iflag c_oflag c_cflag c_lflag c_line c_cc]. f_equal. apply Z.bits_inj. intros i.
  rewrite !Z.lor_spec, !Z.ldiff_spec, !Z.lor_spec, !Z.ldiff_spec, !Z.lor_spec.
  by repeat destruct (Z.testbit _ i).
Qed.

Definition tty_now (s : list Z * bool) : Termios :=
  let t := decode s.1 : Termios in
  pty_driver (if decide (well_typed t) then t else cooked).

Lemma tty_now_typed s : well_typed (tty_now s).
Proof.
  apply pty_driver_typed. destruct (decide _); [done|]. apply (bool_decide_eq_true_1 _). vm_compute. reflexivity.
Qed.

Lemma tty_now_encode t b : well_typed t -> tty_now (encode t, b) = pty_driver t.
Proof. intros Ht. unfold tty_now. cbn [fst]. rewrite decode_encode by done. by rewrite decide_True. Qed.

Definition tty_step (c : Call) (s : list Z * bool) : option Reply * (list Z * bool) :=
  match c, s with
  | Syscall _ [_], _ => (Some (mkReply 0 []), (s.1, false))
  | Syscall _ [_; AInt req; AMut _], (_, true) => (Some (mkReply 0 [encode (tty_now s)]), s)
  | Syscall _ [_; AInt req; ARef t], (_, true) => (Some (mkReply 0 []), (t, true))
  | _, _ => (Some (mkReply (- code EBADF) []), s)
  end.
Definition tty_kernel : Kernel := mkKernel (list Z * bool) tty_step.

#[export] Program Instance tty_kernel_ok `{Target} fd : TtyKernel tty_kernel fd := {
  tty := tty_now; names := snd; driver := pty_driver }.
Next Obligation. intros H fd s. apply tty_now_typed. Qed.
Next Obligation. intros H fd t. apply pty_driver_typed. Qed.
Next Obligation. intros H fd s. apply pty_driver_again. Qed.
Next Obligation.
  intros H fd b [t []] Hb; do 2 eexists; (split; [reflexivity|]); split_and!; try done.
  by exists EBADF.
Qed.
Next Obligation.
  intros H fd req t [t0 []] Hreq Ht; do 2 eexists; (split; [reflexivity|]); (split; [done|]).
  - left. split_and!; [done|done|]. by apply tty_now_encode.
  - right. exists EBADF. split_and!; [done|by left|done|done].
Qed.

(** A body that leaves the terminal in some other mode, and one that closes it. *)
Lemma raw_session_restores_witness :
  Forall (fun p : Prog (result unit) =>
    exists t1 s1,
    (exists e, run tty_kernel (with_raw (H := Aarch64) 0 p) (encode cooked, true) = (Done (Err e), t1, s1) /\
       (true = false \/ e = EINTR) /\ tty_now s1 = tty_now (encode cooked, true)) \/
    (true = true /\ tty_now s1 = pty_driver (make_raw (tty_now (encode cooked, true))) /\
     forall a t2 s2, run tty_kernel p s1 = (Done a, t2, s2) ->
       exists t3 s3 res, run tty_kernel (with_raw (H := Aarch64) 0 p) (encode cooked, true) =
           (Done res, t1 ++ t2 ++ t3, s3) /\
         match res with
         | Ok b => b = a /\ tty_now s3 = tty_now (encode cooked, true)
         | Err e => (s2.2 = false \/ e = EINTR) /\ tty_now s3 = tty_now s2
         end))
   [tcsetattr (H := Aarch64) 0 (mkTermios 1 2 3 4 5 (replicate 19 6)); close (H := Aarch64) 0] /\
  tty_now (encode cooked, true) <> pty_driver (make_raw (tty_now (encode cooked, true))).
Proof.
  split; [repeat constructor|by vm_compute].
  - apply (@raw_session_restores Aarch64 _ tty_kernel 0 (tty_kernel_ok 0)
      (tcsetattr (H := Aarch64) 0 (mkTermios 1 2 3 4 5 (replicate 19 6))) (encode cooked, true)).
  - apply (@raw_session_restores Aarch64 _ tty_kernel 0 (tty_kernel_ok 0) (close (H := Aarch64) 0)
      (encode cooked, true)).
Defined.
