(* ===== verification/PollSpec.v ===== *)
(** Waiting for descriptors on both targets: aarch64 has neither [poll] nor
    [epoll_wait] and uses [ppoll] and [epoll_pwait]; one contract covers both. *)

From stdpp Require Import base list option numbers strings.
From Stdlib Require Import ZArith Lia.
From S2P Require Import Prelude Prog Layout Asm Arch Fd Events DupSpec.

(** A timeout as the kernel counts it, in nanoseconds; negative is forever. *)
Definition timeout_ns (ms : Z) : option Z := if ms <? 0 then None else Some (ms * 1000000).

Definition timespec_ns (t : PollTimespec) : Z := pts_sec t * 1000000000 + pts_nsec t.

Definition res_ok (res : result Z) : Prop :=
  match res with Ok n => 0 <= n < 2 ^ 31 | Err e => errno_in_range e end.

Lemma answers_ret c r res : answers r res -> res_ok res -> from_ret (r_ret (conform c r)) = res.
Proof.
  unfold answers, res_ok. change (r_ret (conform c r)) with (as_u64 (r_ret r)).
  destruct res as [n|e]; intros E Hr.
  - rewrite E, <- (wrap_small 64 n) by lia. rewrite from_ret_nat by lia. f_equal. by rewrite wrap_small by lia.
  - rewrite E. by apply from_ret_fail.
Qed.

(** The calls, as the manual pages specify them: [poll] and [ppoll] wait alike,
    differing in how the time is passed, as do [epoll_wait] and [epoll_pwait]
    without a mask. [epoll] reports at most as many events as there is room for,
    from the front of the array. *)
Class WaitEvents `{Target} (K : Kernel) := {
  polled : kst K -> list PollFd -> option Z -> list PollFd * result Z * kst K;
  polled_ok : forall s fds d, Forall well_typed fds ->
    let '(fds', res, _) := polled s fds d in
    length fds' = length fds /\ Forall well_typed fds' /\ res_ok res;
  call_poll : forall fds ms s, arch = X86_64 -> Forall well_typed fds -> is_i32 ms ->
    let '(fds', res, s') := polled s fds (timeout_ns ms) in
    exists r, kstep K (Syscall (nrz POLL) [AMut (encode_all fds); len fds; int ms]) s = (Some r, s') /\
      answers r res /\ r_outs r = [encode_all fds'];
  call_ppoll : forall fds ts s, Forall well_typed fds ->
    match ts with
    | Some t => well_typed t /\ 0 <= pts_sec t /\ 0 <= pts_nsec t < 1000000000
    | None => True
    end ->
    let '(fds', res, s') := polled s fds (option_map timespec_ns ts) in
    exists r, kstep K (Syscall (nrz PPOLL)
        [AMut (encode_all fds); len fds;
         match ts with Some t => ARef (encode t) | None => null end; int 0; int 8]) s = (Some r, s') /\
      answers r res /\ r_outs r = [encode_all fds'];
  epolled : kst K -> Z -> nat -> option Z -> result (list EpollEvent) * kst K;
  epolled_ok : forall s epfd room d,
    match (epolled s epfd room d).1 with
    | Ok evs => (length evs <= room)%nat /\ Z.of_nat (length evs) < 2 ^ 31 /\ Forall well_typed evs
    | Err e => errno_in_range e
    end;
  call_epoll : forall epfd buf room ms s, is_i32 epfd -> is_i32 ms ->
    length buf = (size_of EpollEvent * room)%nat ->
    let '(res, s') := epolled s epfd room (timeout_ns ms) in
    let call := match arch with
      | X86_64 => Syscall (nrz EPOLL_WAIT) [int epfd; AMut buf; AInt (Z.of_nat room); int ms]
      | Aarch64 => Syscall (nrz EPOLL_PWAIT)
          [int epfd; AMut buf; AInt (Z.of_nat room); int ms; int 0; int 8]
      end in
    exists r, kstep K call s = (Some r, s') /\
      answers r (map_ok (fun evs => Z.of_nat (length evs)) res) /\
      r_outs r = match res with Ok evs => [encode_all evs] | Err _ => [] end }.

(** ** The [timespec] of a timeout *)

Lemma poll_timespec_ok ms :
  is_i32 ms ->
  match poll_timespec ms with
  | Some t => well_typed t /\ 0 <= pts_sec t /\ 0 <= pts_nsec t < 1000000000
  | None => True
  end /\ option_map timespec_ns (poll_timespec ms) = timeout_ns ms.
Proof.
  intros Hm. int_ranges. unfold poll_timespec, timeout_ns. destruct (Z.ltb_spec ms 0) as [Hlt|Hge]; [done|].
  cbn [option_map timespec_ns pts_sec pts_nsec].
  rewrite Z.quot_div_nonneg, Z.rem_mod_nonneg by lia.
  pose proof (Z.mod_pos_bound ms 1000). pose proof (Z.div_mod ms 1000).
  assert (0 <= ms / 1000 <= ms) by (split; [apply Z.div_pos; lia|apply Z.div_le_upper_bound; lia]).
  split; [split; [|cbn; lia]|unfold timespec_ns; cbn; f_equal; lia].
  unfold well_typed. cbn [ks_fields ks_vals PollTimespec_kstruct pts_sec pts_nsec].
  repeat apply Forall2_cons_2; [| |apply Forall2_nil_2]; (split; [simpl; lia|]);
    change (2 ^ (8 * Z.of_nat 8 - 1)) with (2 ^ 63); lia.
Qed.

(** The events a call wrote are the front of the array. *)
Lemma overwrite_all_events `{KStruct A} (old new : list A) :
  Forall well_typed old -> Forall well_typed new -> (length new <= length old)%nat ->
  overwrite (encode_all old) (encode_all new) = encode_all (new ++ drop (length new) old).
Proof.
  intros Ho Hn Hl. unfold overwrite. rewrite map_as_u8 by apply encode_all_bytes.
  assert (encode_all old = encode_all (take (length new) old) ++ encode_all (drop (length new) old)) as E.
  { unfold encode_all. by rewrite <- concat_app, <- map_app, take_drop. }
  assert (length (encode_all (take (length new) old)) = length (encode_all new)) as El.
  { rewrite !encode_all_length by (done || by apply Forall_take). rewrite length_take. f_equal. lia. }
  rewrite E at 2. rewrite drop_app_length' by done.
  rewrite take_ge.
  - unfold encode_all. by rewrite map_app, concat_app.
  - rewrite E, !length_app, El. lia.
Qed.

(** What the wrapper makes of the reply of either call. *)
Lemma epoll_reply `{Target} (events : list EpollEvent) c r res :
  Forall well_typed events -> call_writable c = [encode_all events] ->
  match res with
  | Ok evs => (length evs <= length events)%nat /\ Z.of_nat (length evs) < 2 ^ 31 /\ Forall well_typed evs
  | Err e => errno_in_range e
  end ->
  answers r (map_ok (fun evs => Z.of_nat (length evs)) res) ->
  r_outs r = match res with Ok evs => [encode_all evs] | Err _ => [] end ->
  (decode_all (length events) (out 0 (conform c r)), from_ret (r_ret (conform c r))) =
  match res with
  | Ok evs => (evs ++ drop (length evs) events, Ok (Z.of_nat (length evs)))
  | Err e => (events, Err e)
  end.
Proof.
  intros Hev Hc Hok Hr Ho. unfold out. unfold conform at 1. cbn [r_outs]. rewrite Hc, Ho.
  destruct res as [evs|e]; cbn [map_ok overwrite_all nth] in *.
  - destruct Hok as (Hl & Hn & Hw). rewrite overwrite_all_events by done. f_equal.
    + assert (length events = length (evs ++ drop (length evs) events)) as ->
        by (rewrite length_app, length_drop; lia).
      apply decode_encode_all, Forall_app. split; [done|by apply Forall_drop].
    + apply answers_ret; [exact Hr|]. cbn. lia.
  - f_equal; [by apply decode_encode_all|by apply answers_ret].
Qed.

(** [C27] Waiting is portable: for every array and every timeout (negative ones
    wait for ever), [poll] answers on both targets exactly what the kernel's wait
    for that many milliseconds answers, although aarch64 must convert the timeout
    to a [timespec] for [ppoll]; and [epoll_wait] reports the same events on both,
    although their layout differs, in the front of the array, leaving the other
    entries as they were. *)
Theorem waiting_portable `{Target} (K : Kernel) (HK : WaitEvents K) ms s :
  is_i32 ms ->
  (forall fds, Forall well_typed fds ->
     let '(fds', res, s') := polled s fds (timeout_ns ms) in
     exists t, run K (poll fds ms) s = (Done (fds', res), t, s')) /\
  (forall epfd events, is_i32 epfd -> Forall well_typed events ->
     let '(res, s') := epolled s epfd (length events) (timeout_ns ms) in
     exists t, run K (epoll_wait epfd events ms) s =
       (Done match res with
             | Ok evs => (evs ++ drop (length evs) events, Ok (Z.of_nat (length evs)))
             | Err e => (events, Err e)
             end, t, s')).
Proof.
  intros Hms. split.
  - intros fds Hf. destruct (poll_timespec_ok ms Hms) as [Hts Hns].
    pose proof (polled_ok s fds (timeout_ns ms) Hf) as Hok.
    pose proof (call_poll fds ms s) as H1. pose proof (call_ppoll fds (poll_timespec ms) s Hf Hts) as H2.
    rewrite Hns in H2. destruct (polled s fds (timeout_ns ms)) as [[fds' res] s'].
    destruct Hok as (Hl & Hty & Hres).
    assert (forall c r, call_writable c = [encode_all fds] -> r_outs r = [encode_all fds'] ->
      decode_all (length fds) (out 0 (conform c r)) = fds') as Hdec.
    { intros c r Hc Ho. erewrite out_written; [|exact Hc|exact Ho|apply encode_all_bytes|].
      - rewrite <- Hl. by apply decode_encode_all.
      - by rewrite !encode_all_length, Hl by done. }
    unfold poll. destruct arch eqn:Ha.
    + destruct (H1 eq_refl Hf Hms) as (r & E & Hr & Ho). unfold poll_x86_64. rewrite syscall3_eq.
      unfold raw_call. cbn [bind]. rewrite (run_sys _ _ _ _ _ _ E). cbn [bind run].
      eexists. f_equal. f_equal. f_equal. f_equal; [by eapply Hdec|by apply answers_ret].
    + destruct H2 as (r & E & Hr & Ho). unfold poll_aarch64. rewrite syscall5_eq.
      unfold raw_call. cbn [bind]. rewrite (run_sys _ _ _ _ _ _ E). cbn [bind run].
      eexists. f_equal. f_equal. f_equal. f_equal; [|by apply answers_ret].
      eapply Hdec; [|exact Ho]. by destruct (poll_timespec ms).
  - intros epfd events He Hev. pose proof (epolled_ok s epfd (length events) (timeout_ns ms)) as Hok.
    pose proof (call_epoll epfd (encode_all events) (length events) ms s He Hms
      (encode_all_length _ Hev)) as Hc.
    destruct (epolled s epfd (length events) (timeout_ns ms)) as [res s']. cbn [fst] in Hok.
    cbv zeta in Hc. unfold epoll_wait. destruct arch eqn:Ha; destruct Hc as (r & E & Hr & Ho);
      [unfold epoll_wait_x86_64; rewrite syscall4_eq|unfold epoll_wait_aarch64; rewrite syscall6_eq];
      unfold raw_call; cbn [bind]; unfold len; rewrite (run_sys _ _ _ _ _ _ E); cbn [bind run];
      eexists; f_equal; f_equal; f_equal;
      (eapply epoll_reply; [exact Hev|reflexivity|exact Hok|exact Hr|exact Ho]).
Qed.

(** ** A concrete kernel

    Every descriptor asked about is readable, after any wait that is not for
    ever; two events are pending on any epoll descriptor. *)
Definition demo_polled (fds : list PollFd) (d : option Z) : list PollFd * result Z :=
  match d with
  | None => (fds, Err EINTR)
  | Some _ => (map (fun p => mkPollFd (pfd_fd p) (events p) POLLIN) fds,
               Ok (Z.of_nat (length fds) mod 1024))
  end.
Definition demo_events : list EpollEvent := [mkEpollEvent EPOLLIN 7; mkEpollEvent EPOLLOUT (2 ^ 63)].

Definition events_step (H : Target) (c : Call) (s : unit) : option Reply * unit :=
  match c with
  | Syscall n args =>
      (if n =? nrz PPOLL then
        match args with
        | AMut b :: AInt n :: t :: _ =>
            let '(fds, res) := demo_polled (decode_all (Z.to_nat n) b)
                                 (match t with ARef _ => Some 0 | _ => None end) in
            Some (mkReply (match res with Ok z => z | Err e => - code e end) [encode_all fds])
        | _ => Some (mkReply (-22) [])
        end
      else if n =? match arch with X86_64 => nrz EPOLL_WAIT | Aarch64 => nrz EPOLL_PWAIT end then
        match args with
        | _ :: AMut _ :: AInt room :: AInt ms :: _ =>
            let evs := take (Z.to_nat room) demo_events in
            Some (mkReply (Z.of_nat (length evs)) [encode_all evs])
        | _ => Some (mkReply (-22) [])
        end
      else match args with
        | AMut b :: AInt n :: AInt ms :: _ =>
            let '(fds, res) := demo_polled (decode_all (Z.to_nat n) b) (timeout_ns (as_i32 ms)) in
            Some (mkReply (match res with Ok z => z | Err e => - code e end) [encode_all fds])
        | _ => Some (mkReply (-22) [])
        end, s)
  | CallFn _ _ => (Some (mkReply (-38) []), s)
  end.
Definition events_kernel (H : Target) : Kernel := mkKernel unit (events_step H).

Lemma demo_polled_ok fds d :
  Forall well_typed fds ->
  let '(fds', res) := demo_polled fds d in
  length fds' = length fds /\ Forall well_typed fds' /\ res_ok res.
Proof.
  intros Hf. unfold demo_polled. destruct d.
  - split_and!; [apply length_map| |].
    + apply Forall_map. eapply Forall_impl; [exact Hf|]. intros [fd ev rv] Hw.
      unfold well_typed in *. cbn [ks_fields ks_vals PollFd_kstruct pfd_fd events revents] in *.
      repeat match goal with H : Forall2 _ (_ :: _) (_ :: _) |- _ => apply Forall2_cons in H as [? H] end.
      repeat apply Forall2_cons_2; try done. split; [simpl; lia|by vm_compute].
    + cbn. pose proof (Z.mod_pos_bound (Z.of_nat (length fds)) 1024). lia.
  - split_and!; [done|done|]. unfold res_ok, errno_in_range. simpl. lia.
Qed.

Lemma answers_demo res outs :
  res_ok res -> answers (mkReply (match res with Ok z => z | Err e => - code e end) outs) res.
Proof. unfold res_ok, answers. destruct res as [z|e]; [|done]. intros. apply (wrap_small 64). simpl. lia. Qed.

Lemma events_kernel_ok (H : Target) : WaitEvents (events_kernel H).
Proof.
  refine {| polled (s : kst (events_kernel H)) fds d := (demo_polled fds d, s);
            epolled (s : kst (events_kernel H)) epfd room d := (Ok (take room demo_events), s) |}.
  - intros s fds d Hf. pose proof (demo_polled_ok fds d Hf) as Hok.
    by destruct (demo_polled fds d) as [fds' res].
  - intros fds ms s Ha Hf Hms. pose proof (demo_polled_ok fds (timeout_ns ms) Hf) as Hok.
    destruct (demo_polled fds (timeout_ns ms)) as [fds' res] eqn:Ed. destruct Hok as (_ & _ & Hres).
    eexists. split; [|split; [apply (answers_demo res [encode_all fds']), Hres|reflexivity]].
    cbn [kstep events_kernel]. unfold events_step, int, len. rewrite Ha. cbv iota. nr_case. cbv iota.
    rewrite as_i32_as_usize, Nat2Z.id, decode_encode_all, Ed by done. reflexivity.
  - intros fds ts s Hf Hts.
    assert (demo_polled fds (match ts with Some _ => Some 0 | None => None end) =
      demo_polled fds (option_map timespec_ns ts)) as Et by (by destruct ts).
    pose proof (demo_polled_ok fds (option_map timespec_ns ts) Hf) as Hok.
    destruct (demo_polled fds (option_map timespec_ns ts)) as [fds' res] eqn:Ed.
    destruct Hok as (_ & _ & Hres).
    eexists. split; [|split; [apply (answers_demo res [encode_all fds']), Hres|reflexivity]].
    cbn [kstep events_kernel]. unfold events_step, int, len, null. nr_case. cbv iota.
    rewrite Nat2Z.id, decode_encode_all by done. destruct ts; rewrite Et; reflexivity.
  - intros s epfd room d. cbn [fst]. split_and!.
    + rewrite length_take. lia.
    + rewrite length_take. simpl. lia.
    + apply Forall_take. repeat constructor; vm_compute; intuition congruence.
  - intros epfd buf room ms s He Hms Hl. cbv zeta.
    exists (mkReply (Z.of_nat (length (take room demo_events))) [encode_all (take room demo_events)]).
    split; [|split; [|reflexivity]].
    + cbn [kstep events_kernel]. unfold events_step. destruct arch eqn:Ha; cbv iota; nr_case; cbv iota;
        rewrite Nat2Z.id; reflexivity.
    + cbn. apply (wrap_small 64). simpl r_ret. rewrite length_take. simpl. lia.
Defined.

Lemma waiting_portable_witness :
  (forall fds, Forall well_typed fds ->
     exists t, run (events_kernel Aarch64) (poll (H := Aarch64) fds 1500) tt =
       (Done (demo_polled fds (Some 1500000000)), t, tt)) /\
  exists t, run (events_kernel X86_64) (epoll_wait (H := X86_64) 5 (replicate 3 (mkEpollEvent 0 0)) (-1)) tt =
    (Done (demo_events ++ [mkEpollEvent 0 0], Ok 2), t, tt).
Proof.
  split.
  - intros fds Hf.
    destruct (@waiting_portable Aarch64 _ (events_kernel_ok Aarch64) 1500 tt) as [Hp _]; [by vm_compute|].
    specialize (Hp fds Hf). cbn [polled events_kernel_ok] in Hp.
    change (timeout_ns 1500) with (Some 1500000000) in Hp.
    destruct (demo_polled fds (Some 1500000000)) as [fds' res]. exact Hp.
  - destruct (@waiting_portable X86_64 _ (events_kernel_ok X86_64) (-1) tt) as [_ He]; [by vm_compute|].
    specialize (He 5 (replicate 3 (mkEpollEvent 0 0)) ltac:(by vm_compute)).
    apply He. repeat constructor; vm_compute; intuition congruence.
Defined.
