(* ===== verification/PipeSpec.v ===== *)
(** A pipe between two processes: [write_all] and [close] at one end, [read_all] at
    the other, under every interleaving of their system calls. *)

From stdpp Require Import base list option numbers strings.
From Stdlib Require Import ZArith Lia.
From S2P Require Import Prelude Prog Layout Asm Arch Fd FdSpec.

(** ** The pipe

    The bytes in it, whether its write end is open, and how many more calls
    signals interrupt. *)
Record Pipe := mkPipe { queue : list Z; wopen : bool; budget : nat }.

(** [pipe(7)]: a write blocks while the pipe is full, and moves at least a byte; a
    read blocks while it is empty and its write end open, moves at least a byte
    while it is not, and answers 0 at the end. *)
Inductive writes `{Target} (cap : nat) (w : Z) {A} : Prog A -> Pipe -> Prog A -> Pipe -> Prop :=
| w_write c buf k n p :
    c = write_call w buf -> (0 < n <= length buf)%nat -> (length (queue p) + n <= cap)%nat ->
    writes cap w (Sys c k) p (k (conform c (mkReply (Z.of_nat n) [])))
      (mkPipe (queue p ++ take n buf) (wopen p) (budget p))
| w_interrupt c buf k q o b :
    c = write_call w buf ->
    writes cap w (Sys c k) (mkPipe q o (S b)) (k (conform c (mkReply (- code EINTR) []))) (mkPipe q o b)
| w_close c k q b :
    c = close_call w ->
    writes cap w (Sys c k) (mkPipe q true b) (k (conform c (mkReply 0 []))) (mkPipe q false b).

Inductive reads `{Target} (r : Z) {B} : Prog B -> Pipe -> Prog B -> Pipe -> Prop :=
| r_read c buf k n p :
    c = read_call r buf -> (0 < n <= length buf)%nat -> (n <= length (queue p))%nat ->
    reads r (Sys c k) p (k (conform c (mkReply (Z.of_nat n) [take n (queue p)])))
      (mkPipe (drop n (queue p)) (wopen p) (budget p))
| r_end c buf k b :
    c = read_call r buf ->
    reads r (Sys c k) (mkPipe [] false b) (k (conform c (mkReply 0 []))) (mkPipe [] false b)
| r_interrupt c buf k q o b :
    c = read_call r buf ->
    reads r (Sys c k) (mkPipe q o (S b)) (k (conform c (mkReply (- code EINTR) []))) (mkPipe q o b).

(** The writer, the reader and the pipe; each step is a call of one of them. *)
Definition Ends (A B : Type) : Type := Prog A * Prog B * Pipe.

Inductive pipe_step `{Target} (cap : nat) (w r : Z) {A B} : Ends A B -> Ends A B -> Prop :=
| writer_steps x y p x' p' :
    writes cap w x p x' p' -> pipe_step cap w r (x, y, p) (x', y, p')
| reader_steps x y p y' p' :
    reads r y p y' p' -> pipe_step cap w r (x, y, p) (x, y', p').

(** Send all of [data] and close the write end. *)
Definition send `{Target} (fuel : nat) (w : Z) (data : list Z) : Prog (result unit) :=
  let? _ := write_all fuel w data in
  close w.

(** ** One turn of each loop *)

Section Turns.
Context `{Target}.

Lemma from_ret_eintr : from_ret (as_u64 (- code EINTR)) = Err EINTR.
Proof. reflexivity. Qed.

Lemma send_turn fuel w data :
  data <> [] -> Z.of_nat (length data) < 2 ^ 63 ->
  exists k, send (S fuel) w data = Sys (write_call w data) k /\
    (forall n, (0 < n <= length data)%nat ->
       k (conform (write_call w data) (mkReply (Z.of_nat n) [])) = send fuel w (drop n data)) /\
    k (conform (write_call w data) (mkReply (- code EINTR) [])) = send fuel w data.
Proof.
  intros Hne Hlen. destruct data as [|b data']; [done|]. remember (b :: data') as data eqn:Ed.
  unfold send. replace (write_all (S fuel) w data) with
    (let* r := write w data in
     match r with
     | Ok n => if n =? 0 then Ret (Err EIO) else let* rest := or_panic (slice_from n data) in write_all fuel w rest
     | Err e => if decide (e = EINTR) then write_all fuel w data else Ret (Err e)
     end) by (by subst).
  unfold write. rewrite syscall3_eq. eexists. split; [reflexivity|]. split.
  - intros n Hn. cbv beta.
    change (r_ret (conform (write_call w data) (mkReply (Z.of_nat n) []))) with (as_u64 (Z.of_nat n)).
    cbn [r_ret]. rewrite from_ret_nat by lia. cbn [bind bind_ok].
    destruct (Z.eqb_spec (Z.of_nat n) 0); [lia|]. unfold slice_from.
    destruct (Z.leb_spec (Z.of_nat n) (Z.of_nat (length data))); [|lia].
    cbn [or_panic bind]. by rewrite Nat2Z.id.
  - cbv beta.
    change (r_ret (conform (write_call w data) (mkReply (- code EINTR) []))) with (as_u64 (- code EINTR)).
    cbn [r_ret]. by rewrite from_ret_eintr.
Qed.

Lemma send_end fuel w :
  exists k, send fuel w [] = Sys (close_call w) k /\
    k (conform (close_call w) (mkReply 0 [])) = Ret (Ok tt).
Proof.
  unfold send. replace (write_all fuel w []) with (Ret (Ok tt) : Prog (result unit)) by (by destruct fuel).
  unfold close. cbn [bind bind_ok]. rewrite syscall1_eq. eexists. split; reflexivity.
Qed.

(** The reader with the bytes [got] at the front of its buffer. *)
Definition receive (fuel : nat) (r : Z) (buf got : list Z) : Prog (list Z * result Z) :=
  read_all_from fuel r (got ++ drop (length got) buf) (Z.of_nat (length got)).

Lemma receive_turn fuel r buf got :
  (length got < length buf)%nat -> Z.of_nat (length buf) < 2 ^ 63 ->
  let c := read_call r (drop (length got) buf) in
  exists k, receive (S fuel) r buf got = Sys c k /\
    (forall new, bytes_ok new -> (0 < length new)%nat -> (length got + length new <= length buf)%nat ->
       k (conform c (mkReply (Z.of_nat (length new)) [new])) = receive fuel r buf (got ++ new)) /\
    k (conform c (mkReply 0 [])) =
      Ret (got ++ drop (length got) buf, Ok (Z.of_nat (length got))) /\
    k (conform c (mkReply (- code EINTR) [])) = receive fuel r buf got.
Proof.
  intros Hlt Hlen c. unfold receive at 1. cbn [read_all_from].
  assert (length (got ++ drop (length got) buf) = length buf) as Hl
    by (rewrite length_app, length_drop; lia).
  rewrite Hl. destruct (Z.ltb_spec (Z.of_nat (length got)) (Z.of_nat (length buf))); [|lia].
  unfold slice_from. rewrite Hl.
  destruct (Z.leb_spec (Z.of_nat (length got)) (Z.of_nat (length buf))); [|lia].
  cbn [or_panic bind]. rewrite Nat2Z.id, drop_app_length, take_app_length.
  unfold read. rewrite syscall3_eq. eexists. split; [reflexivity|].
  cbv beta. split_and!.
  - intros new Hb Hpos Hfit.
    set (rep := conform c (mkReply (Z.of_nat (length new)) [new])).
    assert (out 0 rep = new ++ drop (length (got ++ new)) buf) as Hout.
    { change (out 0 rep) with (overwrite (drop (length got) buf) new).
      rewrite overwrite_prefix by (rewrite length_drop; lia).
      by rewrite map_as_u8, drop_drop, length_app by done. }
    change (r_ret rep) with (as_u64 (Z.of_nat (length new))). cbn [r_ret].
    change (out 0 (mkReply _ (r_outs rep))) with (out 0 rep).
    rewrite Hout, from_ret_nat by lia. cbv beta iota.
    destruct (Z.eqb_spec (Z.of_nat (length new)) 0); [lia|]. unfold usize_add.
    destruct (Z.ltb_spec (Z.of_nat (length got) + Z.of_nat (length new)) (2 ^ 64)); [|lia].
    cbn [bind]. unfold receive. rewrite <- app_assoc. f_equal. rewrite length_app. lia.
  - reflexivity.
  - reflexivity.
Qed.
End Turns.

Lemma receive_full `{Target} fuel r buf got :
  (length buf <= length got)%nat ->
  receive fuel r buf got = Ret (got ++ drop (length got) buf, Ok (Z.of_nat (length got))).
Proof.
  intros Hfull. unfold receive.
  assert ((Z.of_nat (length got) <? Z.of_nat (length (got ++ drop (length got) buf))) = false) as E
    by (apply Z.ltb_ge; rewrite length_app, length_drop; lia).
  destruct fuel; cbn [read_all_from]; by rewrite E.
Qed.

(** ** Every byte arrives *)

Section Transfer.
Context `{Target} (cap : nat) (w r : Z) (data buf : list Z).
Context (Hcap : (0 < cap)%nat) (Hdata : bytes_ok data).
Context (Hfit : (length data <= length buf)%nat) (Hlen : Z.of_nat (length buf) < 2 ^ 63).

(** The writer with [rest] still to write, and the reader with [got] in its buffer. *)
Inductive sending (rest : list Z) (b : nat) : Prog (result unit) -> bool -> Prop :=
| sending_on fuel : (length rest + b <= fuel)%nat -> sending rest b (send fuel w rest) true
| sending_over : rest = [] -> sending rest b (Ret (Ok tt)) false.

Inductive receiving (got : list Z) (b : nat) : Prog (list Z * result Z) -> bool -> Prop :=
| receiving_on fuel :
    (length buf - length got + b <= fuel)%nat -> receiving got b (receive fuel r buf got) true
| receiving_over :
    got = data ->
    receiving got b (Ret (got ++ drop (length got) buf, Ok (Z.of_nat (length got)))) false.

(** What is left to do at the writer's end, with the bytes it put in the pipe. *)
Definition left_to_send (rest : list Z) (p : Pipe) : nat :=
  2 * length rest + length (queue p) + budget p + Nat.b2n (wopen p).

Lemma nrz_close : nrz CLOSE <> nrz READ /\ nrz CLOSE <> nrz WRITE.
Proof. unfold nrz, nr_table. destruct arch; vm_compute; split; congruence. Qed.

Lemma sending_writes rest x p x' p' :
  (length rest <= length buf)%nat ->
  sending rest (budget p) x (wopen p) -> writes cap w x p x' p' ->
  exists rest', sending rest' (budget p') x' (wopen p') /\
    queue p' ++ rest' = queue p ++ rest /\ (budget p' <= budget p)%nat /\
    (left_to_send rest' p' < left_to_send rest p)%nat.
Proof.
  intros Hr Hs Hw. destruct nrz_close as [N1 N2]. destruct p as [q o b]. cbn [queue wopen budget] in Hs.
  inversion Hs as [fuel Hf Ex Eo|Er Ex Eo]; subst; [|by inversion Hw].
  destruct (decide (rest = [])) as [->|Hne].
  - destruct (send_end fuel w) as (k & Ek & Hk). rewrite Ek in Hw.
    inversion Hw; subst; try (unfold close_call, write_call in *; congruence).
    exists []. rewrite Hk. cbn. split_and!; [by constructor|done|done|unfold left_to_send; cbn; lia].
  - destruct fuel as [|fuel]; [destruct rest; [done|simpl in *; lia]|].
    destruct (send_turn fuel w rest Hne ltac:(lia)) as (k & Ek & Hk & Hi). rewrite Ek in Hw.
    inversion Hw as [c data' k' n p0 Ec Hn Hroom|c data' k' q' o' b' Ec|c k' q' b' Ec]; subst;
      unfold close_call, write_call in Ec; try congruence; injection Ec as <- _; cbn [queue wopen budget] in *.
    + exists (drop n rest). rewrite Hk by done. split_and!; [| |done|].
      * constructor. rewrite length_drop. lia.
      * by rewrite <- app_assoc, take_drop.
      * unfold left_to_send. cbn. rewrite length_app, length_take, length_drop. lia.
    + exists rest. rewrite Hi. split_and!; [constructor; lia|done|lia|unfold left_to_send; cbn; lia].
Qed.

Lemma receiving_reads got rest y a p y' p' :
  data = got ++ queue p ++ rest -> (wopen p = false -> rest = []) ->
  receiving got (budget p) y a -> reads r y p y' p' ->
  exists got' a', receiving got' (budget p') y' a' /\ got' ++ queue p' = got ++ queue p /\
    (budget p' <= budget p)%nat /\ wopen p' = wopen p /\
    (length (queue p') + budget p' + Nat.b2n a' < length (queue p) + budget p + Nat.b2n a)%nat.
Proof.
  intros Hd Hcl Hs Hr. destruct p as [q o b]. cbn [queue wopen budget] in *.
  inversion Hs as [fuel Hf Ey Ea|Eg Ey Ea]; subst y a; [|by inversion Hr].
  destruct (decide (length buf <= length got)%nat) as [Hfull|Hroom].
  { rewrite receive_full in Hr by done. by inversion Hr. }
  destruct fuel as [|fuel]; [lia|].
  destruct (receive_turn fuel r buf got ltac:(lia) Hlen) as (k & Ek & Hk & He & Hi).
  rewrite Ek in Hr. inversion Hr as [c buf' k' n p0 Ec Hn Hq|c buf' k' b' Ec|c buf' k' q' o' b' Ec];
    subst; unfold read_call in Ec; injection Ec as <- _; cbn [queue wopen budget] in *.
  - assert (Forall (fun b => is_byte b) (take n q)) as Hb.
    { apply Forall_take. unfold bytes_ok in Hdata. rewrite Hd in Hdata.
      by apply Forall_app in Hdata as [_ [Hq' _]%Forall_app]. }
    assert (length (take n q) = n) as Hl by (rewrite length_take; lia).
    rewrite length_drop in Hn. exists (got ++ take n q), true.
    pose proof (Hk (take n q) Hb ltac:(lia) ltac:(lia)) as E. rewrite Hl in E. rewrite E.
    split_and!; [|by rewrite <- app_assoc, take_drop|done|done|rewrite length_drop; simpl; lia].
    constructor. rewrite length_app. lia.
  - exists got, false. rewrite He. rewrite (Hcl eq_refl), app_nil_r in Hd.
    split_and!; [by constructor|done|done|done|simpl; lia].
  - exists got, true. rewrite Hi. split_and!; [constructor; lia|done|lia|done|lia].
Qed.

(** The bytes are in the buffer, the pipe or the writer's hands, in this order. *)
Definition moving (m : nat) (s : Ends (result unit) (list Z * result Z)) : Prop :=
  let '(x, y, p) := s in
  exists got rest a, sending rest (budget p) x (wopen p) /\ receiving got (budget p) y a /\
    data = got ++ queue p ++ rest /\ m = (left_to_send rest p + Nat.b2n a)%nat.

Definition transferred (s : Ends (result unit) (list Z * result Z)) : Prop :=
  exists b, s = (Ret (Ok tt), Ret (data ++ drop (length data) buf, Ok (Z.of_nat (length data))),
                 mkPipe [] false b).

Lemma moving_step m s s' :
  moving m s -> pipe_step cap w r s s' -> exists m', (m' < m)%nat /\ moving m' s'.
Proof.
  intros Hm Hs. destruct Hs as [x y p x' p' Hw|x y p y' p' Hr];
    destruct Hm as (got & rest & a & Hsend & Hrecv & Hd & ->).
  - destruct (sending_writes rest x p x' p') as (rest' & Hs' & Hq & Hb & Hlt); try done.
    { apply (f_equal length) in Hd. rewrite !length_app in Hd. lia. }
    exists (left_to_send rest' p' + Nat.b2n a)%nat. split; [lia|].
    exists got, rest', a. split_and!; [done| |by rewrite Hq|done].
    destruct Hrecv; constructor; [lia|done].
  - destruct (receiving_reads got rest y a p y' p') as (got' & a' & Hr' & Hq & Hb & Ho & Hlt); try done.
    { intros Hc. rewrite Hc in Hsend. by inversion Hsend. }
    exists (left_to_send rest p' + Nat.b2n a')%nat.
    split; [unfold left_to_send; rewrite Ho; lia|].
    exists got', rest, a'. rewrite Ho. split_and!; [|done| |done].
    + destruct Hsend; constructor; [lia|done].
    + by rewrite app_assoc, Hq, <- app_assoc.
Qed.

Lemma moving_progress m s : moving m s -> transferred s \/ exists s', pipe_step cap w r s s'.
Proof.
  destruct s as [[x y] [q o b]]. intros (got & rest & a & Hsend & Hrecv & Hd & _). cbn [queue wopen budget] in *.
  assert (length data = length got + length q + length rest)%nat as Hl
    by (rewrite Hd, !length_app; lia).
  assert (q <> [] -> exists s', pipe_step cap w r (x, y, mkPipe q o b) s') as Hread.
  { intros Hq. assert (0 < length q)%nat by (destruct q; [done|simpl; lia]).
    destruct Hrecv as [fuel Hf|Eg]; [|subst got; lia].
    destruct fuel as [|fuel]; [lia|].
    destruct (receive_turn fuel r buf got ltac:(lia) Hlen) as (k & -> & _).
    eexists. apply reader_steps. apply (r_read r _ (drop (length got) buf) k 1); [reflexivity| |simpl; lia].
    rewrite length_drop. lia. }
  destruct Hsend as [fuel Hf|Er].
  - destruct (decide (rest = [])) as [->|Hne].
    + destruct (send_end fuel w) as (k & -> & _). right. eexists. apply writer_steps. by apply w_close.
    + assert (0 < length rest)%nat by (destruct rest; [done|simpl; lia]).
      destruct (decide (q = [])) as [->|Hq]; [|by right; apply Hread].
      destruct fuel as [|fuel]; [lia|].
      destruct (send_turn fuel w rest Hne ltac:(lia)) as (k & -> & _).
      right. eexists. apply writer_steps. apply (w_write cap w _ rest k 1); [reflexivity|lia|simpl; lia].
  - destruct (decide (q = [])) as [->|Hq]; [|by right; apply Hread].
    subst rest. simpl in Hd. rewrite app_nil_r in Hd. subst got.
    destruct Hrecv as [fuel Hf|_]; [|left; by exists b].
    destruct (decide (length buf <= length data)%nat) as [Hfull|Hroom].
    + left. exists b. by rewrite receive_full.
    + destruct fuel as [|fuel]; [lia|].
      destruct (receive_turn fuel r buf data ltac:(lia) Hlen) as (k & -> & _).
      right. eexists. apply reader_steps. by eapply r_end.
Qed.
End Transfer.

(** [C17] Data crosses a pipe whole: one process writes it with [write_all] and closes
    its end, another calls [read_all] with a buffer that can hold it.  Whatever the
    capacity of the pipe, however the kernel splits their calls and schedules the
    two, and with any bounded number of interruptions, every execution ends, with
    the writer's success, the data at the front of the reader's buffer, the rest of
    which is untouched, and its length as the answer. *)
Theorem pipe_transfers `{Target} (cap : nat) (w r : Z) (data buf : list Z) (signals fw fr : nat) :
  (0 < cap)%nat -> bytes_ok data ->
  (length data <= length buf)%nat -> Z.of_nat (length buf) < 2 ^ 63 ->
  (length data + signals <= fw)%nat -> (length buf + signals <= fr)%nat ->
  eventually (pipe_step cap w r) (transferred data buf)
    (send fw w data, read_all fr r buf, mkPipe [] true signals).
Proof.
  intros Hcap Hdata Hfit Hlen Hfw Hfr.
  assert (exists m, moving w r data buf m (send fw w data, read_all fr r buf, mkPipe [] true signals))
    as [m Hm].
  { eexists. exists [], data, true. split_and!; [by constructor| |done|reflexivity].
    apply (receiving_on r data buf [] signals fr). simpl. lia. }
  revert Hm. generalize (send fw w data, read_all fr r buf, mkPipe [] true signals).
  induction (lt_wf m) as [m _ IH]. intros s Hm.
  destruct (moving_progress cap w r data buf Hcap Hfit Hlen m s Hm) as [Hd|Hs]; [by apply ev_now|].
  apply ev_later; [done|]. intros s' Hs'.
  destruct (moving_step cap w r data buf Hcap Hdata Hfit Hlen m s s' Hm Hs') as (m' & Hlt & Hm'); eauto.
Qed.

Lemma pipe_transfers_witness :
  bytes_ok (str "hello") /\
  eventually (pipe_step (H := X86_64) 2 4 3)
    (transferred (str "hello") (replicate 8 0))
    (send (H := X86_64) 8 4 (str "hello"), read_all (H := X86_64) 11 3 (replicate 8 0), mkPipe [] true 3).
Proof.
  assert (bytes_ok (str "hello")) as Hb by (repeat constructor; vm_compute; intuition congruence).
  split; [exact Hb|].
  apply (@pipe_transfers X86_64 2 4 3 (str "hello") (replicate 8 0) 3 8 11); [lia|exact Hb|..];
    vm_compute; (lia || done).
Defined.
