(* ===== verification/ProcWorld.v ===== *)
(** A world of processes: a parent, the children it spawns, their descriptor
    tables with close-on-exec marks and pipes, and the suspension of the parent
    between [clone(CLONE_VFORK)] and the child's [execve] or exit. *)

From stdpp Require Import base list option numbers gmap fin_maps.
From Stdlib Require Import ZArith Lia.
From S2P Require Import Prelude Prog Layout Asm Arch Trampoline Fd Wait Process SpawnSpec FdSpec.

(** ** The world *)

(** The file behind each open descriptor, and the descriptors marked
    close-on-exec. *)
Record Table := mkTable { files : gmap Z Z; cloexec : gset Z }.

(** What a program is started with. *)
Definition inherited (t : Table) : gmap Z Z := filter (fun '(fd, _) => fd ∉ cloexec t) (files t).

(** In [PVfork] the parent has called [clone] and is suspended, while the child,
    with this pid and a table of its own, runs the parent's program. *)
Inductive Parent (A : Type) :=
| PRun (p : Prog A)
| PVfork (c : Call) (k : Reply -> Prog A) (pid : Z) (child : Prog A) (ct : Table).
Arguments PRun {_} _.
Arguments PVfork {_} _ _ _ _ _.

(** A child on its own runs a program with the descriptors it was started with,
    then has ended; once it is waited for it is gone. *)
Inductive Child :=
| CImage (args : list Arg) (t : gmap Z Z)
| CEnded (e : ChildEvent).

(** [hist] lists the programs started, with the descriptors each got; [pipes] the
    pipes created, each the files of its two ends. *)
Record World (A : Type) := mkWorld {
  parent : Parent A; ptable : Table; kids : gmap Z Child;
  hist : list (list Arg * gmap Z Z); pipes : list (Z * Z) }.
Arguments mkWorld {_} _ _ _ _ _.
Arguments parent {_} _.
Arguments ptable {_} _.
Arguments kids {_} _.
Arguments hist {_} _.
Arguments pipes {_} _.

(** ** The calls *)

(** [clone(2)]: a child in the parent's memory, the parent suspended, each with a
    descriptor table of its own. *)
Definition is_vfork (flags : Z) : bool :=
  Z.testbit flags 14 && Z.testbit flags 8 && negb (Z.testbit flags 10).

(** The calls that copy a descriptor; the copy is not marked. *)
Definition is_dup `{Target} (c : Call) : bool :=
  match c with Syscall n _ => (n =? nrz DUP2) || (n =? nrz DUP3) | CallFn _ _ => false end.
Definition dup_target (c : Call) : Z :=
  match c with Syscall _ (_ :: AInt new :: _) => as_i32 new | _ => -1 end.
Definition after_dup (c : Call) (t : Table) (files' : gmap Z Z) : Table :=
  mkTable files' (cloexec t ∖ {[dup_target c]}).

(** [pipe2(2)] at descriptors [r] and [w], below the limit, with new files behind them. *)
Definition pipe_call `{Target} (buf : list Z) (flags : Z) : Call :=
  Syscall (nrz PIPE2) [AMut buf; AInt flags].
Definition with_pipe (t : Table) (flags r w rid wid : Z) : Table :=
  mkTable (<[w := wid]> (<[r := rid]> (files t)))
    (if Z.testbit flags 19 then {[r; w]} ∪ cloexec t else cloexec t).
Definition unused (limit : Z) (t : Table) (fd : Z) : Prop :=
  files t !! fd = None /\ 0 <= fd < 2 ^ 31 /\ fd < limit.
Definition new_file (t : Table) (id : Z) : Prop := forall fd, files t !! fd <> Some id.
Definition new_pipe (limit : Z) (t : Table) (r w rid wid : Z) : Prop :=
  r <> w /\ unused limit t r /\ unused limit t w /\ rid <> wid /\ new_file t rid /\ new_file t wid.

Definition without (t : Table) (fd : Z) : Table :=
  mkTable (delete fd (files t)) (cloexec t ∖ {[fd]}).

Section World.
Context `{H : Target}.
(** The limit on descriptors ([RLIMIT_NOFILE]). *)
Context (limit : Z).
(** For an [execve] with these arguments, whether it fails or how the program can
    end when started with given descriptors. *)
Context (programs : list Arg -> result (gmap Z Z -> ChildEvent -> Prop)).

(** What the parent and a child in its memory do. *)
Inductive main_step {A} : World A -> World A -> Prop :=
| m_dup c k t ks h ps r fs :
    is_dup c = true -> table_step H limit c (files t) = (Some r, fs) ->
    main_step (mkWorld (PRun (Sys c k)) t ks h ps)
      (mkWorld (PRun (k (conform c r))) (after_dup c t fs) ks h ps)
| m_pipe c k t ks h ps buf flags r w rid wid :
    c = pipe_call buf flags -> new_pipe limit t r w rid wid ->
    main_step (mkWorld (PRun (Sys c k)) t ks h ps)
      (mkWorld (PRun (k (conform c (mkReply 0 [le_enc 4 r ++ le_enc 4 w]))))
         (with_pipe t flags r w rid wid) ks h (ps ++ [(rid, wid)]))
| m_close c k t ks h ps fd :
    c = close_call fd -> is_i32 fd -> is_Some (files t !! fd) ->
    main_step (mkWorld (PRun (Sys c k)) t ks h ps)
      (mkWorld (PRun (k (conform c (mkReply 0 [])))) (without t fd) ks h ps)
| m_close_fails c k t ks h ps fd :
    c = close_call fd -> is_i32 fd -> files t !! fd = None ->
    main_step (mkWorld (PRun (Sys c k)) t ks h ps)
      (mkWorld (PRun (k (conform c (mkReply (- code EBADF) [])))) t ks h ps)
| m_vfork c k t ks h ps flags rest pid :
    c = Syscall (nrz CLONE) (AInt flags :: rest) -> is_vfork flags = true ->
    0 < pid < 2 ^ 31 -> ks !! pid = None ->
    main_step (mkWorld (PRun (Sys c k)) t ks h ps)
      (mkWorld (PVfork c k pid (k (conform c (mkReply 0 []))) t) t ks h ps)
| m_child_dup d q pid c k ct t ks h ps r fs :
    is_dup c = true -> table_step H limit c (files ct) = (Some r, fs) ->
    main_step (mkWorld (PVfork d q pid (Sys c k) ct) t ks h ps)
      (mkWorld (PVfork d q pid (k (conform c r)) (after_dup c ct fs)) t ks h ps)
| m_exec d q pid c k ct t ks h ps args ends :
    c = Syscall (nrz EXECVE) args -> programs args = Ok ends ->
    main_step (mkWorld (PVfork d q pid (Sys c k) ct) t ks h ps)
      (mkWorld (PRun (q (conform d (mkReply pid [])))) t (<[pid := CImage args (inherited ct)]> ks)
         (h ++ [(args, inherited ct)]) ps)
| m_exec_fails d q pid c k ct t ks h ps args e :
    c = Syscall (nrz EXECVE) args -> programs args = Err e ->
    main_step (mkWorld (PVfork d q pid (Sys c k) ct) t ks h ps)
      (mkWorld (PVfork d q pid (k (conform c (mkReply (- code e) []))) ct) t ks h ps)
| m_exit d q pid c k ct t ks h ps status rest :
    c = Syscall (nrz EXIT_GROUP) (AInt status :: rest) ->
    main_step (mkWorld (PVfork d q pid (Sys c k) ct) t ks h ps)
      (mkWorld (PRun (q (conform d (mkReply pid [])))) t
         (<[pid := CEnded (Exited (Z.land status 0xff))]> ks) h ps)
| m_wait c k t ks h ps p b rest e :
    c = Syscall (nrz WAIT4) (AInt p :: AMut b :: AInt 0 :: rest) ->
    ks !! as_i32 p = Some (CEnded e) ->
    main_step (mkWorld (PRun (Sys c k)) t ks h ps)
      (mkWorld (PRun (k (conform c (mkReply (as_i32 p) [le_enc 4 (status_word e)])))) t
         (delete (as_i32 p) ks) h ps).

(** A program that a child runs can end at any time. *)
Inductive kid_step {A} : World A -> World A -> Prop :=
| k_ends p t ks h ps pid args it ends e :
    ks !! pid = Some (CImage args it) -> programs args = Ok ends -> ends it e ->
    kid_step (mkWorld p t ks h ps) (mkWorld p t (<[pid := CEnded e]> ks) h ps).

Definition wstep {A} (w v : World A) : Prop := main_step w v \/ kid_step w v.

(** ** Programs that are the same tree have the same executions *)

Definition parent_eq {A} (p q : Parent A) : Prop :=
  match p, q with
  | PRun p, PRun q => peq p q
  | PVfork c k pid x ct, PVfork d l pid' y ct' =>
      c = d /\ pid = pid' /\ ct = ct' /\ peq x y /\ forall r, peq (k (conform c r)) (l (conform c r))
  | _, _ => False
  end.
Definition world_eq {A} (w v : World A) : Prop :=
  parent_eq (parent w) (parent v) /\ ptable w = ptable v /\ kids w = kids v /\
  hist w = hist v /\ pipes w = pipes v.

Lemma peq_sym {A} (p q : Prog A) : peq p q -> peq q p.
Proof. intros E. apply peq_of_equiv. symmetry. by apply equiv_of_peq. Qed.

Lemma world_eq_sym {A} (w v : World A) : world_eq w v -> world_eq v w.
Proof.
  intros (Hp & Ht & Hc & Hct & Hh). split_and!; try done.
  destruct (parent w), (parent v); simpl in *; try done; [by apply peq_sym|].
  destruct Hp as (-> & -> & -> & Hx & Hp). split_and!; auto using peq_sym.
Qed.

(** What equality says of each shape. *)
Lemma parent_run_inv {A} c (k : Reply -> Prog A) p :
  parent_eq (PRun (Sys c k)) p ->
  exists l, p = PRun (Sys c l) /\ forall r, peq (k (conform c r)) (l (conform c r)).
Proof. destruct p as [[b|d l| |]|]; simpl; try done. intros [<- Hk]. by exists l. Qed.
Lemma parent_vfork_inv {A} c (k : Reply -> Prog A) pid d l ct p :
  parent_eq (PVfork c k pid (Sys d l) ct) p ->
  exists k' l', p = PVfork c k' pid (Sys d l') ct /\
    (forall r, peq (k (conform c r)) (k' (conform c r))) /\
    (forall r, peq (l (conform d r)) (l' (conform d r))).
Proof.
  destruct p as [|c' k' pid' [b|d' l'| |] ct']; simpl; try done; try (by intros (_ & _ & _ & [] & _)).
  intros (<- & <- & <- & [<- Hl] & Hk). by exists k', l'.
Qed.

Lemma main_step_eq {A} (w w' v : World A) :
  main_step w w' -> world_eq w v -> exists v', main_step v v' /\ world_eq w' v'.
Proof.
  intros Hs (Hp & Ht & Hc & Hh & Hps). destruct v as [vp vt vc vh vps].
  inversion Hs; subst; cbn [parent ptable kids hist pipes] in *; subst;
    try (apply parent_run_inv in Hp as (l & -> & Hl));
    try (apply parent_vfork_inv in Hp as (l & l' & -> & Hl & Hl'));
    (eexists; split; [by econstructor|]); split_and!; cbn; auto.
Qed.

Lemma wstep_eq {A} (w w' v : World A) :
  wstep w w' -> world_eq w v -> exists v', wstep v v' /\ world_eq w' v'.
Proof.
  intros [Hs|Hs] Hv.
  - destruct (main_step_eq _ _ _ Hs Hv) as (v' & ? & ?). exists v'. split; [by left|done].
  - destruct Hv as (Hp & Ht & Hc & Hh & Hps). destruct v as [vp vt vc vh vps].
    inversion Hs; subst; cbn [parent ptable kids hist pipes] in *; subst.
    eexists. split; [right; by econstructor|done].
Qed.

Definition respects_eq {A} (P : World A -> Prop) : Prop :=
  forall w v, world_eq w v -> P w -> P v.

Lemma eventually_eq {A} (P : World A -> Prop) (w v : World A) :
  respects_eq P -> eventually wstep P w -> world_eq w v -> eventually wstep P v.
Proof.
  intros HP He. revert v. induction He as [w Hw|w [w1 H1] _ IH]; intros v Hv.
  - apply ev_now. by eapply HP.
  - apply ev_later.
    + destruct (wstep_eq _ _ _ H1 Hv) as (v1 & Hv1 & _). by exists v1.
    + intros v' Hv'. destruct (wstep_eq _ _ _ Hv' (world_eq_sym _ _ Hv)) as (w' & Hw' & E).
      eapply IH; [exact Hw'|]. by apply world_eq_sym.
Qed.

Lemma eventually_mono {W} (R : W -> W -> Prop) (P Q : W -> Prop) w :
  (forall w, P w -> Q w) -> eventually R P w -> eventually R Q w.
Proof.
  intros HPQ He. induction He as [w Hw|w Hex _ IH]; [apply ev_now; by apply HPQ|by apply ev_later].
Qed.

Lemma eventually_equiv {A} (P : World A -> Prop) (p q : Prog A) t ks h ps :
  respects_eq P -> prog_equiv p q ->
  eventually wstep P (mkWorld (PRun p) t ks h ps) ->
  eventually wstep P (mkWorld (PRun q) t ks h ps).
Proof. intros HP E He. eapply eventually_eq; [done|exact He|]. split_and!; [by apply peq_of_equiv|done..]. Qed.

(** ** What is known of the children

    A specification says what may have become of a child; programs that run can
    end, as it allows. *)
Definition good (Q : Child -> Prop) : Prop :=
  (forall args it, Q (CImage args it) ->
     exists ends, programs args = Ok ends /\ (exists e, ends it e) /\
       forall e, ends it e -> Q (CEnded e)) /\
  (forall e, Q (CEnded e) -> event_ok e).

Definition kids_ok (ks : gmap Z Child) (specs : gmap Z (Child -> Prop)) : Prop :=
  map_Forall2 (fun _ c Q => good Q /\ Q c) ks specs.

Definition runs (c : Child) : bool := match c with CImage _ _ => true | CEnded _ => false end.
Definition running (ks : gmap Z Child) : nat := size (filter (fun kv => runs kv.2 = true) ks).

Lemma kids_ok_none ks specs pid : kids_ok ks specs -> specs !! pid = None -> ks !! pid = None.
Proof. intros Hk Hs. specialize (Hk pid). rewrite Hs in Hk. by inversion Hk. Qed.

Lemma kids_ok_some ks specs pid Q :
  kids_ok ks specs -> specs !! pid = Some Q -> exists c, ks !! pid = Some c /\ good Q /\ Q c.
Proof. intros Hk Hs. specialize (Hk pid). rewrite Hs in Hk. inversion Hk as [c Q' HQ Ec|]; subst. by exists c. Qed.

Lemma kid_step_ok {A} (w w' : World A) specs :
  kid_step w w' -> kids_ok (kids w) specs ->
  kids_ok (kids w') specs /\ (running (kids w') < running (kids w))%nat /\
  w' = mkWorld (parent w) (ptable w) (kids w') (hist w) (pipes w).
Proof.
  intros Hs Hok. destruct Hs as [p t ks h ps pid args it ends e Hk Ep He].
  cbn [kids parent ptable hist pipes] in *.
  pose proof (Hok pid) as Hp. rewrite Hk in Hp.
  inversion Hp as [c Q [Hg HQ] Ec E|]; subst c. symmetry in E.
  split; [|split; [|done]].
  - assert (specs = <[pid := Q]> specs) as -> by (by rewrite insert_id).
    apply map_Forall2_insert_2; [|done]. split; [done|].
    destruct Hg as [Hg _]. destruct (Hg args it HQ) as (ends' & Ep' & _ & Hends).
    rewrite Ep in Ep'. injection Ep' as <-. by apply Hends.
  - unfold running. rewrite map_filter_insert_False by auto. rewrite map_filter_delete.
    assert (is_Some (filter (fun kv => runs kv.2 = true) ks !! pid)) as Hin.
    { exists (CImage args it). by apply map_lookup_filter_Some. }
    rewrite map_size_delete_Some by done.
    destruct (size (filter _ ks)) eqn:E0; [|lia].
    apply map_size_empty_inv in E0. rewrite E0 in Hin. by destruct Hin.
Qed.

(** Whatever the children do meanwhile, what the parent does next decides. *)
Lemma eventually_main {A} (P : World A -> Prop) p t h ps specs :
  (forall ks, kids_ok ks specs ->
     (exists w', wstep (mkWorld p t ks h ps) w') /\
     forall w', main_step (mkWorld p t ks h ps) w' -> eventually wstep P w') ->
  forall ks, kids_ok ks specs -> eventually wstep P (mkWorld p t ks h ps).
Proof.
  intros Hmain ks. remember (running ks) as n eqn:En. revert ks En.
  induction (lt_wf n) as [n _ IH]. intros ks -> Hok.
  destruct (Hmain ks Hok) as [Hex Hall]. apply ev_later; [done|].
  intros w' [Hs|Hs]; [by apply Hall|].
  destruct (kid_step_ok _ _ _ Hs Hok) as (Hok' & Hlt & ->). cbn [parent ptable hist pipes].
  by eapply IH.
Qed.

(** ** Which call it is *)

Lemma nr_spawn_distinct :
  let l := [EXECVE; EXIT_GROUP; CLONE; WAIT4; PIPE2; CLOSE] in
  (forall a b, In a l -> In b l -> a <> b -> nrz a <> nrz b) /\
  (forall a, In a l -> nrz a <> nrz DUP2 /\ nrz a <> nrz DUP3).
Proof.
  unfold nrz, nr_table. split.
  - intros a b Ha Hb Hab. simpl in Ha, Hb.
    destruct arch; repeat destruct Ha as [<-|Ha]; try done;
      repeat destruct Hb as [<-|Hb]; try done; by vm_compute.
  - intros a Ha. simpl in Ha. destruct arch; repeat destruct Ha as [<-|Ha]; try done; by vm_compute.
Qed.

Lemma not_dup n args :
  n = nrz EXECVE \/ n = nrz EXIT_GROUP \/ n = nrz CLONE \/ n = nrz WAIT4 \/ n = nrz PIPE2 \/
    n = nrz CLOSE ->
  is_dup (Syscall n args) = false.
Proof.
  intros Hn. unfold is_dup. destruct nr_spawn_distinct as [_ Hd].
  destruct Hn as [->|[->|[->|[->|[->| ->]]]]];
    match goal with |- context [nrz ?a =? nrz DUP2] =>
      destruct (Hd a ltac:(simpl; auto 10)) as [N2 N3];
      apply Z.eqb_neq in N2, N3; by rewrite N2, N3 end.
Qed.

Ltac nr_clash :=
  exfalso; unfold pipe_call, close_call in *;
  match goal with
  | Hd : is_dup (Syscall (nrz _) _) = true |- _ => rewrite not_dup in Hd by auto 10; discriminate Hd
  | E : Syscall (nrz ?a) _ = Syscall (nrz ?b) _ |- _ =>
      apply (f_equal (fun c => match c with Syscall n _ => n | CallFn f _ => f end)) in E;
      revert E; apply (proj1 nr_spawn_distinct a b); [simpl; auto 10|simpl; auto 10|discriminate]
  end.

(** ** Spawning *)

Definition target_dup (r : Redirect) : Call :=
  match H with X86_64 => x86_dup r | Aarch64 => a64_dup r end.

Lemma target_dup_step r t :
  well_typed r -> oldfd r <> newfd r ->
  is_dup (target_dup r) = true /\ dup_target (target_dup r) = newfd r /\
  exists rep t', table_step H limit (target_dup r) t = (Some rep, t') /\
    match dup_onto limit t r with
    | Some t1 => 0 <= as_isize (as_u64 (r_ret rep)) /\ t' = t1
    | None => as_isize (as_u64 (r_ret rep)) < 0 /\ t' = t
    end.
Proof.
  intros Hr Hne. destruct (redirect_i32 r Hr) as [_ Hn].
  unfold target_dup. destruct H eqn:EH; (split; [reflexivity|]); cbn [dup_target x86_dup a64_dup].
  - split; [by apply as_i32_low_u64|].
    apply (table_dup X86_64 _ _ (nrz (H := X86_64) DUP2) as_u64 []); auto using as_i32_low_u64.
  - split; [by apply as_i32_low_u32|].
    apply (table_dup Aarch64 _ _ (nrz (H := Aarch64) DUP3) as_u32 [AInt 0]); auto using as_i32_low_u32.
Qed.

(** The table after the redirects, each of which clears the mark of the
    descriptor it sets. *)
Fixpoint unmarked (ce : gset Z) (rs : list Redirect) : gset Z :=
  match rs with
  | [] => ce
  | r :: rs => unmarked (if oldfd r =? newfd r then ce else ce ∖ {[newfd r]}) rs
  end.
Definition redirected_table (t : Table) (rs : list Redirect) : option Table :=
  option_map (fun fs => mkTable fs (unmarked (cloexec t) rs)) (redirected limit (files t) rs).

(** What becomes of a child: it runs the program with the redirected table and
    ends as that program can, or exits 126 because a redirect cannot be done, or 127
    because [execve] failed; and the program it started. *)
Definition spawn_child (args : list Arg) (rs : list Redirect) (t : Table) (c : Child) : Prop :=
  match redirected_table t rs with
  | None => c = CEnded (Exited 126)
  | Some t' =>
      match programs args with
      | Ok ends => c = CImage args (inherited t') \/ exists e, c = CEnded e /\ ends (inherited t') e
      | Err _ => c = CEnded (Exited 127)
      end
  end.
Definition started (args : list Arg) (rs : list Redirect) (t : Table) :
    list (list Arg * gmap Z Z) :=
  match redirected_table t rs with
  | Some t' => if is_ok (programs args) then [(args, inherited t')] else []
  | None => []
  end.

Context (Hends : forall args ends t, programs args = Ok ends ->
  (exists e, ends t e) /\ forall e, ends t e -> event_ok e).

Lemma spawn_child_good args rs t : good (spawn_child args rs t).
Proof.
  unfold good, spawn_child. destruct (redirected_table t rs) as [t'|].
  2: { split; [done|]. intros e [= ->]. unfold event_ok, is_byte. lia. }
  destruct (programs args) as [ends|er] eqn:Ep.
  2: { split; [done|]. intros e [= ->]. unfold event_ok, is_byte. lia. }
  destruct (Hends _ _ (inherited t') Ep) as [Hex Hok]. split.
  - intros args' it [[= -> ->]|(e & [=] & _)]. exists ends. split_and!; [done|done|]. eauto.
  - intros e [[=]|(e' & [= ->] & He)]. by apply Hok.
Qed.

Section Spawned.
Context {A : Type} (P : World A -> Prop) (c : Call) (k : Reply -> Prog A) (pid : Z) (t : Table).
Context (specs : gmap Z (Child -> Prop)) (h : list (list Arg * gmap Z Z)) (ps : list (Z * Z)).
Context (path argv envp : Arg) (f : Reply -> Prog A).

Abbreviation child_world x ct ks := (mkWorld (PVfork c k pid x ct) t ks h ps).
Definition resumes (Q : Child -> Prop) (new : list (list Arg * gmap Z Z)) : Prop :=
  forall ks, kids_ok ks (<[pid := Q]> specs) ->
    eventually wstep P (mkWorld (PRun (k (conform c (mkReply pid [])))) t ks (h ++ new) ps).

Lemma resumes_with (Q : Child -> Prop) new x ks :
  resumes Q new -> good Q -> Q x -> kids_ok ks specs ->
  eventually wstep P (mkWorld (PRun (k (conform c (mkReply pid [])))) t (<[pid := x]> ks) (h ++ new) ps).
Proof. intros Hr Hg HQ Hok. apply Hr. by apply map_Forall2_insert_2. Qed.

Lemma child_exits status ct (Q : Child -> Prop) :
  0 <= status < 256 -> resumes Q [] -> good Q -> Q (CEnded (Exited status)) ->
  forall ks, kids_ok ks specs ->
  eventually wstep P (child_world (bind (exit_with status) f) ct ks).
Proof.
  intros Hst Hr Hg HQ. apply eventually_main. intros ks Hok. split.
  - eexists. left. by eapply m_exit.
  - intros w' Hs. inversion Hs; subst; cbn [bind exit_with] in *; try nr_clash.
    match goal with E : Syscall _ _ = Syscall _ _ |- _ => injection E as <- <- end.
    assert (Z.land status 0xff = status) as ->.
    { change 0xff with (Z.ones 8). rewrite Z.land_ones by lia. by apply Z.mod_small. }
    rewrite <- (app_nil_r h) at 1. by eapply resumes_with.
Qed.

Lemma child_runs rs : forall ct,
  Forall well_typed rs ->
  resumes (spawn_child [path; argv; envp] rs ct) (started [path; argv; envp] rs ct) ->
  forall ks, kids_ok ks specs ->
  eventually wstep P
    (child_world (bind (apply_redirects target_dup rs (exec_or_exit path argv envp)) f) ct ks).
Proof.
  induction rs as [|r rs IH]; intros ct Hrs Hres; cbn [apply_redirects].
  - pose proof (spawn_child_good [path; argv; envp] [] ct) as Hg.
    unfold spawn_child, started in *. cbn [redirected_table redirected option_map] in *.
    destruct (programs [path; argv; envp]) as [ends|e] eqn:Ep.
    + apply eventually_main. intros ks Hok. split; [eexists; left; by eapply m_exec|].
      intros w' Hs. inversion Hs; subst; cbn [bind exec_or_exit] in *; try nr_clash; try congruence.
      match goal with E : Syscall _ _ = Syscall _ _ |- _ => injection E as <- end.
      eapply resumes_with; [exact Hres|exact Hg|by left|done].
    + apply eventually_main. intros ks Hok. split; [eexists; left; by eapply m_exec_fails|].
      intros w' Hs. inversion Hs; subst; cbn [bind exec_or_exit] in *; try nr_clash; try congruence.
      eapply child_exits; [|exact Hres|exact Hg|done|done]. lia.
  - apply Forall_cons in Hrs as [Hr Hrs].
    unfold spawn_child, started, redirected_table in Hres. cbn [redirected unmarked] in Hres.
    destruct (Z.eqb_spec (oldfd r) (newfd r)) as [|Hne]; [by apply IH|].
    destruct (target_dup_step r (files ct) Hr Hne) as (Hd & Ht & rep & fs & Hstep & Hrep).
    pose proof (spawn_child_good [path; argv; envp] (r :: rs) ct) as Hg.
    unfold spawn_child, redirected_table in Hg. cbn [redirected unmarked] in Hg.
    apply Z.eqb_neq in Hne. rewrite Hne in Hg.
    apply eventually_main. intros ks Hok. split; [eexists; left; by eapply m_child_dup|].
    intros w' Hs. inversion Hs; subst; cbn [bind] in *;
      try (match goal with E : target_dup r = _ |- _ => rewrite E in Hd; nr_clash end).
    match goal with E : table_step H limit (target_dup r) _ = _ |- _ =>
      rewrite Hstep in E; injection E as <- <- end.
    change (r_ret (conform (target_dup r) rep)) with (as_u64 (r_ret rep)).
    unfold after_dup. rewrite Ht.
    destruct (dup_onto limit (files ct) r) as [t1|] eqn:Ef; destruct Hrep as [Hret ->];
      destruct (Z.ltb_spec (as_isize (as_u64 (r_ret rep))) 0); try lia.
    + by apply IH.
    + eapply child_exits; [|exact Hres|exact Hg|done|done]. lia.
Qed.
End Spawned.

(** The redirects the trampoline applies: all of them on aarch64, on x86_64 those
    up to the first that needs a call. *)
Definition applied (rs : list Redirect) : list Redirect :=
  match H with X86_64 => through_first_effective rs | Aarch64 => rs end.

Lemma applied_typed rs : Forall well_typed rs -> Forall well_typed (applied rs).
Proof.
  intros Hrs. unfold applied. destruct H; [|done].
  induction Hrs as [|r rs Hr Hrs IH]; simpl; [constructor|]. destruct (effective r); auto.
Qed.

(** The trampoline's argument in [rcx] on x86_64: an address of its code. *)
Definition redirects_ok (text : nat -> Z) (rs : list Redirect) : Prop :=
  Forall well_typed rs /\ Z.of_nat (length rs) < 2 ^ 60 /\
  (H = X86_64 -> Z.of_nat (length rs) <= text 13%nat < 2 ^ 64 - 1).

Lemma redirected_spec text flags path argv envp rs :
  redirects_ok text rs ->
  prog_equiv (vfork_execve_redirected text flags path argv envp rs)
    (spawn_spec target_dup flags path argv envp (applied rs)).
Proof.
  intros (Hrs & Hlen & Htext). unfold target_dup, applied. destruct H.
  - apply x86_redirected_spec; auto.
  - by apply a64_redirected_spec.
Qed.

(** Nothing is lost when the trampoline applies them all: on aarch64, and for at
    most one redirect that needs a call. *)
Definition all_applied (rs : list Redirect) : Prop :=
  H = Aarch64 \/ (length (filter effective rs) <= 1)%nat.

Lemma redirected_table_idle t rs :
  filter effective rs = [] -> redirected_table t rs = redirected_table t [].
Proof.
  unfold redirected_table. revert t. induction rs as [|r rs IH]; intros t Hf; [done|].
  cbn [redirected unmarked]. destruct (oldfd r =? newfd r) eqn:E.
  - apply IH. by rewrite filter_cons_False in Hf by (unfold effective; rewrite E; auto).
  - by rewrite filter_cons_True in Hf by (unfold effective; rewrite E; done).
Qed.

Lemma redirected_table_cons t r rs rs' :
  (forall t, redirected_table t rs = redirected_table t rs') ->
  redirected_table t (r :: rs) = redirected_table t (r :: rs').
Proof.
  intros E. destruct t as [fs ce]. unfold redirected_table in *. cbn [redirected unmarked files cloexec].
  destruct (oldfd r =? newfd r); [apply (E (mkTable fs ce))|].
  destruct (dup_onto limit fs r) as [fs1|]; [|done].
  exact (E (mkTable fs1 (ce ∖ {[newfd r]}))).

Qed.

Lemma applied_all t rs : all_applied rs -> redirected_table t (applied rs) = redirected_table t rs.
Proof.
  unfold all_applied, applied. destruct H; [|done]. intros [[=]|Hn]. revert t Hn.
  induction rs as [|r rs IH]; intros t Hn; [done|]. cbn [through_first_effective].
  destruct (effective r) eqn:E.
  - rewrite filter_cons_True in Hn by (by rewrite E). simpl in Hn.
    apply redirected_table_cons. intros t'. symmetry. apply redirected_table_idle.
    destruct (filter _ rs); [done|simpl in Hn; lia].
  - rewrite filter_cons_False in Hn by (rewrite E; auto).
    apply redirected_table_cons. intros t'. by apply IH.
Qed.

(** The arguments of the child's [execve]. *)
Definition exec_args (path : list Z) (argv envp : Z) : list Arg := [cstr path; int argv; int envp].

Section Calls.
Context {A : Type} (P : World A -> Prop) (HP : respects_eq P).

Lemma spawn_spec_runs (f : result Z -> Prog A) path argv envp rs t specs h ps :
  Forall well_typed rs -> (exists pid, 0 < pid < 2 ^ 31 /\ specs !! pid = None) ->
  (forall pid ks, 0 < pid < 2 ^ 31 -> specs !! pid = None ->
     kids_ok ks (<[pid := spawn_child (exec_args path argv envp) rs t]> specs) ->
     eventually wstep P
       (mkWorld (PRun (f (Ok pid))) t ks (h ++ started (exec_args path argv envp) rs t) ps)) ->
  forall ks, kids_ok ks specs ->
  eventually wstep P (mkWorld (PRun (bind (spawn_spec target_dup (int vfork_flags) (cstr path)
    (int argv) (int envp) rs) (fun r => f (from_ret_i32 (r_ret r))))) t ks h ps).
Proof.
  intros Hrs (pid0 & Hp0 & Hs0) Hres. unfold spawn_spec. cbn [bind].
  set (c := Syscall (nrz CLONE) [int vfork_flags; AInt 0; AInt 0; AInt 0; AInt 0]).
  match goal with |- context [Sys c ?k] => set (q := k) end.
  assert (forall pid, 0 < pid < 2 ^ 31 -> q (conform c (mkReply pid [])) = f (Ok pid)) as Hq.
  { intros pid Hpid. unfold q. change (r_ret (conform c (mkReply pid []))) with (as_u64 pid).
    destruct (Z.eqb_spec (as_u64 pid) 0) as [E|_].
    { unfold as_u64 in E. rewrite wrap_small in E by lia. lia. }
    cbn [bind r_ret]. by rewrite from_ret_i32_fd by lia. }
  apply eventually_main. intros ks Hok. split.
  - eexists. left. eapply m_vfork; [reflexivity|reflexivity|exact Hp0|by eapply kids_ok_none].
  - intros w' Hs. unfold c in Hs. inversion Hs; subst; try nr_clash.
    fold c. change (q (conform c (mkReply 0 []))) with
      (bind (apply_redirects target_dup rs (exec_or_exit (cstr path) (int argv) (int envp)))
         (fun r => f (from_ret_i32 (r_ret r)))).
    assert (specs !! pid = None) as Hfresh.
    { pose proof (Hok pid) as Hm. match goal with E : ks !! pid = None |- _ => rewrite E in Hm end.
      by inversion Hm. }
    apply (child_runs P c q pid t specs h ps); [exact Hrs| |exact Hok].
    intros ks' Hok'. rewrite Hq by done. by apply Hres.
Qed.

Lemma spawn_runs (f : result Z -> Prog A) text path argv envp rs t specs h ps :
  redirects_ok text rs -> (exists pid, 0 < pid < 2 ^ 31 /\ specs !! pid = None) ->
  (forall pid ks, 0 < pid < 2 ^ 31 -> specs !! pid = None ->
     kids_ok ks (<[pid := spawn_child (exec_args path argv envp) (applied rs) t]> specs) ->
     eventually wstep P
       (mkWorld (PRun (f (Ok pid))) t ks (h ++ started (exec_args path argv envp) (applied rs) t) ps)) ->
  forall ks, kids_ok ks specs ->
  eventually wstep P (mkWorld (PRun (bind (vfork_exec_redirected text path argv envp rs) f)) t ks h ps).
Proof.
  intros Hrs Hpid Hres ks Hok. eapply eventually_equiv; [exact HP| |].
  2: { apply (spawn_spec_runs f path argv envp (applied rs) t specs h ps); try done.
       apply applied_typed, Hrs. }
  symmetry. unfold vfork_exec_redirected. rewrite bind_assoc. rewrite redirected_spec by exact Hrs.
  apply bind_proper; [reflexivity|]. intros r. reflexivity.
Qed.

(** ** Waiting, pipes and closing *)

Definition wait_call (pid : Z) : Call :=
  Syscall (nrz WAIT4) [int pid; AMut (le_enc 4 0); int 0; int 0].

Lemma waitpid_shape pid (f : result (Z * Z) -> Prog A) :
  0 < pid < 2 ^ 31 ->
  exists k, bind (waitpid pid 0) f = Sys (wait_call pid) k /\ forall e, event_ok e ->
    k (conform (wait_call pid) (mkReply pid [le_enc 4 (status_word e)])) = f (Ok (pid, status_word e)).
Proof.
  intros Hpid. unfold waitpid. rewrite syscall4_eq. eexists. split; [reflexivity|]. intros e He.
  set (r := mkReply pid [le_enc 4 (status_word e)]).
  cbn beta. cbn [r_ret].
  assert (r_ret (conform (wait_call pid) r) = as_u64 pid) as Hret by reflexivity.
  assert (out 0 (conform (wait_call pid) r) = le_enc 4 (status_word e)) as Hout
    by (eapply out_written; [reflexivity|reflexivity|apply le_enc_bytes|done]).
  rewrite Hret, from_ret_i32_fd by lia.
  change (out 0 (mkReply _ _)) with (out 0 (conform (wait_call pid) r)). rewrite Hout.
  cbn [bind_ok bind]. by rewrite dec_status.
Qed.

Lemma wait_runs (f : result (Z * Z) -> Prog A) pid Q t specs h ps :
  0 < pid < 2 ^ 31 -> specs !! pid = Some Q ->
  (forall e ks, event_ok e -> Q (CEnded e) -> kids_ok ks (delete pid specs) ->
     eventually wstep P (mkWorld (PRun (f (Ok (pid, status_word e)))) t ks h ps)) ->
  forall ks, kids_ok ks specs ->
  eventually wstep P (mkWorld (PRun (bind (waitpid pid 0) f)) t ks h ps).
Proof.
  intros Hpid HQ Hres. destruct (waitpid_shape pid f Hpid) as (k & -> & Hk).
  assert (as_i32 (as_usize pid) = pid) as Ep by (apply as_i32_as_usize; int_ranges; lia).
  apply eventually_main. intros ks Hok.
  destruct (kids_ok_some ks specs pid Q Hok HQ) as (c & Hc & Hg & Hqc). split.
  - destruct c as [args it|e].
    + destruct Hg as [Hg _]. destruct (Hg args it Hqc) as (ends & Hp & [e He] & _).
      eexists. right. by eapply k_ends.
    + eexists. left. eapply m_wait; [reflexivity|]. by rewrite Ep.
  - intros w' Hs. unfold wait_call in Hs. inversion Hs; subst; try nr_clash.
    match goal with E : Syscall _ _ = Syscall _ _ |- _ =>
      assert (p = as_usize pid) as -> by
        (apply (f_equal (fun c => match c with Syscall _ (AInt z :: _) => z | _ => p end)) in E; exact (eq_sym E));
      clear E end.
    rewrite Ep in *. match goal with E : ks !! pid = Some (CEnded e) |- _ =>
      rewrite E in Hc; injection Hc as <- end.
    assert (event_ok e) as He by (by apply Hg).
    fold (wait_call pid). rewrite Hk by done. apply Hres; [done|done|].
    by apply map_Forall2_delete.
Qed.

Lemma pipe2_shape flags (f : result (Z * Z) -> Prog A) :
  exists k, bind (pipe2 flags) f = Sys (pipe_call (le_enc 4 0 ++ le_enc 4 0) (as_usize flags)) k /\
    forall r w, 0 <= r < 2 ^ 31 -> 0 <= w < 2 ^ 31 ->
    k (conform (pipe_call (le_enc 4 0 ++ le_enc 4 0) (as_usize flags)) (mkReply 0 [le_enc 4 r ++ le_enc 4 w])) =
      f (Ok (r, w)).
Proof.
  unfold pipe2. rewrite syscall2_eq. eexists. split; [reflexivity|]. intros r w Hr Hw.
  set (c := pipe_call _ _). set (rep := mkReply 0 _). cbn beta. cbn [r_ret].
  assert (out 0 (conform c rep) = le_enc 4 r ++ le_enc 4 w) as Hout.
  { eapply out_written; [reflexivity|reflexivity|apply Forall_app; split; apply le_enc_bytes|done]. }
  change (r_ret (conform c rep)) with (as_u64 0). rewrite from_ret_nat by lia.
  change (out 0 (mkReply _ _)) with (out 0 (conform c rep)). rewrite Hout.
  cbn [bind_ok bind]. do 3 f_equal.
  - rewrite slice_app_l by (by rewrite le_enc_length). rewrite <- (app_nil_r (le_enc 4 r)).
    rewrite (slice_middle [] (le_enc 4 r) []) by (by rewrite ?le_enc_length). apply dec_i32_le. int_ranges; lia.
  - rewrite <- (app_nil_r (le_enc 4 w)).
    rewrite slice_middle by (by rewrite ?le_enc_length). apply dec_i32_le. int_ranges; lia.
Qed.

Lemma pipe_runs (f : result (Z * Z) -> Prog A) flags t specs h ps :
  (exists r w rid wid, new_pipe limit t r w rid wid) ->
  (forall r w rid wid ks, new_pipe limit t r w rid wid -> kids_ok ks specs ->
     eventually wstep P
       (mkWorld (PRun (f (Ok (r, w)))) (with_pipe t (as_usize flags) r w rid wid) ks h (ps ++ [(rid, wid)]))) ->
  forall ks, kids_ok ks specs ->
  eventually wstep P (mkWorld (PRun (bind (pipe2 flags) f)) t ks h ps).
Proof.
  intros (r0 & w0 & rid0 & wid0 & Hnew) Hres. destruct (pipe2_shape flags f) as (k & -> & Hk).
  apply eventually_main. intros ks Hok. split; [eexists; left; by eapply m_pipe|].
  intros w' Hs. inversion Hs; subst; try nr_clash.
  match goal with E : pipe_call _ _ = pipe_call _ _ |- _ =>
    unfold pipe_call in E; injection E as <- <- end.
  match goal with N : new_pipe limit t r w _ _ |- _ => pose proof N as (_ & (_ & Hr & _) & (_ & Hw & _) & _) end.
  change (pipe_call _ _) with (pipe_call (le_enc 4 0 ++ le_enc 4 0) (as_usize flags)).
  rewrite Hk by done. by apply Hres.
Qed.

Lemma close_shape fd (f : result unit -> Prog A) :
  exists k, bind (close fd) f = Sys (close_call fd) k /\
    k (conform (close_call fd) (mkReply 0 [])) = f (Ok tt).
Proof. unfold close. rewrite syscall1_eq. eexists. split; reflexivity. Qed.

Lemma close_runs (f : result unit -> Prog A) fd t specs h ps :
  is_i32 fd -> is_Some (files t !! fd) ->
  (forall ks, kids_ok ks specs -> eventually wstep P (mkWorld (PRun (f (Ok tt))) (without t fd) ks h ps)) ->
  forall ks, kids_ok ks specs ->
  eventually wstep P (mkWorld (PRun (bind (close fd) f)) t ks h ps).
Proof.
  intros Hfd Hopen Hres. destruct (close_shape fd f) as (k & -> & Hk).
  apply eventually_main. intros ks Hok. split; [eexists; left; by eapply m_close|].
  intros w' Hs. inversion Hs; subst; try nr_clash.
  all: match goal with E : close_call ?a = close_call ?b, I : is_i32 ?a, J : is_i32 ?b |- _ =>
    apply (close_call_inj a b I J) in E; subst end.
  - rewrite Hk. by apply Hres.
  - match goal with N : files t !! _ = None |- _ => rewrite N in Hopen; by destruct Hopen end.
Qed.
End Calls.
End World.
