(* ===== verification/SpawnWorld.v ===== *)
(** Processes spawned, connected and waited for: what every execution of
    spawn-and-wait, and of a pipeline of two programs, comes to in the world of
    [ProcWorld.v]. *)

From stdpp Require Import base list option numbers gmap fin_maps strings.
From Stdlib Require Import ZArith Lia.
From S2P Require Import Prelude Prog Layout Asm Arch Trampoline Fd Wait Process SpawnSpec FdSpec.
From S2P Require Import ProcWorld.

(** ** Spawn and wait *)

Definition spawn_and_wait `{Target} (text : nat -> Z) (path : list Z) (argv envp : Z)
    (rs : list Redirect) : Prog (result (Z * Z)) :=
  let? pid := vfork_exec_redirected text path argv envp rs in
  waitpid pid 0.

(** The end: the parent is back with its table untouched and the status of the
    child, which was waited for. *)
Definition spawned `{Target} (limit : Z) (programs : list Arg -> result (gmap Z Z -> ChildEvent -> Prop))
    (args : list Arg) (rs : list Redirect) (t : Table) (w : World (result (Z * Z))) : Prop :=
  exists pid status e,
    parent w = PRun (Ret (Ok (pid, status))) /\ read_status status = Some e /\
    spawn_child limit programs args rs t (CEnded e) /\ hist w = started limit programs args rs t /\
    ptable w = t /\ kids w = ∅ /\ pipes w = [].

Lemma ret_eq {A} (a : A) (p : Parent A) : parent_eq (PRun (Ret a)) p -> p = PRun (Ret a).
Proof. destruct p as [[b| | |]|]; simpl; try done. by intros ->. Qed.

Lemma kids_ok_empty programs : kids_ok programs ∅ ∅.
Proof. apply map_Forall2_empty. Qed.

Lemma kids_ok_none_left programs ks : kids_ok programs ks ∅ -> ks = ∅.
Proof.
  intros Hk. apply map_empty. intros pid. by apply (kids_ok_none programs ks ∅ pid Hk).
Qed.

(** A spawn that runs its program or fails is told from the others by its status. *)
Definition ends_well (programs : list Arg -> result (gmap Z Z -> ChildEvent -> Prop)) : Prop :=
  forall args ends t, programs args = Ok ends ->
    (exists e, ends t e) /\ forall e, ends t e -> event_ok e.

(** A spawn whose redirects the trampoline applies as given is one with all of them. *)
Lemma spawned_all `{H : Target} limit programs args rs t w :
  all_applied rs ->
  spawned limit programs args (applied rs) t w -> spawned limit programs args rs t w.
Proof. intros Hrs. unfold spawned, spawn_child, started. by rewrite applied_all. Qed.

(** [C1] Every execution of spawning with redirects and waiting for the child, in a
    world where the parent is suspended until the child has executed the program
    or exited, ends: the parent gets the child's pid and a status that reads as how
    the child ended, keeps its own descriptor table, and leaves no zombie; the
    program was started once, with the redirected table less what is marked
    close-on-exec, unless a redirect could not be done (status 126: its source is
    closed, or its target negative or not below the limit on descriptors) or the
    [execve] failed (status 127).  The redirected table is the one all the redirects
    give, in order, on aarch64, and on x86_64 when at most one of them needs a call;
    with more, on x86_64, only those up to the first that needs one are applied
    (the finding on the trampoline).  In this world [clone] finds a pid, descriptors
    can be copied below the limit, and no call is interrupted. *)
Theorem spawn_and_wait_ends `{H : Target} limit programs text path argv envp rs t :
  ends_well programs -> redirects_ok text rs ->
  eventually (wstep limit programs)
    (fun w => spawned limit programs (exec_args path argv envp) (applied rs) t w /\
              (all_applied rs -> spawned limit programs (exec_args path argv envp) rs t w))
    (mkWorld (PRun (spawn_and_wait text path argv envp rs)) t ∅ [] []).
Proof.
  intros Hends Hrs. unfold spawn_and_wait, bind_ok.
  eapply eventually_mono; [intros w Hw; split; [exact Hw|intros Ha; by apply spawned_all]|].
  assert (respects_eq (spawned limit programs (exec_args path argv envp) (applied rs) t)) as HP.
  { intros w v (Hp & Ht & Hk & Hh & Hps) (pid & st & e & Ew & Hw).
    exists pid, st, e. rewrite Ew in Hp. rewrite <- Ht, <- Hk, <- Hh, <- Hps. by rewrite (ret_eq _ _ Hp). }
  eapply (spawn_runs limit programs Hends _ HP _ text path argv envp rs t ∅);
    [done|by exists 1|intros pid ks Hpid _ Hok|apply kids_ok_empty].
  eapply eventually_equiv; [done|apply bind_ret_r|].
  eapply (wait_runs limit programs _ Ret pid _ t); [done|apply lookup_insert_eq| |exact Hok].
  intros e ks' He HQ Hok'. rewrite delete_insert_id in Hok' by done.
  apply kids_ok_none_left in Hok' as ->. apply ev_now.
  exists pid, (status_word e), e. split_and!; try done. by apply read_status_of.
Qed.

(** ** A pipeline *)

(** A command: the path, and the addresses of the argument and environment arrays. *)
Record Command := mkCommand { c_path : list Z; c_argv : Z; c_envp : Z }.
Definition c_args (c : Command) : list Arg := exec_args (c_path c) (c_argv c) (c_envp c).

(** [a | b]: the standard output of one program is the standard input of the
    other. *)
Definition pipeline `{Target} (text : nat -> Z) (a b : Command) : Prog (result (Z * Z)) :=
  let? (r, w) := pipe2 O_CLOEXEC in
  let? p := vfork_exec_redirected text (c_path a) (c_argv a) (c_envp a) [mkRedirect w 1] in
  let? q := vfork_exec_redirected text (c_path b) (c_argv b) (c_envp b) [mkRedirect r 0] in
  let? _ := close r in
  let? _ := close w in
  let? (_, x) := waitpid p 0 in
  let? (_, y) := waitpid q 0 in
  Ret (Ok (x, y)).

(** How a program started with these descriptors can end, and its start. *)
Definition ran (programs : list Arg -> result (gmap Z Z -> ChildEvent -> Prop))
    (args : list Arg) (it : gmap Z Z) (e : ChildEvent) : Prop :=
  match programs args with Ok ends => ends it e | Err _ => e = Exited 127 end.
Definition launched (programs : list Arg -> result (gmap Z Z -> ChildEvent -> Prop))
    (args : list Arg) (it : gmap Z Z) : list (list Arg * gmap Z Z) :=
  if is_ok (programs args) then [(args, it)] else [].

Definition pipelined (programs : list Arg -> result (gmap Z Z -> ChildEvent -> Prop))
    (a b : list Arg) (t : Table) (v : World (result (Z * Z))) : Prop :=
  exists x y ea eb rid wid,
    parent v = PRun (Ret (Ok (x, y))) /\ read_status x = Some ea /\ read_status y = Some eb /\
    ptable v = t /\ kids v = ∅ /\ pipes v = [(rid, wid)] /\
    rid <> wid /\ new_file t rid /\ new_file t wid /\
    ran programs a (<[1 := wid]> (inherited t)) ea /\
    ran programs b (<[0 := rid]> (inherited t)) eb /\
    hist v = launched programs a (<[1 := wid]> (inherited t)) ++
             launched programs b (<[0 := rid]> (inherited t)).

(** The table with the pipe open in it, both ends marked. *)
Definition piped (t : Table) (r w rid wid : Z) : Table :=
  mkTable (<[w := wid]> (<[r := rid]> (files t))) ({[r; w]} ∪ cloexec t).

Lemma with_pipe_cloexec t r w rid wid :
  with_pipe t (as_usize O_CLOEXEC) r w rid wid = piped t r w rid wid.
Proof. reflexivity. Qed.

(** The child that puts one end on [fd] keeps no other descriptor of the pipe. *)
Lemma inherited_end limit t r w rid wid x fd id :
  0 <= fd < limit -> files t !! r = None -> files t !! w = None -> is_Some (files t !! fd) ->
  files (piped t r w rid wid) !! x = Some id -> x = r \/ x = w ->
  option_map inherited (redirected_table limit (piped t r w rid wid) [mkRedirect x fd]) =
    Some (<[fd := id]> (inherited t)).
Proof.
  intros Hlim Hr Hw [file Hfd] Hx Hxrw.
  assert (fd <> r /\ fd <> w) as [Nr Nw] by (split; intros ->; congruence).
  unfold redirected_table. cbn [redirected unmarked oldfd newfd].
  destruct (Z.eqb_spec x fd) as [->|]; [by destruct Hxrw|]. unfold dup_onto. cbn [oldfd newfd]. rewrite Hx.
  destruct (Z.leb_spec 0 fd); [|lia]. destruct (Z.ltb_spec fd limit); [|lia]. cbn [andb option_map]. f_equal.
  unfold inherited, piped. cbn [files cloexec]. apply map_eq. intros i. apply option_eq. intros v.
  rewrite map_lookup_filter_Some. destruct (decide (i = fd)) as [->|Hi].
  - rewrite !lookup_insert_eq. split; [by intros [? _]|]. intros. split; [done|set_solver].
  - rewrite !(lookup_insert_ne _ fd) by done. rewrite map_lookup_filter_Some.
    destruct (decide (i = w)) as [->|Hiw]; [set_solver by congruence|].
    destruct (decide (i = r)) as [->|Hir]; [set_solver by congruence|].
    rewrite !lookup_insert_ne by done. set_solver.
Qed.

(** A table marks only open descriptors. *)
Definition table_ok (t : Table) : Prop := forall fd, fd ∈ cloexec t -> is_Some (files t !! fd).

Lemma piped_closed limit t r w rid wid :
  table_ok t -> new_pipe limit t r w rid wid -> without (without (piped t r w rid wid) r) w = t.
Proof.
  intros Hok (Hne & [Hr _] & [Hw _] & _). destruct t as [fs ce]. unfold without, piped. cbn in *. f_equal.
  - apply map_eq. intros i. rewrite !lookup_delete, !lookup_insert. repeat case_decide; congruence.
  - apply set_eq. intros i. assert (i ∈ ce -> i <> r /\ i <> w) as Hi; [|set_solver].
    intros Hin. specialize (Hok i Hin). cbn in Hok. split; intros ->; destruct Hok; congruence.
Qed.

(** A spawn with one redirect onto an open descriptor, from the piped table. *)
Lemma piped_child `{H : Target} limit programs args t r w rid wid x fd id :
  0 <= fd < limit -> new_pipe limit t r w rid wid -> is_Some (files t !! fd) ->
  files (piped t r w rid wid) !! x = Some id -> x = r \/ x = w ->
  (forall e, spawn_child limit programs args (applied [mkRedirect x fd]) (piped t r w rid wid) (CEnded e) ->
   ran programs args (<[fd := id]> (inherited t)) e) /\
  started limit programs args (applied [mkRedirect x fd]) (piped t r w rid wid) =
    launched programs args (<[fd := id]> (inherited t)).
Proof.
  intros Hlim (_ & [Hr _] & [Hw _] & _) Hfd Hx Hxrw.
  assert (applied [mkRedirect x fd] = [mkRedirect x fd]) as ->.
  { unfold applied. destruct H; [|done]. cbn [through_first_effective]. by destruct (effective _). }
  pose proof (inherited_end limit t r w rid wid x fd id Hlim Hr Hw Hfd Hx Hxrw) as Hi.
  revert Hi. unfold spawn_child, started, ran, launched.
  destruct (redirected_table _ _) as [t'|]; cbn [option_map]; [|by intros [=]]. intros [= <-].
  destruct (programs args); cbn [is_ok]; (split; [|done]).
  - by intros e' [[=]|(e0 & [= ->] & He)].
  - by intros e' [= ->].
Qed.

Lemma one_redirect_ok `{H : Target} text x fd :
  (H = X86_64 -> 1 <= text 13%nat < 2 ^ 64 - 1) -> 0 <= x < 2 ^ 31 -> 0 <= fd < 2 ^ 31 ->
  redirects_ok text [mkRedirect x fd].
Proof.
  intros Htext Hx Hfd. split_and!; [|simpl; lia|exact Htext].
  repeat constructor; simpl; int_ranges; lia.
Qed.

Lemma another_pid {Q : Child -> Prop} (p : Z) :
  exists q, 0 < q < 2 ^ 31 /\ (<[p := Q]> ∅ : gmap Z (Child -> Prop)) !! q = None.
Proof.
  destruct (decide (p = 1)) as [->|Hp]; [exists 2|exists 1]; (split; [lia|]);
    by rewrite lookup_insert_ne by done.
Qed.

(** [C2] Every execution of a pipeline [a | b] ends: [pipe2(O_CLOEXEC)], two spawns
    that redirect one descriptor each, [close] of both ends, and a wait for each
    child.  The first program was started with the write end as its standard
    output, the second with the read end of the same pipe as its standard input,
    each with otherwise the descriptors it would inherit anyway (so no process is
    left holding an end it should not, and the reader sees the end of the data); the
    parent gets how each of them ended (127 for a program that could not be
    executed), has the descriptor table it began with, and leaves no zombie.
    Children run, and end, at any time.  The limit on descriptors, whatever it is,
    lets a process have a standard output. *)
Theorem pipeline_ends `{H : Target} limit programs text (a b : Command) t :
  ends_well programs -> (H = X86_64 -> 1 <= text 13%nat < 2 ^ 64 - 1) ->
  1 < limit -> table_ok t -> is_Some (files t !! 0) -> is_Some (files t !! 1) ->
  (exists r w rid wid, new_pipe limit t r w rid wid) ->
  eventually (wstep limit programs) (pipelined programs (c_args a) (c_args b) t)
    (mkWorld (PRun (pipeline text a b)) t ∅ [] []).
Proof.
  intros Hends Htext Hlim Hok H0 H1 Hnew. unfold pipeline, bind_ok.
  assert (respects_eq (pipelined programs (c_args a) (c_args b) t)) as HP.
  { intros v v' (Hp & Ht & Hk & Hh & Hps) (x & y & ea & eb & rid & wid & Ev & Hv).
    exists x, y, ea, eb, rid, wid. rewrite Ev in Hp. rewrite <- Ht, <- Hk, <- Hh, <- Hps.
    by rewrite (ret_eq _ _ Hp). }
  eapply (pipe_runs limit programs); [done| |apply kids_ok_empty].
  intros r w rid wid ks Hpipe Hks. rewrite with_pipe_cloexec. cbv beta iota.
  pose proof Hpipe as (Hne & (Hr & Hr31 & _) & (Hw & Hw31 & _) & Hids & Hrid & Hwid).
  assert (files (piped t r w rid wid) !! w = Some wid) as Ew by apply lookup_insert_eq.
  assert (files (piped t r w rid wid) !! r = Some rid) as Er
    by (cbn; rewrite lookup_insert_ne by done; apply lookup_insert_eq).
  destruct (piped_child limit programs (c_args a) t r w rid wid w 1 wid) as [Ra Sa];
    [lia|done|done|done|by right|].
  destruct (piped_child limit programs (c_args b) t r w rid wid r 0 rid) as [Rb Sb];
    [lia|done|done|done|by left|].
  revert ks Hks. eapply (spawn_runs limit programs Hends _ HP);
    [apply one_redirect_ok; (done || lia)|by exists 1|].
  intros p ks Hp _ Hks. cbv beta iota. fold (c_args a). rewrite Sa.
  revert ks Hks. eapply (spawn_runs limit programs Hends _ HP);
    [apply one_redirect_ok; (done || lia)|apply another_pid|].
  intros q ks Hq Hqp Hks. cbv beta iota. fold (c_args b). rewrite Sb.
  assert (p <> q) as Npq by (intros ->; by rewrite lookup_insert_eq in Hqp).
  revert ks Hks. eapply (close_runs limit programs); [int_ranges; lia|by rewrite Er|].
  intros ks Hks. cbv beta iota.
  revert ks Hks. eapply (close_runs limit programs); [int_ranges; lia| |].
  { cbn. by rewrite lookup_delete_ne, lookup_insert_eq by done. }
  rewrite (piped_closed limit t r w rid wid) by done.
  intros ks Hks. cbv beta iota.
  revert ks Hks. eapply (wait_runs limit programs); [done| |].
  { rewrite lookup_insert_ne by done. apply lookup_insert_eq. }
  intros ea ks Hea Ha Hks. cbv beta iota.
  revert ks Hks. eapply (wait_runs limit programs); [done| |].
  { rewrite lookup_delete_ne by done. apply lookup_insert_eq. }
  intros eb ks Heb Hb Hks. apply ev_now.
  rewrite delete_insert_ne, !delete_insert_eq, !delete_empty in Hks by done.
  apply kids_ok_none_left in Hks as ->.
  exists (status_word ea), (status_word eb), ea, eb, rid, wid.
  split_and!; try done; (by apply read_status_of) || (by apply Ra) || by apply Rb.
Qed.

(** ** Two commands *)

(** A shell's table, its terminal on 0 to 2 and a log, marked, on 5; two programs
    exist, and a signal can kill the first. *)
Definition shell_table : Table := mkTable (list_to_map [(0, 10); (1, 10); (2, 10); (5, 30)]) {[5]}.
Definition ls : Command := mkCommand (str "/bin/ls") 0x7000 0x7100.
Definition wc : Command := mkCommand (str "/bin/wc") 0x7200 0x7100.
Definition two_programs (args : list Arg) : result (gmap Z Z -> ChildEvent -> Prop) :=
  if bool_decide (head args = Some (cstr (c_path ls)))
  then Ok (fun _ e => e = Exited 0 \/ e = Killed 13 false)
  else if bool_decide (head args = Some (cstr (c_path wc))) then Ok (fun _ e => e = Exited 0)
  else Err ENOENT.

Lemma two_programs_end : ends_well two_programs.
Proof.
  intros args ends t. unfold two_programs. repeat case_bool_decide; intros [= <-];
    (split; [by exists (Exited 0); auto|]); unfold event_ok, is_byte; intros e He;
    repeat destruct He as [->|He]; subst; lia.
Qed.

(** The log on 0, then a descriptor above the limit of 1024. *)
Definition bad_redirects : list Redirect := [mkRedirect 0 0; mkRedirect 3 2000].

Lemma spawn_and_wait_ends_witness :
  eventually (wstep (H := Aarch64) 1024 two_programs)
    (fun w => spawned (H := Aarch64) 1024 two_programs (c_args wc) shell_redirects (mkTable shell_fds ∅) w /\
      (all_applied (H := Aarch64) shell_redirects ->
       spawned (H := Aarch64) 1024 two_programs (c_args wc) shell_redirects (mkTable shell_fds ∅) w))
    (mkWorld (PRun (spawn_and_wait (H := Aarch64) x86_text (c_path wc) 0x7200 0x7100 shell_redirects))
       (mkTable shell_fds ∅) ∅ [] []) /\
  eventually (wstep (H := X86_64) 1024 two_programs)
    (fun w => spawned (H := X86_64) 1024 two_programs (c_args wc) bad_redirects (mkTable shell_fds ∅) w /\
      (all_applied (H := X86_64) bad_redirects ->
       spawned (H := X86_64) 1024 two_programs (c_args wc) bad_redirects (mkTable shell_fds ∅) w))
    (mkWorld (PRun (spawn_and_wait (H := X86_64) x86_text (c_path wc) 0x7200 0x7100 bad_redirects))
       (mkTable shell_fds ∅) ∅ [] []) /\
  all_applied (H := X86_64) bad_redirects /\
  (forall e, spawn_child 1024 two_programs (c_args wc) bad_redirects (mkTable shell_fds ∅) (CEnded e) ->
     e = Exited 126).
Proof.
  assert (Forall well_typed shell_redirects) as Hw by
    (repeat constructor; vm_compute; intuition congruence).
  assert (Forall well_typed bad_redirects) as Hb by
    (repeat constructor; vm_compute; intuition congruence).
  split_and!.
  - apply (@spawn_and_wait_ends Aarch64 1024 two_programs x86_text (c_path wc) 0x7200 0x7100
             shell_redirects (mkTable shell_fds ∅) two_programs_end).
    split_and!; [exact Hw|vm_compute; reflexivity|discriminate].
  - apply (@spawn_and_wait_ends X86_64 1024 two_programs x86_text (c_path wc) 0x7200 0x7100
             bad_redirects (mkTable shell_fds ∅) two_programs_end).
    split_and!; [exact Hb|vm_compute; reflexivity|]. intros _. vm_compute; intuition congruence.
  - right. vm_compute. lia.
  - intros e [= ->]. reflexivity.
Defined.

Lemma shell_table_ok :
  table_ok shell_table /\ is_Some (files shell_table !! 0) /\ is_Some (files shell_table !! 1) /\
  new_pipe 1024 shell_table 3 4 40 41.
Proof.
  split_and!.
  - intros fd Hfd. assert (fd = 5) as -> by (cbn in Hfd; set_solver). by eexists.
  - by eexists.
  - by eexists.
  - assert (forall id, id <> 10 -> id <> 30 -> new_file shell_table id) as Hnew.
    { intros id N1 N2 fd Hfd. apply elem_of_list_to_map_2 in Hfd.
      repeat (apply elem_of_cons in Hfd as [[= -> ->]|Hfd]; [done|]). by apply elem_of_nil in Hfd. }
    split_and!; done || by apply Hnew.
Qed.

Lemma pipeline_ends_witness :
  eventually (wstep (H := X86_64) 1024 two_programs)
    (pipelined two_programs (c_args ls) (c_args wc) shell_table)
    (mkWorld (PRun (pipeline (H := X86_64) x86_text ls wc)) shell_table ∅ [] []) /\
  inherited shell_table = list_to_map [(0, 10); (1, 10); (2, 10)].
Proof.
  split; [|vm_compute; reflexivity]. destruct shell_table_ok as (Hok & H0 & H1 & Hnew).
  apply (@pipeline_ends X86_64 1024 two_programs x86_text ls wc shell_table two_programs_end); try done.
  by exists 3, 4, 40, 41.
Defined.
