(* ===== verification/SuspendSpec.v ===== *)
(** Waiting for a signal without losing it: block it, look at the state its
    handler changes, and suspend with it unblocked, as [sigsuspend] documents.  A
    step relation for the thread, its mask and the signals sent to it. *)

From stdpp Require Import base list option numbers.
From Stdlib Require Import ZArith Lia.
From S2P Require Import Prelude Prog Layout Asm Arch Fd Signal Termios Threads RestoreSpec.

(** ** The program *)

(** Suspend with [mask] until the cell is set. *)
Fixpoint await `{Target} {A} (fuel : nat) (mask : Z) (k : Shared A) : Shared A :=
  match fuel with
  | O => ShNoFuel
  | S fuel =>
      ShLoad (fun x =>
        if x =? 0 then share (sigsuspend mask) (fun _ => await fuel mask k) else k)
  end.

(** Wait until the handler of [sig] has set the cell. *)
Definition wait_for `{Target} (fuel : nat) (sig : Z) : Shared (result unit) :=
  share (sigmask sig) (fun set =>
    share (sigprocmask SIG_BLOCK set) (fun r =>
      match r with
      | Err e => ShRet (Err e)
      | Ok old =>
          await fuel (Z.ldiff old set)
            (share (sigprocmask SIG_SETMASK old) (fun r => ShRet (map_ok (fun _ => tt) r)))
      end)).

(** ** The thread *)

(** [suspended] is the mask to put back when the thread wakes; [coming] says that
    the signal is still to be sent, [pending] that it has been and was not
    delivered; [others] is how many more times other signals wake it. *)
Record Waiter (A : Type) := mkWaiter {
  prog : Shared A; suspended : option Z; tmask : Z;
  cell : Z; pending : bool; coming : bool; others : nat }.
Arguments mkWaiter {_} _ _ _ _ _ _ _.
Arguments prog {_} _.
Arguments suspended {_} _.
Arguments tmask {_} _.
Arguments cell {_} _.

Definition suspend_call `{Target} (mask : Z) : Call :=
  Syscall (nrz RT_SIGSUSPEND) [ARef (le_enc 8 mask); int SIGSETSIZE].
Definition blocked (mask sig : Z) : bool := Z.testbit mask (sig - 1).

Section Waiter.
Context `{H : Target} (sig : Z).

(** What the thread does. *)
Inductive thread_step {A} : Waiter A -> Waiter A -> Prop :=
| t_load k m x p b n :
    thread_step (mkWaiter (ShLoad k) None m x p b n) (mkWaiter (k x) None m x p b n)
| t_mask c k m x p b n how set m' :
    c = mask_call how set -> is_i32 how -> is_u64 set -> mask_after how m set = Some m' ->
    thread_step (mkWaiter (ShSys c k) None m x p b n)
      (mkWaiter (k (conform c (mkReply 0 [le_enc 8 m]))) None m' x p b n)
| t_suspend c k m x p b n set :
    c = suspend_call set -> is_u64 set ->
    thread_step (mkWaiter (ShSys c k) None m x p b n)
      (mkWaiter (ShSys c k) (Some m) (Z.ldiff set unblockable) x p b n)
| t_wake c k m old x b n :
    blocked m sig = false ->
    thread_step (mkWaiter (ShSys c k) (Some old) m x true b n)
      (mkWaiter (k (conform c (mkReply (- code EINTR) []))) None old 1 false b n)
| t_wake_other c k m old x p b n :
    thread_step (mkWaiter (ShSys c k) (Some old) m x p b (S n))
      (mkWaiter (k (conform c (mkReply (- code EINTR) []))) None old x p b n).

(** What happens to it: the signal is sent, and delivered if it is not blocked;
    the handler sets the cell. *)
Inductive signal_step {A} : Waiter A -> Waiter A -> Prop :=
| s_send c o m x p n :
    signal_step (mkWaiter c o m x p true n) (mkWaiter c o m x true false n)
| s_handle c m x b n :
    blocked m sig = false ->
    signal_step (mkWaiter c None m x true b n) (mkWaiter c None m 1 false b n).

Definition step {A} (w v : Waiter A) : Prop := thread_step w v \/ signal_step w v.

(** ** Whatever is sent meanwhile, what the thread does next decides *)

(** [I x p b] says what is known of the cell and the signal. *)
Definition stays (m : Z) (o : option Z) (I : Z -> bool -> bool -> Prop) : Prop :=
  (forall x p, I x p true -> I x true false) /\
  (forall x b, o = None -> blocked m sig = false -> I x true b -> I 1 false b).

Lemma eventually_thread {A} (P : Waiter A -> Prop) c o m n (I : Z -> bool -> bool -> Prop) :
  stays m o I ->
  (forall x p b, I x p b ->
     (exists w', step (mkWaiter c o m x p b n) w') /\
     forall w', thread_step (mkWaiter c o m x p b n) w' -> eventually step P w') ->
  forall x p b, I x p b -> eventually step P (mkWaiter c o m x p b n).
Proof.
  intros [Hsend Hhandle] Hmain.
  assert (forall k x p b, (2 * Nat.b2n b + Nat.b2n p <= k)%nat -> I x p b ->
    eventually step P (mkWaiter c o m x p b n)) as Hk; [|eauto].
  induction k as [|k IH]; intros x p b Hle Hi; destruct (Hmain x p b Hi) as [Hex Hall];
    (apply ev_later; [done|]); intros w' [Hs|Hs]; try (by apply Hall); inversion Hs; subst;
    simpl in Hle; try lia; apply IH; eauto; try destruct p; simpl in *; lia.
Qed.
End Waiter.

(** ** Which call it is *)

Section Calls.
Context `{H : Target}.

Lemma nr_signals : nrz RT_SIGPROCMASK <> nrz RT_SIGSUSPEND.
Proof. unfold nrz, nr_table. destruct arch; by vm_compute. Qed.

Lemma mask_not_suspend how set set' : mask_call how set <> suspend_call set'.
Proof. unfold mask_call, suspend_call. intros E. injection E as E _. by apply nr_signals. Qed.

Lemma le_enc_8_inj x y : is_u64 x -> is_u64 y -> le_enc 8 x = le_enc 8 y -> x = y.
Proof.
  intros Hx Hy E. rewrite <- (le_dec_enc_small 8 x), <- (le_dec_enc_small 8 y) by done. by rewrite E.
Qed.

Lemma mask_call_inj how set how' set' :
  is_i32 how -> is_i32 how' -> is_u64 set -> is_u64 set' ->
  mask_call how set = mask_call how' set' -> how = how' /\ set = set'.
Proof.
  intros Hh Hh' Hs Hs' E. unfold mask_call, int in E. injection E as E1 E2. split.
  - rewrite <- (as_i32_as_usize how), <- (as_i32_as_usize how') by done. by rewrite E1.
  - apply le_enc_8_inj; [done|done|]. unfold le_enc. congruence.
Qed.

Lemma suspend_call_inj set set' :
  is_u64 set -> is_u64 set' -> suspend_call set = suspend_call set' -> set = set'.
Proof.
  intros Hs Hs' E. unfold suspend_call in E. injection E as E.
  apply le_enc_8_inj; [done|done|]. unfold le_enc. congruence.
Qed.

Lemma sigprocmask_shape {A} how set (f : result Z -> Shared A) :
  exists k, share (sigprocmask how set) f = ShSys (mask_call how set) k /\
    forall old, is_u64 old -> k (conform (mask_call how set) (mkReply 0 [le_enc 8 old])) = f (Ok old).
Proof.
  unfold sigprocmask. rewrite syscall4_eq. eexists. split; [reflexivity|]. intros old Hold.
  set (c := mask_call how set). set (rep := mkReply 0 _). cbv beta.
  assert (out 0 (conform c rep) = le_enc 8 old) as Hout
    by (eapply out_written; [reflexivity|reflexivity|apply le_enc_bytes|done]).
  change (r_ret (conform c rep)) with 0. cbn [r_ret]. change (from_ret 0) with (@Ok Z 0).
  change (out 0 (mkReply _ _)) with (out 0 (conform c rep)). rewrite Hout. cbn [bind_ok bind share].
  unfold dec_u64, as_u64. by rewrite le_dec_enc_small, wrap_small by done.
Qed.

Lemma sigsuspend_shape {A} set (f : Errno -> Shared A) :
  exists k, share (sigsuspend set) f = ShSys (suspend_call set) k /\
    k (conform (suspend_call set) (mkReply (- code EINTR) [])) = f EINTR.
Proof. unfold sigsuspend. rewrite syscall2_eq. eexists. split; reflexivity. Qed.
End Calls.

(** ** No signal is lost *)

Section Wait.
Context `{H : Target} (sig m0 : Z).
Context (Hsig : 1 <= sig <= 64) (Hblock : Z.testbit unblockable (sig - 1) = false).
Context (Hm0 : is_u64 m0) (Hm0' : Z.ldiff m0 unblockable = m0).

(** Either the handler has run, or the signal has yet to be delivered or sent. *)
Definition promised (x : Z) (p b : bool) : Prop := x = 1 \/ x = 0 /\ (p = true \/ b = true).
Definition unheard (x : Z) (p b : bool) : Prop := x = 0 /\ (p = true \/ b = true).
Definition heard (x : Z) (p b : bool) : Prop := x = 1.

Definition bit : Z := 2 ^ (sig - 1).
Definition critical : Z := Z.ldiff (Z.lor m0 bit) unblockable.

Lemma critical_blocked : blocked critical sig = true.
Proof.
  unfold blocked, critical, bit. rewrite Z.ldiff_spec, Z.lor_spec, Z.pow2_bits_true, Hblock by lia.
  by rewrite orb_true_r.
Qed.

Lemma waiting_unblocked : blocked (Z.ldiff (Z.ldiff m0 bit) unblockable) sig = false.
Proof.
  unfold blocked, bit. rewrite !Z.ldiff_spec, Z.pow2_bits_true by lia. by rewrite andb_false_r.
Qed.

Lemma waiting_u64 : is_u64 (Z.ldiff m0 bit).
Proof. apply (ldiff_range m0 bit 64); [lia|exact Hm0]. Qed.

Lemma critical_u64 : is_u64 critical.
Proof.
  apply (ldiff_range _ _ 64); [lia|]. apply (lor_range _ _ 64); [lia|exact Hm0|]. by apply sigbit_range.
Qed.

Lemma promised_stays m o : stays sig m o promised.
Proof. split; unfold promised; [intros x p [->|[-> _]]; auto|by left]. Qed.
Lemma unheard_stays m o : blocked m sig = true \/ o <> None -> stays sig m o unheard.
Proof.
  intros Hmo. split; unfold unheard; [tauto|]. intros x b -> Hb. destruct Hmo as [Hmo|]; congruence.
Qed.
Lemma heard_stays m o : stays sig m o heard.
Proof. by split. Qed.

Section Await.
Context {A : Type} (P : Waiter A -> Prop) (k : Shared A).
Context (Hk : forall x p b n, heard x p b -> eventually (step sig) P (mkWaiter k None critical x p b n)).

Lemma await_heard fuel mask x p b n :
  (0 < fuel)%nat -> heard x p b ->
  eventually (step sig) P (mkWaiter (await fuel mask k) None critical x p b n).
Proof.
  intros Hf. destruct fuel as [|fuel]; [lia|]. cbn [await]. revert x p b.
  apply (eventually_thread sig P _ None critical n heard); [apply heard_stays|].
  intros x p b ->. split; [eexists; left; by apply t_load|].
  intros w' Hs. inversion Hs; subst. by apply Hk.
Qed.

Lemma await_promised n : forall fuel x p b,
  (n + 2 <= fuel)%nat -> promised x p b ->
  eventually (step sig) P (mkWaiter (await fuel (Z.ldiff m0 bit) k) None critical x p b n).
Proof.
  induction n as [n IH] using lt_wf_ind. intros [|fuel] x p b Hf; [lia|]. cbn [await]. revert x p b.
  apply (eventually_thread sig P _ None critical n promised); [apply promised_stays|].
  intros x p b Hi. split; [eexists; left; by apply t_load|].
  intros w' Hs. inversion Hs; subst. clear Hs. destruct Hi as [->|Hi]; [by apply Hk|].
  assert (unheard x p b) as Hu by exact Hi. destruct Hi as [-> _].
  cbn [Z.eqb]. destruct (sigsuspend_shape (Z.ldiff m0 bit) (fun _ => await fuel (Z.ldiff m0 bit) k))
    as (q & -> & Hq).
  revert Hu. generalize 0 at 1 2 as x. revert p b.
  assert (forall x p b, unheard x p b -> eventually (step sig) P
    (mkWaiter (ShSys (suspend_call (Z.ldiff m0 bit)) q) None critical x p b n)) as Hsusp; [|eauto].
  apply (eventually_thread sig P _ None critical n unheard).
  { apply unheard_stays. left. apply critical_blocked. }
  intros x p b Hi. split; [eexists; left; by eapply t_suspend, waiting_u64|].
  intros w' Hs. inversion Hs as [|c k' m x' p' b' n' how set m' E| c k' m x' p' b' n' set E Hset| |]; subst.
  { symmetry in E. by apply mask_not_suspend in E. }
  apply suspend_call_inj in E as <-; [|apply waiting_u64|done]. clear Hs. revert x p b Hi.
  apply (eventually_thread sig P _ (Some critical) _ n unheard).
  { apply unheard_stays. by right. }
  intros x p b Hi. split.
  - destruct Hi as [_ [->| ->]]; eexists; [left; by apply t_wake, waiting_unblocked|].
    right. apply s_send.
  - intros w' Hs. inversion Hs; subst; rewrite Hq.
    + apply await_heard; [lia|done].
    + apply IH; [lia|lia|]. destruct Hi as [-> Hi]. by right.
Qed.
End Await.

Definition waited (w : Waiter (result unit)) : Prop :=
  prog w = ShRet (Ok tt) /\ suspended w = None /\ tmask w = m0 /\ cell w = 1.

Lemma restores x p b n :
  heard x p b ->
  eventually (step sig) waited
    (mkWaiter (share (sigprocmask SIG_SETMASK m0) (fun r => ShRet (map_ok (fun _ => tt) r)))
       None critical x p b n).
Proof.
  destruct (sigprocmask_shape SIG_SETMASK m0 (fun r => ShRet (map_ok (fun _ : Z => tt) r))) as (q & -> & Hq).
  revert x p b. apply (eventually_thread sig waited _ None critical n heard); [apply heard_stays|].
  intros x p b ->. split.
  - eexists. left. eapply t_mask; [reflexivity|by vm_compute|done|reflexivity].
  - intros w' Hs. inversion Hs as [|c k' m x' p' b' n' how set m' E Hh Hset Hm| c k' m x' p' b' n' set E| |]; subst.
    2: { by apply mask_not_suspend in E. }
    apply mask_call_inj in E as [<- <-]; [|by vm_compute|done|done|done].
    change (Some (Z.ldiff m0 unblockable) = Some m') in Hm. injection Hm as <-.
    assert (is_u64 critical) as Hc by (apply critical_u64).
    rewrite Hq by done. apply ev_now. by split_and!.
Qed.
End Wait.

(** [C12] A signal that arrives between looking and waiting is not lost: block it,
    look at what its handler sets, and [sigsuspend] with it unblocked until that is
    set.  However the sending of the signal, its delivery, and up to [n] other
    signals that wake the thread fall between its steps, every execution ends, with
    the handler having run and the mask the one before; if the handler had already
    run, or the signal was pending, too. *)
Theorem no_lost_signal `{Target} sig m0 fuel x p b n :
  1 <= sig <= 64 -> Z.testbit unblockable (sig - 1) = false ->
  is_u64 m0 -> Z.ldiff m0 unblockable = m0 ->
  promised x p b -> (n + 2 <= fuel)%nat ->
  eventually (step sig) (waited m0) (mkWaiter (wait_for fuel sig) None m0 x p b n).
Proof.
  intros Hsig Hblock Hm0 Hm0' Hi Hf. unfold wait_for. rewrite sigmask_cases by (int_ranges; lia).
  destruct (Z.leb_spec 1 sig), (Z.leb_spec sig 64); try lia. cbn [andb share]. fold (bit sig).
  match goal with |- context [share (sigprocmask SIG_BLOCK _) ?f] =>
    destruct (sigprocmask_shape SIG_BLOCK (bit sig) f) as (q & -> & Hq) end.
  revert x p b Hi. apply (eventually_thread sig _ _ None m0 n promised); [apply promised_stays|].
  intros x p b Hi. pose proof (sigbit_range sig Hsig) as Hbit. split.
  - eexists. left. eapply t_mask; [reflexivity|by vm_compute|exact Hbit|reflexivity].
  - intros w' Hs. inversion Hs as [|c k' m x' p' b' n' how set m' E Hh Hset Hm| c k' m x' p' b' n' set E| |]; subst.
    2: { by apply mask_not_suspend in E. }
    apply mask_call_inj in E as [<- <-]; [|by vm_compute|done|exact Hbit|done].
    change (Some (critical sig m0) = Some m') in Hm. injection Hm as <-.
    rewrite Hq by done. apply await_promised; try done.
    intros. by apply restores.
Qed.

(** [SIGCHLD] still to come, another signal on its way, in a thread that blocks
    [SIGTERM]. *)
Lemma no_lost_signal_witness :
  eventually (step (H := Aarch64) 17) (waited 0x4000)
    (mkWaiter (wait_for (H := Aarch64) 3 17) None 0x4000 0 false true 1).
Proof.
  apply (@no_lost_signal Aarch64 17 0x4000 3 0 false true 1); try done; try lia.
  right. split; [done|by right].
Defined.
