(* ===== verification/DirSpec.v ===== *)
(** Listing a directory: [open], [getdents64] into a buffer until it answers 0, the
    entries of each buffer with [dirents], and [close]. *)

From stdpp Require Import base list option numbers gmap strings.
From Stdlib Require Import ZArith Lia.
From S2P Require Import Prelude Prog Layout Asm Arch Fd Fs FdSpec Records.

(** ** The program *)

Fixpoint list_from `{Target} (fuel : nat) (fd : Z) (buf : list Z) :
    Prog (result (list RawDirent)) :=
  match fuel with
  | O => NoFuel
  | S fuel =>
      let* (buf, r) := getdents64 fd buf in
      match r with
      | Err e => Ret (Err e)
      | Ok n =>
          if n =? 0 then Ret (Ok [])
          else
            let* filled := or_panic (slice_to n buf) in
            let* es := dirents filled in
            let? rest := list_from fuel fd buf in
            Ret (Ok (es ++ rest))
      end
  end.

Definition dir_flags `{Target} : Z := Z.lor (Z.lor O_RDONLY O_DIRECTORY) O_CLOEXEC.

Definition list_dir `{Target} (fuel : nat) (path buf : list Z) : Prog (result (list RawDirent)) :=
  let? fd := open path dir_flags 0 in
  let* r := list_from fuel fd buf in
  let* _ := close fd in
  Ret r.

(** ** The kernel *)

Definition opendir_call `{Target} (path : list Z) : Call :=
  Syscall (nrz OPENAT) [int AT_FDCWD; cstr path; int dir_flags; int 0].
Definition getdents_call `{Target} (fd : Z) (buf : list Z) : Call :=
  Syscall (nrz GETDENTS64) [int fd; AMut buf; len buf].

Definition records (ws : list WireDirent) : list Z := concat (map wire_dirent ws).

(** The directory at [path] has these entries; each open of it has a position of
    its own.  [getdents64] gives whole records, any number that fits, at least one
    unless there is none left; when not even one fits it fails with [EINVAL].  At
    most [limit] can be open at a time. *)
Class DirKernel `{Target} (K : Kernel) (path : list Z) (entries : list WireDirent) (limit : nat) := {
  dirs : kst K -> gmap Z nat;
  dir_open : forall s, (size (dirs s) < limit)%nat -> exists r s' fd,
    kstep K (opendir_call path) s = (Some r, s') /\ from_ret_i32 (as_u64 (r_ret r)) = Ok fd /\
    dirs s !! fd = None /\ dirs s' = <[fd := 0%nat]> (dirs s);
  dir_getdents : forall fd o buf s, is_i32 fd -> dirs s !! fd = Some o -> exists r s',
    let c := getdents_call fd buf in
    kstep K c s = (Some r, s') /\
    match drop o entries with
    | w :: _ =>
        if w_reclen w <=? Z.of_nat (length buf) then
          exists k, let b := records (take k (drop o entries)) in
            (0 < k <= length (drop o entries))%nat /\ (length b <= length buf)%nat /\
            from_ret (as_u64 (r_ret r)) = Ok (Z.of_nat (length b)) /\
            out 0 (conform c r) = b ++ drop (length b) buf /\
            dirs s' = <[fd := (o + k)%nat]> (dirs s)
        else from_ret (as_u64 (r_ret r)) = Err EINVAL /\ dirs s' = dirs s
    | [] => from_ret (as_u64 (r_ret r)) = Ok 0 /\ dirs s' = dirs s
    end;
  dir_close : forall fd s, is_i32 fd -> exists r s',
    kstep K (close_call fd) s = (Some r, s') /\ dirs s' = delete fd (dirs s) }.

Lemma from_ret_i32_range x fd : from_ret_i32 x = Ok fd -> is_i32 fd.
Proof.
  unfold from_ret_i32. destruct (from_ret x); [|done]. intros [= <-].
  apply (swrap_range 32). lia.
Qed.

Section List.
Context `{Target} (K : Kernel) (path : list Z) (entries : list WireDirent) (limit : nat).
Context `{!DirKernel K path entries limit}.
Context (Hok : Forall wire_dirent_ok entries).

Definition fits (room : nat) (w : WireDirent) : Prop := w_reclen w <= Z.of_nat room.
#[local] Instance fits_dec room w : Decision (fits room w) := Z.le_dec _ _.

(** What a listing answers: the entries, or [EINVAL] when one is longer than the
    buffer. *)
Definition listing (room : nat) (ws : list WireDirent) : result (list RawDirent) :=
  if decide (Forall (fits room) ws) then Ok (map w_entry ws) else Err EINVAL.

Lemma records_app ws vs : records (ws ++ vs) = records ws ++ records vs.
Proof. unfold records. by rewrite map_app, concat_app. Qed.

Lemma records_pos w ws : (0 < length (records (w :: ws)))%nat.
Proof.
  unfold records. cbn [map concat]. rewrite length_app.
  pose proof (wire_dirent_length w). unfold w_reclen in *. lia.
Qed.

Lemma records_fit room ws : (length (records ws) <= room)%nat -> Forall (fits room) ws.
Proof.
  induction ws as [|w ws IH]; intros Hl; constructor; unfold records in *; cbn [map concat] in *;
    rewrite length_app in Hl.
  - unfold fits. pose proof (wire_dirent_length w). lia.
  - apply IH. lia.
Qed.

Lemma dirents_records ws :
  Forall wire_dirent_ok ws -> Z.of_nat (length (records ws)) < 2 ^ 64 ->
  dirents (records ws) = Ret (map w_entry ws).
Proof.
  intros Hws Hlen. apply (dirents_from_wire ws _ []); [done| |done]. clear Hlen.
  induction Hws as [|w ws Hw _ IH]; simpl; [lia|]. unfold records in *. cbn [map concat].
  rewrite length_app. pose proof (wire_dirent_length w). unfold w_reclen in *. lia.
Qed.

Lemma listing_app room ws vs :
  Forall (fits room) ws -> listing room (ws ++ vs) = map_ok (app (map w_entry ws)) (listing room vs).
Proof.
  intros Hws. unfold listing. destruct (decide (Forall (fits room) vs)) as [Hv|Hv].
  - rewrite decide_True by by apply Forall_app. by rewrite map_app.
  - rewrite decide_False; [done|]. by intros [_ ?]%Forall_app.
Qed.

Lemma list_from_runs fuel : forall fd o buf s,
  Z.of_nat (length buf) < 2 ^ 63 -> is_i32 fd -> dirs s !! fd = Some o ->
  (length (drop o entries) < fuel)%nat -> exists t s',
  run K (list_from fuel fd buf) s = (Done (listing (length buf) (drop o entries)), t, s') /\
  exists o', dirs s' = <[fd := o']> (dirs s).
Proof.
  induction fuel as [|fuel IH]; intros fd o buf s Hlen Hfd Ho Hf; [lia|]. cbn [list_from].
  destruct (dir_getdents fd o buf s Hfd Ho) as (r & s1 & Hstep & Hr).
  unfold getdents64. rewrite syscall3_eq. unfold raw_call. cbn [bind].
  rewrite (run_sys _ _ _ _ _ _ Hstep). cbn [bind run r_ret].
  change (r_ret (conform _ r)) with (as_u64 (r_ret r)).
  change (out 0 (mkReply _ _)) with (out 0 (conform (getdents_call fd buf) r)).
  destruct (drop o entries) as [|w ws] eqn:Ed.
  - destruct Hr as [-> Hd]. cbn [Z.eqb run]. do 2 eexists. split; [reflexivity|].
    exists o. by rewrite Hd, insert_id.
  - destruct (Z.leb_spec (w_reclen w) (Z.of_nat (length buf))) as [Hle|Hgt].
    + destruct Hr as (k & Hk & Hb & -> & -> & Hd). rewrite <- Ed in *.
      set (new := take k (drop o entries)) in *.
      assert (0 < length (records new))%nat as Hpos.
      { unfold new. rewrite Ed. destruct k; [lia|]. apply records_pos. }
      destruct (Z.eqb_spec (Z.of_nat (length (records new))) 0); [lia|].
      assert (length (records new ++ drop (length (records new)) buf) = length buf) as Hl
        by (rewrite length_app, length_drop; lia).
      unfold slice_to. rewrite Hl.
      destruct (Z.leb_spec (Z.of_nat (length (records new))) (Z.of_nat (length buf))); [|lia].
      cbn [or_panic bind]. rewrite Nat2Z.id, take_app_length.
      rewrite dirents_records by (by (apply Forall_take, Forall_drop) || lia). cbn [bind].
      assert (dirs s1 !! fd = Some (o + k)%nat) as Ho1 by (by rewrite Hd, lookup_insert_eq).
      destruct (IH fd (o + k)%nat _ s1 (ltac:(by rewrite Hl)) Hfd Ho1) as (t & s2 & E & o' & Hd').
      { rewrite length_drop in *. lia. }
      unfold bind_ok. rewrite run_bind, E, Hl. cbv beta iota.
      rewrite <- (take_drop k (drop o entries)), drop_drop, listing_app by (by apply records_fit).
      fold new. do 2 eexists. split.
      { by destruct (listing (length buf) (drop (o + k) entries)). }
      exists o'. by rewrite Hd', Hd, insert_insert_eq.
    + destruct Hr as [-> Hd]. cbn [run]. do 2 eexists. split.
      { unfold listing. rewrite decide_False; [reflexivity|]. intros [Hw _]%Forall_cons. unfold fits in Hw. lia. }
      exists o. by rewrite Hd, insert_id.
Qed.
End List.

(** [C18] Listing a directory gives every entry exactly once, in the directory's
    order, however [getdents64] cuts it into buffers, and closes the descriptor it
    opened; when an entry is longer than the buffer the listing fails with
    [EINVAL], and closes it too. *)
Theorem list_dir_correct `{Target} (K : Kernel) (path : list Z) (entries : list WireDirent)
    (limit : nat) (HK : DirKernel K path entries limit) fuel (buf : list Z) (s : kst K) :
  Forall wire_dirent_ok entries -> Z.of_nat (length buf) < 2 ^ 63 ->
  (length entries < fuel)%nat -> (size (dirs s) < limit)%nat ->
  exists t s', run K (list_dir fuel path buf) s = (Done (listing (length buf) entries), t, s') /\
    dirs s' = dirs s.
Proof.
  intros Hok Hlen Hf Hroom. destruct (dir_open s Hroom) as (r & s1 & fd & Hstep & Hfd & Hnew & Hd).
  unfold list_dir, open, openat. rewrite syscall4_eq. unfold raw_call, bind_ok. cbn [bind].
  rewrite (run_sys _ _ _ _ _ _ Hstep). cbn [bind r_ret].
  change (r_ret (conform _ r)) with (as_u64 (r_ret r)). rewrite Hfd.
  apply from_ret_i32_range in Hfd.
  assert (dirs s1 !! fd = Some 0%nat) as Ho by (by rewrite Hd, lookup_insert_eq).
  destruct (list_from_runs K path entries limit Hok fuel fd 0 buf s1 Hlen Hfd Ho Hf) as (t & s2 & E & o' & Hd').
  rewrite run_bind, E. cbv beta iota.
  destruct (dir_close fd s2 Hfd) as (r3 & s3 & Hstep3 & Hd3).
  unfold close. rewrite syscall1_eq. unfold raw_call. cbn [bind].
  rewrite (run_sys _ _ _ _ _ _ Hstep3). cbn [bind run]. do 2 eexists. split; [reflexivity|].
  by rewrite Hd3, Hd', Hd, insert_insert_eq, delete_insert_id.
Qed.

(** ** A concrete directory

    [getdents64] gives at most two entries a call, and as many whole ones as fit. *)
Fixpoint whole (room : nat) (k : nat) (ws : list WireDirent) : nat :=
  match k, ws with
  | S k, w :: ws =>
      if (length (wire_dirent w) <=? room)%nat
      then S (whole (room - length (wire_dirent w)) k ws) else 0
  | _, _ => 0
  end%nat.

Lemma whole_fits k : forall room ws,
  (whole room k ws <= length ws)%nat /\ (length (records (take (whole room k ws) ws)) <= room)%nat.
Proof.
  unfold records. induction k as [|k IH]; intros room [|w ws]; cbn [whole take map concat length];
    try (split; lia).
  destruct (Nat.leb_spec (length (wire_dirent w)) room) as [Hle|];
    [|cbn [take map concat length]; split; lia].
  destruct (IH (room - length (wire_dirent w))%nat ws) as [H1 H2]. split; [lia|].
  cbn [take map concat]. rewrite length_app. lia.
Qed.

Definition dir_step (H : Target) (entries : list WireDirent) (c : Call) (s : gmap Z nat) :
    option Reply * gmap Z nat :=
  match c with
  | Syscall n args =>
      if n =? nrz OPENAT then
        match free_fd 64 s with
        | Some fd => (Some (mkReply fd []), <[fd := 0%nat]> s)
        | None => (Some (mkReply (- code EMFILE) []), s)
        end
      else if n =? nrz CLOSE then
        match args with
        | AInt fd :: _ => (Some (mkReply 0 []), delete (as_i32 fd) s)
        | _ => (Some (mkReply (- code EBADF) []), s)
        end
      else match args with
      | AInt fd :: AMut buf :: _ =>
          match s !! as_i32 fd with
          | None => (Some (mkReply (- code EBADF) []), s)
          | Some o =>
              let k := whole (length buf) 2 (drop o entries) in
              let b := records (take k (drop o entries)) in
              match drop o entries, k with
              | _ :: _, O => (Some (mkReply (- code EINVAL) []), s)
              | _, _ => (Some (mkReply (Z.of_nat (length b)) [b]), <[as_i32 fd := (o + k)%nat]> s)
              end
          end
      | _ => (Some (mkReply (- code EINVAL) []), s)
      end
  | CallFn _ _ => (None, s)
  end.
Definition dir_kernel (H : Target) (entries : list WireDirent) : Kernel :=
  mkKernel (gmap Z nat) (dir_step H entries).

Lemma records_bytes ws :
  Forall (fun w => bytes_ok (wire_dirent w)) ws -> bytes_ok (records ws).
Proof.
  unfold records. induction 1 as [|w ws Hw _ IH]; [constructor|]. cbn [map concat]. by apply Forall_app.
Qed.

Lemma dir_kernel_ok `{H : Target} path entries :
  Forall (fun w => bytes_ok (wire_dirent w)) entries ->
  Z.of_nat (length (records entries)) < 2 ^ 62 ->
  DirKernel (dir_kernel H entries) path entries 64.
Proof.
  intros Hb Hlen.
  refine {| dirs := fun s : kst (dir_kernel H entries) => s |}.
  - intros s Hroom. cbn [kstep dir_kernel]. unfold dir_step, opendir_call. rewrite Z.eqb_refl.
    destruct (free_fd 64 s) as [fd|] eqn:E; [|apply free_fd_none in E; exfalso; revert Hroom; apply Nat.nlt_ge, E].
    apply free_fd_some in E as [Hfree Hr]. do 3 eexists. split; [reflexivity|]. cbn [r_ret].
    split; [apply from_ret_i32_fd; clear -Hr; lia|done].
  - intros fd o buf s Hfd Ho. cbn [kstep dir_kernel]. unfold dir_step, getdents_call, int. nr_case. cbv iota.
    rewrite as_i32_as_usize, Ho by done.
    destruct (whole_fits 2 (length buf) (drop o entries)) as [Hk Hroom].
    set (k := whole (length buf) 2 (drop o entries)) in *. set (b := records (take k (drop o entries))) in *.
    destruct (drop o entries) as [|w ws] eqn:Ed.
    { do 2 eexists. split; [reflexivity|]. split; [reflexivity|].
      unfold k. cbn [whole]. rewrite Nat.add_0_r. exact (insert_id (s : gmap Z nat) fd o Ho). }
    rewrite <- (wire_dirent_length w).
    assert ((Z.of_nat (length (wire_dirent w)) <=? Z.of_nat (length buf)) =
            (length (wire_dirent w) <=? length buf)%nat) as ->
      by (destruct (Nat.leb_spec (length (wire_dirent w)) (length buf)); [apply Z.leb_le|apply Z.leb_gt]; lia).
    assert (k = 0%nat <-> (length (wire_dirent w) <=? length buf)%nat = false) as Hk0
      by (unfold k; cbn [whole]; by destruct (length (wire_dirent w) <=? length buf)%nat).
    destruct k as [|k'] eqn:Ek.
    + destruct Hk0 as [-> _]; [|done]. do 2 eexists. split; [reflexivity|]. split; reflexivity.
    + destruct (length (wire_dirent w) <=? length buf)%nat; [|by destruct Hk0 as [_ ?]; lia].
      assert (bytes_ok b) as Hbb.
      { apply records_bytes, Forall_take. rewrite <- Ed. by apply Forall_drop. }
      assert (length b <= length (records entries))%nat as Hbl.
      { assert (records entries = records (take o entries) ++ b ++ records (drop (S k') (drop o entries))) as ->
          by (unfold b; rewrite <- Ed, <- !records_app, !take_drop; done).
        rewrite !length_app. lia. }
      do 2 eexists. split; [reflexivity|]. exists (S k'). cbn [r_ret]. cbv zeta. fold b.
      split_and!; [lia|done|exact Hroom|apply from_ret_nat; lia| |reflexivity].
      change (overwrite buf b = b ++ drop (length b) buf).
      rewrite overwrite_prefix by exact Hroom. by rewrite map_as_u8.
  - intros fd s Hfd. cbn [kstep dir_kernel]. unfold dir_step, close_call, int. nr_case. cbv iota.
    rewrite as_i32_as_usize by done. do 2 eexists. split; reflexivity.
Defined.

Definition demo_entries : list WireDirent :=
  [mkWireDirent (mkRawDirent 2 DT_DIR (str ".")) 1 [0; 0; 0];
   mkWireDirent (mkRawDirent 1 DT_DIR (str "..")) 2 [0; 0];
   mkWireDirent (mkRawDirent 12345 DT_REG (str "notes.txt")) 3 [0; 0; 0]].

Lemma demo_entries_ok :
  Forall wire_dirent_ok demo_entries /\
  Forall (fun w => bytes_ok (wire_dirent w)) demo_entries /\
  Z.of_nat (length (records demo_entries)) < 2 ^ 62.
Proof.
  split_and!; [|repeat constructor; by vm_compute|by vm_compute].
  repeat constructor; vm_compute; congruence.
Qed.

(** Three entries through a buffer of 48 bytes, two at a time; and the same with
    room for the first two only. *)
Lemma list_dir_correct_witness :
  (exists t s', run (dir_kernel X86_64 demo_entries)
      (list_dir (H := X86_64) 4 (str "/tmp") (replicate 48 0)) ∅ =
    (Done (Ok (map w_entry demo_entries)), t, s') /\ s' = (∅ : gmap Z nat)) /\
  (exists t s', run (dir_kernel Aarch64 demo_entries)
      (list_dir (H := Aarch64) 4 (str "/tmp") (replicate 26 0)) ∅ =
    (Done (Err EINVAL), t, s') /\ s' = (∅ : gmap Z nat)).
Proof.
  destruct demo_entries_ok as (Hok & Hb & Hl). split.
  - apply (@list_dir_correct X86_64 _ (str "/tmp") demo_entries 64
      (@dir_kernel_ok X86_64 (str "/tmp") demo_entries Hb Hl) 4 (replicate 48 0) ∅ Hok);
      [done|apply Nat.ltb_lt; reflexivity|apply Nat.ltb_lt; reflexivity].
  - apply (@list_dir_correct Aarch64 _ (str "/tmp") demo_entries 64
      (@dir_kernel_ok Aarch64 (str "/tmp") demo_entries Hb Hl) 4 (replicate 26 0) ∅ Hok);
      [done|apply Nat.ltb_lt; reflexivity|apply Nat.ltb_lt; reflexivity].
Defined.
