(* ===== verification/SocketSpec.v ===== *)
(** Datagrams between processes: one server and any number of clients, each with
    a socket of its own, under every interleaving of their calls. *)

From Stdlib Require Import ZArith Lia.
From stdpp Require Import base list option numbers strings.
From S2P Require Import Prelude Prog Layout Asm Arch FdSpec Socket.

(** ** Address families

    An endpoint is an address and a port; the kernel reads and writes it as the
    bytes [ep_parse] and [ep_wire] say.  Both [sockaddr_in] and [sockaddr_in6]
    come with a constructor, accessors and the same calls. *)
Definition Endpoint : Type := list Z * Z.

Definition ep_ok (n : nat) (e : Endpoint) : Prop :=
  length e.1 = n /\ bytes_ok e.1 /\ is_u16 e.2.

Class Family (A : Type) `{KStruct A} `{Target} := {
  ep_size : nat;
  ep_wire : Endpoint -> list Z;
  ep_parse : list Z -> option Endpoint;
  sock_addr : Endpoint -> A;
  sock_zero : A;
  endpoint : A -> Endpoint;
  bind_to : Z -> A -> Prog (result unit);
  send_to : Z -> list Z -> Z -> A -> Prog (result Z);
  recv_from : Z -> list Z -> Z -> Prog (list Z * result (Z * A));
  name_of : Z -> Prog (result A);
  ep_parse_wire e : ep_ok ep_size e -> ep_parse (ep_wire e) = Some e;
  sock_addr_wire e : ep_ok ep_size e -> encode (sock_addr e) = ep_wire e;
  sock_addr_typed e : ep_ok ep_size e -> well_typed (sock_addr e);
  sock_zero_typed : well_typed sock_zero;
  endpoint_addr e : ep_ok ep_size e -> endpoint (sock_addr e) = e;
  bind_to_eq fd a : bind_to fd a =
    let* r := syscall3 (nr BIND) (int fd) (ARef (encode a)) (sizeof A) in Ret (ret_unit r);
  send_to_eq fd b flags a : send_to fd b flags a =
    let* r := syscall6 (nr SENDTO) (int fd) (ARef b) (len b) (int flags) (ARef (encode a)) (sizeof A) in
    Ret (from_ret (r_ret r));
  recv_from_eq fd b flags : recv_from fd b flags =
    let* r := syscall6 (nr RECVFROM) (int fd) (AMut b) (len b) (int flags)
                (AMut (encode sock_zero)) (addrlen A) in
    Ret (out 0 r, map_ok (fun n => (n, decode (out 1 r))) (from_ret (r_ret r)));
  name_of_eq fd : name_of fd =
    let* r := syscall3 (nr GETSOCKNAME) (int fd) (AMut (encode sock_zero)) (addrlen A) in
    let? _ := Ret (from_ret (r_ret r)) in
    Ret (Ok (decode (out 0 r))) }.

(** [struct sockaddr_in]: family 2, port and address in network order, 8 zeros. *)
Definition inet_wire (e : Endpoint) : list Z := [2; 0] ++ be_enc 2 e.2 ++ e.1 ++ replicate 8 0.
Definition inet_parse (b : list Z) : option Endpoint :=
  if bool_decide (take 2 b = [2; 0] /\ length b = 16%nat)
  then Some (take 4 (drop 4 b), be_dec (take 2 (drop 2 b))) else None.

(** [struct sockaddr_in6]: family 10, port, flow label, address, scope. *)
Definition inet6_wire (e : Endpoint) : list Z :=
  [10; 0] ++ be_enc 2 e.2 ++ replicate 4 0 ++ e.1 ++ replicate 4 0.
Definition inet6_parse (b : list Z) : option Endpoint :=
  if bool_decide (take 2 b = [10; 0] /\ length b = 28%nat)
  then Some (take 16 (drop 8 b), be_dec (take 2 (drop 2 b))) else None.

Lemma port_parse port (l : list Z) :
  is_u16 port -> be_dec (take 2 (be_enc 2 port ++ l)) = port.
Proof.
  intros Hp. rewrite take_app_length' by (by rewrite be_enc_length). apply be_dec_enc_small. exact Hp.
Qed.

#[export] Program Instance inet `{Target} : Family SockAddrIn := {
  ep_size := 4;
  ep_wire := inet_wire; ep_parse := inet_parse;
  sock_addr e := SockAddrIn_new e.1 e.2; sock_zero := SockAddrIn_zero;
  endpoint a := (sin_octets a, sin_port_host a);
  bind_to := bind_in; send_to := sendto_in; recv_from := recvfrom_in; name_of := getsockname_in }.
Next Obligation.
  intros ? [o p] (Hl & _ & Hp). cbn [fst snd] in *. unfold inet_parse, inet_wire. cbn [fst snd].
  rewrite bool_decide_true by (split; [done|by rewrite !length_app, be_enc_length, Hl]).
  change (drop 2 ([2; 0] ++ ?l)) with l. rewrite port_parse by done.
  change (drop 4 ([2; 0] ++ ?l)) with (drop 2 l).
  rewrite drop_app_length' by (by rewrite be_enc_length). by rewrite take_app_length' by done.
Qed.
Next Obligation.
  intros ? [o p] (Hl & Ho & Hp). by destruct (proj1 (sockaddr_roundtrip o p Hp Ho) Hl) as [E _].
Qed.
Next Obligation. intros ? [o p] (Hl & Ho & _). by apply SockAddrIn_new_typed. Qed.
Next Obligation. intros ?. by apply (bool_decide_eq_true_1 _); vm_compute. Qed.
Next Obligation.
  intros ? [o p] (_ & _ & Hp). cbn [fst snd] in *. f_equal. by apply swap16_involutive.
Qed.
Next Obligation. done. Qed.
Next Obligation. done. Qed.
Next Obligation. done. Qed.
Next Obligation. done. Qed.

#[export] Program Instance inet6 `{Target} : Family SockAddrIn6 := {
  ep_size := 16;
  ep_wire := inet6_wire; ep_parse := inet6_parse;
  sock_addr e := SockAddrIn6_new e.1 e.2; sock_zero := SockAddrIn6_zero;
  endpoint a := (sin6_octets a, sin6_port_host a);
  bind_to := bind_in6; send_to := sendto_in6; recv_from := recvfrom_in6; name_of := getsockname_in6 }.
Next Obligation.
  intros ? [o p] (Hl & _ & Hp). cbn [fst snd] in *. unfold inet6_parse, inet6_wire. cbn [fst snd].
  rewrite bool_decide_true by (split; [done|by rewrite !length_app, be_enc_length, Hl]).
  change (drop 2 ([10; 0] ++ ?l)) with l. rewrite port_parse by done.
  change (drop 8 ([10; 0] ++ ?l)) with (drop (2 + 4) l). rewrite <- drop_drop.
  rewrite drop_app_length' by (by rewrite be_enc_length).
  rewrite drop_app_length' by done. by rewrite take_app_length' by done.
Qed.
Next Obligation.
  intros ? [o p] (Hl & Ho & Hp). by destruct (proj2 (sockaddr_roundtrip o p Hp Ho) Hl) as [E _].
Qed.
Next Obligation. intros ? [o p] (Hl & Ho & _). by apply SockAddrIn6_new_typed. Qed.
Next Obligation. intros ?. by apply (bool_decide_eq_true_1 _); vm_compute. Qed.
Next Obligation.
  intros ? [o p] (_ & _ & Hp). cbn [fst snd] in *. f_equal. by apply swap16_involutive.
Qed.
Next Obligation. done. Qed.
Next Obligation. done. Qed.
Next Obligation. done. Qed.
Next Obligation. done. Qed.

(** ** Sockets

    A datagram socket: its descriptor, the endpoint it is bound to, and the
    datagrams that have arrived, each with its sender. *)
Record Sock := mkSock {
  sfd : Z; own : option Endpoint; inbox : list (Endpoint * list Z) }.

Section Net.
Context {A : Type} `{KA : KStruct A} `{H : Target} {F : Family A}.

Definition bind_call (fd : Z) (b : list Z) : Call :=
  Syscall (nrz BIND) [int fd; ARef b; int (Z.of_nat (length b))].
Definition name_call (fd : Z) (b : list Z) : Call :=
  Syscall (nrz GETSOCKNAME) [int fd; AMut b; AMut (le_enc 4 (as_u32 (Z.of_nat (length b))))].
Definition sendto_call (fd : Z) (data dest : list Z) : Call :=
  Syscall (nrz SENDTO) [int fd; ARef data; len data; int 0; ARef dest; int (Z.of_nat (length dest))].
Definition recvfrom_call (fd : Z) (buf b : list Z) : Call :=
  Syscall (nrz RECVFROM) [int fd; AMut buf; len buf; int 0; AMut b;
                          AMut (le_enc 4 (as_u32 (Z.of_nat (length b))))].

(** The longest payload of an IPv4 datagram. *)
Definition MAX_DATAGRAM : Z := 65507.
Definition EMSGSIZE : Z := 90.

(** One call on a socket, with the datagram it sends; [None] is a call that
    blocks or that these programs do not make.  A datagram longer than the
    receiver's buffer is cut ([udp(7)]). *)
Definition sock_call (c : Call) (s : Sock) :
    option (Reply * Sock * option (Endpoint * (Endpoint * list Z))) :=
  match c with
  | Syscall _ [_; ARef b; _] =>
      if bool_decide (c = bind_call (sfd s) b) then
        match ep_parse (A := A) b, own s with
        | Some e, None => Some (mkReply 0 [], mkSock (sfd s) (Some e) (inbox s), None)
        | _, _ => Some (mkReply (- code EINVAL) [], s, None)
        end
      else None
  | Syscall _ [_; AMut b; _] =>
      if bool_decide (c = name_call (sfd s) b) then
        match own s with
        | Some e => Some (mkReply 0 [ep_wire (A := A) e; le_enc 4 (Z.of_nat (length (ep_wire (A := A) e)))], s, None)
        | None => None
        end
      else None
  | Syscall _ [_; ARef data; _; _; ARef b; _] =>
      if bool_decide (c = sendto_call (sfd s) data b) then
        match ep_parse (A := A) b, own s with
        | Some dest, Some me =>
            if Z.of_nat (length data) <=? MAX_DATAGRAM
            then Some (mkReply (Z.of_nat (length data)) [], s, Some (dest, (me, data)))
            else Some (mkReply (- EMSGSIZE) [], s, None)
        | None, _ => Some (mkReply (- code EINVAL) [], s, None)
        | _, None => None
        end
      else None
  | Syscall _ [_; AMut buf; _; _; AMut b; _] =>
      if bool_decide (c = recvfrom_call (sfd s) buf b) then
        match inbox s with
        | (from, data) :: rest =>
            let got := take (length buf) data in
            Some (mkReply (Z.of_nat (length got))
                    [got; ep_wire (A := A) from; le_enc 4 (Z.of_nat (length (ep_wire (A := A) from)))],
                  mkSock (sfd s) (own s) rest, None)
        | [] => None
        end
      else None
  | _ => None
  end.

(** A process with its socket, and a network of them: each step is one call.  A
    datagram goes to whoever is bound to its destination.  This network is the
    reliable one: it neither loses nor reorders a datagram, has room for all of
    them, and no call fails; [DatagramSpec.v] has the one [udp(7)] promises. *)
Definition Node (X : Type) : Type := Prog X * Sock.
Record Net (X Y : Type) := mkNet { server : Node X; clients : list (Node Y) }.
#[global] Arguments mkNet {_ _} _ _.
#[global] Arguments server {_ _} _.
#[global] Arguments clients {_ _} _.

Inductive node_step {X} : Node X -> option (Endpoint * (Endpoint * list Z)) -> Node X -> Prop :=
| node_calls c k s r s' d :
    sock_call c s = Some (r, s', d) -> node_step (Sys c k, s) d (k (conform c r), s').

Definition push {X} (dest : Endpoint) (d : Endpoint * list Z) (n : Node X) : Node X :=
  if decide (own n.2 = Some dest) then (n.1, mkSock (sfd n.2) (own n.2) (inbox n.2 ++ [d])) else n.

Definition deliver {X Y} (d : option (Endpoint * (Endpoint * list Z))) (w : Net X Y) : Net X Y :=
  match d with
  | None => w
  | Some (dest, d) => mkNet (push dest d (server w)) (push dest d <$> clients w)
  end.

Inductive net_step {X Y} : Net X Y -> Net X Y -> Prop :=
| server_steps n d n' cs :
    node_step n d n' -> net_step (mkNet n cs) (deliver d (mkNet n' cs))
| client_steps m cs i n d n' :
    cs !! i = Some n -> node_step n d n' ->
    net_step (mkNet m cs) (deliver d (mkNet m (<[i := n']> cs))).

(** ** The programs *)

(** Answer every datagram with what was received of it. *)
Definition answering (serve : list Z -> Prog (result unit)) (fd : Z) (buf data : list Z) (from : A) :
    Prog (result unit) :=
  let? _ := send_to fd data 0 from in serve buf.

Fixpoint serve (fuel : nat) (fd : Z) (buf : list Z) : Prog (result unit) :=
  match fuel with
  | O => NoFuel
  | S fuel =>
      let* (buf, r) := recv_from fd buf 0 in
      match r with
      | Err e => Ret (Err e)
      | Ok (n, from) =>
          let* data := or_panic (slice_to n buf) in
          answering (serve fuel fd) fd buf data from
      end
  end.

(** Send each message and keep what comes back, with its sender. *)
Definition Log : Type := Endpoint * list (Endpoint * list Z).

Definition hearing (chat : list Z -> Endpoint * list Z -> Prog (result Log)) (fd : Z) (buf : list Z) :
    Prog (result Log) :=
  let* (buf, r) := recv_from fd buf 0 in
  match r with
  | Err e => Ret (Err e)
  | Ok (n, from) =>
      let* data := or_panic (slice_to n buf) in
      chat buf (endpoint (A := A) from, data)
  end.

Fixpoint chat (fd : Z) (to : A) (name : Endpoint) (msgs : list (list Z)) (buf : list Z)
    (got : list (Endpoint * list Z)) : Prog (result Log) :=
  match msgs with
  | [] => Ret (Ok (name, got))
  | m :: msgs =>
      let? _ := send_to fd m 0 to in
      hearing (fun buf d => chat fd to name msgs buf (got ++ [d])) fd buf
  end.

(** Bind the socket, ask for its name, and talk to the server. *)
Definition naming (fd : Z) (to : A) (msgs : list (list Z)) (buf : list Z) : Prog (result Log) :=
  let? name := name_of (A := A) fd in
  chat fd to (endpoint name) msgs buf [].

Definition client (fd : Z) (me to : Endpoint) (msgs : list (list Z)) (buf : list Z) :
    Prog (result Log) :=
  let? _ := bind_to fd (sock_addr (A := A) me) in
  naming fd (sock_addr to) msgs buf.

(** ** One call of each *)

(** The only step of a node. *)
Definition turn {X} (n : Node X) d (n' : Node X) : Prop :=
  node_step n d n' /\ forall d2 n2, node_step n d2 n2 -> d2 = d /\ n2 = n'.

Lemma turn_sys {X} c (p : Prog X) (k : Reply -> Prog X) p' s r s' d :
  p = Sys c k -> sock_call c s = Some (r, s', d) -> k (conform c r) = p' -> turn (p, s) d (p', s').
Proof.
  intros -> Hc <-. split; [by constructor|]. intros d2 n2 Hs. inversion Hs; subst.
  rewrite Hc in *. by simplify_eq.
Qed.

Lemma turn_eq {X} (n : Node X) d n1 n2 : turn n d n1 -> n1 = n2 -> turn n d n2.
Proof. by intros Ht <-. Qed.

Lemma sizeof_len (e : Endpoint) :
  ep_ok ep_size e -> sizeof A = int (Z.of_nat (length (ep_wire (A := A) e))).
Proof.
  intros He. unfold sizeof. by rewrite <- sock_addr_wire, encode_length by (done || by apply sock_addr_typed).
Qed.

Lemma decode_wire (e : Endpoint) : ep_ok ep_size e -> decode (ep_wire e) = sock_addr (A := A) e.
Proof. intros He. rewrite <- sock_addr_wire by done. by apply decode_encode, sock_addr_typed. Qed.

Lemma addrlen_len : addrlen A = AMut (le_enc 4 (as_u32 (Z.of_nat (length (encode (sock_zero (A := A))))))).
Proof. unfold addrlen. by rewrite encode_length by apply sock_zero_typed. Qed.

(** What the kernel writes over a zeroed address is the address. *)
Lemma wire_over_zero (e : Endpoint) :
  ep_ok ep_size e -> overwrite (encode (sock_zero (A := A))) (ep_wire e) = ep_wire (A := A) e.
Proof.
  intros He. rewrite <- sock_addr_wire by done. apply overwrite_full.
  - apply encode_bytes.
  - by rewrite !encode_length by (apply sock_zero_typed || by apply sock_addr_typed).
Qed.

Lemma turn_bind {X} fd e q (f : result unit -> Prog X) :
  ep_ok ep_size e ->
  turn (let* r := bind_to fd (sock_addr (A := A) e) in f r, mkSock fd None q) None
    (f (Ok tt), mkSock fd (Some e) q).
Proof.
  intros He. rewrite bind_to_eq, syscall3_eq, sock_addr_wire, (sizeof_len e) by done.
  eapply turn_sys; [reflexivity| |].
  - cbn [sock_call own sfd]. rewrite bool_decide_true by done. by rewrite ep_parse_wire.
  - done.
Qed.

Lemma turn_name {X} fd e q (f : result A -> Prog X) :
  ep_ok ep_size e ->
  turn (let* r := name_of fd in f r, mkSock fd (Some e) q) None
    (f (Ok (sock_addr e)), mkSock fd (Some e) q).
Proof.
  intros He. rewrite name_of_eq, syscall3_eq, addrlen_len.
  eapply turn_sys; [reflexivity| |].
  - cbn [sock_call own sfd]. by rewrite bool_decide_true by done.
  - cbn. by rewrite wire_over_zero, decode_wire.
Qed.

Lemma turn_send {X} fd data dest me q (f : result Z -> Prog X) :
  ep_ok ep_size dest -> Z.of_nat (length data) <= MAX_DATAGRAM ->
  turn (let* r := send_to fd data 0 (sock_addr (A := A) dest) in f r, mkSock fd (Some me) q)
    (Some (dest, (me, data))) (f (Ok (Z.of_nat (length data))), mkSock fd (Some me) q).
Proof.
  unfold MAX_DATAGRAM. intros Hd Hl.
  rewrite send_to_eq, syscall6_eq, sock_addr_wire, (sizeof_len dest) by done.
  eapply turn_sys; [reflexivity| |].
  - cbn [sock_call own sfd]. rewrite bool_decide_true, ep_parse_wire by done.
    unfold MAX_DATAGRAM. by destruct (Z.leb_spec (Z.of_nat (length data)) 65507); [|lia].
  - cbv beta. cbn [bind r_ret conform]. by rewrite from_ret_nat by lia.
Qed.

Lemma turn_recv {X} fd buf o from data q (f : list Z * result (Z * A) -> Prog X) :
  ep_ok ep_size from -> bytes_ok data -> Z.of_nat (length buf) < 2 ^ 63 ->
  let got := take (length buf) data in
  turn (let* r := recv_from fd buf 0 in f r, mkSock fd o ((from, data) :: q)) None
    (f (got ++ drop (length got) buf, Ok (Z.of_nat (length got), sock_addr from)), mkSock fd o q).
Proof.
  intros Hfrom Hdata Hbuf got. rewrite recv_from_eq, syscall6_eq, addrlen_len.
  assert (length got <= length buf)%nat as Hgot by (unfold got; rewrite length_take; lia).
  eapply turn_sys; [reflexivity| |].
  - cbn [sock_call own sfd inbox]. by rewrite bool_decide_true by done.
  - cbv zeta. fold got. cbn. rewrite wire_over_zero, decode_wire, overwrite_prefix by done.
    rewrite map_as_u8 by by apply Forall_take. rewrite from_ret_nat by lia. done.
Qed.

(** With nothing in the inbox a receive waits. *)
Lemma recv_waits {X} fd buf s (f : list Z * result (Z * A) -> Prog X) d n :
  inbox s = [] -> ~ node_step (let* r := recv_from fd buf 0 in f r, s) d n.
Proof.
  intros Hq. rewrite recv_from_eq, syscall6_eq, addrlen_len. intros Hs. inversion Hs as [?????? Hc]; subst.
  cbn [sock_call] in Hc. rewrite Hq in Hc. by destruct (bool_decide _).
Qed.

(** *** One turn of each loop *)

Lemma slice_got (buf data : list Z) :
  let got := take (length buf) data in
  slice_to (Z.of_nat (length got)) (got ++ drop (length got) buf) = Some got /\
  length (got ++ drop (length got) buf) = length buf.
Proof.
  intros got. assert (length got <= length buf)%nat by (unfold got; rewrite length_take; lia).
  rewrite slice_to_front, length_app, length_drop. split; [done|lia].
Qed.

Lemma serve_turn fuel fd buf o from data q :
  ep_ok ep_size from -> bytes_ok data -> Z.of_nat (length buf) < 2 ^ 63 ->
  exists buf', length buf' = length buf /\
  turn (serve (S fuel) fd buf, mkSock fd o ((from, data) :: q)) None
    (answering (serve fuel fd) fd buf' (take (length buf) data) (sock_addr from), mkSock fd o q).
Proof.
  intros Hf Hd Hb. destruct (slice_got buf data) as [Hs Hl]. eexists. split; [exact Hl|].
  cbn [serve]. eapply turn_eq; [by apply turn_recv|].
  cbv beta iota zeta. by rewrite Hs.
Qed.

Lemma chat_turn fd to name me m msgs buf got q :
  ep_ok ep_size to -> Z.of_nat (length m) <= MAX_DATAGRAM ->
  turn (chat fd (sock_addr to) name (m :: msgs) buf got, mkSock fd (Some me) q) (Some (to, (me, m)))
    (hearing (fun buf d => chat fd (sock_addr to) name msgs buf (got ++ [d])) fd buf, mkSock fd (Some me) q).
Proof. intros Hto Hm. cbn [chat]. eapply turn_eq; [by apply turn_send|]. done. Qed.

Lemma hearing_turn k fd buf o from data q :
  ep_ok ep_size from -> bytes_ok data -> Z.of_nat (length buf) < 2 ^ 63 ->
  exists buf', length buf' = length buf /\
  turn (hearing k fd buf, mkSock fd o ((from, data) :: q)) None
    (k buf' (from, take (length buf) data), mkSock fd o q).
Proof.
  intros Hf Hd Hb. destruct (slice_got buf data) as [Hs Hl]. eexists. split; [exact Hl|].
  eapply turn_eq; [by apply turn_recv|]. cbv beta iota zeta. rewrite Hs. cbn [or_panic bind].
  by rewrite endpoint_addr.
Qed.
End Net.

(** ** Everyone at once *)

Record Client := mkClient {
  c_fd : Z; c_ep : Endpoint; c_buf : list Z; c_msgs : list (list Z) }.

(** Where a client is: [Queued m] while its message waits at the server,
    [Answering m] while the server has it, [Answered m] when the answer is back. *)
Inductive Phase :=
| Start | Named | Ready | Queued (m : list Z) | Answering (m : list Z) | Answered (m : list Z).

Record CState := mkCState {
  client_of : Client; phase : Phase; cur_buf : list Z; said : list (list Z); todo : list (list Z) }.
Record SState := mkSState {
  fuel : nat; s_buf : list Z; at_hand : option (nat * list Z); waiting : list (nat * list Z) }.

Definition flight (p : Phase) : list (list Z) :=
  match p with Queued m | Answering m | Answered m => [m] | _ => [] end.

(** The calls a client still waits for. *)
Definition work (st : CState) : nat :=
  4 * length (todo st) +
  match phase st with
  | Start => 2 | Named => 1 | Ready => 0 | Queued _ => 3 | Answering _ => 2 | Answered _ => 1
  end.

Section Echo.
Context {A : Type} `{KA : KStruct A} `{H : Target} {F : Family A}.
Context (fd : Z) (sep : Endpoint) (room : nat) (cs : list Client).

Definition message_ok (m : list Z) : Prop := bytes_ok m /\ Z.of_nat (length m) <= MAX_DATAGRAM.
Definition client_ok (c : Client) : Prop :=
  ep_ok ep_size (c_ep c) /\ Forall message_ok (c_msgs c) /\ Z.of_nat (length (c_buf c)) < 2 ^ 63.

Context (Hsep : ep_ok ep_size sep) (Hcs : Forall client_ok cs).
Context (Hdup : NoDup (sep :: (c_ep <$> cs))) (Hroom : Z.of_nat room < 2 ^ 63).

(** What comes back to [c] of [m]: what fitted both buffers, from the server. *)
Definition echo (c : Client) (m : list Z) : Endpoint * list Z :=
  (sep, take (length (c_buf c)) (take room m)).

Definition chat_at (st : CState) : list Z -> list (Endpoint * list Z) -> Prog (result Log) :=
  chat (c_fd (client_of st)) (sock_addr (A := A) sep) (c_ep (client_of st)) (todo st).

Definition node_of (st : CState) : Node (result Log) :=
  let c := client_of st in
  let got := echo c <$> said st in
  let hear := hearing (fun buf d => chat_at st buf (got ++ [d])) (c_fd c) (cur_buf st) in
  let sock := mkSock (c_fd c) (Some (c_ep c)) in
  match phase st with
  | Start => (client (c_fd c) (c_ep c) sep (todo st) (cur_buf st), mkSock (c_fd c) None [])
  | Named => (naming (c_fd c) (sock_addr sep) (todo st) (cur_buf st), sock [])
  | Ready => (chat_at st (cur_buf st) got, sock [])
  | Queued _ | Answering _ => (hear, sock [])
  | Answered m => (hear, sock [(sep, take room m)])
  end.

Definition ep_at (i : nat) : Endpoint := default sep ((c_ep <$> cs) !! i).

Definition server_node (v : SState) : Node (result unit) :=
  (match at_hand v with
   | None => serve (fuel v) fd (s_buf v)
   | Some (i, m) => answering (serve (fuel v) fd) fd (s_buf v) (take room m) (sock_addr (A := A) (ep_at i))
   end,
   mkSock fd (Some sep) ((fun p => (ep_at p.1, p.2)) <$> waiting v)).

Definition net_of (v : SState) (sts : list CState) : Net (result unit) (result Log) :=
  mkNet (server_node v) (node_of <$> sts).

Definition st_ok (st : CState) : Prop :=
  c_msgs (client_of st) = said st ++ flight (phase st) ++ todo st /\
  length (cur_buf st) = length (c_buf (client_of st)) /\
  (phase st = Start \/ phase st = Named -> said st = []).

Record wf (v : SState) (sts : list CState) := {
  wf_clients : client_of <$> sts = cs;
  wf_states : Forall st_ok sts;
  wf_buf : length (s_buf v) = room;
  wf_nodup : NoDup (waiting v).*1;
  wf_waiting i m :
    (i, m) ∈ waiting v <-> exists st, sts !! i = Some st /\ phase st = Queued m;
  wf_hand i m :
    at_hand v = Some (i, m) <-> exists st, sts !! i = Some st /\ phase st = Answering m;
  wf_fuel : (sum_list (work <$> sts) <= fuel v)%nat }.

(** *** The state stays well formed *)

Lemma client_at v sts i st : wf v sts -> sts !! i = Some st -> cs !! i = Some (client_of st).
Proof. intros W Hi. by rewrite <- (wf_clients _ _ W), list_lookup_fmap, Hi. Qed.

Lemma ep_at_client v sts i st : wf v sts -> sts !! i = Some st -> ep_at i = c_ep (client_of st).
Proof. intros W Hi. unfold ep_at. by rewrite list_lookup_fmap, (client_at v sts i st W Hi). Qed.

Lemma client_at_ok v sts i st : wf v sts -> sts !! i = Some st -> client_ok (client_of st) /\ st_ok st.
Proof.
  intros W Hi. split.
  - exact (Forall_lookup_1 _ _ _ _ Hcs (client_at v sts i st W Hi)).
  - exact (Forall_lookup_1 _ _ _ _ (wf_states _ _ W) Hi).
Qed.

Lemma message_at v sts i st m :
  wf v sts -> sts !! i = Some st -> m ∈ flight (phase st) ++ todo st -> message_ok m.
Proof.
  intros W Hi Hm. destruct (client_at_ok v sts i st W Hi) as [(_ & Hms & _) (E & _)].
  rewrite E in Hms. apply Forall_app in Hms as [_ Hms].
  rewrite list.Forall_forall in Hms. by apply Hms.
Qed.

(** One client moves on by a call, and the server's books say so. *)
Lemma wf_move v sts i st v' st' :
  wf v sts -> sts !! i = Some st ->
  client_of st' = client_of st -> st_ok st' -> work st = S (work st') ->
  length (s_buf v') = room -> (fuel v <= S (fuel v'))%nat ->
  NoDup (waiting v').*1 ->
  (forall j m, (j, m) ∈ waiting v' <->
     (j = i /\ phase st' = Queued m) \/ (j <> i /\ (j, m) ∈ waiting v)) ->
  (forall j m, at_hand v' = Some (j, m) <->
     (j = i /\ phase st' = Answering m) \/ (j <> i /\ at_hand v = Some (j, m))) ->
  wf v' (<[i := st']> sts) /\
  (sum_list (work <$> <[i := st']> sts) < sum_list (work <$> sts))%nat.
Proof.
  intros W Hi Hc Hok Hwork Hbuf Hfuel Hnd Hq Hh.
  pose proof (sum_insert work sts i st st' Hi) as Hsum. pose proof (wf_fuel _ _ W) as Hf.
  pose proof (lookup_lt_Some _ _ _ Hi) as Hlt.
  assert (forall j (P : CState -> Prop),
    (exists st0, <[i := st']> sts !! j = Some st0 /\ P st0) <->
    (j = i /\ P st') \/ (j <> i /\ exists st0, sts !! j = Some st0 /\ P st0)) as Hlook.
  { intros j P. destruct (decide (j = i)) as [->|Hj].
    - rewrite list_lookup_insert_eq by done. naive_solver.
    - rewrite list_lookup_insert_ne by done. naive_solver. }
  split; [constructor|lia]; try done.
  - rewrite list_fmap_insert, Hc, list_insert_id; [apply W|]. by rewrite list_lookup_fmap, Hi.
  - apply Forall_insert; [apply W|done].
  - intros j m. rewrite Hq, (wf_waiting _ _ W), (Hlook j (fun st => phase st = Queued m)). done.
  - intros j m. rewrite Hh, (wf_hand _ _ W), (Hlook j (fun st => phase st = Answering m)). done.
  - lia.
Qed.

(** The same when the server is not involved. *)
Lemma wf_alone v sts i st st' :
  wf v sts -> sts !! i = Some st ->
  client_of st' = client_of st -> st_ok st' -> work st = S (work st') ->
  (forall m, phase st <> Queued m /\ phase st <> Answering m /\
             phase st' <> Queued m /\ phase st' <> Answering m) ->
  wf v (<[i := st']> sts) /\
  (sum_list (work <$> <[i := st']> sts) < sum_list (work <$> sts))%nat.
Proof.
  intros W Hi Hc Hok Hwork Hph. eapply wf_move; try done; try apply W; [lia| |].
  - intros j m. destruct (decide (j = i)) as [->|]; [|naive_solver].
    destruct (Hph m) as (? & _ & ? & _). rewrite (wf_waiting _ _ W). naive_solver.
  - intros j m. destruct (decide (j = i)) as [->|]; [|naive_solver].
    destruct (Hph m) as (_ & ? & _ & ?). rewrite (wf_hand _ _ W). naive_solver.
Qed.

(** *** Deliveries *)

Lemma own_node st e : own (node_of st).2 = Some e -> e = c_ep (client_of st).
Proof. unfold node_of. destruct (phase st); simpl; congruence. Qed.

Lemma push_away {X} (n : Node X) dest d : own n.2 <> Some dest -> push dest d n = n.
Proof. intros. unfold push. by rewrite decide_False. Qed.

Lemma push_server v sts d :
  wf v sts -> push sep d <$> (node_of <$> sts) = node_of <$> sts.
Proof.
  intros W. apply list_eq. intros j. rewrite !list_lookup_fmap.
  destruct (sts !! j) as [st|] eqn:Hj; [|done]. cbn [fmap option_fmap option_map]. f_equal.
  apply push_away. intros Ho%own_node. apply list.NoDup_cons in Hdup as [Hn _]. apply Hn.
  rewrite Ho. apply list_elem_of_fmap. eexists. split; [done|].
  eapply list_elem_of_lookup_2, client_at; eauto.
Qed.

Lemma push_client v sts i st d :
  wf v sts -> sts !! i = Some st ->
  push (ep_at i) d <$> (node_of <$> sts) = <[i := push (ep_at i) d (node_of st)]> (node_of <$> sts).
Proof.
  intros W Hi. apply list_eq. intros j. destruct (decide (j = i)) as [->|Hj].
  - rewrite list_lookup_insert_eq by (rewrite length_fmap; by eapply lookup_lt_Some).
    by rewrite !list_lookup_fmap, Hi.
  - rewrite list_lookup_insert_ne by done. rewrite !list_lookup_fmap.
    destruct (sts !! j) as [st2|] eqn:Hj2; [|done]. cbn [fmap option_fmap option_map]. f_equal.
    apply push_away. intros Ho%own_node. apply Hj.
    rewrite (ep_at_client v sts i st W Hi) in Ho. apply list.NoDup_cons in Hdup as [_ Hnd].
    eapply NoDup_lookup; [exact Hnd| |]; rewrite list_lookup_fmap.
    + by rewrite (client_at v sts j st2 W Hj2).
    + rewrite (client_at v sts i st W Hi). simpl. by f_equal.
Qed.

(** *** Every call brings the clients nearer to their answers *)

Definition advances (sts : list CState) (w : Net (result unit) (result Log)) : Prop :=
  exists v' sts', w = net_of v' sts' /\ wf v' sts' /\
    (sum_list (work <$> sts') < sum_list (work <$> sts))%nat.

Lemma advances_alone v sts i st st' :
  wf v sts -> sts !! i = Some st ->
  client_of st' = client_of st -> st_ok st' -> work st = S (work st') ->
  (forall m, phase st <> Queued m /\ phase st <> Answering m /\
             phase st' <> Queued m /\ phase st' <> Answering m) ->
  advances sts (deliver None (mkNet (server_node v) (<[i := node_of st']> (node_of <$> sts)))).
Proof.
  intros W Hi Hc Hok Hwork Hph.
  destruct (wf_alone v sts i st st' W Hi Hc Hok Hwork Hph) as [W' Hlt].
  exists v, (<[i := st']> sts). split; [|done]. unfold net_of. by rewrite list_fmap_insert.
Qed.

(** The client sends [m]. *)
Lemma advances_sent v sts i c buf said m ms :
  let at_ := fun p td => mkCState c p buf said td in
  wf v sts -> sts !! i = Some (at_ Ready (m :: ms)) ->
  advances sts (deliver (Some (sep, (c_ep c, m)))
    (mkNet (server_node v) (<[i := node_of (at_ (Queued m) ms)]> (node_of <$> sts)))).
Proof.
  intros at_ W Hi. pose proof (ep_at_client v sts i _ W Hi) as Hep.
  destruct (client_at_ok v sts i _ W Hi) as [_ (E & Hl & _)].
  assert (forall m, (i, m) ∉ waiting v) as Hnew.
  { intros m' Hin. apply (wf_waiting _ _ W) in Hin as (st & Hi' & Hp). by simplify_eq. }
  set (v' := mkSState (fuel v) (s_buf v) (at_hand v) (waiting v ++ [(i, m)])).
  destruct (wf_move v sts i _ v' (at_ (Queued m) ms) W Hi) as [W' Hlt]; try done; try apply W.
  - split_and!; [done|done|by intros []].
  - unfold work. simpl. lia.
  - simpl. lia.
  - simpl. rewrite fmap_app. apply list.NoDup_app. split_and!; [apply W| |apply NoDup_singleton].
    intros j ([k m'] & -> & Hin)%list_elem_of_fmap Hj. apply list_elem_of_singleton in Hj.
    simpl in Hj. subst k. by eapply Hnew.
  - intros j m'. simpl. rewrite elem_of_app, list_elem_of_singleton.
    destruct (decide (j = i)) as [->|]; [specialize (Hnew m')|]; naive_solver.
  - intros j m'. simpl. destruct (decide (j = i)) as [->|]; [|naive_solver].
    rewrite (wf_hand _ _ W). naive_solver.
  - exists v', (<[i := at_ (Queued m) ms]> sts). split; [|done].
    unfold net_of, deliver. rewrite <- list_fmap_insert. cbn [server clients].
    rewrite (push_server v' _ _ W'). f_equal. unfold push, server_node. cbn.
    rewrite decide_True by done. rewrite fmap_app. cbn. by rewrite Hep.
Qed.

(** The server takes the first message. *)
Lemma advances_taken v sts i m q fuel' buf' :
  wf v sts -> at_hand v = None -> waiting v = (i, m) :: q -> fuel v = S fuel' -> length buf' = room ->
  advances sts (deliver None
    (mkNet (server_node (mkSState fuel' buf' (Some (i, m)) q)) (node_of <$> sts))).
Proof.
  intros W Hh Hq Hf Hb.
  destruct (proj1 (wf_waiting _ _ W i m)) as (st & Hi & Hp); [rewrite Hq; left|].
  destruct (client_at_ok v sts i st W Hi) as [_ (E & Hl & _)].
  destruct st as [c p buf said td]. simpl in Hp. subst p.
  pose proof (wf_nodup _ _ W) as Hnd. rewrite Hq in Hnd. apply list.NoDup_cons in Hnd as [Hn Hnd'].
  set (st' := mkCState c (Answering m) buf said td).
  destruct (wf_move v sts i _ (mkSState fuel' buf' (Some (i, m)) q) st' W Hi) as [W' Hlt]; try done.
  - split_and!; [done|done|by intros []].
  - unfold work. simpl. lia.
  - simpl. lia.
  - intros j m'. simpl. rewrite Hq, elem_of_cons. split.
    + intros Hin. right. split; [|by right]. intros ->. apply Hn.
      apply list_elem_of_fmap. by exists (i, m').
    + naive_solver.
  - intros j m'. simpl. rewrite Hh. naive_solver.
  - eexists _, (<[i := st']> sts). split; [|exact (conj W' Hlt)]. unfold net_of, deliver. f_equal.
    rewrite list_fmap_insert. symmetry. apply list_insert_id. by rewrite list_lookup_fmap, Hi.
Qed.

(** The server answers it. *)
Lemma advances_answered v sts i m :
  wf v sts -> at_hand v = Some (i, m) ->
  advances sts (deliver (Some (ep_at i, (sep, take room m)))
    (mkNet (server_node (mkSState (fuel v) (s_buf v) None (waiting v))) (node_of <$> sts))).
Proof.
  intros W Hh. destruct (proj1 (wf_hand _ _ W i m) Hh) as (st & Hi & Hp).
  destruct (client_at_ok v sts i st W Hi) as [_ (E & Hl & _)].
  pose proof (ep_at_client v sts i _ W Hi) as Hep.
  destruct st as [c p buf said td]. simpl in Hp. subst p.
  set (st' := mkCState c (Answered m) buf said td).
  set (v' := mkSState (fuel v) (s_buf v) None (waiting v)).
  destruct (wf_move v sts i _ v' st' W Hi) as [W' Hlt]; try done; try apply W.
  - split_and!; [done|done|by intros []].
  - unfold work. simpl. lia.
  - simpl. lia.
  - intros j m'. simpl. destruct (decide (j = i)) as [->|]; [|naive_solver].
    rewrite (wf_waiting _ _ W). naive_solver.
  - intros j m'. simpl. rewrite Hh. naive_solver.
  - exists v', (<[i := st']> sts). split; [|done]. unfold net_of, deliver. cbn [server clients].
    rewrite (push_client v sts i _ _ W Hi), list_fmap_insert. f_equal.
    + apply push_away. simpl. intros [= Heq]. apply list.NoDup_cons in Hdup as [Hn _]. apply Hn.
      rewrite Heq, Hep. apply list_elem_of_fmap. eexists. split; [done|].
      exact (list_elem_of_lookup_2 _ _ _ (client_at v sts i _ W Hi)).
    + f_equal. unfold push, node_of. cbn. rewrite Hep. cbn. by rewrite decide_True.
Qed.

(** *** What each can do *)

(** The client's next call, if it is not waiting and has not finished. *)
Lemma client_advances v sts i st :
  wf v sts -> sts !! i = Some st ->
  (exists d n', turn (node_of st) d n' /\
     advances sts (deliver d (mkNet (server_node v) (<[i := n']> (node_of <$> sts))))) \/
  ((forall d n', ~ node_step (node_of st) d n') /\
   (phase st = Ready /\ todo st = [] \/ exists m, phase st = Queued m \/ phase st = Answering m)).
Proof.
  intros W Hi. destruct (client_at_ok v sts i st W Hi) as [(Hep & _ & Hbuf) (E & Hl & Hsaid)].
  pose proof (fun m => message_at v sts i st m W Hi) as Hm. rewrite <- Hl in Hbuf.
  destruct st as [c [| | |m|m|m] buf sd td]; cbn [client_of phase cur_buf said todo flight] in *;
    try (right; split; [intros d n'; by apply recv_waits|by eauto]).
  - left. do 2 eexists. split; [by apply turn_bind|].
    apply (advances_alone v sts i _ (mkCState c Named buf sd td) W Hi); [done| |unfold work; simpl; lia|done].
    split_and!; [done|done|by eauto].
  - left. do 2 eexists. rewrite (Hsaid (or_intror eq_refl)) in *.
    split; [by apply (turn_name (X := result Log))|]. cbv beta iota. rewrite endpoint_addr by done.
    apply (advances_alone v sts i _ (mkCState c Ready buf [] td) W Hi); [done| |unfold work; simpl; lia|done].
    split_and!; [done|done|by intros []].
  - destruct td as [|m ms].
    + right. split; [|by left]. intros d n' Hs. inversion Hs.
    + left. destruct (Hm m) as [_ Hmax]; [by left|]. do 2 eexists.
      split; [by apply chat_turn|]. by apply (advances_sent v sts i c buf sd m ms).
  - left. destruct (Hm m) as [Hb _]; [by left|].
    destruct (hearing_turn (fun b d => chat_at (mkCState c (Answered m) buf sd td) b ((echo c <$> sd) ++ [d]))
      (c_fd c) buf (Some (c_ep c)) sep (take room m) []) as (buf' & Hl' & Ht);
      [done|by apply Forall_take|done|].
    do 2 eexists. split; [exact Ht|].
    pose proof (advances_alone v sts i _ (mkCState c Ready buf' (sd ++ [m]) td) W Hi) as Ha.
    replace (node_of (mkCState c Ready buf' (sd ++ [m]) td)) with
      (chat_at (mkCState c (Answered m) buf sd td) buf'
         ((echo c <$> sd) ++ [(sep, take (length buf) (take room m))]),
       mkSock (c_fd c) (Some (c_ep c)) []) in Ha
      by (unfold node_of, echo; simpl; by rewrite fmap_app, Hl).
    apply Ha; [done| |unfold work; simpl; lia|done].
    split_and!; simpl; [by rewrite <- app_assoc|congruence|by intros []].
Qed.

Lemma hand_facts v sts i m st :
  wf v sts -> sts !! i = Some st -> m ∈ flight (phase st) ++ todo st ->
  ep_ok ep_size (ep_at i) /\ message_ok m.
Proof.
  intros W Hi Hm. split; [|by eapply message_at].
  rewrite (ep_at_client v sts i st W Hi). apply (client_at_ok v sts i st W Hi).
Qed.

(** The server's next call, if it has a datagram. *)
Lemma server_advances v sts :
  wf v sts -> (0 < sum_list (work <$> sts))%nat ->
  (exists d n', turn (server_node v) d n' /\ advances sts (deliver d (mkNet n' (node_of <$> sts)))) \/
  ((forall d n', ~ node_step (server_node v) d n') /\ at_hand v = None /\ waiting v = []).
Proof.
  intros W Hpos. pose proof (wf_fuel _ _ W) as Hf. pose proof (wf_buf _ _ W) as Hb.
  destruct v as [[|k] b [[i m]|] q]; cbn [fuel s_buf] in *; try lia.
  - left. destruct (proj1 (wf_hand _ _ W i m) eq_refl) as (st & Hi & Hp).
    destruct (hand_facts _ _ i m st W Hi) as [He [_ Hm]]; [rewrite Hp; by left|].
    do 2 eexists. split.
    + unfold server_node. cbn [at_hand]. eapply turn_eq; [apply turn_send|reflexivity]; [done|].
      rewrite length_take. lia.
    + by apply (advances_answered _ _ i m W).
  - destruct q as [|[i m] q].
    + right. split; [|done]. intros d n'. by apply recv_waits.
    + left. destruct (proj1 (wf_waiting _ _ W i m)) as (st & Hi & Hp); [by left|].
      destruct (hand_facts _ _ i m st W Hi) as [He [Hbm _]]; [rewrite Hp; by left|].
      destruct (serve_turn k fd b (Some sep) (ep_at i) m ((fun p => (ep_at p.1, p.2)) <$> q) He Hbm)
        as (b' & Hl & Ht); [by rewrite Hb|]. do 2 eexists. split; [exact Ht|].
      rewrite Hb. apply (advances_taken _ _ i m q k b' W); try done. by rewrite Hl.
Qed.

Definition finished (w : Net (result unit) (result Log)) : Prop :=
  fst <$> clients w = (fun c => Ret (Ok (c_ep c, echo c <$> c_msgs c))) <$> cs.

Lemma all_done v sts : wf v sts -> sum_list (work <$> sts) = 0%nat -> finished (net_of v sts).
Proof.
  intros W Hz. unfold finished, net_of. cbn [clients]. rewrite <- (wf_clients _ _ W), <- !list_fmap_compose.
  pose proof (wf_states _ _ W) as Hok. clear W.
  induction Hok as [|st sts (E & _ & _) Hok IH]; [done|].
  rewrite fmap_cons in Hz. simpl in Hz. rewrite !fmap_cons. f_equal; [clear IH|apply IH; lia].
  unfold compose, work in *. destruct st as [c p buf sd td].
  destruct td; destruct p; simpl in *; try lia. by rewrite E, app_nil_r.
Qed.

Lemma net_ends n : forall v sts,
  (sum_list (work <$> sts) <= n)%nat -> wf v sts -> eventually net_step finished (net_of v sts).
Proof.
  induction n as [|n IH]; intros v sts Hn W.
  { apply ev_now, all_done; [done|lia]. }
  destruct (decide (sum_list (work <$> sts) = 0%nat)) as [Hz|Hz]; [by apply ev_now, all_done|].
  assert (forall w, advances sts w -> eventually net_step finished w) as Hgo.
  { intros w (v' & sts' & -> & W' & Hlt). apply IH; [lia|done]. }
  pose proof (server_advances v sts W ltac:(lia)) as Hserver. apply ev_later.
  - destruct (sum_pos work sts) as (i & st & Hi & Hwork); [lia|].
    destruct (client_advances v sts i st W Hi) as [(d & n' & [Hs _] & _)|[_ Hst]].
    { eexists. eapply client_steps; [|exact Hs]. by rewrite list_lookup_fmap, Hi. }
    destruct Hserver as [(d & n' & [Hs _] & _)|(_ & Hh & Hq)]; [by eexists; eapply server_steps|].
    exfalso. destruct Hst as [[Hp Ht]|[m [Hp|Hp]]].
    + unfold work in Hwork. rewrite Hp, Ht in Hwork. simpl in Hwork. lia.
    + assert ((i, m) ∈ waiting v) as Hin by (apply (wf_waiting _ _ W); eauto).
      rewrite Hq in Hin. by apply elem_of_nil in Hin.
    + assert (at_hand v = Some (i, m)) by (apply (wf_hand _ _ W); eauto). congruence.
  - intros w Hs. unfold net_of in Hs. inversion Hs as [? d n' ? Hs'|? ? i ? d n' Hi' Hs']; subst.
    + destruct Hserver as [(d2 & n2 & [_ Hdet] & Ha)|(Hno & _)]; [|by apply Hno in Hs'].
      destruct (Hdet _ _ Hs') as [-> ->]. by apply Hgo.
    + rewrite list_lookup_fmap in Hi'. destruct (sts !! i) as [st|] eqn:Hi; [|done].
      injection Hi' as <-.
      destruct (client_advances v sts i st W Hi) as [(d2 & n2 & [_ Hdet] & Ha)|[Hno _]]; [|by apply Hno in Hs'].
      destruct (Hdet _ _ Hs') as [-> ->]. by apply Hgo.
Qed.
End Echo.

(** The server bound and listening, the clients yet to bind. *)
Definition net_start `{Family A} (k : nat) (fd : Z) (sep : Endpoint) (buf : list Z)
    (cs : list Client) : Net (result unit) (result Log) :=
  mkNet (serve (A := A) k fd buf, mkSock fd (Some sep) [])
    ((fun c => (client (A := A) (c_fd c) (c_ep c) sep (c_msgs c) (c_buf c), mkSock (c_fd c) None [])) <$> cs).

(** Calls the clients make and wait for in all. *)
Definition calls_needed (cs : list Client) : nat :=
  sum_list ((fun c => 4 * length (c_msgs c) + 2)%nat <$> cs).

(** On a network that loses, repeats and reorders nothing, with room for every
    datagram, and when no call fails: however their calls interleave, every client
    ends with its own name, and with the answer to each of its messages, in order,
    from the server's address, cut to the shorter of the two buffers.  What holds
    without those assumptions is in [DatagramSpec.v]. *)
Lemma answered_reliably `{Family A} k fd (sep : Endpoint) buf cs :
  ep_ok ep_size sep -> Forall client_ok cs -> NoDup (sep :: (c_ep <$> cs)) ->
  Z.of_nat (length buf) < 2 ^ 63 -> (calls_needed cs <= k)%nat ->
  eventually net_step
    (fun w => fst <$> clients w =
       (fun c => Ret (Ok (c_ep c, echo sep (length buf) c <$> c_msgs c))) <$> cs)
    (net_start k fd sep buf cs).
Proof.
  intros Hsep Hcs Hdup Hroom Hk.
  set (sts := (fun c => mkCState c Start (c_buf c) [] (c_msgs c)) <$> cs).
  assert (work <$> sts = (fun c => 4 * length (c_msgs c) + 2)%nat <$> cs) as Hwork.
  { unfold sts. by rewrite <- list_fmap_compose. }
  assert (forall i st, sts !! i = Some st -> phase st = Start) as Hstart.
  { intros i st. unfold sts. rewrite list_lookup_fmap. destruct (cs !! i); [|done]. by intros [= <-]. }
  assert (net_start k fd sep buf cs = net_of fd sep (length buf) cs (mkSState k buf None []) sts) as ->.
  { unfold net_start, net_of, sts. f_equal. by rewrite <- list_fmap_compose. }
  apply (net_ends fd sep (length buf) cs Hsep Hcs Hdup Hroom _ _ _ (le_n _)). constructor; try done.
  - unfold sts. rewrite <- list_fmap_compose. apply list_fmap_id.
  - apply Forall_fmap, Forall_true. by intros c.
  - constructor.
  - intros i m. rewrite elem_of_nil. split; [done|]. intros (st & ?%Hstart & ?). congruence.
  - intros i m. split; [done|]. intros (st & ?%Hstart & ?). congruence.
  - by rewrite Hwork.
Qed.
