(* ===== verification/DatagramSpec.v ===== *)
(** The datagram server and its clients of [SocketSpec.v] on the network [udp(7)]
    describes: it may lose, repeat, delay and reorder datagrams, and any call may
    fail.  What a client that comes to its end has then still learnt. *)

From Stdlib Require Import ZArith Lia.
From stdpp Require Import base list option numbers strings relations.
From S2P Require Import Prelude Prog Layout Asm Arch FdSpec Socket SocketSpec.

(** ** The network

    A datagram once sent, to [d.1] from [d.2.1], stays in the soup: whoever is bound
    to its destination may receive it never, once, or any number of times, and at any
    time. *)
Definition Soup : Type := list (Endpoint * (Endpoint * list Z)).
Record UNet (X Y : Type) := mkUNet { u_server : Node X; u_clients : list (Node Y); soup : Soup }.
#[global] Arguments mkUNet {_ _} _ _ _.
#[global] Arguments u_server {_ _} _.
#[global] Arguments u_clients {_ _} _.
#[global] Arguments soup {_ _} _.

Section Net.
Context {A : Type} `{KA : KStruct A} `{H : Target} {F : Family A}.

(** Datagrams [q] that can have arrived at the socket [s]. *)
Definition arrived (net : Soup) (s : Sock) (q : list (Endpoint * list Z)) : Prop :=
  forall g, g ∈ q -> exists e, own s = Some e /\ (e, g) ∈ net.

(** One call of a process: with what happens to have arrived, of which it takes the
    first if it receives; or the call fails, with any error. *)
Inductive u_node {X} (net : Soup) : Node X -> option (Endpoint * (Endpoint * list Z)) -> Node X -> Prop :=
| u_calls p s q d p' s' :
    arrived net s q -> node_step (A := A) (p, mkSock (sfd s) (own s) q) d (p', s') ->
    u_node net (p, s) d (p', mkSock (sfd s') (own s') [])
| u_fails c k s e outs :
    errno_in_range e -> u_node net (Sys c k, s) None (k (conform c (mkReply (- code e) outs)), s).

Definition sent (d : option (Endpoint * (Endpoint * list Z))) (net : Soup) : Soup :=
  match d with Some d => d :: net | None => net end.

Inductive u_step {X Y} : UNet X Y -> UNet X Y -> Prop :=
| u_server_steps n d n' ns net :
    u_node net n d n' -> u_step (mkUNet n ns net) (mkUNet n' ns (sent d net))
| u_client_steps m ns i n d n' net :
    ns !! i = Some n -> u_node net n d n' ->
    u_step (mkUNet m ns net) (mkUNet m (<[i := n']> ns) (sent d net)).

(** ** Calls that fail *)

Definition fails {X} (p : Prog (result X)) : Prop :=
  forall c k e outs, p = Sys c k -> errno_in_range e ->
  k (conform c (mkReply (- code e) outs)) = Ret (Err e).

Ltac solve_fails :=
  let Ep := fresh in let He := fresh in
  intros ? ? e ? Ep He; injection Ep as <- <-; unfold ret_unit; cbn [bind bind_ok];
  match goal with |- context [from_ret ?x] =>
    replace (from_ret x) with (Err e : result Z) by (symmetry; exact (from_ret_fail e He)) end;
  reflexivity.

Lemma client_fails fd me to msgs buf : fails (client (A := A) fd me to msgs buf).
Proof. unfold client, fails. rewrite bind_to_eq, syscall3_eq. solve_fails. Qed.

Lemma naming_fails fd (to : A) msgs buf : fails (naming (A := A) fd to msgs buf).
Proof. unfold naming, fails. rewrite name_of_eq, syscall3_eq. solve_fails. Qed.

Lemma chat_fails fd (to : A) name m msgs buf got : fails (chat (A := A) fd to name (m :: msgs) buf got).
Proof. cbn [chat]. unfold fails. rewrite send_to_eq, syscall6_eq. solve_fails. Qed.

Lemma hearing_fails k fd buf : fails (hearing (A := A) k fd buf).
Proof. unfold hearing, fails. rewrite recv_from_eq, syscall6_eq. solve_fails. Qed.

Lemma answering_fails s fd buf data from : fails (answering (A := A) s fd buf data from).
Proof. unfold answering, fails. rewrite send_to_eq, syscall6_eq. solve_fails. Qed.

Lemma serve_fails fuel fd buf : fails (serve (A := A) (S fuel) fd buf).
Proof. cbn [serve]. unfold fails. rewrite recv_from_eq, syscall6_eq. solve_fails. Qed.

(** A step of a process is the only one its call has with what has arrived, or the
    call's failure. *)
Lemma u_node_turn {X} net (p : Prog (result X)) s d n' :
  fails p -> u_node net (p, s) d n' ->
  (exists e, d = None /\ n' = (Ret (Err e), s)) \/
  exists q, arrived net s q /\ (exists d' n2, node_step (A := A) (p, mkSock (sfd s) (own s) q) d' n2) /\
    forall d' p' s', turn (A := A) (p, mkSock (sfd s) (own s) q) d' (p', s') ->
    d = d' /\ n' = (p', mkSock (sfd s') (own s') []).
Proof.
  intros Hf Hs. inversion Hs as [? ? q ? p1 s1 Hq Hn|c k ? e outs He]; subst.
  - right. exists q. split_and!; [done|by do 2 eexists|]. intros d' p' s' [_ Hdet].
    destruct (Hdet _ _ Hn) as [-> [= -> ->]]. done.
  - left. exists e. split; [done|]. f_equal. by apply Hf.
Qed.

Lemma u_node_ret {X} net (a : X) s d n' : ~ u_node net (Ret a, s) d n'.
Proof. intros Hs. inversion Hs as [? ? ? ? ? ? _ Hn|]; subst. inversion Hn. Qed.
End Net.

(** ** What is in the soup, and where each process is *)

Section Answers.
Context {A : Type} `{KA : KStruct A} `{H : Target} {F : Family A}.
Context (fd : Z) (sep : Endpoint) (room : nat) (cs : list Client).
Context (Hsep : ep_ok ep_size sep) (Hcs : Forall (client_ok (A := A)) cs).
Context (Hdup : NoDup (sep :: (c_ep <$> cs))) (Hroom : Z.of_nat room < 2 ^ 63).

Definition asked (net : Soup) (c : Client) (m : list Z) : Prop := (sep, (c_ep c, m)) ∈ net.

(** Only the first [k] messages of [c] have been sent. *)
Definition asked_only (net : Soup) (c : Client) (k : nat) : Prop :=
  forall m, asked net c m -> exists j, (j < k)%nat /\ c_msgs c !! j = Some m.

(** Each datagram kept is the server's answer to a message sent by then. *)
Definition log_ok (c : Client) (got : list (Endpoint * list Z)) : Prop :=
  forall k d, got !! k = Some d ->
  exists j m, (j <= k)%nat /\ c_msgs c !! j = Some m /\ d = echo sep room c m.

Definition soup_ok (net : Soup) : Prop :=
  forall e g, (e, g) ∈ net -> exists c m, c ∈ cs /\ message_ok m /\ asked net c m /\
    ((e = sep /\ g = (c_ep c, m)) \/ (e = c_ep c /\ g = (sep, take room m))).

Definition chat_from (c : Client) (k : nat) (buf : list Z) (got : list (Endpoint * list Z)) :
    Prog (result Log) :=
  chat (c_fd c) (sock_addr (A := A) sep) (c_ep c) (drop k (c_msgs c)) buf got.

Inductive stage (net : Soup) (c : Client) : Node (result Log) -> Prop :=
| at_start :
    asked_only net c 0 ->
    stage net c (client (A := A) (c_fd c) (c_ep c) sep (c_msgs c) (c_buf c), mkSock (c_fd c) None [])
| at_name :
    asked_only net c 0 ->
    stage net c (naming (c_fd c) (sock_addr (A := A) sep) (c_msgs c) (c_buf c), mkSock (c_fd c) (Some (c_ep c)) [])
| at_chat k buf got :
    asked_only net c k -> (k <= length (c_msgs c))%nat -> length buf = length (c_buf c) ->
    length got = k -> log_ok c got ->
    stage net c (chat_from c k buf got, mkSock (c_fd c) (Some (c_ep c)) [])
| at_hear k buf got :
    asked_only net c (S k) -> (k < length (c_msgs c))%nat -> length buf = length (c_buf c) ->
    length got = k -> log_ok c got ->
    stage net c (hearing (A := A) (fun buf d => chat_from c (S k) buf (got ++ [d])) (c_fd c) buf,
                 mkSock (c_fd c) (Some (c_ep c)) [])
| at_error e s : stage net c (Ret (Err e), s).

Inductive serving (net : Soup) : Node (result unit) -> Prop :=
| at_serve f buf :
    length buf = room -> serving net (serve (A := A) f fd buf, mkSock fd (Some sep) [])
| at_answer f buf c m :
    length buf = room -> c ∈ cs -> message_ok m -> asked net c m ->
    serving net (answering (serve (A := A) f fd) fd buf (take room m) (sock_addr (A := A) (c_ep c)),
                 mkSock fd (Some sep) [])
| down e s : serving net (Ret (Err e), s).

Record unet_ok (w : UNet (result unit) (result Log)) : Prop := {
  uo_soup : soup_ok (soup w);
  uo_server : serving (soup w) (u_server w);
  uo_clients : Forall2 (stage (soup w)) cs (u_clients w) }.

(** *** Growing the soup *)

Lemma asked_more net c m d : asked net c m -> asked (sent d net) c m.
Proof. intros Ha. destruct d; [by right|done]. Qed.

Lemma serving_more net n d : serving net n -> serving (sent d net) n.
Proof. intros Hs. destruct Hs; econstructor; eauto using asked_more. Qed.

Lemma client_ep c : c ∈ cs -> c_ep c <> sep.
Proof.
  intros Hc E. apply list.NoDup_cons in Hdup as [Hn _]. apply Hn. rewrite <- E.
  apply list_elem_of_fmap. by exists c.
Qed.

Lemma same_client c c' : c ∈ cs -> c' ∈ cs -> c_ep c = c_ep c' -> c = c'.
Proof.
  intros [i Hi]%list_elem_of_lookup_1 [j Hj]%list_elem_of_lookup_1 E.
  apply list.NoDup_cons in Hdup as [_ Hnd].
  assert (i = j) as -> by (eapply (NoDup_lookup (c_ep <$> cs)); [done| |];
    rewrite list_lookup_fmap; [by rewrite Hi|by rewrite Hj; simpl; rewrite E]).
  congruence.
Qed.

Lemma client_facts c : c ∈ cs -> client_ok (A := A) c.
Proof. intros Hc. rewrite list.Forall_forall in Hcs. by apply Hcs. Qed.

(** A datagram that is not a message of [c] changes nothing for [c]. *)
Lemma asked_only_more net c k d :
  asked_only net c k -> (forall m, d <> Some (sep, (c_ep c, m))) -> asked_only (sent d net) c k.
Proof.
  intros Ha Hd m. unfold asked. destruct d as [d|]; [|apply Ha].
  intros [Hm|Hm]%elem_of_cons; [|by apply Ha]. by destruct (Hd m); rewrite Hm.
Qed.

Lemma stage_more net c n d :
  stage net c n -> (forall m, d <> Some (sep, (c_ep c, m))) -> stage (sent d net) c n.
Proof. intros Hs Hd. destruct Hs; econstructor; eauto using asked_only_more. Qed.

Lemma stages_more net ns d :
  Forall2 (stage net) cs ns -> (forall c m, c ∈ cs -> d <> Some (sep, (c_ep c, m))) ->
  Forall2 (stage (sent d net)) cs ns.
Proof.
  intros Hs Hd. apply Forall2_lookup. intros i. rewrite Forall2_lookup in Hs.
  specialize (Hs i). destruct (cs !! i) as [c|] eqn:Hi; inversion Hs; subst; constructor.
  apply stage_more; [done|]. intros m. apply Hd. by eapply list_elem_of_lookup_2.
Qed.

Lemma soup_more net e g c m :
  soup_ok net -> c ∈ cs -> message_ok m -> asked ((e, g) :: net) c m ->
  (e = sep /\ g = (c_ep c, m)) \/ (e = c_ep c /\ g = (sep, take room m)) -> soup_ok ((e, g) :: net).
Proof.
  intros Hok Hc Hm Ha Hg e' g' [[= -> ->]|Hin]%elem_of_cons; [by exists c, m|].
  destruct (Hok e' g' Hin) as (c' & m' & Hc' & Hm' & Ha' & Hg'). exists c', m'. split_and!; try done.
  by right.
Qed.

(** *** What can arrive *)

Lemma at_server net q from data :
  soup_ok net -> arrived net (mkSock fd (Some sep) []) ((from, data) :: q) ->
  exists c, from = c_ep c /\ c ∈ cs /\ message_ok data /\ asked net c data.
Proof.
  intros Hok Hq. destruct (Hq (from, data)) as (e & [= <-] & Hin); [by left|].
  destruct (Hok _ _ Hin) as (c & m & Hc & Hm & Ha & [[_ [= -> ->]]|[E _]]); [by exists c|].
  by destruct (client_ep c Hc).
Qed.

Lemma at_client net c q from data :
  c ∈ cs -> soup_ok net -> arrived net (mkSock (c_fd c) (Some (c_ep c)) []) ((from, data) :: q) ->
  from = sep /\ exists m, data = take room m /\ message_ok m /\ asked net c m.
Proof.
  intros Hc Hok Hq. destruct (Hq (from, data)) as (e & [= <-] & Hin); [by left|].
  destruct (Hok _ _ Hin) as (c' & m & Hc' & Hm & Ha & [[E _]|[E [= -> ->]]]).
  - by destruct (client_ep c Hc).
  - rewrite (same_client c c' Hc Hc' E). eauto.
Qed.

(** *** One call of each *)

Lemma server_keeps net n d n' :
  soup_ok net -> serving net n -> u_node (A := A) net n d n' ->
  serving (sent d net) n' /\ soup_ok (sent d net) /\ forall c m, c ∈ cs -> d <> Some (sep, (c_ep c, m)).
Proof.
  intros Hok Hn Hs. destruct Hn as [[|f] buf Hb|f buf c m Hb Hc Hm Ha|e s].
  - inversion Hs as [? ? ? ? ? ? _ Hn|]; subst. inversion Hn.
  - apply u_node_turn in Hs as [(e & -> & ->)|(q & Hq & (d' & n2 & Hn) & Hdet)]; [|
      destruct q as [|[from data] q]; [by apply recv_waits in Hn|]|apply serve_fails].
    { split_and!; [constructor|done|done]. }
    destruct (at_server net q from data Hok Hq) as (c & -> & Hc & Hm & Ha).
    destruct (client_facts c Hc) as (He & _ & _). destruct Hm as [Hbytes Hlen].
    destruct (serve_turn f fd buf (Some sep) (c_ep c) data q He Hbytes) as (buf' & Hb' & Ht); [by rewrite Hb|].
    destruct (Hdet _ _ _ Ht) as [-> ->]. rewrite Hb. split_and!; [|done|done].
    apply at_answer; [congruence|done|done|done].
  - destruct (client_facts c Hc) as (He & _ & _).
    apply u_node_turn in Hs as [(e & -> & ->)|(q & Hq & _ & Hdet)]; [| |apply answering_fails].
    { split_and!; [constructor|done|done]. }
    edestruct Hdet as [-> ->].
    { unfold answering, bind_ok. apply turn_send; [done|]. rewrite length_take. destruct Hm. lia. }
    split_and!.
    + by apply at_serve.
    + eapply soup_more; [done|exact Hc|exact Hm|by right|by right].
    + intros c' m' Hc' [= E _ _]. by apply (client_ep c).
  - by apply u_node_ret in Hs.
Qed.

Definition others (c : Client) (d : option (Endpoint * (Endpoint * list Z))) : Prop :=
  forall c' m, c' ∈ cs -> c' <> c -> d <> Some (sep, (c_ep c', m)).

(** The client sends its next message. *)
Lemma sends net c k buf got d n' :
  c ∈ cs -> soup_ok net -> (k < length (c_msgs c))%nat -> asked_only net c k ->
  length buf = length (c_buf c) -> length got = k -> log_ok c got ->
  u_node (A := A) net (chat_from c k buf got, mkSock (c_fd c) (Some (c_ep c)) []) d n' ->
  stage (sent d net) c n' /\ soup_ok (sent d net) /\ others c d.
Proof.
  intros Hc Hok Hk Ha Hb Hg Hl Hs. destruct (lookup_lt_is_Some_2 _ _ Hk) as [m Hm].
  destruct (client_facts c Hc) as (He & Hms & _).
  pose proof (Forall_lookup_1 _ _ _ _ Hms Hm) as Hmok.
  unfold chat_from in Hs. rewrite (drop_S _ _ _ Hm) in Hs.
  apply u_node_turn in Hs as [(e & -> & ->)|(q & Hq & _ & Hdet)]; [| |apply chat_fails].
  { split_and!; [constructor|done|done]. }
  edestruct Hdet as [-> ->]; [apply chat_turn; [done|apply Hmok]|]. split_and!.
  - apply at_hear; try done. intros m' [[= ->]|Hin]%elem_of_cons; [exists k; split; [lia|done]|].
    destruct (Ha m' Hin) as (j & Hj & ?). exists j. split; [lia|done].
  - eapply soup_more; [done|exact Hc|exact Hmok|by left|by left].
  - intros c' m' Hc' Hne [= E _]. by apply Hne, same_client.
Qed.

(** The client hears an answer. *)
Lemma hears net c k buf got d n' :
  c ∈ cs -> soup_ok net -> (k < length (c_msgs c))%nat -> asked_only net c (S k) ->
  length buf = length (c_buf c) -> length got = k -> log_ok c got ->
  u_node (A := A) net (hearing (A := A) (fun buf d => chat_from c (S k) buf (got ++ [d])) (c_fd c) buf,
    mkSock (c_fd c) (Some (c_ep c)) []) d n' ->
  stage (sent d net) c n' /\ soup_ok (sent d net) /\ others c d.
Proof.
  intros Hc Hok Hk Ha Hb Hg Hl Hs. destruct (client_facts c Hc) as (He & Hms & Hbuf).
  apply u_node_turn in Hs as [(e & -> & ->)|(q & Hq & (d' & n2 & Hn) & Hdet)]; [| |apply hearing_fails].
  { split_and!; [constructor|done|done]. }
  destruct q as [|[from data] q]; [by apply recv_waits in Hn|].
  destruct (at_client net c q from data Hc Hok Hq) as (-> & m & -> & Hm & Hasked).
  edestruct (hearing_turn (A := A) (fun buf d => chat_from c (S k) buf (got ++ [d])) (c_fd c) buf
    (Some (c_ep c)) sep (take room m) q) as (buf' & Hb' & Ht);
    [done|apply Forall_take, Hm|by rewrite Hb|].
  destruct (Hdet _ _ _ Ht) as [-> ->]. split_and!; [|done|done].
  apply at_chat; [done|lia|congruence|rewrite length_app; simpl; lia|].
  intros i x Hx. apply lookup_app_Some in Hx as [Hx|[Hi Hx]]; [by apply Hl|].
  apply list_lookup_singleton_Some in Hx as [Hi0 <-].
  destruct (Ha m Hasked) as (j & Hj & Hjm). exists j, m. split_and!; [lia|done|].
  unfold echo. by rewrite Hb.
Qed.

Lemma client_keeps net c n d n' :
  c ∈ cs -> soup_ok net -> stage net c n -> u_node (A := A) net n d n' ->
  stage (sent d net) c n' /\ soup_ok (sent d net) /\ others c d.
Proof.
  intros Hc Hok Hn Hs. destruct (client_facts c Hc) as (He & _).
  destruct Hn as [Ha|Ha|k buf got Ha Hk Hb Hg Hl|k buf got Ha Hk Hb Hg Hl|e s].
  - apply u_node_turn in Hs as [(e & -> & ->)|(q & Hq & _ & Hdet)]; [| |apply client_fails].
    { split_and!; [constructor|done|done]. }
    edestruct Hdet as [-> ->]; [by apply turn_bind|]. split_and!; [by apply at_name|done|done].
  - apply u_node_turn in Hs as [(e & -> & ->)|(q & Hq & _ & Hdet)]; [| |apply naming_fails].
    { split_and!; [constructor|done|done]. }
    edestruct Hdet as [-> ->]; [by apply (turn_name (X := result Log))|]. cbv beta iota.
    rewrite endpoint_addr by done. split_and!; [|done|done].
    by apply (at_chat _ _ 0 (c_buf c) []); [|lia| |..].
  - destruct (decide (k = length (c_msgs c))) as [->|].
    + unfold chat_from in Hs. rewrite drop_all in Hs. by apply u_node_ret in Hs.
    + by apply (sends net c k buf got); [..|lia| | | | |].
  - by apply (hears net c k buf got).
  - by apply u_node_ret in Hs.
Qed.

Lemma u_step_keeps w w' : unet_ok w -> u_step (A := A) w w' -> unet_ok w'.
Proof.
  intros [Hok Hsv Hcl] Hs.
  destruct Hs as [n d n' ns net Hn|m ns i n d n' net Hi Hn]; cbn [soup u_server u_clients] in *.
  - destruct (server_keeps _ _ _ _ Hok Hsv Hn) as (Hsv' & Hok' & Hd).
    constructor; [done|done|]. by apply stages_more.
  - destruct (Forall2_lookup_r _ _ _ _ _ Hcl Hi) as (c & Hci & Hst).
    pose proof (list_elem_of_lookup_2 _ _ _ Hci) as Hc.
    destruct (client_keeps _ _ _ _ _ Hc Hok Hst Hn) as (Hst' & Hok' & Hd).
    constructor; cbn [soup u_server u_clients]; [done|by apply serving_more|].
    apply Forall2_lookup. intros j. rewrite Forall2_lookup in Hcl. specialize (Hcl j).
    destruct (decide (j = i)) as [->|Hj].
    + rewrite list_lookup_insert_eq by (by eapply lookup_lt_Some). rewrite Hci. by constructor.
    + rewrite list_lookup_insert_ne by done.
      destruct (cs !! j) as [c'|] eqn:Hj'; inversion Hcl; subst; constructor.
      apply stage_more; [done|]. intros m'. apply Hd; [by eapply list_elem_of_lookup_2|].
      intros ->. apply Hj. apply list.NoDup_cons in Hdup as [_ Hnd].
      eapply (NoDup_lookup (c_ep <$> cs)); [done| |]; rewrite list_lookup_fmap; [by rewrite Hj'|by rewrite Hci].
Qed.

(** What a client that has ended has learnt. *)
Definition learnt (c : Client) (n : Node (result Log)) : Prop :=
  match n.1 with
  | Ret (Ok (name, got)) => name = c_ep c /\ length got = length (c_msgs c) /\ log_ok c got
  | Ret (Err _) | Sys _ _ => True
  | Panic | NoFuel => False
  end.

Lemma stage_learnt net c n : stage net c n -> learnt c n.
Proof.
  intros Hs. destruct Hs as [| |k buf got Ha Hk Hb Hg Hl| |]; unfold learnt; cbn [fst].
  - unfold client. rewrite bind_to_eq, syscall3_eq. done.
  - unfold naming. rewrite name_of_eq, syscall3_eq. done.
  - unfold chat_from. destruct (drop k (c_msgs c)) as [|m ms] eqn:E; cbn [chat].
    + split_and!; [done| |done]. apply (f_equal length) in E. rewrite length_drop in E. simpl in E. lia.
    + rewrite send_to_eq, syscall6_eq. done.
  - unfold hearing. rewrite recv_from_eq, syscall6_eq. done.
  - done.
Qed.
End Answers.

(** The server bound, the clients yet to bind, nothing sent. *)
Definition unet_start `{Family A} (k : nat) (fd : Z) (sep : Endpoint) (buf : list Z)
    (cs : list Client) : UNet (result unit) (result Log) :=
  mkUNet (server (net_start k fd sep buf cs)) (clients (net_start k fd sep buf cs)) [].


Definition demo_clients (a b : list Z) : list Client :=
  [mkClient 3 (a, 40000) (replicate 8 0) [str "hello, world"; str "bye"];
   mkClient 3 (b, 40001) (replicate 16 0) [str "hello, world"]].

