(* ===== verification/TraceSpec.v ===== *)
(** A system-call tracer built on [ptrace.rs] and [waitpid], and what it sees of a
    child. *)

From Stdlib Require Import ZArith Lia.
From stdpp Require Import base list option numbers.
From S2P Require Import Prelude Prog Layout Asm Arch FdSpec Wait Signal Ptrace.

(** ** The registers that matter

    [orig_rax] and [rax] on x86_64, [x8] and [x0] on aarch64, where the kernel
    puts them in the register set. *)
Class SyscallRegs (Regs : Type) `{KStruct Regs} := {
  reg_nr : Regs -> Z;
  reg_ret : Regs -> Z;
  nr_offset : nat;
  ret_offset : nat;
  reg_nr_at b : reg_nr (decode b) = le_dec (take 8 (drop nr_offset b));
  reg_ret_at b : reg_ret (decode b) = le_dec (take 8 (drop ret_offset b));
  regs_with : Z -> Z -> Regs;
  regs_with_typed num ret : is_u64 num -> is_u64 ret -> well_typed (regs_with num ret);
  regs_with_nr num ret : reg_nr (regs_with num ret) = num;
  regs_with_ret num ret : reg_ret (regs_with num ret) = ret }.

(** [GpRegs::default()] *)
Definition reg_zero `{SyscallRegs Regs} : Regs := regs_with 0 0.

Lemma reg_zero_typed `{SyscallRegs Regs} : well_typed reg_zero.
Proof. by apply regs_with_typed. Qed.

#[export] Program Instance x86_regs : SyscallRegs GpRegsX86 := {
  reg_nr := r_orig_rax; reg_ret := rax; nr_offset := 120; ret_offset := 80;
  regs_with num ret :=
    mkGpRegsX86 0 0 0 0 0 0 0 0 0 0 ret 0 0 0 0 num 0 0 0 0 0 0 0 0 0 0 0 }.
Next Obligation. intros b. unfold decode. cbn -[take drop le_dec]. by rewrite !drop_drop. Qed.
Next Obligation. intros b. unfold decode. cbn -[take drop le_dec]. by rewrite !drop_drop. Qed.
Next Obligation.
  intros num ret Hn Hr. unfold well_typed. cbn [ks_fields ks_vals GpRegsX86_kstruct].
  repeat apply Forall2_cons_2; try apply Forall2_nil_2; solve [by split|exact Hn|exact Hr].
Qed.
Next Obligation. done. Qed.
Next Obligation. done. Qed.

#[export] Program Instance a64_regs : SyscallRegs GpRegsA64 := {
  reg_nr r := nth 8 (a_xs r) 0; reg_ret r := nth 0 (a_xs r) 0;
  nr_offset := 64; ret_offset := 0;
  regs_with num ret := mkGpRegsA64 ([ret] ++ replicate 7 0 ++ [num] ++ replicate 22 0) 0 0 0 }.
Next Obligation.
  intros b. unfold decode. cbn -[take drop le_dec].
  by rewrite !drop_drop, !take_drop_commute, take_take.
Qed.
Next Obligation. intros b. unfold decode. cbn -[take drop le_dec]. by rewrite !drop_0, take_take. Qed.
Next Obligation.
  intros num ret Hn Hr. unfold well_typed. cbn [ks_fields ks_vals GpRegsA64_kstruct].
  repeat apply Forall2_cons_2; try apply Forall2_nil_2; try by split.
  split; [done|]. repeat constructor; apply Hn || apply Hr || lia.
Qed.
Next Obligation. done. Qed.
Next Obligation. done. Qed.

(** ** The tracer *)

(** A call as the tracer logs it: its number, and its result if it came back. *)
Definition Seen : Type := Z * option Z.

Section Tracer.
Context `{Target} {Regs} `{SR : SyscallRegs Regs}.

(** From a stopped child: resume it up to its next stop.  [entered] is the number
    of the call it is in; a signal that stopped it is passed on. *)
Fixpoint trace_from (fuel : nat) (pid sig : Z) (entered : option Z) (log : list Seen) :
    Prog (result (list Seen * Z)) :=
  match fuel with
  | O => NoFuel
  | S fuel =>
      let? _ := ptrace_syscall pid sig in
      let? (_, status) := waitpid pid 0 in
      if wifexited status then
        Ret (Ok (log ++ (match entered with Some n => [(n, None)] | None => [] end), wexitstatus status))
      else if is_syscall_stop status then
        let? regs := ptrace_getregset (reg_zero (Regs := Regs)) pid in
        match entered with
        | None => trace_from fuel pid 0 (Some (reg_nr regs)) log
        | Some n => trace_from fuel pid 0 None (log ++ [(n, Some (reg_ret regs))])
        end
      else if wifstopped status then trace_from fuel pid (wstopsig status) entered log
      else Ret (Err ESRCH)
  end.

(** Trace a child that has asked for it and stops itself. *)
Definition strace (fuel : nat) (pid : Z) : Prog (result (list Seen * Z)) :=
  let? _ := waitpid pid 0 in
  let? _ := ptrace_setoptions pid (Z.lor PTRACE_O_TRACESYSGOOD PTRACE_O_EXITKILL) in
  trace_from fuel pid 0 None [].
End Tracer.

(** ** The child and its kernel *)

(** Where a traced child is.  [Held]: stopped by a signal; [AtEntry], [AtExit]:
    stopped at a call, and with its result; [Runs], [InCall]: resumed; [Fresh]:
    about to stop itself for the first time. *)
Inductive At (K : Kernel) :=
| Fresh (p : Prog False) (s : kst K)
| Held (p : Prog False) (s : kst K)
| Runs (p : Prog False) (s : kst K)
| AtEntry (n : Z) (args : list Arg) (k : Reply -> Prog False) (s : kst K)
| InCall (n : Z) (args : list Arg) (k : Reply -> Prog False) (s : kst K)
| AtExit (n ret : Z) (p : Prog False) (s : kst K)
| Dead (s : kst K).
Arguments Fresh {_} _ _.
Arguments Held {_} _ _.
Arguments Runs {_} _ _.
Arguments AtEntry {_} _ _ _ _.
Arguments InCall {_} _ _ _ _.
Arguments AtExit {_} _ _ _ _.
Arguments Dead {_} _.

(** The child, whether its call stops are marked, how many signals are still to
    come, and those that have come and those it has been given. *)
Record Tracee (K : Kernel) := mkTracee {
  at_ : At K; sysgood : bool; to_come : nat; arrived : list Z; given : list Z }.
Arguments mkTracee {_} _ _ _ _ _.
Arguments at_ {_} _.
Arguments sysgood {_} _.
Arguments to_come {_} _.
Arguments arrived {_} _.
Arguments given {_} _.

(** A program up to its next system call: what it does without one (a vDSO call)
    does not stop it. *)
Fixpoint to_syscall (K : Kernel) (p : Prog False) (s : kst K) : Prog False * kst K :=
  match p with
  | Sys (CallFn a args) k =>
      match kstep K (CallFn a args) s with
      | (Some r, s) => to_syscall K (k (conform (CallFn a args) r)) s
      | (None, _) => (p, s)
      end
  | _ => (p, s)
  end.

Definition exit_call `{Target} (status : Z) : Call := Syscall (nrz EXIT_GROUP) [int status].
Definition wait_for_call `{Target} (pid : Z) : Call :=
  Syscall (nrz WAIT4) [int pid; AMut (le_enc 4 0); int 0; int 0].
Definition ptrace_call `{Target} (request pid data : Z) : Call :=
  Syscall (nrz PTRACE) [int request; int pid; int 0; int data].
Definition getregset_call `{Target} (pid : Z) (b : list Z) : Call :=
  Syscall (nrz PTRACE) [int PTRACE_GETREGSET; int pid; int NT_PRSTATUS; AMutV [b]].

Section Kernels.
Context `{Target} (K : Kernel).

Definition call_stop (good : bool) : ChildEvent :=
  Stopped (if good then Z.lor SIGTRAP 0x80 else SIGTRAP).

(** What [wait4] reports of a resumed child ([ptrace(2)]). *)
Inductive reports : Tracee K -> ChildEvent -> Tracee K -> Prop :=
| rep_self p s g n a i :
    reports (mkTracee (Fresh p s) g n a i) (Stopped SIGSTOP) (mkTracee (Held p s) g n a i)
| rep_signal p s g n a i sig :
    1 <= sig <= 64 ->
    reports (mkTracee (Runs p s) g (S n) a i) (Stopped sig) (mkTracee (Held p s) g n (a ++ [sig]) i)
| rep_entry p s g n a i num args k s' :
    to_syscall K p s = (Sys (Syscall num args) k, s') ->
    reports (mkTracee (Runs p s) g n a i) (call_stop g) (mkTracee (AtEntry num args k s') g n a i)
| rep_exit num args k s g n a i r s' :
    let c := Syscall num args in
    kstep K c s = (Some r, s') ->
    reports (mkTracee (InCall num args k s) g n a i) (call_stop g)
      (mkTracee (AtExit num (r_ret (conform c r)) (k (conform c r)) s') g n a i)
| rep_dead status k s g n a i s' args num :
    Syscall num args = exit_call status -> kstep K (Syscall num args) s = (None, s') ->
    reports (mkTracee (InCall num args k s) g n a i) (Exited (Z.land status 0xff))
      (mkTracee (Dead s') g n a i).

(** [PTRACE_SYSCALL] on a stopped child. *)
Definition resume (sig : Z) (t : Tracee K) : option (Tracee K) :=
  let give := if sig =? 0 then [] else [sig] in
  match at_ t with
  | Held p s => Some (mkTracee (Runs p s) (sysgood t) (to_come t) (arrived t) (given t ++ give))
  | AtEntry num args k s =>
      Some (mkTracee (InCall num args k s) (sysgood t) (to_come t) (arrived t) (given t))
  | AtExit _ _ p s => Some (mkTracee (Runs p s) (sysgood t) (to_come t) (arrived t) (given t))
  | _ => None
  end.

(** What a register set shows of a child stopped at a call. *)
Definition shows `{SyscallRegs Regs} (x : At K) (b : list Z) : Prop :=
  match x with
  | AtEntry num _ _ _ => le_dec (take 8 (drop nr_offset b)) = as_u64 num
  | AtExit num ret _ _ =>
      le_dec (take 8 (drop nr_offset b)) = as_u64 num /\ le_dec (take 8 (drop ret_offset b)) = as_u64 ret
  | _ => True
  end.

(** No call but [exit_group] does not come back. *)
Definition exits_only : Prop :=
  forall c s s', kstep K c s = (None, s') -> exists status, is_i32 status /\ c = exit_call status.

Class TraceKernel (Regs : Type) `{SyscallRegs Regs} (KT : Kernel) (pid : Z) := {
  tracee : kst KT -> Tracee K;
  child_exits : exits_only;
  call_wait : forall t, (exists e v, reports (tracee t) e v) -> exists r t' e,
    kstep KT (wait_for_call pid) t = (Some r, t') /\ reports (tracee t) e (tracee t') /\
    as_u64 (r_ret r) = pid /\ r_outs r = [le_enc 4 (status_word e)];
  call_resume : forall t v sig, is_i32 sig -> resume sig (tracee t) = Some v -> exists r t',
    kstep KT (ptrace_call PTRACE_SYSCALL pid sig) t = (Some r, t') /\ as_u64 (r_ret r) = 0 /\
    tracee t' = v;
  call_options : forall t p s, at_ (tracee t) = Held p s -> exists r t',
    kstep KT (ptrace_call PTRACE_SETOPTIONS pid (Z.lor PTRACE_O_TRACESYSGOOD PTRACE_O_EXITKILL)) t =
      (Some r, t') /\ as_u64 (r_ret r) = 0 /\
    tracee t' = let v := tracee t in mkTracee (at_ v) true (to_come v) (arrived v) (given v);
  call_regs : forall t b, (exists v, resume 0 (tracee t) = Some v) -> length b = size_of Regs ->
    exists r t' o,
    kstep KT (getregset_call pid b) t = (Some r, t') /\ as_u64 (r_ret r) = 0 /\
    tracee t' = tracee t /\ r_outs r = [o] /\ length o = length b /\ bytes_ok o /\
    shows (at_ (tracee t)) o }.

(** ** What there is to see *)

Definition see (e : Call * option Reply) : list Seen :=
  match e with
  | (Syscall num _, r) => [(as_u64 num, option_map r_ret r)]
  | (CallFn _ _, _) => []
  end.
Definition seen (tr : Trace) : list Seen := concat (map see tr).

(** The status the last call of a run exits with. *)
Definition exit_of (tr : Trace) : Z :=
  match list.last tr with
  | Some (Syscall _ [AInt status], _) => Z.land status 0xff
  | _ => 0
  end.

Lemma exit_of_app tr tr' : tr' <> [] -> exit_of (tr ++ tr') = exit_of tr'.
Proof.
  intros Hne. unfold exit_of. rewrite list.last_app. by destruct (list.last tr') eqn:E; [|apply list.last_None in E].
Qed.

Lemma land_as_usize z : Z.land (as_usize z) 0xff = Z.land z 0xff.
Proof.
  change 0xff with (Z.ones 8). rewrite !Z.land_ones by lia. unfold as_usize, wrap.
  apply Z.mod_mod_divide. by exists (2 ^ 56).
Qed.

Lemma gone_nonempty (p : Prog False) s tr sf : run K p s = (Gone, tr, sf) -> tr <> [].
Proof.
  destruct p as [[]|c k| |]; simpl; try done. destruct (kstep K c s) as [[r|] s']; [|by intros [= <- _]].
  destruct (run K (k (conform c r)) s') as [[??]?]. by intros [= _ <- _].
Qed.

Lemma run_gone c k s tr sf :
  run K (Sys c k : Prog False) s = (Gone, tr, sf) ->
  (exists r s' tr', kstep K c s = (Some r, s') /\ run K (k (conform c r)) s' = (Gone, tr', sf) /\
     tr = (c, Some (conform c r)) :: tr') \/
  (kstep K c s = (None, sf) /\ tr = [(c, None)]).
Proof.
  simpl. destruct (kstep K c s) as [[r|] s'].
  - destruct (run K (k (conform c r)) s') as [[o tr'] s''] eqn:E. intros [= -> <- <-].
    left. by exists r, s', tr'.
  - intros [= <- <-]. by right.
Qed.

(** Where a run first makes a system call; the tracer sees the same from there. *)
Lemma to_syscall_run (Hexit : exits_only)
    (p : Prog False) : forall s tr sf,
  run K p s = (Gone, tr, sf) ->
  exists num args k s' tr', to_syscall K p s = (Sys (Syscall num args) k, s') /\
    run K (Sys (Syscall num args) k) s' = (Gone, tr', sf) /\
    seen tr' = seen tr /\ exit_of tr' = exit_of tr /\ (length tr' <= length tr)%nat.
Proof.
  induction p as [[]|[num args|a args] k IH| |]; intros s tr sf Hrun; try done.
  - by exists num, args, k, s, tr.
  - apply run_gone in Hrun as [(r & s' & tr' & Hk & Hrun & ->)|[Hk ->]].
    + destruct (IH _ _ _ _ Hrun) as (num & args' & k' & s'' & tr'' & E & Hrun' & Hs & He & Hl).
      exists num, args', k', s'', tr''. cbn [to_syscall]. rewrite Hk. split_and!; try done.
      * rewrite He. symmetry. apply (exit_of_app [_]). by eapply gone_nonempty.
      * simpl. lia.
    + apply Hexit in Hk as (status & _ & Hk). done.
Qed.
End Kernels.

(** ** One request at a time *)

(** [p] comes to [a], wherever it gets on the way. *)
Definition comes_to {A} (KT : Kernel) (p : Prog A) (t : kst KT) (a : A) (t' : kst KT) : Prop :=
  exists tr, run KT p t = (Done a, tr, t').

Lemma comes_to_sys {A} KT c (k : Reply -> Prog A) t r t1 a t' :
  kstep KT c t = (Some r, t1) -> comes_to KT (k (conform c r)) t1 a t' -> comes_to KT (Sys c k) t a t'.
Proof. intros Hk [tr E]. eexists. by rewrite (run_sys _ _ _ _ _ _ Hk), E. Qed.

(** The tests on the events of a traced child. *)
Definition tests_ok (e : ChildEvent) : bool :=
  let st := status_word e in
  match e with
  | Exited code => wifexited st && (wexitstatus st =? code)
  | Stopped sig =>
      negb (wifexited st) && wifstopped st && (wstopsig st =? sig) &&
      Bool.eqb (is_syscall_stop st) (sig =? Z.lor SIGTRAP 0x80)
  | _ => true
  end.

Lemma event_tests e : event_ok e -> tests_ok e = true.
Proof. apply all_events_ok. vm_compute. reflexivity. Qed.

Lemma stopped_tests sig : is_byte sig ->
  let st := status_word (Stopped sig) in
  wifexited st = false /\ wifstopped st = true /\ wstopsig st = sig /\
  is_syscall_stop st = (sig =? Z.lor SIGTRAP 0x80).
Proof.
  intros Hs st. pose proof (event_tests (Stopped sig) Hs) as E. unfold tests_ok in E. fold st in E.
  apply andb_prop in E as [[[E1 E2]%andb_prop E3]%andb_prop E4].
  apply negb_true_iff in E1. apply Z.eqb_eq in E3. by apply Bool.eqb_prop in E4.
Qed.

Lemma exited_tests code : is_byte code ->
  wifexited (status_word (Exited code)) = true /\ wexitstatus (status_word (Exited code)) = code.
Proof.
  intros Hc. pose proof (event_tests (Exited code) Hc) as E.
  apply andb_prop in E as [E1 E2]. by apply Z.eqb_eq in E2.
Qed.

Lemma exit_byte z : is_byte (Z.land z 0xff).
Proof. change 0xff with (Z.ones 8). rewrite Z.land_ones by lia. apply (wrap_range 8). lia. Qed.

Lemma reports_ok {K} `{Target} (v : Tracee K) e v' : reports K v e v' -> event_ok e.
Proof.
  intros Hr. inversion Hr; simpl; try apply exit_byte; try destruct g; int_ranges; simpl; lia || done.
Qed.

Section Requests.
Context `{Target} (K KT : Kernel) {Regs} `{SR : SyscallRegs Regs} (pid : Z).
Context `{HK : !TraceKernel K Regs KT pid} (Hpid : 0 < pid < 2 ^ 31).

(** Peel the first call off a program. *)
Ltac request Hk :=
  eapply comes_to_sys; [exact Hk|]; cbn [bind r_ret];
  change (r_ret (conform ?c ?r)) with (as_u64 (r_ret r)).

Lemma wait_request t :
  (exists e v, reports K (tracee K t) e v) ->
  exists e t1, reports K (tracee K t) e (tracee K t1) /\
    forall B (f : Z * Z -> Prog (result B)) a t', comes_to KT (f (pid, status_word e)) t1 a t' ->
      comes_to KT (let? w := waitpid pid 0 in f w) t a t'.
Proof.
  intros Hrep. destruct (call_wait K t Hrep) as (r & t1 & e & Hk & Hre & Hret & Hout).
  exists e, t1. split; [done|]. intros B f a t' Hy. unfold waitpid. rewrite syscall4_eq. unfold raw_call, bind_ok.
  cbn [bind]. request Hk.
  change (out 0 (mkReply _ _)) with (out 0 (conform (wait_for_call pid) r)).
  rewrite (out_written _ _ (le_enc 4 0) (le_enc 4 (status_word e))) by
    (done || apply le_enc_bytes || by rewrite !le_enc_length).
  assert (as_u64 (r_ret r) = as_u64 pid) as -> by (rewrite Hret; symmetry; apply wrap_small; lia).
  rewrite from_ret_i32_fd by lia. cbn [bind]. rewrite dec_status by by eapply reports_ok. done.
Qed.

(** A request without an answer of its own. *)
Lemma plain_request {B} (f : unit -> Prog (result B)) t r t1 q data a t' :
  kstep KT (ptrace_call q pid data) t = (Some r, t1) -> as_u64 (r_ret r) = 0 ->
  comes_to KT (f tt) t1 a t' ->
  comes_to KT (let? w := (let* r := syscall4 (nr PTRACE) (int q) (int pid) (int 0) (int data) in
                        Ret (ret_unit r)) in f w) t a t'.
Proof.
  intros Hk Hret Hy. rewrite syscall4_eq. unfold raw_call, bind_ok. cbn [bind].
  eapply comes_to_sys; [exact Hk|]. cbn [bind]. unfold ret_unit. cbn [r_ret].
  change (r_ret (conform ?c ?r)) with (as_u64 (r_ret r)). by rewrite Hret.
Qed.

Lemma resume_request t sig v :
  is_i32 sig -> resume K sig (tracee K t) = Some v ->
  exists t1, tracee K t1 = v /\
    forall B (f : unit -> Prog (result B)) a t', comes_to KT (f tt) t1 a t' ->
      comes_to KT (let? w := ptrace_syscall pid sig in f w) t a t'.
Proof.
  intros Hs Hv. destruct (call_resume K t v sig Hs Hv) as (r & t1 & Hk & Hret & Ht1).
  exists t1. split; [done|]. intros B f a t'. exact (plain_request f t r t1 _ _ a t' Hk Hret).
Qed.

Lemma options_request t p s :
  at_ (tracee K t) = Held p s ->
  exists t1,
    tracee K t1 = (let v := tracee K t in mkTracee (at_ v) true (to_come v) (arrived v) (given v)) /\
    forall B (f : unit -> Prog (result B)) a t', comes_to KT (f tt) t1 a t' ->
      comes_to KT (let? w := ptrace_setoptions pid (Z.lor PTRACE_O_TRACESYSGOOD PTRACE_O_EXITKILL) in f w) t a t'.
Proof.
  intros Hh. destruct (call_options K t p s Hh) as (r & t1 & Hk & Hret & Ht1).
  exists t1. split; [done|]. intros B f a t'. exact (plain_request f t r t1 _ _ a t' Hk Hret).
Qed.

(** The registers of a child stopped at a call. *)
Definition regs_show (x : At K) (regs : Regs) : Prop :=
  match x with
  | AtEntry num _ _ _ => reg_nr regs = as_u64 num
  | AtExit num ret _ _ => reg_nr regs = as_u64 num /\ reg_ret regs = as_u64 ret
  | _ => True
  end.

Lemma regs_request t :
  (exists v, resume K 0 (tracee K t) = Some v) ->
  exists t1 regs, tracee K t1 = tracee K t /\ regs_show (at_ (tracee K t)) regs /\
    forall B (f : Regs -> Prog (result B)) a t', comes_to KT (f regs) t1 a t' ->
      comes_to KT (let? w := ptrace_getregset reg_zero pid in f w) t a t'.
Proof.
  intros Hv. assert (length (encode (reg_zero (Regs := Regs))) = size_of Regs) as Hl
    by apply encode_length, reg_zero_typed.
  destruct (call_regs K t _ Hv Hl) as (r & t1 & o & Hk & Hret & Ht1 & Hout & Hlo & Hb & Hsh).
  exists t1, (decode o). split_and!; [done| |].
  - unfold regs_show, shows in *. destruct (at_ _); rewrite ?reg_nr_at, ?reg_ret_at; done.
  - intros B f a t' Hy. unfold ptrace_getregset. rewrite syscall4_eq. unfold raw_call, bind_ok.
    cbn [bind]. request Hk. rewrite Hret. change (from_ret 0) with (@Ok Z 0). cbn [bind].
    change (out 0 (mkReply _ _)) with (out 0 (conform (getregset_call pid (encode reg_zero)) r)).
    by rewrite (out_written _ _ (encode reg_zero) o).
Qed.

(** ** The loop *)

(** Where the child is when the tracer resumes it: [tr] is the rest of its run. *)
Definition stopped_in (x : At K) (entered : option Z) (sig : Z) (tr : Trace) (sf : kst K) : Prop :=
  match x with
  | Held p s => entered = None /\ run K p s = (Gone, tr, sf)
  | AtExit _ _ p s => entered = None /\ sig = 0 /\ run K p s = (Gone, tr, sf)
  | AtEntry num args k s =>
      entered = Some (as_u64 num) /\ sig = 0 /\ run K (Sys (Syscall num args) k) s = (Gone, tr, sf)
  | _ => False
  end.

Definition stops_left (x : At K) (tr : Trace) : nat :=
  2 * length tr - match x with AtEntry _ _ _ _ => 1 | _ => 0 end.

Definition pass (sig : Z) : list Z := if sig =? 0 then [] else [sig].

(** What the tracer comes to. *)
Definition traced_to (p : Prog (result (list Seen * Z))) (t : kst KT) (log : list Seen) (tr : Trace)
    (sf : kst K) : Prop :=
  exists t', comes_to KT p t (Ok (log ++ seen tr, exit_of tr)) t' /\
    at_ (tracee K t') = Dead sf /\ given (tracee K t') = arrived (tracee K t').

(** The loop does its work from every stop with this much left. *)
Definition traces (fuel : nat) : Prop := forall t sig entered log tr sf,
  let v := tracee K t in
  is_i32 sig -> sysgood v = true -> given v ++ pass sig = arrived v ->
  stopped_in (at_ v) entered sig tr sf -> (stops_left (at_ v) tr + to_come v <= fuel)%nat ->
  traced_to (trace_from (Regs := Regs) fuel pid sig entered log) t log tr sf.

(** What the loop does once the child is resumed. *)
Definition after_resume (fuel : nat) (entered : option Z) (log : list Seen) :
    Prog (result (list Seen * Z)) :=
  let? (_, status) := waitpid pid 0 in
  if wifexited status then
    Ret (Ok (log ++ (match entered with Some n => [(n, None)] | None => [] end), wexitstatus status))
  else if is_syscall_stop status then
    let? regs := ptrace_getregset (reg_zero (Regs := Regs)) pid in
    match entered with
    | None => trace_from (Regs := Regs) fuel pid 0 (Some (reg_nr regs)) log
    | Some n => trace_from (Regs := Regs) fuel pid 0 None (log ++ [(n, Some (reg_ret regs))])
    end
  else if wifstopped status then trace_from (Regs := Regs) fuel pid (wstopsig status) entered log
  else Ret (Err ESRCH).

Lemma trace_from_S fuel sig entered log :
  trace_from (Regs := Regs) (S fuel) pid sig entered log =
  let? _ := ptrace_syscall pid sig in after_resume fuel entered log.
Proof. done. Qed.

Lemma traced_back p q t t1 log tr sf :
  (forall a t', comes_to KT q t1 a t' -> comes_to KT p t a t') ->
  traced_to q t1 log tr sf -> traced_to p t log tr sf.
Proof. intros Hpq (t' & Hy & Hd). exists t'. split; [by apply Hpq|done]. Qed.

Lemma traced_as p t log tr log' tr' sf :
  log ++ seen tr = log' ++ seen tr' -> exit_of tr = exit_of tr' ->
  traced_to p t log tr sf -> traced_to p t log' tr' sf.
Proof. intros Hs He (t' & Hy & Hd). exists t'. by rewrite <- Hs, <- He. Qed.

Lemma call_stop_tests :
  let st := status_word (call_stop true) in wifexited st = false /\ is_syscall_stop st = true.
Proof. by vm_compute. Qed.

Lemma after_runs fuel t p s n a log tr sf :
  traces fuel -> tracee K t = mkTracee (Runs p s) true n a a ->
  run K p s = (Gone, tr, sf) -> (2 * length tr + n <= S fuel)%nat ->
  traced_to (after_resume fuel None log) t log tr sf.
Proof.
  intros IH Ht Hrun Hf.
  destruct (to_syscall_run K (child_exits K) p s tr sf Hrun) as
    (num & args & k & s' & tr' & Hto & Hrun' & Hseen & Hexit & Hlen).
  pose proof (gone_nonempty _ _ _ _ _ Hrun') as Hne.
  assert (0 < length tr')%nat as Hpos by (destruct tr'; [done|simpl; lia]).
  destruct (wait_request t) as (e & t1 & Hrep & Hback).
  { rewrite Ht. do 2 eexists. by apply rep_entry. }
  eapply traced_back; [apply Hback|]. clear Hback. cbv beta iota. rewrite Ht in Hrep.
  inversion Hrep as [|p0 s0 g n' a0 i sig Hsig E1 E2 E3|p0 s0 g n' a0 i num' args' k' s0' Hto' E1 E2 E3| |];
    subst; clear Hrep.
  - destruct (stopped_tests sig) as (-> & -> & -> & ->); [int_ranges; lia|].
    destruct (Z.eqb_spec sig (Z.lor SIGTRAP 0x80)) as [E|_]; [exfalso; clear -Hsig E; vm_compute in E; lia|].
    apply IH; rewrite <- ?E3; unfold stops_left; simpl; try done; [int_ranges; lia| |lia].
    unfold pass. by destruct (Z.eqb_spec sig 0); [lia|].
  - rewrite Hto in Hto'. injection Hto' as <- <- <- <-.
    destruct call_stop_tests as [-> ->].
    destruct (regs_request t1) as (t2 & regs & Ht2 & Hregs & Hback).
    { rewrite <- E3. by eexists. }
    eapply traced_back; [apply Hback|]. clear Hback. cbv beta.
    rewrite <- E3 in Hregs. simpl in Hregs. rewrite Hregs.
    apply (traced_as _ _ log tr'); [by rewrite Hseen|exact Hexit|].
    apply IH; rewrite ?Ht2, <- ?E3; unfold stops_left; simpl; try done; [by rewrite app_nil_r|lia].
Qed.

Lemma after_call fuel t num args k s n a log tr sf :
  traces fuel -> tracee K t = mkTracee (InCall num args k s) true n a a ->
  run K (Sys (Syscall num args) k) s = (Gone, tr, sf) -> (2 * length tr + n <= S (S fuel))%nat ->
  traced_to (after_resume fuel (Some (as_u64 num)) log) t log tr sf.
Proof.
  intros IH Ht Hrun Hf.
  apply run_gone in Hrun as [(r & s' & tr' & Hk & Hrun & ->)|[Hk ->]].
  - destruct (wait_request t) as (e & t1 & Hrep & Hback).
    { rewrite Ht. do 2 eexists. by apply rep_exit. }
    eapply traced_back; [apply Hback|]. clear Hback. cbv beta iota. rewrite Ht in Hrep.
    inversion Hrep as [| | |num0 args0 k0 s0 g n0 a0 i r0 s0' c0 Hk' E1 E2 E3|
      status k0 s0 g n0 a0 i s0' args0 num0 _ Hk'];
      subst; clear Hrep; [|congruence].
    assert (r0 = r /\ s0' = s') as [-> ->] by (unfold c0 in Hk'; rewrite Hk in Hk'; by injection Hk').
    destruct call_stop_tests as [-> ->].
    destruct (regs_request t1) as (t2 & regs & Ht2 & Hregs & Hback).
    { rewrite <- E3. by eexists. }
    eapply traced_back; [apply Hback|]. clear Hback. cbv beta iota.
    rewrite <- E3 in Hregs. simpl in Hregs. destruct Hregs as [_ ->].
    rewrite (wrap_wrap 64 (r_ret r) ltac:(lia) : as_u64 (as_u64 _) = _).
    apply (traced_as _ _ (log ++ [(as_u64 num, Some (as_u64 (r_ret r)))]) tr').
    { by rewrite <- app_assoc. }
    { symmetry. apply (exit_of_app [_]). by eapply gone_nonempty. }
    apply IH; rewrite ?Ht2, <- ?E3; unfold stops_left; simpl in *; try done; [by rewrite app_nil_r|lia].
  - destruct (child_exits K _ _ _ Hk) as (status & _ & Hc).
    destruct (wait_request t) as (e & t1 & Hrep & Hback).
    { rewrite Ht. do 2 eexists. by eapply rep_dead. }
    eapply traced_back; [apply Hback|]. clear Hback. cbv beta iota. rewrite Ht in Hrep.
    inversion Hrep as [| | |num0 args0 k0 s0 g n0 a0 i r0 s0' c0 Hk' E1 E2 E3|
      status0 k0 s0 g n0 a0 i s0' args0 num0 Hc' Hk' E1 E2 E3];
      subst; clear Hrep; [unfold c0 in Hk'; congruence|].
    assert (s0' = sf) as -> by congruence.
    destruct (exited_tests (Z.land status0 0xff)) as [-> ->]; [apply exit_byte|].
    exists t1. rewrite <- E3. split; [|done]. exists []. cbn [run]. repeat f_equal.
    unfold exit_of. rewrite Hc'. cbn. by rewrite land_as_usize.
Qed.

Lemma stopped_nonempty x entered sig tr sf : stopped_in x entered sig tr sf -> tr <> [].
Proof.
  destruct x; unfold stopped_in; try done; [intros [_ Hr]|intros (_ & _ & Hr)..]; exact (gone_nonempty K _ _ _ _ Hr).
Qed.

Lemma trace_from_traces fuel : traces fuel.
Proof.
  induction fuel as [|fuel IH]; intros t sig entered log tr sf v Hsig Hgood Hgiven Hin Hf.
  - exfalso. unfold stops_left in Hf.
    apply stopped_nonempty in Hin. destruct tr; [done|]. simpl in Hf. destruct (at_ v); lia.
  - rewrite trace_from_S. unfold v in *. destruct (tracee K t) as [x g n a i] eqn:Ht.
    simpl in Hgood, Hgiven. subst g a. unfold stops_left in Hf. cbn [at_ stopped_in to_come] in Hin, Hf.
    destruct x as [|p s| |num args k s| |num ret p s|]; try done; cbn [stopped_in] in Hin.
    + destruct Hin as [-> Hrun].
      destruct (resume_request t sig (mkTracee (Runs p s) true n (i ++ pass sig) (i ++ pass sig)))
        as (t1 & Ht1 & Hback); [done|by rewrite Ht|].
      eapply traced_back; [apply Hback|]. eapply after_runs; eauto. lia.
    + destruct Hin as (-> & -> & Hrun). rewrite app_nil_r in Ht.
      destruct (resume_request t 0 (mkTracee (InCall num args k s) true n i i))
        as (t1 & Ht1 & Hback); [done|by rewrite Ht|].
      eapply traced_back; [apply Hback|]. eapply after_call; eauto. lia.
    + destruct Hin as (-> & -> & Hrun). rewrite app_nil_r in Ht.
      destruct (resume_request t 0 (mkTracee (Runs p s) true n i i))
        as (t1 & Ht1 & Hback); [done|by rewrite Ht|].
      eapply traced_back; [apply Hback|]. eapply after_runs; eauto. lia.
Qed.
End Requests.

(** [C11] A tracer built on [ptrace_setoptions], [ptrace_syscall], [waitpid] and
    [ptrace_getregset] sees exactly the system calls its child makes: for a child
    that stops itself and then runs to its exit, the log holds the number and the
    result of each of its calls, in order, the last one without a result, and the
    exit status; signals that stop the child meanwhile, even a plain [SIGTRAP], are
    not taken for calls, and each is passed on to it. *)
Theorem strace_sees `{Target} (K KT : Kernel) {Regs} `{SR : SyscallRegs Regs} (pid : Z)
    (HK : TraceKernel K Regs KT pid) fuel (t : kst KT) (p : Prog False) s n tr sf :
  0 < pid < 2 ^ 31 -> tracee K t = mkTracee (Fresh p s) false n [] [] ->
  run K p s = (Gone, tr, sf) -> (2 * length tr + n <= fuel)%nat ->
  exists t', comes_to KT (strace (Regs := Regs) fuel pid) t (Ok (seen tr, exit_of tr)) t' /\
    at_ (tracee K t') = Dead sf /\ given (tracee K t') = arrived (tracee K t').
Proof.
  intros Hpid Ht Hrun Hf. unfold strace.
  destruct (wait_request K KT pid Hpid t) as (e & t1 & Hrep & Hwait).
  { rewrite Ht. do 2 eexists. by apply rep_self. }
  rewrite Ht in Hrep. inversion Hrep as [p0 s0 g n0 a i E1 E2 E3| | | |]; subst; clear Hrep.
  destruct (options_request K KT pid t1 p s) as (t2 & Ht2 & Hopt); [by rewrite <- E3|].
  rewrite <- E3 in Ht2. simpl in Ht2.
  destruct (trace_from_traces K KT pid Hpid fuel t2 0 None [] tr sf) as (t' & Hy & Hd);
    rewrite ?Ht2; try done.
  { unfold stops_left. simpl. lia. }
  exists t'. split; [|done]. by apply Hwait, Hopt.
Qed.

(** ** A concrete kernel

    It traces one child, which lives on a kernel of its own; [sigs] are the
    signals that arrive. *)
Section Concrete.
Context (H : Target) (K : Kernel) {Regs : Type} {KR : KStruct Regs} (SR : SyscallRegs Regs).
Context (pid : Z) (sigs : nat -> Z).

Definition report_event (t : Tracee K) : option (ChildEvent * Tracee K) :=
  let '(mkTracee x g n a i) := t in
  match x, n with
  | Fresh p s, _ => Some (Stopped SIGSTOP, mkTracee (Held p s) g n a i)
  | Runs p s, S n => Some (Stopped (sigs n), mkTracee (Held p s) g n (a ++ [sigs n]) i)
  | Runs p s, O =>
      match to_syscall K p s with
      | (Sys (Syscall num args) k, s) => Some (call_stop g, mkTracee (AtEntry num args k s) g n a i)
      | _ => None
      end
  | InCall num args k s, _ =>
      let c := Syscall num args in
      match kstep K c s with
      | (Some r, s) =>
          Some (call_stop g, mkTracee (AtExit num (r_ret (conform c r)) (k (conform c r)) s) g n a i)
      | (None, s) =>
          match args with
          | [AInt v] => Some (Exited (Z.land v 0xff), mkTracee (Dead s) g n a i)
          | _ => None
          end
      end
  | _, _ => None
  end.

Definition regs_of (x : At K) : list Z :=
  match x with
  | AtEntry num _ _ _ => encode (regs_with (Regs := Regs) (as_u64 num) 0)
  | AtExit num ret _ _ => encode (regs_with (Regs := Regs) (as_u64 num) (as_u64 ret))
  | _ => encode (reg_zero (Regs := Regs))
  end.

Definition trace_step (c : Call) (t : Tracee K) : option Reply * Tracee K :=
  let fail e := (Some (mkReply (- code e) []), t) in
  match c with
  | Syscall _ (_ :: AMut _ :: _) =>
      match report_event t with
      | Some (e, t) => (Some (mkReply pid [le_enc 4 (status_word e)]), t)
      | None => fail ECHILD
      end
  | Syscall _ [AInt q; _; _; AInt data] =>
      if q =? PTRACE_SYSCALL then
        match resume K (as_i32 data) t with
        | Some v => (Some (mkReply 0 []), v)
        | None => fail ESRCH
        end
      else (Some (mkReply 0 []),
            mkTracee (at_ t) (Z.testbit data 0) (to_come t) (arrived t) (given t))
  | Syscall _ [_; _; _; AMutV _] => (Some (mkReply 0 [regs_of (at_ t)]), t)
  | _ => fail EINVAL
  end.
Definition trace_kernel : Kernel := mkKernel (Tracee K) trace_step.

Lemma report_event_ok (Hsigs : forall n, 1 <= sigs n <= 64)
    (Hexit : exits_only K) t :
  (exists e v, reports K t e v) -> exists e v, report_event t = Some (e, v) /\ reports K t e v.
Proof.
  intros (e & v & Hr).
  inversion Hr as [p s g n a i|p s g n a i sig Hsig|p s g n a i num args k s' Hto|num args k s g n a i r s' c Hk|
    status k s g n a i s' args num Hc Hk]; subst; cbn [report_event].
  - do 2 eexists. split; [reflexivity|done].
  - do 2 eexists. split; [reflexivity|]. by apply rep_signal.
  - destruct n; [rewrite Hto|]; do 2 eexists; (split; [reflexivity|]); [done|by apply rep_signal].
  - unfold c in Hk. rewrite Hk. do 2 eexists. split; [reflexivity|done].
  - rewrite Hk. unfold exit_call, int in Hc. injection Hc as -> ->.
    do 2 eexists. split; [reflexivity|]. rewrite land_as_usize. by eapply rep_dead.
Qed.

Lemma regs_of_shows x :
  bytes_ok (regs_of x) /\ length (regs_of x) = size_of Regs /\
  shows K (Regs := Regs) x (regs_of x).
Proof.
  assert (forall z, is_u64 (as_u64 z)) as Hu by (intros z; apply (wrap_range 64); lia).
  assert (forall num ret, is_u64 num -> is_u64 ret -> let b := encode (regs_with (Regs := Regs) num ret) in
    length b = size_of Regs /\ le_dec (take 8 (drop nr_offset b)) = num /\
    le_dec (take 8 (drop ret_offset b)) = ret) as Hw.
  { intros num ret Hn Hr b. pose proof (regs_with_typed num ret Hn Hr) as Hty.
    unfold b. rewrite <- reg_nr_at, <- reg_ret_at, encode_length, decode_encode by done.
    by rewrite regs_with_nr, regs_with_ret. }
  split; [destruct x; apply encode_bytes|].
  destruct x as [| | |num args k s| |num ret p s|]; simpl;
    try (split; [by apply encode_length, reg_zero_typed|done]).
  - destruct (Hw (as_u64 num) 0) as (Hl & Hn & _); [done..|]. done.
  - destruct (Hw (as_u64 num) (as_u64 ret)) as (Hl & Hn & Hr); [done..|]. done.
Qed.

Lemma trace_kernel_ok (Hpid : 0 < pid < 2 ^ 31) (Hsigs : forall n, 1 <= sigs n <= 64)
    (Hexit : exits_only K) :
  TraceKernel K Regs trace_kernel pid.
Proof.
  refine {| tracee := fun t : kst trace_kernel => t |}; [exact Hexit| | | |].
  - intros t Hrep. destruct (report_event_ok Hsigs Hexit t Hrep) as (e & v & E & Hr).
    cbn [kstep trace_kernel]. unfold trace_step, wait_for_call. rewrite E. do 3 eexists.
    split; [reflexivity|]. split_and!; [done|apply wrap_small; lia|done].
  - intros t v sig Hsig Hv. cbn [kstep trace_kernel]. unfold trace_step, ptrace_call, int.
    change (as_usize PTRACE_SYSCALL =? PTRACE_SYSCALL) with true. cbv iota.
    rewrite as_i32_as_usize, Hv by done. do 2 eexists. split; [reflexivity|done].
  - intros t p s Hh. cbn [kstep trace_kernel]. unfold trace_step, ptrace_call, int.
    change (as_usize PTRACE_SETOPTIONS =? PTRACE_SYSCALL) with false. cbv iota.
    do 2 eexists. split; [reflexivity|done].
  - intros t b _ Hl. destruct (regs_of_shows (at_ t)) as (Hb & Hlo & Hsh).
    cbn [kstep trace_kernel]. unfold trace_step, getregset_call, int. do 3 eexists.
    split; [reflexivity|]. split_and!; try done. by rewrite Hlo.
Defined.
End Concrete.

(** A child's kernel: it knows its process id, and lets it exit. *)
Definition small_step (H : Target) (c : Call) (s : unit) : option Reply * unit :=
  match c with
  | Syscall num [AInt v] =>
      if bool_decide (c = exit_call (as_i32 v)) then (None, s)
      else (Some (mkReply (- code ENOSYS) []), s)
  | Syscall num _ => (Some (mkReply (if num =? nrz GETPID then 77 else - code ENOSYS) []), s)
  | CallFn _ _ => (Some (mkReply 0 []), s)
  end.
Definition small_kernel (H : Target) : Kernel := mkKernel unit (small_step H).

Lemma small_kernel_exits `{H : Target} c s s' :
  kstep (small_kernel H) c s = (None, s') -> exists status, is_i32 status /\ c = exit_call status.
Proof.
  destruct c as [num [|[v| | | |] [|? ?]]|]; cbn [kstep small_kernel small_step]; try done.
  destruct (bool_decide_reflect (Syscall num [AInt v] = exit_call (as_i32 v))) as [E|]; [|done].
  intros _. exists (as_i32 v). split; [|done]. apply (swrap_range 32). lia.
Qed.

(** It asks the time through the vDSO, then for its process id, and exits with
    three. *)
Definition demo_child `{Target} : Prog False :=
  Sys (CallFn 0x7000 [AInt 0]) (fun _ =>
  Sys (Syscall (nrz GETPID) []) (fun _ =>
  Sys (exit_call 3) (fun _ => Panic))).

Lemma strace_sees_witness :
  exists t' : Tracee (small_kernel X86_64), comes_to (trace_kernel (small_kernel X86_64) x86_regs 1234 (fun _ => 5))
    (@strace X86_64 GpRegsX86 _ x86_regs 8 1234)
    (mkTracee (Fresh (K := small_kernel X86_64) (demo_child (H := X86_64)) tt) false 2 [] [])
    (Ok ([(39, Some 77); (231, None)], 3)) t' /\
    at_ t' = Dead (K := small_kernel X86_64) tt /\ given t' = arrived t'.
Proof.
  apply (@strace_sees X86_64 (small_kernel X86_64) _ _ _ x86_regs 1234
    (trace_kernel_ok X86_64 (small_kernel X86_64) x86_regs 1234 (fun _ => 5)
       ltac:(lia) ltac:(lia) (@small_kernel_exits X86_64))
    8 _ (demo_child (H := X86_64)) tt 2
    [(CallFn 0x7000 [AInt 0], Some (mkReply 0 [])); (Syscall 39 [], Some (mkReply 77 []));
     (Syscall 231 [AInt 3], None)] tt); [lia|reflexivity|reflexivity|apply Nat.leb_le; reflexivity].
Defined.
