(* ===== verification/StreamSpec.v ===== *)
(** Connections: stream sockets, what a call can do to them, a network of a server
    and its clients ([tcp_step]), and the programs they run. *)

From Stdlib Require Import ZArith Lia.
From stdpp Require Import base list option numbers gmap strings.
From S2P Require Import Prelude Prog Layout Asm Arch Fd FdSpec Socket SocketSpec.

(** ** The calls of each address family *)

Class StreamFamily (A : Type) `{F : Family A} := {
  connect_to : Z -> A -> Prog (result unit);
  peer_of : Z -> Prog (result A);
  accept_from : Z -> Z -> Prog (result (Z * A));
  connect_to_eq fd a : connect_to fd a =
    let* r := syscall3 (nr CONNECT) (int fd) (ARef (encode a)) (sizeof A) in Ret (ret_unit r);
  peer_of_eq fd : peer_of fd =
    let* r := syscall3 (nr GETPEERNAME) (int fd) (AMut (encode (sock_zero (A := A)))) (addrlen A) in
    let? _ := Ret (from_ret (r_ret r)) in
    Ret (Ok (decode (out 0 r)));
  accept_from_eq fd flags : accept_from fd flags =
    let* r := syscall4 (nr ACCEPT4) (int fd) (AMut (encode (sock_zero (A := A)))) (addrlen A) (int flags) in
    let? newfd := Ret (from_ret_i32 (r_ret r)) in
    Ret (Ok (newfd, decode (out 0 r))) }.

#[export] Program Instance inet_stream `{Target} : StreamFamily SockAddrIn := {
  connect_to := connect_in; peer_of := getpeername_in; accept_from := accept4_in }.
Solve All Obligations with done.
#[export] Program Instance inet6_stream `{Target} : StreamFamily SockAddrIn6 := {
  connect_to := connect_in6; peer_of := getpeername_in6; accept_from := accept4_in6 }.
Solve All Obligations with done.

(** ** Streams

    One direction of a connection: the bytes on their way, and whether its sender
    may still add to them. *)
Record Dir := mkDir { bytes : list Z; isopen : bool }.

Definition send_call `{Target} (fd : Z) (buf : list Z) : Call :=
  Syscall (nrz SENDTO) [int fd; ARef buf; len buf; int 0; int 0; int 0].
Definition recv_call `{Target} (fd : Z) (buf : list Z) : Call :=
  Syscall (nrz RECVFROM) [int fd; AMut buf; len buf; int 0; int 0; int 0].
Definition shutdown_call `{Target} (fd how : Z) : Call := Syscall (nrz SHUTDOWN) [int fd; int how].

(** A call at one end, with what comes in and what goes out ([tcp(7)]): sending
    blocks while there is no room and takes at least a byte; receiving blocks while
    there is nothing, gives at least a byte, and answers 0 at the end of the
    stream. *)
Inductive stream_call `{Target} (cap : nat) (fd : Z) : Call -> Dir -> Dir -> Reply -> Dir -> Dir -> Prop :=
| sc_send buf n i q :
    (0 < n <= length buf)%nat -> (length q + n <= cap)%nat ->
    stream_call cap fd (send_call fd buf) i (mkDir q true) (mkReply (Z.of_nat n) [])
      i (mkDir (q ++ take n buf) true)
| sc_recv buf n q b o :
    (0 < n <= length buf)%nat -> (n <= length q)%nat ->
    stream_call cap fd (recv_call fd buf) (mkDir q b) o (mkReply (Z.of_nat n) [take n q])
      (mkDir (drop n q) b) o
| sc_end buf o :
    stream_call cap fd (recv_call fd buf) (mkDir [] false) o (mkReply 0 []) (mkDir [] false) o
| sc_shutdown i q b :
    stream_call cap fd (shutdown_call fd SHUT_WR) i (mkDir q b) (mkReply 0 []) i (mkDir q false)
| sc_close i q b :
    stream_call cap fd (close_call fd) i (mkDir q b) (mkReply 0 []) i (mkDir q false).

(** ** The loops *)

Fixpoint send_all `{Target} (fuel : nat) (fd : Z) (data : list Z) : Prog (result unit) :=
  match data, fuel with
  | [], _ => Ret (Ok tt)
  | _, O => NoFuel
  | _, S fuel =>
      let? n := Socket.send fd data 0 in
      let* rest := or_panic (slice_from n data) in
      send_all fuel fd rest
  end.

Fixpoint recv_all `{Target} (fuel : nat) (fd : Z) (buf got : list Z) : Prog (result (list Z)) :=
  match fuel with
  | O => NoFuel
  | S fuel =>
      let* (buf, r) := recv fd buf 0 in
      match r with
      | Err e => Ret (Err e)
      | Ok n =>
          if n =? 0 then Ret (Ok got)
          else let* new := or_panic (slice_to n buf) in recv_all fuel fd buf (got ++ new)
      end
  end.

(** *** Which call each is, and what it does with an answer *)

Section Shapes.
Context `{H : Target}.

Lemma send_all_nil fuel fd : send_all fuel fd [] = Ret (Ok tt).
Proof. by destruct fuel. Qed.

Lemma bind_ok_ret {X Y} (a : X) (f : X -> Prog (result Y)) : (let? x := Ret (Ok a) in f x) = f a.
Proof. done. Qed.

Lemma send_shape {X} fuel fd data (f : unit -> Prog (result X)) :
  data <> [] -> Z.of_nat (length data) < 2 ^ 63 ->
  exists k, (let? x := send_all (S fuel) fd data in f x) = Sys (send_call fd data) k /\
    forall n, (0 < n <= length data)%nat ->
      k (conform (send_call fd data) (mkReply (Z.of_nat n) [])) =
      let? x := send_all fuel fd (drop n data) in f x.
Proof.
  intros Hne Hlen. destruct data as [|b data']; [done|]. remember (b :: data') as data eqn:Ed.
  replace (send_all (S fuel) fd data) with
    (let? n := Socket.send fd data 0 in let* rest := or_panic (slice_from n data) in send_all fuel fd rest)
    by (by subst).
  unfold Socket.send. rewrite syscall6_eq. eexists. split; [reflexivity|]. intros n Hn.
  change (r_ret (conform ?c ?r)) with (as_u64 (r_ret r)). cbn [bind bind_ok r_ret conform].
  rewrite from_ret_nat by lia. cbn [bind]. by rewrite slice_from_le by lia.
Qed.

Lemma recv_shape {X} fuel fd buf got (f : list Z -> Prog (result X)) :
  Z.of_nat (length buf) < 2 ^ 63 ->
  exists k, (let? x := recv_all (S fuel) fd buf got in f x) = Sys (recv_call fd buf) k /\
    (forall new, bytes_ok new -> (0 < length new <= length buf)%nat ->
      exists buf', length buf' = length buf /\
      k (conform (recv_call fd buf) (mkReply (Z.of_nat (length new)) [new])) =
      let? x := recv_all fuel fd buf' (got ++ new) in f x) /\
    k (conform (recv_call fd buf) (mkReply 0 [])) = f got.
Proof.
  intros Hlen. cbn [recv_all]. unfold recv. rewrite syscall6_eq. eexists. split; [reflexivity|].
  split; [|reflexivity]. intros new Hb Hn. exists (new ++ drop (length new) buf).
  split; [rewrite length_app, length_drop; lia|].
  set (rep := conform (recv_call fd buf) (mkReply (Z.of_nat (length new)) [new])).
  assert (out 0 rep = new ++ drop (length new) buf) as Hout.
  { change (out 0 rep) with (overwrite buf new). by rewrite overwrite_prefix, map_as_u8 by (done || lia). }
  cbn [bind bind_ok r_ret]. change (out 0 (mkReply (r_ret rep) (r_outs rep))) with (out 0 rep).
  change (r_ret rep) with (as_u64 (Z.of_nat (length new))). rewrite from_ret_nat, Hout by lia.
  destruct (Z.eqb_spec (Z.of_nat (length new)) 0); [lia|]. by rewrite slice_to_front.
Qed.

Lemma shutdown_shape {X} fd (f : unit -> Prog (result X)) :
  exists k, (let? x := shutdown fd SHUT_WR in f x) = Sys (shutdown_call fd SHUT_WR) k /\
    k (conform (shutdown_call fd SHUT_WR) (mkReply 0 [])) = f tt.
Proof. unfold shutdown. rewrite syscall2_eq. eexists. split; reflexivity. Qed.

Lemma stream_close_shape {X} fd (f : unit -> Prog (result X)) :
  exists k, (let? x := close fd in f x) = Sys (close_call fd) k /\
    k (conform (close_call fd) (mkReply 0 [])) = f tt.
Proof. unfold close. rewrite syscall1_eq. eexists. split; reflexivity. Qed.

(** *** What each call can do to the stream *)

Ltac other_call Ec :=
  intros Ec; unfold send_call, recv_call, shutdown_call, close_call in Ec; try discriminate Ec.

Lemma send_inv cap fd buf i o r i' o' :
  stream_call cap fd (send_call fd buf) i o r i' o' ->
  exists n, (0 < n <= length buf)%nat /\ isopen o = true /\ r = mkReply (Z.of_nat n) [] /\ i' = i /\
    o' = mkDir (bytes o ++ take n buf) true.
Proof.
  remember (send_call fd buf) as c eqn:Ec. intros Hs. revert Ec.
  destruct Hs as [buf' n i0 q Hn Hq| | | |]; other_call Ec.
  injection Ec as -> _. by exists n.
Qed.

Lemma recv_inv cap fd buf i o r i' o' :
  stream_call cap fd (recv_call fd buf) i o r i' o' -> o' = o /\
  ((exists n, (0 < n <= length buf)%nat /\ (n <= length (bytes i))%nat /\
      r = mkReply (Z.of_nat n) [take n (bytes i)] /\ i' = mkDir (drop n (bytes i)) (isopen i)) \/
   (i = mkDir [] false /\ i' = i /\ r = mkReply 0 [])).
Proof.
  remember (recv_call fd buf) as c eqn:Ec. intros Hs. revert Ec.
  destruct Hs as [|buf' n q b o0 Hn Hq|buf' o0| |]; other_call Ec.
  - injection Ec as -> _. split; [done|]. left. by exists n.
  - split; [done|]. by right.
Qed.

Lemma shutdown_inv cap fd i o r i' o' :
  stream_call cap fd (shutdown_call fd SHUT_WR) i o r i' o' ->
  i' = i /\ o' = mkDir (bytes o) false /\ r = mkReply 0 [].
Proof.
  remember (shutdown_call fd SHUT_WR) as c eqn:Ec. intros Hs. revert Ec.
  by destruct Hs as [| | |i0 q b|]; other_call Ec.
Qed.

Lemma close_inv cap fd i o r i' o' :
  stream_call cap fd (close_call fd) i o r i' o' ->
  i' = i /\ o' = mkDir (bytes o) false /\ r = mkReply 0 [].
Proof.
  remember (close_call fd) as c eqn:Ec. intros Hs. revert Ec.
  by destruct Hs as [| | | |i0 q b]; other_call Ec.
Qed.
End Shapes.

(** ** The network *)

Section Net.
Context {A : Type} `{KA : KStruct A} `{H : Target} {F : Family A} {SF : StreamFamily A}.

Definition connect_call (fd : Z) (b : list Z) : Call :=
  Syscall (nrz CONNECT) [int fd; ARef b; int (Z.of_nat (length b))].
Definition peer_call (fd : Z) (b : list Z) : Call :=
  Syscall (nrz GETPEERNAME) [int fd; AMut b; AMut (le_enc 4 (as_u32 (Z.of_nat (length b))))].
Definition accept_call (fd flags : Z) (b : list Z) : Call :=
  Syscall (nrz ACCEPT4) [int fd; AMut b; AMut (le_enc 4 (as_u32 (Z.of_nat (length b)))); int flags].

(** What the kernel writes for an address, and the length after it. *)
Definition addr_outs (e : Endpoint) : list (list Z) :=
  [ep_wire (A := A) e; le_enc 4 (Z.of_nat (length (ep_wire (A := A) e)))].

(** A client's socket: its descriptor, its own endpoint, its connection, what it
    sends and what comes back, and whether the descriptor is open. *)
Record CSock := mkCSock { k_fd : Z; k_me : Endpoint; k_link : option (Dir * Dir); k_open : bool }.

(** The calls of a client of the server at [sep]; [true] when it joins the
    backlog.  A connection is only closed here when the other side has ended: what
    else becomes of unread bytes is not modelled. *)
Inductive client_call (cap : nat) (sep : Endpoint) : Call -> CSock -> Reply -> CSock -> bool -> Prop :=
| cc_connect fd me b :
    ep_parse (A := A) b = Some sep ->
    client_call cap sep (connect_call fd b) (mkCSock fd me None true) (mkReply 0 [])
      (mkCSock fd me (Some (mkDir [] true, mkDir [] true)) true) true
| cc_peer fd me l b :
    client_call cap sep (peer_call fd b) (mkCSock fd me (Some l) true) (mkReply 0 (addr_outs sep))
      (mkCSock fd me (Some l) true) false
| cc_stream c fd me up down r up' down' :
    c <> close_call fd -> stream_call cap fd c down up r down' up' ->
    client_call cap sep c (mkCSock fd me (Some (up, down)) true) r (mkCSock fd me (Some (up', down')) true) false
| cc_close fd me q b :
    client_call cap sep (close_call fd) (mkCSock fd me (Some (mkDir q b, mkDir [] false)) true) (mkReply 0 [])
      (mkCSock fd me (Some (mkDir q false, mkDir [] false)) false) false.

(** The server, whether it listens, the connections it has not accepted, by client,
    its descriptors for those it has, and the clients. *)
Record World (X Y : Type) := mkWorld {
  w_server : Prog X; w_listens : bool; w_backlog : list nat; w_fds : gmap Z nat;
  w_clients : list (Prog Y * CSock) }.
#[global] Arguments mkWorld {_ _} _ _ _ _ _.
#[global] Arguments w_server {_ _} _.
#[global] Arguments w_listens {_ _} _.
#[global] Arguments w_fds {_ _} _.
#[global] Arguments w_clients {_ _} _.

(** [accept4] takes the oldest connection, under a descriptor not in use.  Nobody can
    connect once the listening socket [lfd] is closed; connections it had not accepted
    by then would be reset, which is not modelled.  No other call fails. *)
Inductive tcp_step (cap : nat) (lfd : Z) (sep : Endpoint) {X Y} : World X Y -> World X Y -> Prop :=
| client_calls x l bl fds cs i c k s r s' joins :
    cs !! i = Some (Sys c k, s) -> client_call cap sep c s r s' joins -> (joins = true -> l = true) ->
    tcp_step cap lfd sep (mkWorld x l bl fds cs)
      (mkWorld x l (if joins then bl ++ [i] else bl) fds (<[i := (k (conform c r), s')]> cs))
| client_refused x bl fds cs i fd b k me :
    let c := connect_call fd b in
    cs !! i = Some (Sys c k, mkCSock fd me None true) -> ep_parse (A := A) b = Some sep ->
    tcp_step cap lfd sep (mkWorld x false bl fds cs)
      (mkWorld x false bl fds
         (<[i := (k (conform c (mkReply (- code ECONNREFUSED) [])), mkCSock fd me None true)]> cs))
| server_accepts k flags b i bl fds cs p s fd :
    let c := accept_call lfd flags b in
    cs !! i = Some (p, s) -> fds !! fd = None -> fd <> lfd -> 0 <= fd < 2 ^ 31 ->
    tcp_step cap lfd sep (mkWorld (Sys c k) true (i :: bl) fds cs)
      (mkWorld (k (conform c (mkReply fd (addr_outs (k_me s))))) true bl (<[fd := i]> fds) cs)
| server_calls c k l bl fds cs fd i p cfd me up down o r up' down' :
    fds !! fd = Some i -> cs !! i = Some (p, mkCSock cfd me (Some (up, down)) o) ->
    stream_call cap fd c up down r up' down' ->
    tcp_step cap lfd sep (mkWorld (Sys c k) l bl fds cs)
      (mkWorld (k (conform c r)) l bl (if decide (c = close_call fd) then delete fd fds else fds)
        (<[i := (p, mkCSock cfd me (Some (up', down')) o)]> cs))
| server_closes k fds cs :
    let c := close_call lfd in
    tcp_step cap lfd sep (mkWorld (Sys c k) true [] fds cs)
      (mkWorld (k (conform c (mkReply 0 []))) false [] fds cs).

(** ** The programs *)

(** Connect, ask who that is, send the request, say that it is whole, read the
    answer to its end, and close. *)
Definition leaving (name : Endpoint) (fd : Z) (answer : list Z) : Prog (result (Endpoint * list Z)) :=
  let? _ := close fd in
  Ret (Ok (name, answer)).

Definition hearing_from (name : Endpoint) (fuel : nat) (fd : Z) (got buf : list Z) :
    Prog (result (Endpoint * list Z)) :=
  let? answer := recv_all fuel fd buf got in
  leaving name fd answer.

Definition sending_to (name : Endpoint) (fuel hfuel : nat) (fd : Z) (rest buf : list Z) :
    Prog (result (Endpoint * list Z)) :=
  let? _ := send_all fuel fd rest in
  let? _ := shutdown fd SHUT_WR in
  hearing_from name hfuel fd [] buf.

Definition asking (fuel : nat) (fd : Z) (req buf : list Z) : Prog (result (Endpoint * list Z)) :=
  let? peer := peer_of (A := A) fd in
  sending_to (endpoint peer) fuel fuel fd req buf.

Definition request (fuel : nat) (fd : Z) (to : A) (req buf : list Z) :
    Prog (result (Endpoint * list Z)) :=
  let? _ := connect_to fd to in
  asking fuel fd req buf.

(** Serve [n] connections, one after the other: read the request to its end, send
    [f] of it, close; then close the listening socket.  The log has every client and
    what it asked. *)
Definition Served : Type := list (Endpoint * list Z).

Section Serve.
Context (sfuel : nat) (lfd : Z) (f : list Z -> list Z) (sbuf : list Z).

Definition replying (again : Served -> Prog (result Served)) (fuel : nat) (fd : Z) (rest : list Z)
    (log : Served) : Prog (result Served) :=
  let? _ := send_all fuel fd rest in
  let? _ := close fd in
  again log.

Definition reading (again : Served -> Prog (result Served)) (fuel : nat) (fd : Z) (got buf : list Z)
    (from : Endpoint) (log : Served) : Prog (result Served) :=
  let? req := recv_all fuel fd buf got in
  replying again sfuel fd (f req) (log ++ [(from, req)]).

Fixpoint serve_all (n : nat) (log : Served) : Prog (result Served) :=
  match n with
  | O => let? _ := close lfd in Ret (Ok log)
  | S n =>
      let? (fd, from) := accept_from (A := A) lfd SOCK_CLOEXEC in
      reading (serve_all n) sfuel fd [] sbuf (endpoint from) log
  end.
End Serve.

(** *** Their first calls *)

Lemma connect_shape {X} fd to (f : unit -> Prog (result X)) :
  ep_ok ep_size to ->
  let c := connect_call fd (ep_wire (A := A) to) in
  exists k, (let? x := connect_to fd (sock_addr (A := A) to) in f x) = Sys c k /\
    k (conform c (mkReply 0 [])) = f tt.
Proof.
  intros He c. rewrite connect_to_eq, syscall3_eq, sock_addr_wire, (sizeof_len to) by done.
  eexists. split; reflexivity.
Qed.

Lemma peer_shape {X} fd e (f : A -> Prog (result X)) :
  ep_ok ep_size e -> let c := peer_call fd (encode (sock_zero (A := A))) in
  exists k, (let? x := peer_of fd in f x) = Sys c k /\
    k (conform c (mkReply 0 (addr_outs e))) = f (sock_addr (A := A) e).
Proof.
  intros He c. rewrite peer_of_eq, syscall3_eq, addrlen_len. eexists. split; [reflexivity|].
  cbn. by rewrite wire_over_zero, decode_wire.
Qed.

Lemma accept_shape {X} lfd flags (f : Z * A -> Prog (result X)) :
  let c := accept_call lfd flags (encode (sock_zero (A := A))) in
  exists k, (let? x := accept_from lfd flags in f x) = Sys c k /\
    forall fd e, ep_ok ep_size e -> 0 <= fd < 2 ^ 31 ->
      k (conform c (mkReply fd (addr_outs e))) = f (fd, sock_addr (A := A) e).
Proof.
  intros c. rewrite accept_from_eq, syscall4_eq, addrlen_len. eexists. split; [reflexivity|].
  intros fd e He Hfd. cbn -[from_ret_i32]. by rewrite from_ret_i32_fd, wire_over_zero, decode_wire.
Qed.

(** *** What a client's call can do *)

Lemma connect_inv cap sep fd b me r s' joins :
  client_call cap sep (connect_call fd b) (mkCSock fd me None true) r s' joins ->
  r = mkReply 0 [] /\ s' = mkCSock fd me (Some (mkDir [] true, mkDir [] true)) true /\ joins = true.
Proof.
  remember (mkCSock fd me None true) as s eqn:Es. intros Hs. revert Es.
  destruct Hs; intros Es; try discriminate Es. by injection Es as -> ->.
Qed.

Lemma peer_inv cap sep fd b me l r s' joins :
  client_call cap sep (peer_call fd b) (mkCSock fd me (Some l) true) r s' joins ->
  r = mkReply 0 (addr_outs sep) /\ s' = mkCSock fd me (Some l) true /\ joins = false.
Proof.
  remember (peer_call fd b) as c eqn:Ec. remember (mkCSock fd me (Some l) true) as s eqn:Es.
  intros Hs. revert Ec Es.
  destruct Hs as [| |c fd0 me0 u d r u' d' _ Hs|]; intros Ec Es; try discriminate Es; try discriminate Ec.
  - by injection Es as -> -> ->.
  - destruct Hs; discriminate Ec.
Qed.

(** The calls with more than one argument, other than three, are those of the stream. *)
Lemma stream_inv cap sep c fd me u d r s' joins :
  length (call_args c) <> 3%nat -> length (call_args c) <> 1%nat ->
  client_call cap sep c (mkCSock fd me (Some (u, d)) true) r s' joins ->
  joins = false /\ exists u' d', s' = mkCSock fd me (Some (u', d')) true /\ stream_call cap fd c d u r d' u'.
Proof.
  intros Hl Hl1. remember (mkCSock fd me (Some (u, d)) true) as s eqn:Es. intros Hs. revert Es Hl Hl1.
  destruct Hs as [| |c fd0 me0 u0 d0 r u' d' _ Hs|]; intros Es Hl Hl1; try discriminate Es; try done.
  injection Es as -> -> -> ->. split; [done|]. by exists u', d'.
Qed.

Lemma leave_inv cap sep fd me u d r s' joins :
  client_call cap sep (close_call fd) (mkCSock fd me (Some (u, d)) true) r s' joins ->
  r = mkReply 0 [] /\ s' = mkCSock fd me (Some (mkDir (bytes u) false, d)) false /\ joins = false.
Proof.
  remember (close_call fd) as c eqn:Ec. remember (mkCSock fd me (Some (u, d)) true) as s eqn:Es.
  intros Hs. revert Ec Es.
  destruct Hs as [| |c fd0 me0 u0 d0 r u' d' Hc Hs|]; intros Ec Es; try discriminate Es; try discriminate Ec.
  - injection Es as -> -> -> ->. by destruct Hc.
  - by injection Es as -> -> <- <-.
Qed.
End Net.
