(* ===== verification/ServiceSpec.v ===== *)
(** Requests and answers over connections: a server that serves every client in
    turn, and clients that connect, ask and wait.  First one connection, where
    neither side waits for the other for ever; then the server's books. *)

From Stdlib Require Import ZArith Lia.
From stdpp Require Import base list option numbers gmap strings.
From S2P Require Import Prelude Prog Layout Asm Arch Fd FdSpec Socket SocketSpec StreamSpec.

(** ** One connection *)

Record Client := mkClient { c_fd : Z; c_ep : Endpoint; c_req : list Z; c_buf : list Z }.

(** Where a client is, and where the server is with it. *)
Inductive CPhase :=
| Connecting | Asking
| Sending (fuel : nat) (rest : list Z)
| Hearing (fuel : nat) (got buf : list Z)
| Leaving
| Over.
Inductive Stage :=
| Away | Waiting
| Reading (fuel : nat) (got buf : list Z)
| Replying (fuel : nat) (rest : list Z)
| Closed.
Record CState := mkCState { who : Client; cphase : CPhase; stage : Stage; up : Dir; down : Dir }.

Definition up_open (p : CPhase) : bool := match p with Hearing _ _ _ | Leaving | Over => false | _ => true end.
Definition down_open (g : Stage) : bool := match g with Closed => false | _ => true end.
Definition active (g : Stage) : Prop :=
  match g with Reading _ _ _ | Replying _ _ => True | _ => False end.

Section Connection.
Context {A : Type} `{KA : KStruct A} `{H : Target} {F : Family A} {SF : StreamFamily A}.
Context (cap : nat) (lfd : Z) (sep : Endpoint) (f : list Z -> list Z) (cfuel sfuel : nat) (sbuf : list Z).

(** The request and the answer, in the parts that are not yet sent, and that have
    arrived; what is between is in the streams. *)
Definition unsent (st : CState) : list Z :=
  match cphase st with
  | Connecting | Asking => c_req (who st)
  | Sending _ rest => rest
  | _ => []
  end.
Definition taken (st : CState) : list Z :=
  match stage st with
  | Away | Waiting => []
  | Reading _ got _ => got
  | _ => c_req (who st)
  end.
Definition unsaid (st : CState) : list Z :=
  match stage st with
  | Replying _ rest => rest
  | Closed => []
  | _ => f (c_req (who st))
  end.
Definition heard (st : CState) : list Z :=
  match cphase st with
  | Hearing _ got _ => got
  | Leaving | Over => f (c_req (who st))
  | _ => []
  end.

Definition client_ok (c : Client) : Prop :=
  ep_ok ep_size (c_ep c) /\ bytes_ok (c_req c) /\ bytes_ok (f (c_req c)) /\
  (0 < length (c_buf c))%nat /\ Z.of_nat (length (c_buf c)) < 2 ^ 63 /\
  Z.of_nat cfuel < 2 ^ 63 /\ Z.of_nat sfuel < 2 ^ 63 /\
  (length (c_req c) < Nat.min cfuel sfuel)%nat /\ (length (f (c_req c)) < Nat.min cfuel sfuel)%nat.

Record conn_ok (st : CState) : Prop := {
  ok_client : client_ok (who st);
  ok_req : c_req (who st) = taken st ++ bytes (up st) ++ unsent st;
  ok_ans : f (c_req (who st)) = heard st ++ bytes (down st) ++ unsaid st;
  ok_up : isopen (up st) = up_open (cphase st);
  ok_down : isopen (down st) = down_open (stage st);
  ok_away : cphase st = Connecting <-> stage st = Away;
  ok_cphase :
    match cphase st with
    | Sending fuel rest => (length rest <= fuel)%nat
    | Hearing fuel got buf =>
        (length (f (c_req (who st))) < fuel + length got)%nat /\ length buf = length (c_buf (who st))
    | Leaving | Over => down st = mkDir [] false
    | _ => True
    end;
  ok_stage :
    match stage st with
    | Reading fuel got buf => (length (c_req (who st)) < fuel + length got)%nat /\ length buf = length sbuf
    | Replying fuel rest => (length rest <= fuel)%nat
    | _ => True
    end }.

Definition work (st : CState) : nat :=
  2 * length (unsent st) + length (bytes (up st)) + 2 * length (unsaid st) + length (bytes (down st)) +
  match cphase st with
  | Connecting => 5 | Asking => 4 | Sending _ _ => 3 | Hearing _ _ _ => 2 | Leaving => 1 | Over => 0
  end +
  match stage st with Away | Waiting => 3 | Reading _ _ _ => 2 | Replying _ _ => 1 | Closed => 0 end.

Definition node_of (st : CState) : Prog (result (Endpoint * list Z)) * CSock :=
  let c := who st in
  let sock := mkCSock (c_fd c) (c_ep c) in
  let on := sock (Some (up st, down st)) true in
  match cphase st with
  | Connecting =>
      (request cfuel (c_fd c) (sock_addr (A := A) sep) (c_req c) (c_buf c), sock None true)
  | Asking => (asking (A := A) cfuel (c_fd c) (c_req c) (c_buf c), on)
  | Sending fuel rest => (sending_to sep fuel cfuel (c_fd c) rest (c_buf c), on)
  | Hearing fuel got buf => (hearing_from sep fuel (c_fd c) got buf, on)
  | Leaving => (leaving sep (c_fd c) (f (c_req c)), on)
  | Over => (Ret (Ok (sep, f (c_req c))), sock (Some (up st, down st)) false)
  end.

(** What the server runs while it has the connection, under [fd]. *)
Definition serving (again : Served -> Prog (result Served)) (fd : Z) (log : Served) (st : CState) :
    Prog (result Served) :=
  let c := who st in
  match stage st with
  | Reading fuel got buf => reading sfuel f again fuel fd got buf (c_ep c) log
  | Replying fuel rest => replying again fuel fd rest (log ++ [(c_ep c, c_req c)])
  | _ => Panic
  end.

(** *** The client's side *)

Context (Hsep : ep_ok ep_size sep) (Hcap : (0 < cap)%nat).

Ltac lens H := apply (f_equal length) in H; rewrite ?length_app in H; simpl in H.

(** Before the connection there is nothing in it. *)
Lemma connecting_empty st :
  conn_ok st -> cphase st = Connecting -> up st = mkDir [] true /\ down st = mkDir [] true.
Proof.
  intros [_ Hreq Hans Hup Hdown Haway _ _] Hp. pose proof (proj1 Haway Hp) as Hg.
  unfold unsent, taken, unsaid, heard in *. rewrite Hp, Hg in *. lens Hreq. lens Hans.
  destruct st as [c p g [[|? ?] bu] [[|? ?] bd]]; simpl in *; try lia. by subst.
Qed.

(** The next state after a call of the client. *)
Definition client_next (st : CState) (joins : bool) (st' : CState) : Prop :=
  conn_ok st' /\ who st' = who st /\ (work st' < work st)%nat /\
  (if joins then stage st = Away /\ stage st' = Waiting else stage st' = stage st).

Lemma connecting_calls st c k s r s' joins :
  conn_ok st -> cphase st = Connecting -> node_of st = (Sys c k, s) ->
  client_call (A := A) cap sep c s r s' joins ->
  exists st', client_next st joins st' /\ node_of st' = (k (conform c r), s').
Proof.
  intros Hok Hp Hn Hcall. destruct (connecting_empty st Hok Hp) as [Eu Ed].
  unfold node_of in Hn. rewrite Hp in Hn. unfold request in Hn.
  destruct (connect_shape (c_fd (who st)) sep
    (fun _ => asking (A := A) cfuel (c_fd (who st)) (c_req (who st)) (c_buf (who st))) Hsep) as (k0 & E & Hk).
  rewrite E in Hn. injection Hn as <- <- <-.
  apply connect_inv in Hcall as (-> & -> & ->).
  exists (mkCState (who st) Asking Waiting (up st) (down st)).
  destruct Hok as [Hc Hreq Hans Hup Hdown Haway _ _]. pose proof (proj1 Haway Hp) as Hg. split.
  - split_and!; [|done| |done|done].
    + constructor; simpl; try done; unfold unsent, taken, unsaid, heard in *; rewrite ?Hp, ?Hg in *; done.
    + unfold work, unsent, unsaid in *. simpl. rewrite Hp, Hg. lia.
  - unfold node_of. cbn [cphase who up down]. by rewrite Hk, Eu, Ed.
Qed.

Lemma asking_calls st c k s r s' joins :
  conn_ok st -> cphase st = Asking -> node_of st = (Sys c k, s) ->
  client_call (A := A) cap sep c s r s' joins ->
  exists st', client_next st joins st' /\ node_of st' = (k (conform c r), s').
Proof.
  intros Hok Hp Hn Hcall. unfold node_of in Hn. rewrite Hp in Hn. unfold asking in Hn.
  destruct (peer_shape (c_fd (who st)) sep (fun peer => sending_to (endpoint (A := A) peer) cfuel cfuel
    (c_fd (who st)) (c_req (who st)) (c_buf (who st))) Hsep) as (k0 & E & Hk).
  rewrite E in Hn. injection Hn as <- <- <-. apply peer_inv in Hcall as (-> & -> & ->).
  exists (mkCState (who st) (Sending cfuel (c_req (who st))) (stage st) (up st) (down st)).
  destruct Hok as [Hc Hreq Hans Hup Hdown Haway _ Hstage]. split.
  - split_and!; [|done| |done].
    + assert (stage st <> Away) by (intros Hg; apply Haway in Hg; congruence).
      constructor; simpl; try done; unfold unsent, taken, unsaid, heard in *; rewrite ?Hp in *; try done.
      destruct Hc as (_ & _ & _ & _ & _ & _ & _ & ? & _). lia.
    + unfold work, unsent, unsaid in *. simpl. rewrite Hp. lia.
  - unfold node_of. cbn [cphase who up down]. by rewrite Hk, endpoint_addr.
Qed.

Lemma sending_calls st fuel rest c k s r s' joins :
  conn_ok st -> cphase st = Sending fuel rest -> node_of st = (Sys c k, s) ->
  client_call (A := A) cap sep c s r s' joins ->
  exists st', client_next st joins st' /\ node_of st' = (k (conform c r), s').
Proof.
  intros Hok Hp Hn Hcall. unfold node_of in Hn. rewrite Hp in Hn. unfold sending_to in Hn.
  pose proof Hok as [Hc Hreq Hans Hup Hdown Haway Hph Hstage]. rewrite Hp in *.
  assert (stage st <> Away) by (intros Hg; apply Haway in Hg; congruence).
  unfold unsent, heard in *. rewrite Hp in *. pose proof Hc as (_ & _ & _ & _ & _ & Hcf & _ & Hlen & _).
  destruct (decide (rest = [])) as [->|Hne].
  - rewrite send_all_nil, bind_ok_ret in Hn.
    destruct (shutdown_shape (c_fd (who st)) (fun _ => hearing_from sep cfuel (c_fd (who st)) [] (c_buf (who st))))
      as (k0 & E & Hk). rewrite E in Hn. injection Hn as <- <- <-.
    apply stream_inv in Hcall as (-> & u' & d' & -> & Hs); [|done|done].
    apply shutdown_inv in Hs as (-> & -> & ->).
    exists (mkCState (who st) (Hearing cfuel [] (c_buf (who st))) (stage st) (mkDir (bytes (up st)) false) (down st)).
    split; [split_and!; [|done| |done]|].
    + constructor; simpl; try done. split; [|done]. destruct Hc as (_ & _ & _ & _ & _ & _ & _ & _ & ?). simpl. lia.
    + unfold work, unsent, unsaid in *. simpl. rewrite Hp. simpl. lia.
    + unfold node_of. cbn [cphase who up down]. by rewrite Hk.
  - assert (0 < length rest)%nat by (destruct rest; [done|simpl; lia]). destruct fuel as [|fuel]; [lia|].
    assert (length rest <= length (c_req (who st)))%nat by (lens Hreq; lia).
    destruct (send_shape fuel (c_fd (who st)) rest (fun _ =>
      let? _ := shutdown (c_fd (who st)) SHUT_WR in hearing_from sep cfuel (c_fd (who st)) [] (c_buf (who st)))
      Hne ltac:(lia)) as (k0 & E & Hk). rewrite E in Hn. injection Hn as <- <- <-.
    apply stream_inv in Hcall as (-> & u' & d' & -> & Hs); [|done|done].
    apply send_inv in Hs as (n & Hlt & Ho & -> & -> & ->).
    exists (mkCState (who st) (Sending fuel (drop n rest)) (stage st)
      (mkDir (bytes (up st) ++ take n rest) true) (down st)).
    split; [split_and!; [|done| |done]|].
    + constructor; simpl; try done.
      * unfold unsent. simpl. by rewrite <- app_assoc, take_drop.
      * rewrite length_drop. lia.
    + unfold work, unsent, unsaid in *. simpl. rewrite Hp, length_app, length_take, length_drop. lia.
    + unfold node_of. cbn [cphase who up down]. by rewrite Hk.
Qed.

(** Bytes on the way to the client are bytes of the answer. *)
Lemma down_bytes st n : conn_ok st -> bytes_ok (take n (bytes (down st))).
Proof.
  intros [(_ & _ & Hb & _) _ Hans _ _ _ _ _]. apply Forall_take. rewrite Hans in Hb.
  by apply Forall_app in Hb as [_ [Hd _]%Forall_app].
Qed.
Lemma up_bytes st n : conn_ok st -> bytes_ok (take n (bytes (up st))).
Proof.
  intros [(_ & Hb & _) Hreq _ _ _ _ _ _]. apply Forall_take. rewrite Hreq in Hb.
  by apply Forall_app in Hb as [_ [Hd _]%Forall_app].
Qed.

Lemma hearing_calls st fuel got buf c k s r s' joins :
  conn_ok st -> cphase st = Hearing fuel got buf -> node_of st = (Sys c k, s) ->
  client_call (A := A) cap sep c s r s' joins ->
  exists st', client_next st joins st' /\ node_of st' = (k (conform c r), s').
Proof.
  intros Hok Hp Hn Hcall. unfold node_of in Hn. rewrite Hp in Hn. unfold hearing_from in Hn.
  pose proof Hok as [Hc Hreq Hans Hup Hdown Haway Hph Hstage]. rewrite Hp in *.
  assert (stage st <> Away) by (intros Hg; apply Haway in Hg; congruence).
  unfold unsent, heard in *. rewrite Hp in *. destruct Hph as [Hfuel Hl].
  pose proof Hc as (_ & _ & _ & _ & Hbuf & _ & _ & _ & Hlen). rewrite <- Hl in Hbuf.
  assert (length got + length (bytes (down st)) <= length (f (c_req (who st))))%nat by (lens Hans; lia).
  destruct fuel as [|fuel]; [lia|].
  destruct (recv_shape fuel (c_fd (who st)) buf got (leaving sep (c_fd (who st))) Hbuf) as (k0 & E & Hk & Hend).
  rewrite E in Hn. injection Hn as <- <- <-.
  apply stream_inv in Hcall as (-> & u' & d' & -> & Hs); [|done|done].
  apply recv_inv in Hs as [-> [(n & Hn & Hle & -> & ->)|(Ed & -> & ->)]].
  - assert (length (take n (bytes (down st))) = n) as Ht by (rewrite length_take; lia).
    destruct (Hk (take n (bytes (down st))) (down_bytes st n Hok) ltac:(lia)) as (buf' & Hl' & Ek).
    rewrite Ht in Ek.
    exists (mkCState (who st) (Hearing fuel (got ++ take n (bytes (down st))) buf') (stage st) (up st)
      (mkDir (drop n (bytes (down st))) (isopen (down st)))).
    split; [split_and!; [|done| |done]|].
    + constructor; simpl; try done.
      * unfold heard. simpl. rewrite <- app_assoc, (app_assoc (take n _)), take_drop. exact Hans.
      * rewrite length_app, Ht. split; [lia|congruence].
    + unfold work, unsent, unsaid in *. simpl. rewrite Hp, length_drop. lia.
    + unfold node_of. cbn [cphase who up down]. by rewrite Ek.
  - exists (mkCState (who st) Leaving (stage st) (up st) (down st)).
    assert (stage st = Closed) as Hg by (rewrite Ed in Hdown; by destruct (stage st)).
    unfold unsaid in Hans. rewrite Hg, Ed in Hans. simpl in Hans. rewrite app_nil_r in Hans.
    split; [split_and!; [|done| |done]|].
    + constructor; simpl; try done. unfold heard, unsaid. simpl. by rewrite Ed, Hg, !app_nil_r.
    + unfold work, unsent, unsaid in *. simpl. rewrite Hp, Hg. lia.
    + unfold node_of. cbn [cphase who up down]. by rewrite Hend, <- Hans, Ed.
Qed.

Lemma leaving_calls st c k s r s' joins :
  conn_ok st -> cphase st = Leaving -> node_of st = (Sys c k, s) ->
  client_call (A := A) cap sep c s r s' joins ->
  exists st', client_next st joins st' /\ node_of st' = (k (conform c r), s').
Proof.
  intros Hok Hp Hn Hcall. unfold node_of in Hn. rewrite Hp in Hn. unfold leaving in Hn.
  pose proof Hok as [Hc Hreq Hans Hup Hdown Haway Hph Hstage]. rewrite Hp in *.
  destruct (stream_close_shape (c_fd (who st)) (fun _ => Ret (Ok (sep, f (c_req (who st)))))) as (k0 & E & Hk).
  rewrite E in Hn. injection Hn as <- <- <-. apply leave_inv in Hcall as (-> & -> & ->).
  exists (mkCState (who st) Over (stage st) (mkDir (bytes (up st)) false) (down st)).
  split; [split_and!; [|done| |done]|].
  - unfold unsent, heard in *. rewrite Hp in *.
    assert (stage st <> Away) by (intros Hg; apply Haway in Hg; congruence). by constructor.
  - unfold work, unsent, unsaid in *. simpl. rewrite Hp. lia.
  - unfold node_of. cbn [cphase who up down]. by rewrite Hk.
Qed.

Lemma client_steps_ok st c k s r s' joins :
  conn_ok st -> node_of st = (Sys c k, s) -> client_call (A := A) cap sep c s r s' joins ->
  exists st', client_next st joins st' /\ node_of st' = (k (conform c r), s').
Proof.
  intros Hok Hn Hcall. destruct (cphase st) eqn:Hp;
    eauto using connecting_calls, asking_calls, sending_calls, hearing_calls, leaving_calls.
  unfold node_of in Hn. by rewrite Hp in Hn.
Qed.

(** A client waits only for room, or for the answer. *)
Definition client_waits (st : CState) : Prop :=
  match cphase st with
  | Sending _ rest => rest <> [] /\ (cap <= length (bytes (up st)))%nat
  | Hearing _ _ _ => bytes (down st) = [] /\ isopen (down st) = true
  | Over => True
  | _ => False
  end.

Lemma client_can st :
  conn_ok st -> client_waits st \/
  exists c k s r s' joins, node_of st = (Sys c k, s) /\ client_call (A := A) cap sep c s r s' joins.
Proof.
  intros Hok. pose proof Hok as [Hc Hreq Hans Hup Hdown _ Hph _]. unfold client_waits, node_of.
  destruct (up st) as [qu bu], (down st) as [qd bd]. simpl in *.
  destruct (cphase st) as [| |fuel rest|fuel got buf| |] eqn:Hp; [| | | | |by left].
  - right. unfold request.
    edestruct (connect_shape (X := Endpoint * list Z) (c_fd (who st)) sep) as (k & E & _); [done|].
    rewrite E.
    do 6 eexists. split; [reflexivity|]. apply cc_connect. by apply ep_parse_wire.
  - right. unfold asking.
    edestruct (peer_shape (X := Endpoint * list Z) (c_fd (who st)) sep) as (k & E & _); [done|].
    rewrite E. do 6 eexists. split; [reflexivity|]. apply cc_peer.
  - destruct (decide (rest = [])) as [->|Hne].
    + right. unfold sending_to. rewrite send_all_nil, bind_ok_ret.
      edestruct (shutdown_shape (X := Endpoint * list Z) (c_fd (who st))) as (k & E & _). rewrite E.
      do 6 eexists. split; [reflexivity|]. apply cc_stream; [done|]. apply sc_shutdown.
    + destruct (decide (cap <= length qu)%nat) as [|Hroom]; [by left|]. right.
      assert (0 < length rest)%nat by (destruct rest; [done|simpl; lia]). destruct fuel as [|fuel]; [lia|].
      unfold unsent in Hreq. rewrite Hp in Hreq. lens Hreq.
      destruct Hc as (_ & _ & _ & _ & _ & ? & _ & ? & _).
      unfold sending_to.
      edestruct (send_shape (X := Endpoint * list Z) fuel (c_fd (who st)) rest) as (k & E & _); [done|lia|].
      rewrite E. do 6 eexists. split; [reflexivity|]. apply cc_stream; [done|].
      subst bu. apply (sc_send _ _ _ 1); lia.
  - destruct Hc as (_ & _ & _ & ? & Hbuf & _). destruct Hph as [Hf Hl]. rewrite <- Hl in *.
    unfold heard in Hans. rewrite Hp in Hans. lens Hans. destruct fuel as [|fuel]; [lia|]. unfold hearing_from.
    edestruct (recv_shape (X := Endpoint * list Z) fuel (c_fd (who st)) buf got) as (k & E & _); [done|]. rewrite E.
    destruct qd as [|x q].
    + destruct bd; [by left|right]. do 6 eexists. split; [reflexivity|]. apply cc_stream; [done|]. apply sc_end.
    + right. do 6 eexists. split; [reflexivity|]. apply cc_stream; [done|].
      apply (sc_recv _ _ _ 1); simpl; lia.
  - right. unfold leaving. edestruct (stream_close_shape (X := Endpoint * list Z) (c_fd (who st))) as (k & E & _).
    rewrite E. do 6 eexists. split; [reflexivity|]. injection Hph as -> ->. apply cc_close.
Qed.

(** *** The server's side *)

Context (Hsbuf : (0 < length sbuf)%nat) (Hsbuf' : Z.of_nat (length sbuf) < 2 ^ 63).

(** The next state after a call of the server, and what it goes on with. *)
Definition server_next (again : Served -> Prog (result Served)) (fd : Z) (log : Served) (st st' : CState)
    (c : Call) (p : Prog (result Served)) : Prop :=
  conn_ok st' /\ who st' = who st /\ cphase st' = cphase st /\ (work st' < work st)%nat /\
  ((active (stage st') /\ c <> close_call fd /\ p = serving again fd log st') \/
   (stage st' = Closed /\ c = close_call fd /\ p = again (log ++ [(c_ep (who st), c_req (who st))]))).

Lemma reading_calls again fd log st fuel got buf c k r up' down' :
  conn_ok st -> stage st = Reading fuel got buf -> serving again fd log st = Sys c k ->
  stream_call cap fd c (up st) (down st) r up' down' ->
  exists st', server_next again fd log st st' c (k (conform c r)) /\ up st' = up' /\ down st' = down'.
Proof.
  intros Hok Hg Hn Hs. unfold serving in Hn. rewrite Hg in Hn. unfold reading in Hn.
  pose proof Hok as [Hc Hreq Hans Hup Hdown Haway Hph Hstage]. rewrite Hg in *.
  assert (cphase st <> Connecting) as Hnc by (intros Hp; apply Haway in Hp; congruence).
  unfold taken, unsaid in *. rewrite Hg in *. destruct Hstage as [Hfuel Hl].
  pose proof Hc as (_ & _ & _ & _ & _ & _ & _ & _ & Hlen).
  assert (length got + length (bytes (up st)) <= length (c_req (who st)))%nat by (lens Hreq; lia).
  destruct fuel as [|fuel]; [lia|].
  destruct (recv_shape fuel fd buf got (fun req =>
    replying again sfuel fd (f req) (log ++ [(c_ep (who st), req)])) ltac:(congruence)) as (k0 & E & Hk & Hend).
  rewrite E in Hn. injection Hn as <- <-.
  apply recv_inv in Hs as [-> [(n & Hn & Hle & -> & ->)|(Eu & -> & ->)]].
  - assert (length (take n (bytes (up st))) = n) as Ht by (rewrite length_take; lia).
    destruct (Hk (take n (bytes (up st))) (up_bytes st n Hok) ltac:(lia)) as (buf' & Hl' & Ek).
    rewrite Ht in Ek.
    exists (mkCState (who st) (cphase st) (Reading fuel (got ++ take n (bytes (up st))) buf')
      (mkDir (drop n (bytes (up st))) (isopen (up st))) (down st)).
    split; [|done]. split_and!; [|done|done| |by left].
    + constructor; simpl; try done; try (split; [by intros ?%Hnc|done]).
      * unfold taken. simpl. rewrite <- app_assoc, (app_assoc (take n _)), take_drop. exact Hreq.
      * rewrite length_app, Ht. split; [lia|congruence].
    + unfold work, unsent, unsaid in *. simpl. rewrite Hg, length_drop. lia.
  - assert (unsent st = []) as Hu.
    { rewrite Eu in Hup. unfold unsent. by destruct (cphase st). }
    rewrite Hu, Eu in Hreq. simpl in Hreq. rewrite app_nil_r in Hreq.
    exists (mkCState (who st) (cphase st) (Replying sfuel (f (c_req (who st)))) (up st) (down st)).
    split; [|done]. split_and!; [|done|done| |left; by rewrite Hend, <- Hreq].
    + constructor; simpl; try done; try (split; [by intros ?%Hnc|done]); [|lia].
      unfold taken, unsent in *. simpl in *. by rewrite Hu, Eu, app_nil_r.
    + unfold work, unsent, unsaid in *. simpl. rewrite Hg. lia.
Qed.

(** While the server has the connection, the client has not seen its end. *)
Lemma not_ended st : conn_ok st -> active (stage st) -> cphase st <> Leaving /\ cphase st <> Over.
Proof.
  intros [_ _ _ _ Hdown _ Hph _] Ha. split; intros Hp; rewrite Hp in Hph; rewrite Hph in Hdown;
    by destruct (stage st).
Qed.

Lemma replying_calls again fd log st fuel rest c k r up' down' :
  conn_ok st -> stage st = Replying fuel rest -> serving again fd log st = Sys c k ->
  stream_call cap fd c (up st) (down st) r up' down' ->
  exists st', server_next again fd log st st' c (k (conform c r)) /\ up st' = up' /\ down st' = down'.
Proof.
  intros Hok Hg Hn Hs. unfold serving in Hn. rewrite Hg in Hn. unfold replying in Hn.
  pose proof Hok as [Hc Hreq Hans Hup Hdown Haway Hph Hstage]. rewrite Hg in *.
  assert (cphase st <> Connecting) as Hnc by (intros Hp; apply Haway in Hp; congruence).
  destruct (not_ended st Hok) as [Hnl Hno]; [by rewrite Hg|].
  unfold taken, unsaid in *. rewrite Hg in *. pose proof Hc as (_ & _ & _ & _ & _ & _ & Hsf & _ & Hlen).
  destruct (decide (rest = [])) as [->|Hne].
  - rewrite send_all_nil, bind_ok_ret in Hn.
    destruct (stream_close_shape fd (fun _ => again (log ++ [(c_ep (who st), c_req (who st))]))) as (k0 & E & Hk).
    rewrite E in Hn. injection Hn as <- <-. apply close_inv in Hs as (-> & -> & ->).
    exists (mkCState (who st) (cphase st) Closed (up st) (mkDir (bytes (down st)) false)).
    split; [|done]. split_and!; [|done|done| |right; by rewrite Hk].
    + constructor; simpl; try done; try (split; [by intros ?%Hnc|done]); try by destruct (cphase st).
    + unfold work, unsent, unsaid in *. simpl. rewrite Hg. simpl. lia.
  - assert (0 < length rest)%nat by (destruct rest; [done|simpl; lia]). destruct fuel as [|fuel]; [lia|].
    assert (length rest <= length (f (c_req (who st))))%nat by (lens Hans; lia).
    destruct (send_shape fuel fd rest (fun _ =>
      let? _ := close fd in again (log ++ [(c_ep (who st), c_req (who st))])) Hne ltac:(lia)) as (k0 & E & Hk).
    rewrite E in Hn. injection Hn as <- <-. apply send_inv in Hs as (n & Hlt & Ho & -> & -> & ->).
    exists (mkCState (who st) (cphase st) (Replying fuel (drop n rest)) (up st)
      (mkDir (bytes (down st) ++ take n rest) true)).
    split; [|done]. split_and!; [|done|done| |left; by rewrite Hk].
    + constructor; simpl; try done; try (split; [by intros ?%Hnc|done]); try by destruct (cphase st).
      * unfold unsaid. simpl. by rewrite <- app_assoc, take_drop.
      * rewrite length_drop. lia.
    + unfold work, unsent, unsaid in *. simpl. rewrite Hg, length_app, length_take, length_drop. lia.
Qed.

Lemma server_steps_ok again fd log st c k r up' down' :
  conn_ok st -> serving again fd log st = Sys c k -> stream_call cap fd c (up st) (down st) r up' down' ->
  exists st', server_next again fd log st st' c (k (conform c r)) /\ up st' = up' /\ down st' = down'.
Proof.
  intros Hok Hn Hs. destruct (stage st) eqn:Hg; eauto using reading_calls, replying_calls;
    unfold serving in Hn; by rewrite Hg in Hn.
Qed.

(** The server waits only for the request, or for room. *)
Definition server_waits (st : CState) : Prop :=
  match stage st with
  | Reading _ _ _ => bytes (up st) = [] /\ isopen (up st) = true
  | Replying _ rest => rest <> [] /\ (cap <= length (bytes (down st)))%nat
  | _ => True
  end.

Lemma server_can again fd log st :
  conn_ok st -> server_waits st \/
  exists c k r up' down', serving again fd log st = Sys c k /\
    stream_call cap fd c (up st) (down st) r up' down'.
Proof.
  intros Hok. pose proof Hok as [Hc Hreq Hans Hup Hdown _ _ Hstage]. unfold server_waits, serving.
  destruct (up st) as [qu bu], (down st) as [qd bd]. simpl in *.
  destruct (stage st) as [| |fuel got buf|fuel rest|] eqn:Hg; [by left..| | |by left];
    unfold taken, unsaid in *; rewrite Hg in *.
  - destruct Hstage as [Hf Hl]. rewrite <- Hl in *. lens Hreq. destruct fuel as [|fuel]; [lia|]. unfold reading.
    edestruct (recv_shape (X := Served) fuel fd buf got) as (k & E & _); [done|]. rewrite E.
    destruct qu as [|x q].
    + destruct bu; [by left|right]. do 5 eexists. split; [reflexivity|]. apply sc_end.
    + right. do 5 eexists. split; [reflexivity|]. apply (sc_recv _ _ _ 1); simpl; lia.
  - unfold replying. destruct (decide (rest = [])) as [->|Hne].
    + right. rewrite send_all_nil, bind_ok_ret.
      edestruct (stream_close_shape (X := Served) fd) as (k & E & _). rewrite E.
      do 5 eexists. split; [reflexivity|]. apply sc_close.
    + destruct (decide (cap <= length qd)%nat) as [|Hfull]; [by left|]. right.
      assert (0 < length rest)%nat by (destruct rest; [done|simpl; lia]). destruct fuel as [|fuel]; [lia|].
      lens Hans. destruct Hc as (_ & _ & _ & _ & _ & _ & ? & _ & ?).
      edestruct (send_shape (X := Served) fuel fd rest) as (k & E & _); [done|lia|]. rewrite E.
      do 5 eexists. split; [reflexivity|]. subst bd. apply (sc_send _ _ _ 1); lia.
Qed.

(** The two never wait for each other. *)
Lemma no_deadlock st :
  conn_ok st -> active (stage st) -> server_waits st -> client_waits st -> False.
Proof.
  intros [Hc Hreq Hans Hup Hdown Haway Hph Hstage] Ha Hs Hw. unfold server_waits, client_waits in *.
  unfold taken, unsaid, unsent, heard in *.
  destruct (stage st) as [| |fuel got buf|fuel rest|] eqn:Hg; try done;
    destruct (cphase st) as [| |fuel' rest'|fuel' got' buf'| |] eqn:Hp; try done;
    rewrite ?Hg, ?Hp in *; destruct Hs as [Hs1 Hs2]; simpl in *; try congruence.
  - destruct Hw as [_ Hw]. rewrite Hs1 in Hw. simpl in Hw. lia.
  - destruct Hw as [Hne _]. lens Hreq. destruct rest'; [done|simpl in *; lia].
  - destruct Hw as [Hw _]. rewrite Hw in Hs2. simpl in Hs2. lia.
  - lens Hans. destruct rest; [done|simpl in *; lia].
Qed.

(** ** The whole service *)

Context (Hlfd : is_i32 lfd).

Record Srv := mkSrv {
  remaining : nat; s_log : Served; s_back : list nat; s_cur : option (nat * Z); s_open : bool }.

Definition again_of (v : Srv) : Served -> Prog (result Served) :=
  serve_all (A := A) sfuel lfd f sbuf (remaining v).
Definition server_prog (v : Srv) (sts : list CState) : Prog (result Served) :=
  match s_cur v with
  | None => if s_open v then again_of v (s_log v) else Ret (Ok (s_log v))
  | Some (i, fd) =>
      match sts !! i with Some st => serving (again_of v) fd (s_log v) st | None => Panic end
  end.
Definition fds_of (v : Srv) : gmap Z nat :=
  match s_cur v with Some (i, fd) => {[fd := i]} | None => ∅ end.
Definition world_of (v : Srv) (sts : list CState) :
    World (result Served) (result (Endpoint * list Z)) :=
  mkWorld (server_prog v sts) (s_open v) (s_back v) (fds_of v) (node_of <$> sts).

(** What the log has of a connection, and whether it is still to be accepted. *)
Definition entry (st : CState) : Served :=
  match stage st with Closed => [(c_ep (who st), c_req (who st))] | _ => [] end.
Definition to_accept (st : CState) : nat := match stage st with Away | Waiting => 1 | _ => 0 end.

Record wf (cs : list Client) (v : Srv) (sts : list CState) : Prop := {
  wf_who : who <$> sts = cs;
  wf_conn : Forall conn_ok sts;
  wf_nodup : NoDup (s_back v);
  wf_back i : i ∈ s_back v <-> exists st, sts !! i = Some st /\ stage st = Waiting;
  wf_cur i : (exists fd, s_cur v = Some (i, fd)) <-> exists st, sts !! i = Some st /\ active (stage st);
  wf_rem : sum_list (to_accept <$> sts) = remaining v;
  wf_open : s_open v = false -> remaining v = 0%nat /\ s_cur v = None;
  wf_fd i fd : s_cur v = Some (i, fd) -> is_i32 fd /\ fd <> lfd;
  wf_log : s_log v ≡ₚ concat (entry <$> sts) }.

Lemma entries_insert sts i st st' :
  sts !! i = Some st ->
  concat (entry <$> <[i := st']> sts) ++ entry st ≡ₚ concat (entry <$> sts) ++ entry st'.
Proof.
  revert i. induction sts as [|x sts IH]; intros [|i] Hi; [done..| |]; simpl in *.
  - injection Hi as ->. by rewrite (Permutation_app_comm _ (entry st)), (Permutation_app_comm (entry st ++ _)),
      !app_assoc, (Permutation_app_comm (entry st)).
  - rewrite <- !app_assoc. apply Permutation_app_head. by apply (IH i).
Qed.

(** One connection moves on, and the server's books say so. *)
Lemma wf_update cs v sts i st v' st' :
  wf cs v sts -> sts !! i = Some st -> who st' = who st -> conn_ok st' ->
  NoDup (s_back v') ->
  (forall j, j ∈ s_back v' <-> (j = i /\ stage st' = Waiting) \/ (j <> i /\ j ∈ s_back v)) ->
  (forall j, (exists fd, s_cur v' = Some (j, fd)) <->
     (j = i /\ active (stage st')) \/ (j <> i /\ exists fd, s_cur v = Some (j, fd))) ->
  (to_accept st' + remaining v = to_accept st + remaining v')%nat ->
  (s_open v' = false -> remaining v' = 0%nat /\ s_cur v' = None) ->
  (forall j fd, s_cur v' = Some (j, fd) -> is_i32 fd /\ fd <> lfd) ->
  s_log v' ++ entry st ≡ₚ s_log v ++ entry st' ->
  wf cs v' (<[i := st']> sts).
Proof.
  intros W Hi Hwho Hok Hnd Hb Hc Hr Hopen Hfds Hlog. pose proof (lookup_lt_Some _ _ _ Hi) as Hlt.
  assert (forall j (P : CState -> Prop),
    (exists st0, <[i := st']> sts !! j = Some st0 /\ P st0) <->
    (j = i /\ P st') \/ (j <> i /\ exists st0, sts !! j = Some st0 /\ P st0)) as Hlook.
  { intros j P. destruct (decide (j = i)) as [->|Hj].
    - rewrite list_lookup_insert_eq by done. naive_solver.
    - rewrite list_lookup_insert_ne by done. naive_solver. }
  constructor; [| | |intros j|intros j| | | |]; try done.
  - rewrite list_fmap_insert, Hwho, list_insert_id; [apply W|]. by rewrite list_lookup_fmap, Hi.
  - apply Forall_insert; [apply W|done].
  - rewrite Hb, (wf_back _ _ _ W), (Hlook j (fun st => stage st = Waiting)). done.
  - rewrite Hc, (wf_cur _ _ _ W), (Hlook j (fun st => active (stage st))). done.
  - pose proof (sum_insert to_accept sts i st st' Hi) as Hs. pose proof (wf_rem _ _ _ W). lia.
  - apply (Permutation_app_inv_r (entry st)). rewrite Hlog, (wf_log _ _ _ W). symmetry. by apply entries_insert.
Qed.

(** The same when the server's part in it does not change. *)
Lemma wf_same cs v sts i st st' :
  wf cs v sts -> sts !! i = Some st -> who st' = who st -> conn_ok st' ->
  (stage st' = stage st \/ active (stage st) /\ active (stage st')) ->
  wf cs v (<[i := st']> sts).
Proof.
  intros W Hi Hwho Hok Hg. eapply wf_update; try done; try apply W.
  - intros j. destruct (decide (j = i)) as [->|]; [|naive_solver]. rewrite (wf_back _ _ _ W).
    destruct Hg as [Hg|[Ha Ha']]; [rewrite Hg; naive_solver|].
    split; [|by intros [[_ Hw]|[? _]]; [rewrite Hw in Ha'|]].
    intros (st0 & ? & Hw). simplify_eq. by rewrite Hw in Ha.
  - intros j. destruct (decide (j = i)) as [->|]; [|naive_solver]. rewrite (wf_cur _ _ _ W).
    destruct Hg as [Hg|[Ha Ha']]; [rewrite Hg; naive_solver|]. naive_solver.
  - unfold to_accept. destruct Hg as [->|[Ha Ha']]; [done|]. by destruct (stage st), (stage st').
  - unfold entry. rewrite Hwho. destruct Hg as [->|[Ha Ha']]; [done|]. by destruct (stage st), (stage st').
Qed.

(** *** Every call brings the service nearer to its end *)

Definition measure (v : Srv) (sts : list CState) : nat :=
  sum_list (work <$> sts) + if s_open v then 1 else 0.
Definition advances (cs : list Client) (v : Srv) (sts : list CState)
    (w : World (result Served) (result (Endpoint * list Z))) : Prop :=
  exists v' sts', w = world_of v' sts' /\ wf cs v' sts' /\ (measure v' sts' < measure v sts)%nat.

Lemma conn_at cs v sts i st : wf cs v sts -> sts !! i = Some st -> conn_ok st.
Proof. intros W Hi. exact (Forall_lookup_1 _ _ _ _ (wf_conn _ _ _ W) Hi). Qed.

Lemma work_less v v' sts i st st' :
  s_open v' = s_open v -> sts !! i = Some st -> (work st' < work st)%nat ->
  (measure v' (<[i := st']> sts) < measure v sts)%nat.
Proof. intros Ho Hi Hlt. unfold measure. rewrite Ho. pose proof (sum_insert work sts i st st' Hi). lia. Qed.

(** What the server runs does not depend on what the clients do. *)
Lemma server_prog_insert v sts i st st' :
  sts !! i = Some st -> who st' = who st ->
  (stage st' = stage st \/ forall fd, s_cur v <> Some (i, fd)) ->
  server_prog v (<[i := st']> sts) = server_prog v sts.
Proof.
  intros Hi Hwho Hg. unfold server_prog. destruct (s_cur v) as [[j fd]|] eqn:Hcur; [|done].
  destruct (decide (j = i)) as [->|Hj]; [|by rewrite list_lookup_insert_ne].
  destruct Hg as [Hg|Hg]; [|by destruct (Hg fd)].
  rewrite list_lookup_insert_eq, Hi by by eapply lookup_lt_Some.
  unfold serving. by rewrite Hwho, Hg.
Qed.

Lemma calls_advance cs v sts i st c k s r s' joins :
  wf cs v sts -> sts !! i = Some st -> node_of st = (Sys c k, s) ->
  client_call (A := A) cap sep c s r s' joins ->
  advances cs v sts (mkWorld (server_prog v sts) (s_open v)
    (if joins then s_back v ++ [i] else s_back v) (fds_of v) (<[i := (k (conform c r), s')]> (node_of <$> sts))).
Proof.
  intros W Hi Hn Hcall. pose proof (conn_at cs v sts i st W Hi) as Hok.
  destruct (client_steps_ok st c k s r s' joins Hok Hn Hcall) as (st' & (Hok' & Hwho & Hlt & Hg) & <-).
  rewrite <- list_fmap_insert. destruct joins.
  - destruct Hg as [Ha Hw].
    assert (i ∉ s_back v) as Hnew.
    { intros Hb. apply (wf_back _ _ _ W) in Hb as (st0 & ? & ?). simplify_eq. congruence. }
    assert (forall fd, s_cur v <> Some (i, fd)) as Hcur.
    { intros fd Hc. destruct (proj1 (wf_cur _ _ _ W i) (ex_intro _ fd Hc)) as (st0 & ? & Hact).
      simplify_eq. by rewrite Ha in Hact. }
    exists (mkSrv (remaining v) (s_log v) (s_back v ++ [i]) (s_cur v) (s_open v)), (<[i := st']> sts).
    split; [|split; [|by eapply work_less]].
    + unfold world_of. f_equal. symmetry. etransitivity; [by eapply server_prog_insert; eauto|]. done.
    + eapply wf_update; try done; simpl; try apply W.
      * apply list.NoDup_app. split_and!; [apply W| |apply NoDup_singleton].
        intros j Hj Hj'. apply list_elem_of_singleton in Hj'. by subst.
      * intros j. rewrite elem_of_app, list_elem_of_singleton. naive_solver.
      * intros j. rewrite Hw. destruct (decide (j = i)) as [->|]; [|naive_solver].
        split; [intros [fd Hc]; by destruct (Hcur fd)|naive_solver].
      * unfold to_accept. by rewrite Ha, Hw.
      * unfold entry. by rewrite Ha, Hw.
  - exists v, (<[i := st']> sts). split; [|split; [|by eapply work_less]].
    + unfold world_of. f_equal. symmetry. eapply server_prog_insert; eauto.
    + eapply wf_same; eauto.
Qed.

(** The server accepts the oldest connection. *)
Lemma accept_advances cs v sts i bl n k c fd p s :
  let accepted := mkSrv n (s_log v) bl (Some (i, fd)) true in
  wf cs v sts -> s_open v = true -> s_cur v = None -> s_back v = i :: bl -> remaining v = S n ->
  server_prog v sts = Sys c k -> (node_of <$> sts) !! i = Some (p, s) -> 0 <= fd < 2 ^ 31 -> fd <> lfd ->
  advances cs v sts (mkWorld (k (conform c (mkReply fd (addr_outs (A := A) (k_me s))))) true bl
    (<[fd := i]> (fds_of v)) (node_of <$> sts)).
Proof.
  intros accepted W Hopen Hcur Hback Hrem Hprog Hi Hfd Hnl.
  destruct (proj1 (wf_back _ _ _ W i)) as (st & Hst & Hg); [rewrite Hback; by left|].
  pose proof (conn_at cs v sts i st W Hst) as Hok. destruct Hok as [Hc Hreq Hans Hup Hdown Haway Hph _].
  rewrite list_lookup_fmap, Hst in Hi. injection Hi as Hi.
  assert (k_me s = c_ep (who st)) as Hme by (unfold node_of in Hi; by destruct (cphase st); injection Hi as _ <-).
  unfold server_prog, again_of in Hprog. rewrite Hcur, Hopen, Hrem in Hprog. cbn [serve_all] in Hprog.
  destruct (accept_shape lfd SOCK_CLOEXEC (fun '(fd, from) =>
    reading sfuel f (serve_all (A := A) sfuel lfd f sbuf n) sfuel fd [] sbuf (endpoint (A := A) from) (s_log v)))
    as (k0 & E & Hk). rewrite E in Hprog. injection Hprog as <- <-.
  rewrite Hme, Hk by (apply Hc || done). rewrite endpoint_addr by apply Hc.
  set (st' := mkCState (who st) (cphase st) (Reading sfuel [] sbuf) (up st) (down st)).
  pose proof (wf_nodup _ _ _ W) as Hnd. rewrite Hback in Hnd. apply list.NoDup_cons in Hnd as [Hnew Hnd].
  assert (Hw : (work st' < work st)%nat) by (unfold work, unsent, unsaid; simpl; rewrite Hg; simpl; lia).
  exists accepted, (<[i := st']> sts). split; [|split; [|by eapply work_less]].
  - unfold world_of, server_prog, fds_of. rewrite Hcur. cbn [s_cur accepted s_back].
    rewrite list_lookup_insert_eq by by eapply lookup_lt_Some.
    f_equal. rewrite list_fmap_insert. symmetry. apply list_insert_id. by rewrite list_lookup_fmap, Hst.
  - eapply wf_update; try done; simpl.
    + constructor; simpl; try done; unfold taken, unsaid in *; rewrite Hg in *; try done.
      * split; [|done]. intros Hp. apply Haway in Hp. done.
      * destruct Hc as (_ & _ & _ & _ & _ & _ & _ & ? & _). split; [lia|done].
    + intros j. rewrite Hback, elem_of_cons. split; [|naive_solver].
      intros Hj. right. split; [|by right]. by intros ->.
    + intros j. rewrite Hcur. naive_solver.
    + unfold to_accept. rewrite Hg, Hrem. simpl. lia.
    + intros j fd0 [= <- <-]. split; [int_ranges; lia|done].
    + unfold entry. by rewrite Hg.
Qed.

Lemma node_link st p cfd me u d o :
  node_of st = (p, mkCSock cfd me (Some (u, d)) o) -> u = up st /\ d = down st /\
  forall st', who st' = who st -> cphase st' = cphase st ->
    node_of st' = (p, mkCSock cfd me (Some (up st', down st')) o).
Proof.
  intros Hn. assert (u = up st /\ d = down st) as [-> ->].
  { unfold node_of in Hn. destruct (cphase st); by injection Hn. }
  split_and!; [done..|]. intros st' Hwho Hp. unfold node_of in *. rewrite Hwho, Hp.
  destruct (cphase st); by simplify_eq.
Qed.

(** The server makes a call on the connection it has. *)
Lemma serving_advances cs v sts fd i p cfd me u d o c k r u' d' :
  wf cs v sts -> server_prog v sts = Sys c k -> fds_of v !! fd = Some i ->
  (node_of <$> sts) !! i = Some (p, mkCSock cfd me (Some (u, d)) o) ->
  stream_call cap fd c u d r u' d' ->
  advances cs v sts (mkWorld (k (conform c r)) (s_open v) (s_back v)
    (if decide (c = close_call fd) then delete fd (fds_of v) else fds_of v)
    (<[i := (p, mkCSock cfd me (Some (u', d')) o)]> (node_of <$> sts))).
Proof.
  intros W Hprog Hfd Hi Hs. unfold fds_of in *. destruct (s_cur v) as [[j fd']|] eqn:Hcur; [|done].
  apply lookup_singleton_Some in Hfd as [-> ->].
  rewrite list_lookup_fmap in Hi. destruct (sts !! i) as [st|] eqn:Hst; [|done]. injection Hi as Hn.
  apply node_link in Hn as (-> & -> & Hn). pose proof (conn_at cs v sts i st W Hst) as Hok.
  assert (active (stage st)) as Hact.
  { destruct (proj1 (wf_cur _ _ _ W i) (ex_intro _ fd Hcur)) as (st0 & ? & ?). by simplify_eq. }
  unfold server_prog in Hprog. rewrite Hcur, Hst in Hprog.
  destruct (server_steps_ok _ _ _ _ _ _ _ _ _ Hok Hprog Hs) as
    (st' & (Hok' & Hwho & Hp & Hlt & Hg) & Hu & Hd).
  rewrite <- Hu, <- Hd, <- (Hn st' Hwho Hp), <- list_fmap_insert.
  destruct Hg as [(Hact' & Hne & ->)|(Hg & -> & ->)].
  - rewrite decide_False by done. exists v, (<[i := st']> sts). split; [|split; [|by eapply work_less]].
    + unfold world_of, fds_of, server_prog. rewrite Hcur.
      by rewrite list_lookup_insert_eq by by eapply lookup_lt_Some.
    + eapply wf_same; eauto.
  - rewrite decide_True by done.
    assert (s_open v = true) as Ho.
    { destruct (s_open v) eqn:Ho; [done|]. apply (wf_open _ _ _ W) in Ho as [_ Ho]. congruence. }
    exists (mkSrv (remaining v) (s_log v ++ entry st') (s_back v) None (s_open v)), (<[i := st']> sts).
    assert (entry st' = [(c_ep (who st), c_req (who st))]) as He by (unfold entry; by rewrite Hg, Hwho).
    split; [|split; [|by eapply work_less]].
    + unfold world_of, fds_of, server_prog, again_of. cbn [s_cur s_log s_back remaining s_open]. rewrite Ho.
      by rewrite delete_singleton_eq, He.
    + eapply wf_update; try done; simpl; try apply W.
      * intros j. rewrite Hg. destruct (decide (j = i)) as [->|]; [|naive_solver].
        rewrite (wf_back _ _ _ W). split; [|naive_solver].
        intros (st0 & ? & Hw). simplify_eq. by rewrite Hw in Hact.
      * intros j. rewrite Hg, Hcur. split; [by intros [? ?]|].
        intros [[_ []]|[Hj [fd0 Hc]]]. congruence.
      * unfold to_accept. rewrite Hg. by destruct (stage st).
      * congruence.
      * replace (entry st) with ([] : Served) by (unfold entry; by destruct (stage st)). by rewrite app_nil_r.
Qed.

(** The calls the server makes on a connection are on its descriptor. *)
Lemma serving_call again fd log st c k :
  conn_ok st -> serving again fd log st = Sys c k ->
  length (call_args c) <> 4%nat /\ (length (call_args c) = 1%nat -> c = close_call fd).
Proof.
  intros Hok Hn. pose proof Hok as [Hc Hreq Hans _ _ _ _ Hstage]. unfold serving in Hn. unfold taken, unsaid in *.
  destruct (stage st) as [| |fuel got buf|fuel rest|] eqn:Hg; try done.
  - destruct Hstage as [Hf Hl]. lens Hreq. destruct fuel as [|fuel]; [lia|].
    destruct (recv_shape fuel fd buf got (fun req =>
      replying again sfuel fd (f req) (log ++ [(c_ep (who st), req)])) ltac:(congruence)) as (k0 & E & _).
    unfold reading in Hn. rewrite E in Hn. by injection Hn as <- _.
  - unfold replying in Hn. destruct (decide (rest = [])) as [->|Hne].
    + rewrite send_all_nil, bind_ok_ret in Hn.
      destruct (stream_close_shape fd (fun _ => again (log ++ [(c_ep (who st), c_req (who st))]))) as (k0 & E & _).
      rewrite E in Hn. by injection Hn as <- _.
    + assert (0 < length rest)%nat by (destruct rest; [done|simpl; lia]). destruct fuel as [|fuel]; [lia|].
      lens Hans. destruct Hc as (_ & _ & _ & _ & _ & _ & ? & _ & ?).
      destruct (send_shape fuel fd rest (fun _ =>
        let? _ := close fd in again (log ++ [(c_ep (who st), c_req (who st))])) Hne ltac:(lia)) as (k0 & E & _).
      rewrite E in Hn. by injection Hn as <- _.
Qed.

(** What the server calls between connections: it accepts the next one, or closes
    the listening socket when there are no more. *)
Lemma between_calls cs v sts c k :
  wf cs v sts -> s_cur v = None -> server_prog v sts = Sys c k -> s_open v = true /\
  match remaining v with
  | S _ => length (call_args c) = 4%nat
  | O => c = close_call lfd /\ k (conform c (mkReply 0 [])) = Ret (Ok (s_log v))
  end.
Proof.
  intros W Hcur Hprog. unfold server_prog in Hprog. rewrite Hcur in Hprog.
  destruct (s_open v); [split; [done|]|done]. unfold again_of in Hprog.
  destruct (remaining v) as [|n]; cbn [serve_all] in Hprog.
  - destruct (stream_close_shape lfd (fun _ => Ret (Ok (s_log v)) : Prog (result Served))) as (k0 & E & Hk).
    rewrite E in Hprog. by injection Hprog as <- <-.
  - edestruct (accept_shape (X := Served) lfd SOCK_CLOEXEC) as (k0 & E & _). rewrite E in Hprog.
    by injection Hprog as <- _.
Qed.

Lemma cur_calls cs v sts i fd c k :
  wf cs v sts -> s_cur v = Some (i, fd) -> server_prog v sts = Sys c k ->
  length (call_args c) <> 4%nat /\ (length (call_args c) = 1%nat -> c = close_call fd).
Proof.
  intros W Hcur Hprog. destruct (proj1 (wf_cur _ _ _ W i) (ex_intro _ fd Hcur)) as (st & Hst & Hact).
  unfold server_prog in Hprog. rewrite Hcur, Hst in Hprog.
  by apply (serving_call _ _ _ _ _ _ (conn_at cs v sts i st W Hst)) in Hprog.
Qed.

(** The listening socket is closed when every connection has been served. *)
Lemma closes_advances cs v sts k :
  let c := close_call lfd in
  wf cs v sts -> s_open v = true -> server_prog v sts = Sys c k ->
  advances cs v sts (mkWorld (k (conform c (mkReply 0 []))) false (s_back v) (fds_of v) (node_of <$> sts)).
Proof.
  intros c W Ho Hprog. destruct (s_cur v) as [[i fd]|] eqn:Hcur.
  { destruct (cur_calls _ _ _ _ _ _ _ W Hcur Hprog) as [_ E]. specialize (E eq_refl).
    destruct (wf_fd _ _ _ W i fd Hcur) as [Hfd Hne]. by apply (close_call_inj lfd fd Hlfd Hfd) in E. }
  destruct (between_calls _ _ _ _ _ W Hcur Hprog) as [_ Hr].
  destruct (remaining v) as [|n] eqn:Hrem; [|done]. destruct Hr as [_ ->].
  exists (mkSrv 0 (s_log v) (s_back v) None false), sts. split; [|split].
  - unfold world_of, server_prog, fds_of. cbn [s_cur s_open s_back s_log]. by rewrite Hcur.
  - destruct W. constructor; try done; cbn [s_cur s_back remaining s_log]; [by rewrite <- Hcur|congruence].
  - unfold measure. cbn [s_open]. rewrite Ho. lia.
Qed.

(** While somebody is yet to connect, the server listens. *)
Lemma connecting_open cs v sts i st :
  wf cs v sts -> sts !! i = Some st -> stage st = Away -> s_open v = true.
Proof.
  intros W Hi Hg. destruct (s_open v) eqn:Ho; [done|]. apply (wf_open _ _ _ W) in Ho as [Hr _].
  pose proof (wf_rem _ _ _ W) as Hrem. rewrite Hr in Hrem. apply (sum_zero to_accept sts i st) in Hrem; [|done].
  unfold to_accept in Hrem. by rewrite Hg in Hrem.
Qed.

Lemma every_step_advances cs v sts w :
  wf cs v sts -> tcp_step (A := A) cap lfd sep (world_of v sts) w -> advances cs v sts w.
Proof.
  intros W Hs. unfold world_of in Hs.
  remember (mkWorld _ _ _ _ _) as w0 eqn:Ew. revert Ew.
  destruct Hs as [x l bl fds ns i c k s r s' joins Hi Hcall Hl|x bl fds ns i fd b k me c Hi Hb|
    k flags b i bl fds ns p s fd c Hi Hf Hne Hfd|c k l bl fds ns fd i p cfd me u d o r u' d' Hfd Hi Hs|
    k fds ns c]; intros [= Hx Hl' Hbl Hfds Hns]; subst fds ns.
  - subst. rewrite list_lookup_fmap in Hi. destruct (sts !! i) as [st|] eqn:Hst; [|done].
    injection Hi as Hn. by eapply calls_advance.
  - exfalso. rewrite list_lookup_fmap in Hi. destruct (sts !! i) as [st|] eqn:Hst; [|done].
    injection Hi as Hn. pose proof (conn_at cs v sts i st W Hst) as Hok.
    assert (stage st = Away) as Hg.
    { apply (ok_away st Hok). unfold node_of in Hn. by destruct (cphase st). }
    by rewrite (connecting_open cs v sts i st W Hst Hg) in Hl'.
  - symmetry in Hx, Hbl. destruct (s_cur v) as [[j fd']|] eqn:Hcur.
    { by destruct (cur_calls _ _ _ _ _ _ _ W Hcur Hx) as [[] _]. }
    destruct (remaining v) as [|n] eqn:Hrem.
    { destruct (between_calls _ _ _ _ _ W Hcur Hx) as [_ Hr]. rewrite Hrem in Hr. by destruct Hr. }
    by eapply accept_advances.
  - subst. by eapply serving_advances.
  - rewrite Hbl. by apply closes_advances.
Qed.

(** *** It never gets stuck *)

Lemma node_linked st :
  conn_ok st -> stage st <> Away ->
  exists p o, node_of st = (p, mkCSock (c_fd (who st)) (c_ep (who st)) (Some (up st, down st)) o).
Proof.
  intros Hok Hg. unfold node_of. destruct (cphase st) eqn:Hp; eauto.
  by apply (ok_away st Hok) in Hp.
Qed.

Lemma client_steps_world cs v sts i st :
  wf cs v sts -> sts !! i = Some st -> ~ client_waits st ->
  exists w, tcp_step (A := A) cap lfd sep (world_of v sts) w.
Proof.
  intros W Hi Hw. destruct (client_can st (conn_at cs v sts i st W Hi))
    as [|(c & k & s & r & s' & joins & Hn & Hcall)]; [done|].
  eexists. eapply client_calls; [|exact Hcall|]; [by rewrite list_lookup_fmap, Hi, <- Hn|]. intros ->.
  destruct (client_steps_ok st c k s r s' true (conn_at cs v sts i st W Hi) Hn Hcall)
    as (st' & (_ & _ & _ & Ha & _) & _).
  by eapply connecting_open.
Qed.

(** A client the server has done with, or not yet heard of, waits for nothing. *)
Lemma idle_client st :
  conn_ok st -> stage st = Away \/ stage st = Closed -> (0 < work st)%nat -> ~ client_waits st.
Proof.
  intros [Hc Hreq Hans Hup Hdown Haway _ _] Hg Hwork Hw. unfold client_waits, taken, unsaid, work in *.
  destruct Hg as [Hg|Hg].
  - by rewrite (proj2 Haway Hg) in Hw.
  - unfold unsent, heard, unsaid in *. rewrite Hg in *. simpl in Hdown.
    destruct (cphase st) as [| |fuel rest|fuel got buf| |]; try done.
    + destruct Hw as [Hne _]. lens Hreq. destruct rest; [done|simpl in *; lia].
    + destruct Hw as [_ Ho]. congruence.
    + lens Hreq. lens Hans. simpl in *. lia.
Qed.

Lemma work_zero st : work st = 0%nat -> cphase st = Over /\ stage st = Closed.
Proof. unfold work. destruct (cphase st), (stage st); lia || done. Qed.

(** With a connection at hand, one of its two sides can go on. *)
Lemma progress_current cs v sts i fd :
  wf cs v sts -> s_cur v = Some (i, fd) -> exists w, tcp_step (A := A) cap lfd sep (world_of v sts) w.
Proof.
  intros W Hcur. destruct (proj1 (wf_cur _ _ _ W i) (ex_intro _ fd Hcur)) as (st & Hi & Hact).
  pose proof (conn_at cs v sts i st W Hi) as Hok.
  destruct (server_can (again_of v) fd (s_log v) st Hok) as [Hsw|(c & k & r & u & d & Hprog & Hs)].
  - eapply client_steps_world; [done..|]. intros Hcw. by eapply no_deadlock.
  - destruct (node_linked st Hok) as (p & o & Hn); [by intros Hg; rewrite Hg in Hact|].
    eexists. unfold world_of, server_prog. rewrite Hcur, Hi, Hprog. unfold fds_of. rewrite Hcur.
    eapply server_calls; [by apply lookup_singleton_eq| |exact Hs]. by rewrite list_lookup_fmap, Hi, <- Hn.
Qed.

(** Without one, it accepts the next that waits. *)
Lemma progress_accept cs v sts i bl :
  wf cs v sts -> s_cur v = None -> s_back v = i :: bl ->
  exists w, tcp_step (A := A) cap lfd sep (world_of v sts) w.
Proof.
  intros W Hcur Hb. destruct (proj1 (wf_back _ _ _ W i)) as (st & Hi & Hg); [rewrite Hb; by left|].
  assert (to_accept st = 1%nat) as Hta by (unfold to_accept; by rewrite Hg).
  destruct (remaining v) as [|n] eqn:Hrem.
  { pose proof (wf_rem _ _ _ W) as Hr. rewrite Hrem in Hr. apply (sum_zero to_accept sts i st) in Hr; [lia|done]. }
  assert (s_open v = true) as Ho.
  { destruct (s_open v) eqn:Ho; [done|]. apply (wf_open _ _ _ W) in Ho as [? _]. lia. }
  destruct (node_of st) as [p s] eqn:Hn.
  edestruct (accept_shape (X := Served) lfd SOCK_CLOEXEC) as (k & E & _).
  unfold world_of, server_prog, again_of, fds_of. rewrite Hcur, Hrem, Hb, Ho. cbn [serve_all]. rewrite E.
  eexists. apply (server_accepts _ _ _ _ _ _ _ _ _ _ p s (if decide (lfd = 0) then 1 else 0)).
  - by rewrite list_lookup_fmap, Hi, <- Hn.
  - done.
  - by destruct (decide (lfd = 0)) as [->|].
  - by destruct (decide (lfd = 0)).
Qed.

Lemma progress cs v sts :
  wf cs v sts -> (0 < measure v sts)%nat ->
  exists w, tcp_step (A := A) cap lfd sep (world_of v sts) w.
Proof.
  intros W Hpos. destruct (s_cur v) as [[i fd]|] eqn:Hcur; [by eapply progress_current|].
  destruct (s_back v) as [|i bl] eqn:Hb; [|by eapply progress_accept].
  destruct (decide (sum_list (work <$> sts) = 0%nat)) as [Hz|Hz].
  - unfold measure in Hpos. destruct (s_open v) eqn:Ho; [|lia].
    assert (remaining v = 0%nat) as Hrem.
    { rewrite <- (wf_rem _ _ _ W). destruct (decide (sum_list (to_accept <$> sts) = 0%nat)) as [|Hn]; [done|].
      destruct (sum_pos to_accept sts) as (i & st & Hi & Hp); [lia|].
      apply (sum_zero work sts i st) in Hz; [|done]. apply work_zero in Hz as [_ Hg].
      unfold to_accept in Hp. rewrite Hg in Hp. lia. }
    unfold world_of, server_prog, again_of. rewrite Hcur, Ho, Hrem, Hb. cbn [serve_all].
    edestruct (stream_close_shape (X := Served) lfd) as (k & E & _). rewrite E.
    eexists. apply server_closes.
  - destruct (sum_pos work sts) as (i & st & Hi & Hw); [lia|].
    eapply client_steps_world; [done..|]. apply idle_client; [by eapply conn_at| |done].
    destruct (stage st) eqn:Hg; auto; exfalso.
    + assert (i ∈ s_back v) as Hin by (apply (wf_back _ _ _ W); eauto).
      rewrite Hb in Hin. by apply elem_of_nil in Hin.
    + destruct (proj2 (wf_cur _ _ _ W i)) as [fd Hc]; [exists st; by rewrite Hg|]. congruence.
    + destruct (proj2 (wf_cur _ _ _ W i)) as [fd Hc]; [exists st; by rewrite Hg|]. congruence.
Qed.

(** How it ends: the server returns, with every client and its request in its log
    once; every client has the answer to its own request, from the server; and every
    socket is closed: the clients', the accepted connections and the listening one. *)
Definition all_served (cs : list Client) (w : World (result Served) (result (Endpoint * list Z))) : Prop :=
  (exists log, w_server w = Ret (Ok log) /\ log ≡ₚ (fun c => (c_ep c, c_req c)) <$> cs) /\
  fst <$> w_clients w = (fun c => Ret (Ok (sep, f (c_req c)))) <$> cs /\
  Forall (fun n => k_open n.2 = false) (w_clients w) /\ w_fds w = ∅ /\ w_listens w = false.

Lemma all_done_served cs v sts :
  wf cs v sts -> measure v sts = 0%nat -> all_served cs (world_of v sts).
Proof.
  intros W Hz. unfold measure in Hz. destruct (s_open v) eqn:Ho; [lia|].
  destruct (wf_open _ _ _ W Ho) as [Hrem Hcur].
  assert (forall i st, sts !! i = Some st -> cphase st = Over /\ stage st = Closed) as Hdone.
  { intros i st Hi. apply work_zero, (sum_zero work sts i); [lia|done]. }
  unfold all_served, world_of, server_prog, fds_of. rewrite Hcur, Ho. cbn [w_server w_clients w_fds w_listens].
  split; [|split; [|split; [|done]]].
  - eexists. split; [reflexivity|]. rewrite (wf_log _ _ _ W), <- (wf_who _ _ _ W).
    clear W Hz Hcur Hrem. induction sts as [|st sts IH]; [done|]. simpl.
    destruct (Hdone 0%nat st eq_refl) as [_ Hg]. unfold entry at 1. rewrite Hg. simpl. constructor.
    apply IH. intros i. apply (Hdone (S i)).
  - rewrite <- (wf_who _ _ _ W), <- !list_fmap_compose. apply list_fmap_ext.
    intros i st Hi. unfold compose, node_of. by rewrite (proj1 (Hdone i st Hi)).
  - apply Forall_fmap, Forall_lookup. intros i st Hi. unfold compose, node_of. by rewrite (proj1 (Hdone i st Hi)).
Qed.

Lemma service_ends cs m : forall v sts,
  (measure v sts <= m)%nat -> wf cs v sts ->
  eventually (tcp_step (A := A) cap lfd sep) (all_served cs) (world_of v sts).
Proof.
  induction m as [|m IH]; intros v sts Hm W.
  { apply ev_now, all_done_served; [done|lia]. }
  destruct (decide (measure v sts = 0%nat)) as [Hz|Hz]; [by apply ev_now, all_done_served|].
  apply ev_later; [apply (progress cs); [done|lia]|]. intros w Hs.
  destruct (every_step_advances cs v sts w W Hs) as (v' & sts' & -> & W' & Hlt). apply IH; [lia|done].
Qed.
End Connection.

(** The server listens; nobody has connected. *)
Definition service_start `{StreamFamily A} (lfd : Z) (sep : Endpoint) (f : list Z -> list Z)
    (cfuel sfuel : nat) (sbuf : list Z) (cs : list Client) :
    World (result Served) (result (Endpoint * list Z)) :=
  mkWorld (serve_all (A := A) sfuel lfd f sbuf (length cs) []) true [] ∅
    ((fun c => (request (A := A) cfuel (c_fd c) (sock_addr sep) (c_req c) (c_buf c),
                mkCSock (c_fd c) (c_ep c) None true)) <$> cs).

(** [C9] A server that accepts connections one after the other, and any number of
    clients, over IPv4 or IPv6.  However their calls interleave, in whatever order
    they connect, however the kernel cuts what they send and receive, and however
    little the streams hold, everyone finishes: a request and its answer end where
    [shutdown] and [close] say, no client waits for ever or gets another's answer,
    the server sees each client's own address once, and at the end every socket is
    closed, each client's, each accepted connection and the listening one.  In this
    network a connection to a socket that no longer listens is refused; no other
    call fails or is interrupted, and no connection is lost. *)
Theorem everyone_served `{StreamFamily A} cap lfd sep f cfuel sfuel sbuf cs :
  ep_ok ep_size sep -> (0 < cap)%nat -> is_i32 lfd ->
  (0 < length sbuf)%nat -> Z.of_nat (length sbuf) < 2 ^ 63 ->
  Forall (client_ok (A := A) f cfuel sfuel) cs ->
  eventually (tcp_step (A := A) cap lfd sep) (all_served sep f cs)
    (service_start (A := A) lfd sep f cfuel sfuel sbuf cs).
Proof.
  intros Hsep Hcap Hlfd Hb Hb' Hcs.
  set (sts := (fun c => mkCState c Connecting Away (mkDir [] true) (mkDir [] true)) <$> cs).
  assert (forall i st, sts !! i = Some st -> stage st = Away) as Hstart.
  { intros i st. unfold sts. rewrite list_lookup_fmap. destruct (cs !! i); [|done]. by intros [= <-]. }
  assert (service_start lfd sep f cfuel sfuel sbuf cs =
    world_of lfd sep f cfuel sfuel sbuf (mkSrv (length cs) [] [] None true) sts) as ->.
  { unfold service_start, world_of, sts. f_equal. by rewrite <- list_fmap_compose. }
  apply (service_ends cap lfd sep f cfuel sfuel sbuf Hsep Hcap Hb Hb' Hlfd cs _ _ _ (le_n _)). constructor; simpl.
  - unfold sts. rewrite <- list_fmap_compose. apply list_fmap_id.
  - apply Forall_fmap. eapply Forall_impl; [exact Hcs|]. intros c Hc. by constructor.
  - constructor.
  - intros i. rewrite elem_of_nil. split; [done|]. intros (st & ?%Hstart & ?). congruence.
  - intros i. split; [by intros [? ?]|]. intros (st & Hi%Hstart & Ha). by rewrite Hi in Ha.
  - unfold sts. clear. induction cs as [|c cs IH]; [done|]. simpl. by f_equal.
  - done.
  - done.
  - unfold sts. clear. induction cs as [|c cs IH]; [done|]. exact IH.
Qed.

Definition demo_callers (a b : list Z) : list Client :=
  [mkClient 3 (a, 40000) (str "hello") (replicate 4 0);
   mkClient 3 (b, 40001) [] (replicate 1 0)].

(** Streams of two bytes; the server sends every request back reversed. *)
Lemma everyone_served_witness :
  (let sep := ([127; 0; 0; 1], 7) in let cs := demo_callers [127; 0; 0; 2] [127; 0; 0; 3] in
   eventually (@tcp_step SockAddrIn _ X86_64 inet 2 4 sep _ _) (all_served sep (@rev Z) cs)
    (@service_start SockAddrIn _ X86_64 inet inet_stream 4 sep (@rev Z) 8 9 (replicate 3 0) cs)) /\
  (let sep := (replicate 16 3, 7) in let cs := demo_callers (replicate 16 1) (replicate 16 2) in
   eventually (@tcp_step SockAddrIn6 _ Aarch64 inet6 2 4 sep _ _) (all_served sep (@rev Z) cs)
    (@service_start SockAddrIn6 _ Aarch64 inet6 inet6_stream 4 sep (@rev Z) 8 9 (replicate 3 0) cs)).
Proof.
  split; intros sep cs.
  - apply (@everyone_served SockAddrIn _ X86_64 inet inet_stream 2 4 sep (@rev Z) 8 9 (replicate 3 0) cs);
      by apply (bool_decide_eq_true_1 _); vm_compute.
  - apply (@everyone_served SockAddrIn6 _ Aarch64 inet6 inet6_stream 2 4 sep (@rev Z) 8 9 (replicate 3 0) cs);
      by apply (bool_decide_eq_true_1 _); vm_compute.
Defined.
