(* ===== verification/ReplaceSpec.v ===== *)
(** Replacing a file: write a temporary, [fsync] it, [rename] it over the target.
    A file system whose calls may fail, whose writes may be partial, and which may
    crash at any moment. *)

From Stdlib Require Import ZArith Lia.
From stdpp Require Import base list option numbers gmap strings relations.
From S2P Require Import Prelude Prog Layout Asm Arch Fd Fs FdSpec.

(** ** The program *)

Definition tmp_flags : Z := Z.lor (Z.lor (Z.lor O_WRONLY O_CREAT) O_EXCL) O_CLOEXEC.

Definition withdraw `{Target} (tmp : list Z) (e : Errno) : Prog (result unit) :=
  let* _ := unlink tmp in Ret (Err e).

(** The file takes the place of the old one if it is all on the disk. *)
Definition finish `{Target} (path tmp : list Z) (synced closed : result unit) : Prog (result unit) :=
  match synced, closed with
  | Ok _, Ok _ =>
      let* renamed := rename tmp path in
      match renamed with Ok _ => Ret (Ok tt) | Err e => withdraw tmp e end
  | Err e, _ | _, Err e => withdraw tmp e
  end.

Definition replace_file `{Target} (fuel : nat) (path tmp data : list Z) (mode : Z) :
    Prog (result unit) :=
  let? fd := open tmp tmp_flags mode in
  let* written := write_all fuel fd data in
  let* synced := match written with Ok _ => fsync fd | Err e => Ret (Err e) end in
  let* closed := close fd in
  finish path tmp synced closed.

(** ** The file system

    An inode has what is in it now, and whether all of that is on the disk. *)
Record Inode := mkInode { now : list Z; clean : bool }.

(** The directory, the states of it that may still be the one on the disk, the
    inodes, and the open descriptors with their offsets. *)
Record FS := mkFS {
  names : gmap (list Z) nat; past : list (gmap (list Z) nat); inodes : gmap nat Inode; fds : gmap Z (nat * nat) }.

Definition set_names (f : gmap (list Z) nat -> gmap (list Z) nat) (s : FS) : FS :=
  mkFS (f (names s)) (names s :: past s) (inodes s) (fds s).
Definition set_inode (i : nat) (n : Inode) (s : FS) : FS :=
  mkFS (names s) (past s) (<[i := n]> (inodes s)) (fds s).
Definition set_fds (f : gmap Z (nat * nat) -> gmap Z (nat * nat)) (s : FS) : FS :=
  mkFS (names s) (past s) (inodes s) (f (fds s)).

(** [bytes] over [b] from [off] on. *)
Definition write_at (off : nat) (new b : list Z) : list Z :=
  take off (b ++ replicate (off - length b) 0) ++ new ++ drop (off + length new) b.

Definition open_call `{Target} (path : list Z) (flags mode : Z) : Call :=
  Syscall (nrz OPENAT) [int AT_FDCWD; cstr path; int flags; int mode].
Definition fsync_call `{Target} (fd : Z) : Call := Syscall (nrz FSYNC) [int fd].
Definition rename_call `{Target} (old new : list Z) : Call :=
  Syscall (nrz RENAMEAT2) [int AT_FDCWD; cstr old; int AT_FDCWD; cstr new; int 0].
Definition unlink_call `{Target} (path : list Z) : Call :=
  Syscall (nrz UNLINKAT) [int AT_FDCWD; cstr path; int 0].

(** What a call can do.  Any call may fail, without effect but for [close], which
    closes the descriptor even so. *)
Inductive fs_call `{Target} : Call -> FS -> Reply -> FS -> Prop :=
| fs_create path mode fd i s :
    names s !! path = None -> inodes s !! i = None -> fds s !! fd = None -> 0 <= fd < 2 ^ 31 ->
    fs_call (open_call path tmp_flags mode) s (mkReply fd [])
      (set_fds <[fd := (i, 0%nat)]> (set_names <[path := i]> (set_inode i (mkInode [] false) s)))
| fs_write fd buf n i off b s :
    is_i32 fd -> fds s !! fd = Some (i, off) -> inodes s !! i = Some b -> (0 < n <= length buf)%nat ->
    fs_call (write_call fd buf) s (mkReply (Z.of_nat n) [])
      (set_fds <[fd := (i, (off + n)%nat)]>
        (set_inode i (mkInode (write_at off (take n buf) (now b)) false) s))
| fs_sync fd i off b s :
    is_i32 fd -> fds s !! fd = Some (i, off) -> inodes s !! i = Some b ->
    fs_call (fsync_call fd) s (mkReply 0 []) (set_inode i (mkInode (now b) true) s)
| fs_close fd s :
    is_i32 fd -> fs_call (close_call fd) s (mkReply 0 []) (set_fds (delete fd) s)
| fs_close_fails fd e s :
    is_i32 fd -> errno_in_range e -> fs_call (close_call fd) s (mkReply (- code e) []) (set_fds (delete fd) s)
| fs_rename old new i s :
    names s !! old = Some i ->
    fs_call (rename_call old new) s (mkReply 0 []) (set_names (fun m => <[new := i]> (delete old m)) s)
| fs_unlink path i s :
    names s !! path = Some i -> fs_call (unlink_call path) s (mkReply 0 []) (set_names (delete path) s)
| fs_fails c e s :
    (forall fd, c <> close_call fd) -> errno_in_range e -> e <> EINTR ->
    fs_call c s (mkReply (- code e) []) s.

(** A process, how many more of its calls signals interrupt, and its file system. *)
Definition State (X : Type) : Type := Prog X * nat * FS.

Inductive fs_step `{Target} {X} : State X -> State X -> Prop :=
| fs_does c k n s r s' :
    fs_call c s r s' -> fs_step (Sys c k, n, s) (k (conform c r), n, s')
| fs_interrupted c k n s :
    (forall fd, c <> close_call fd) ->
    fs_step (Sys c k, S n, s) (k (conform c (mkReply (- code EINTR) [])), n, s).

(** After a crash: the directory is one it was, and an inode that was not all on the
    disk may hold anything. *)
Definition crash (s t : FS) : Prop :=
  names t ∈ names s :: past s /\ past t = [] /\ fds t = ∅ /\
  forall i, match inodes s !! i with
            | Some b => exists b', inodes t !! i = Some b' /\ (clean b = true -> now b' = now b)
            | None => inodes t !! i = None
            end.

Definition content (s : FS) (path : list Z) : option (list Z) :=
  i ← names s !! path; now <$> inodes s !! i.

(** ** Everything on the way, and the end

    [through R I Q w]: every execution from [w] comes to a final state in [Q], and
    [I] holds all along. *)
Inductive through {W} (R : W -> W -> Prop) (I Q : W -> Prop) (w : W) : Prop :=
| th_now : I w -> Q w -> (forall w', ~ R w w') -> through R I Q w
| th_later : I w -> (exists w', R w w') -> (forall w', R w w' -> through R I Q w') -> through R I Q w.

Lemma through_always {W} (R : W -> W -> Prop) I Q w w' : through R I Q w -> rtc R w w' -> I w'.
Proof.
  intros Ht Hr. induction Hr as [w|w w1 w' Hs _ IH]; [by destruct Ht|].
  destruct Ht as [_ _ Hno|_ _ Hall]; [by apply Hno in Hs|]. eauto.
Qed.

Lemma through_eventually {W} (R : W -> W -> Prop) I Q w : through R I Q w -> eventually R Q w.
Proof. induction 1 as [w _ HQ _|w _ Hex _ IH]; [by apply ev_now|by apply ev_later]. Qed.

(** ** One call at a time *)

Section Calls.
Context `{H : Target}.

Lemma nr_files : nrz CLOSE <> nrz FSYNC /\ nrz WRITE <> nrz UNLINKAT.
Proof. unfold nrz, nr_table. destruct arch; vm_compute; split; congruence. Qed.

Lemma cstr_inj p q : cstr p = cstr q -> p = q.
Proof. unfold cstr. intros [= E]. by apply app_inj_tail in E as [-> _]. Qed.

(** A failed call that is not [close]. *)
Definition fails (s : FS) (r : Reply) (s' : FS) : Prop :=
  s' = s /\ exists e, errno_in_range e /\ e <> EINTR /\ r = mkReply (- code e) [].

(** Which rule a call takes. *)
Ltac calls Ec :=
  intros Ec; destruct nr_files as [N1 N2];
  unfold open_call, write_call, fsync_call, close_call, rename_call, unlink_call in Ec;
  try discriminate Ec; try (by injection Ec as E _; congruence).

Lemma int_inj a b : is_i32 a -> is_i32 b -> int a = int b -> a = b.
Proof.
  intros Ha Hb [= E]. by rewrite <- (as_i32_as_usize a), <- (as_i32_as_usize b), E.
Qed.

Lemma open_inv p mode s r s' :
  fs_call (open_call p tmp_flags mode) s r s' ->
  (exists fd i, names s !! p = None /\ inodes s !! i = None /\ fds s !! fd = None /\ 0 <= fd < 2 ^ 31 /\
    r = mkReply fd [] /\
    s' = set_fds <[fd := (i, 0%nat)]> (set_names <[p := i]> (set_inode i (mkInode [] false) s))) \/
  fails s r s'.
Proof.
  remember (open_call p tmp_flags mode) as c eqn:Ec. intros Hc. revert Ec.
  destruct Hc as [p' mode' fd i s Hn Hi Hf Hfd| | | | | | |c e s Hc He Hne]; calls Ec.
  - injection Ec as E _. apply app_inj_tail in E as [-> _]. left. by exists fd, i.
  - right. split; eauto.
Qed.

Lemma write_inv fd buf s r s' :
  is_i32 fd -> fs_call (write_call fd buf) s r s' ->
  (exists n i off b, fds s !! fd = Some (i, off) /\ inodes s !! i = Some b /\
    (0 < n <= length buf)%nat /\ r = mkReply (Z.of_nat n) [] /\
    s' = set_fds <[fd := (i, (off + n)%nat)]>
           (set_inode i (mkInode (write_at off (take n buf) (now b)) false) s)) \/
  fails s r s'.
Proof.
  intros Hi32. remember (write_call fd buf) as c eqn:Ec. intros Hc. revert Ec.
  destruct Hc as [|fd' buf' n i off b s Hi Hf Hino Hn| | | | | |c e s Hc He Hne]; calls Ec.
  - injection Ec as E -> _. assert (fd' = fd) as -> by (apply int_inj; [done..|unfold int; by f_equal]).
    left. by exists n, i, off, b.
  - right. split; eauto.
Qed.

Lemma sync_inv fd s r s' :
  is_i32 fd -> fs_call (fsync_call fd) s r s' ->
  (exists i off b, fds s !! fd = Some (i, off) /\ inodes s !! i = Some b /\ r = mkReply 0 [] /\
    s' = set_inode i (mkInode (now b) true) s) \/
  fails s r s'.
Proof.
  intros Hi32. remember (fsync_call fd) as c eqn:Ec. intros Hc. revert Ec.
  destruct Hc as [| |fd' i off b s Hi Hf Hino| | | | |c e s Hc He Hne]; calls Ec.
  - injection Ec as E. assert (fd' = fd) as -> by (apply int_inj; [done..|unfold int; by f_equal]).
    left. by exists i, off, b.
  - right. split; eauto.
Qed.

Lemma close_file_inv fd s r s' :
  is_i32 fd -> fs_call (close_call fd) s r s' -> s' = set_fds (delete fd) s /\
  (r = mkReply 0 [] \/ exists e, errno_in_range e /\ r = mkReply (- code e) []).
Proof.
  intros Hi32. remember (close_call fd) as c eqn:Ec. intros Hc. revert Ec.
  destruct Hc as [| | |fd' s Hi|fd' e s Hi He| | |c e s Hc He Hne]; calls Ec; try (injection Ec as E).
  - assert (fd' = fd) as -> by (apply int_inj; [done..|unfold int; by f_equal]). auto.
  - assert (fd' = fd) as -> by (apply int_inj; [done..|unfold int; by f_equal]). eauto.
  - by destruct (Hc fd).
Qed.

Lemma rename_inv old new s r s' :
  fs_call (rename_call old new) s r s' ->
  (exists i, names s !! old = Some i /\ r = mkReply 0 [] /\
    s' = set_names (fun m => <[new := i]> (delete old m)) s) \/
  fails s r s'.
Proof.
  remember (rename_call old new) as c eqn:Ec. intros Hc. revert Ec.
  destruct Hc as [| | | | |old' new' i s Hn| |c e s Hc He Hne]; calls Ec.
  - injection Ec as E E'. apply app_inj_tail in E as [-> _], E' as [-> _]. left. by exists i.
  - right. split; eauto.
Qed.

Lemma unlink_inv p s r s' :
  fs_call (unlink_call p) s r s' ->
  (exists i, names s !! p = Some i /\ r = mkReply 0 [] /\ s' = set_names (delete p) s) \/ fails s r s'.
Proof.
  remember (unlink_call p) as c eqn:Ec. intros Hc. revert Ec.
  destruct Hc as [| | | | | |p' i s Hn|c e s Hc He Hne]; calls Ec.
  - injection Ec as E. apply app_inj_tail in E as [-> _]. left. by exists i.
  - right. split; eauto.
Qed.

(** ** Running a program

    [runs I n p s Q]: whatever the calls of [p] do, and while at most [n] of them are
    interrupted, [I] holds of the file system, and [p] returns, in [Q]. *)
Definition runs {X} (I : FS -> Prop) (n : nat) (p : Prog X) (s : FS) (Q : X -> FS -> Prop) : Prop :=
  through fs_step (fun w => I w.2) (fun w => exists x, w.1.1 = Ret x /\ Q x w.2) (p, n, s).

Context {X : Type} (I : FS -> Prop) (Q : X -> FS -> Prop).

Lemma runs_ret n x s : I s -> Q x s -> runs I n (Ret x) s Q.
Proof. intros Hi Hq. apply th_now; [done|by exists x|]. intros w' Hs. inversion Hs. Qed.

(** A call does what it can do, or fails and changes nothing; an interruption counts. *)
Lemma runs_call n c k s :
  I s -> (forall fd, c <> close_call fd) ->
  (forall r s', fs_call c s r s' -> fails s r s' \/ runs I n (k (conform c r)) s' Q) ->
  (forall e m, errno_in_range e -> (m <= n)%nat -> (e = EINTR -> m < n)%nat ->
     runs I m (k (conform c (mkReply (- code e) []))) s Q) ->
  runs I n (Sys c k) s Q.
Proof.
  intros Hi Hc Hok Hfail. apply th_later; [done| |].
  - eexists. by apply fs_does, (fs_fails c EIO).
  - intros w' Hs. inversion Hs as [c' k' n' s' r s2 Hd|c' k' m s' Hc']; simplify_eq.
    + destruct (Hok _ _ Hd) as [(-> & e & He & Hne & ->)|?]; [|done]. by apply Hfail.
    + apply Hfail; [done|lia..].
Qed.

Lemma ret_ok c z : 0 <= z < 2 ^ 63 -> from_ret (r_ret (conform c (mkReply z []))) = Ok z.
Proof. apply from_ret_nat. Qed.

Lemma ret_err c e : errno_in_range e -> from_ret (r_ret (conform c (mkReply (- code e) []))) = Err e.
Proof. apply from_ret_fail. Qed.

(** *** The temporary file

    While it is written: [b] so far, through the descriptor [fd]. *)
Section Temporary.
Context (s0 : FS) (path tmp : list Z) (i : nat) (fd : Z).

Definition opened (b : list Z) (c : bool) : FS :=
  mkFS (<[tmp := i]> (names s0)) (names s0 :: past s0) (<[i := mkInode b c]> (inodes s0))
    (<[fd := (i, length b)]> (fds s0)).
Definition closed (b : list Z) (c : bool) : FS :=
  mkFS (<[tmp := i]> (names s0)) (names s0 :: past s0) (<[i := mkInode b c]> (inodes s0)) (fds s0).

Lemma write_at_end b new : write_at (length b) new b = b ++ new.
Proof.
  unfold write_at. rewrite Nat.sub_diag, app_nil_r, firstn_all, drop_ge by lia. by rewrite app_nil_r.
Qed.

Context (Hfd : 0 <= fd < 2 ^ 31).

Lemma fd_i32 : is_i32 fd.
Proof using Hfd. int_ranges; lia. Qed.

(** Bytes are added at the end until all are, or a write fails. *)
Lemma runs_write_all fuel n data b c (f : result unit -> Prog X) :
  (forall b c, I (opened b c)) ->
  (length data + n <= fuel)%nat -> Z.of_nat (length data) < 2 ^ 63 ->
  (forall m c, (m <= n)%nat -> runs I m (f (Ok tt)) (opened (b ++ data) c) Q) ->
  (forall e m b c, (m <= n)%nat -> runs I m (f (Err e)) (opened b c) Q) ->
  runs I n (let* r := write_all fuel fd data in f r) (opened b c) Q.
Proof using Hfd.
  intros Hi. revert n data b c. induction fuel as [|fuel IH]; intros n data b c Hn Hl Hok Herr.
  { destruct data; [|simpl in Hn; lia]. rewrite app_nil_r in Hok. by apply Hok. }
  destruct data as [|z data]; [rewrite app_nil_r in Hok; by apply Hok|].
  remember (z :: data) as buf eqn:Eb.
  assert (E : write_all (S fuel) fd buf = let* r := write fd buf in
    match r with
    | Ok n => if n =? 0 then Ret (Err EIO) else let* rest := or_panic (slice_from n buf) in write_all fuel fd rest
    | Err e => if decide (e = EINTR) then write_all fuel fd buf else Ret (Err e)
    end) by (by subst). rewrite E. unfold write. rewrite syscall3_eq. cbn [bind].
  apply runs_call; [done|done| |].
  - intros r s' Hc. apply write_inv in Hc as [(k & i' & off & b' & Hf & Hino & Hk & -> & ->)|?];
      [right|by left|by apply fd_i32].
    cbn [opened fds] in Hf. rewrite lookup_insert_eq in Hf. injection Hf as <- <-.
    cbn [opened inodes] in Hino. rewrite lookup_insert_eq in Hino. injection Hino as <-.
    cbn [r_ret]. rewrite ret_ok by lia. cbn [bind].
    destruct (Z.eqb_spec (Z.of_nat k) 0); [lia|]. rewrite slice_from_le by lia. cbn [or_panic bind now].
    replace (set_fds _ _) with (opened (b ++ take k buf) false).
    2:{ unfold set_fds, set_inode, opened. cbn [names past inodes fds]. rewrite !insert_insert_eq.
        rewrite write_at_end, length_app, length_take_le by (lia). done. }
    apply IH; [rewrite length_drop; lia|rewrite length_drop; lia| |done].
    intros m c' Hm. rewrite <- app_assoc, take_drop. by apply Hok.
  - intros e m He Hm Hlt.
    cbn [r_ret]. rewrite ret_err by done. cbn [bind]. destruct (decide (e = EINTR)) as [He'|]; [|by apply Herr].
    apply IH; [specialize (Hlt He'); lia|done|..]; intros; [apply Hok|apply Herr]; lia.
Qed.

Lemma runs_fsync n b c (f : result unit -> Prog X) :
  I (opened b c) ->
  (forall m, (m <= n)%nat -> runs I m (f (Ok tt)) (opened b true) Q) ->
  (forall e m, (m <= n)%nat -> runs I m (f (Err e)) (opened b c) Q) ->
  runs I n (let* r := fsync fd in f r) (opened b c) Q.
Proof using Hfd.
  intros Hi Hok Herr. unfold fsync. rewrite syscall1_eq. cbn [bind].
  apply runs_call; [done|by intros x [= ? _]; destruct nr_files| |].
  - intros r s' Hc. apply sync_inv in Hc as [(i' & off & b' & Hf & Hino & -> & ->)|?];
      [right|by left|by apply fd_i32].
    cbn [opened fds] in Hf. rewrite lookup_insert_eq in Hf. injection Hf as <- <-.
    cbn [opened inodes] in Hino. rewrite lookup_insert_eq in Hino. injection Hino as <-.
    unfold ret_unit. cbn [r_ret]. rewrite ret_ok by lia. cbn [map_ok now].
    replace (set_inode _ _ _) with (opened b true); [by apply Hok|].
    unfold set_inode, opened. cbn [names past inodes fds]. by rewrite insert_insert_eq.
  - intros e m He Hm _. unfold ret_unit. cbn [r_ret]. rewrite ret_err by done. by apply Herr.
Qed.

(** [close] is not repeated: the descriptor is gone whatever it returns. *)
Lemma runs_close n b c (f : result unit -> Prog X) :
  fds s0 !! fd = None -> I (opened b c) -> (forall r, runs I n (f r) (closed b c) Q) ->
  runs I n (let* r := close fd in f r) (opened b c) Q.
Proof using Hfd.
  intros Hnew Hi Hf. unfold close. rewrite syscall1_eq. cbn [bind]. apply th_later; [done| |].
  - eexists. by apply fs_does, fs_close, fd_i32.
  - intros w' Hs. inversion Hs as [c' k' n' s' r s2 Hd|c' k' m s' Hc']; simplify_eq.
    + apply close_file_inv in Hd as [-> _]; [|by apply fd_i32].
      replace (set_fds _ _) with (closed b c); [apply Hf|].
      unfold set_fds, closed, opened. cbn [names past inodes fds]. by rewrite delete_insert_id.
    + by destruct (Hc' fd).
Qed.

(** What comes of the name: it is moved over the target, or removed. *)
Definition named (m : gmap (list Z) nat) (b : list Z) (c : bool) : FS :=
  mkFS m (<[tmp := i]> (names s0) :: names s0 :: past s0) (<[i := mkInode b c]> (inodes s0)) (fds s0).

Lemma runs_rename n b c (f : result unit -> Prog X) :
  I (closed b c) ->
  (forall m, (m <= n)%nat ->
     runs I m (f (Ok tt)) (named (<[path := i]> (delete tmp (<[tmp := i]> (names s0)))) b c) Q) ->
  (forall e m, (m <= n)%nat -> runs I m (f (Err e)) (closed b c) Q) ->
  runs I n (let* r := rename tmp path in f r) (closed b c) Q.
Proof using Type.
  intros Hi Hok Herr. unfold rename, renameat2. rewrite syscall5_eq. cbn [bind].
  apply runs_call; [done|done| |].
  - intros r s' Hc. apply rename_inv in Hc as [(i' & Hn & -> & ->)|?]; [right|by left].
    cbn [closed names] in Hn. rewrite lookup_insert_eq in Hn. injection Hn as <-.
    unfold ret_unit. cbn [r_ret]. rewrite ret_ok by lia. by apply Hok.
  - intros e m He Hm _. unfold ret_unit. cbn [r_ret]. rewrite ret_err by done. by apply Herr.
Qed.

Lemma runs_unlink n b c (f : result unit -> Prog X) :
  I (closed b c) ->
  (forall m, runs I m (f (Ok tt)) (named (delete tmp (<[tmp := i]> (names s0))) b c) Q) ->
  (forall e m, runs I m (f (Err e)) (closed b c) Q) ->
  runs I n (let* r := unlink tmp in f r) (closed b c) Q.
Proof using Type.
  intros Hi Hok Herr. unfold unlink, unlinkat. rewrite syscall3_eq. cbn [bind].
  apply runs_call; [done|done| |].
  - intros r s' Hc. apply unlink_inv in Hc as [(i' & Hn & -> & ->)|?]; [right|by left].
    unfold ret_unit. cbn [r_ret]. rewrite ret_ok by lia. by apply Hok.
  - intros e m He Hm _. unfold ret_unit. cbn [r_ret]. rewrite ret_err by done. by apply Herr.
Qed.
End Temporary.

Lemma runs_open s0 tmp mode n (f : result Z -> Prog X) :
  I s0 ->
  (forall i fd m, names s0 !! tmp = None -> inodes s0 !! i = None -> fds s0 !! fd = None ->
     0 <= fd < 2 ^ 31 -> (m <= n)%nat -> runs I m (f (Ok fd)) (opened s0 tmp i fd [] false) Q) ->
  (forall e m, runs I m (f (Err e)) s0 Q) ->
  runs I n (let* r := open tmp tmp_flags mode in f r) s0 Q.
Proof using Type.
  intros Hi Hok Herr. unfold open, openat. rewrite syscall4_eq. cbn [bind].
  apply runs_call; [done|done| |].
  - intros r s' Hc. apply open_inv in Hc as [(fd & i & Hn & Hi' & Hf & Hfd & -> & ->)|?]; [right|by left].
    unfold from_ret_i32. cbn [r_ret]. rewrite ret_ok by lia. cbn [map_ok].
    unfold as_i32. rewrite swrap_small by lia. by apply Hok.
  - intros e m He Hm _. unfold from_ret_i32. cbn [r_ret]. rewrite ret_err by done. apply Herr.
Qed.
End Calls.

(** ** The target, at every moment *)

(** Whatever directory and whatever dirty inode a crash leaves, [path] is as it is now. *)
Definition settled (path : list Z) (s : FS) : Prop :=
  Forall (fun h => h !! path = names s !! path) (past s) /\
  match names s !! path with Some i => clean <$> inodes s !! i = Some true | None => True end.

Definition old_or_new (s0 : FS) (path data : list Z) (s : FS) : Prop :=
  content s path = content s0 path \/ content s path = Some data.

(** The result, and the directory it leaves: on an error the temporary file at worst.
    No file that was there has other contents. *)
Definition replaced (s0 : FS) (path tmp data : list Z) (r : result unit) (s : FS) : Prop :=
  fds s = fds s0 /\ inodes s0 ⊆ inodes s /\
  match r with
  | Ok _ => content s path = Some data /\ exists i, names s = <[path := i]> (names s0)
  | Err _ => content s path = content s0 path /\
             (names s = names s0 \/ names s0 !! tmp = None /\ delete tmp (names s) = names s0)
  end.

Section Replace.
Context `{H : Target} (s0 : FS) (path tmp data : list Z).
Context (Htmp : tmp <> path) (Hset : settled path s0).

(** Every directory that may be on the disk has the old inode under [path], or one
    with all of [data] on the disk. *)
Definition safe (s : FS) : Prop :=
  Forall (fun h => h !! path = names s0 !! path \/
            exists i, h !! path = Some i /\ inodes s !! i = Some (mkInode data true)) (names s :: past s) /\
  (forall j b, names s0 !! path = Some j -> inodes s0 !! j = Some b -> inodes s !! j = Some b).

Lemma old_inode j :
  names s0 !! path = Some j -> exists b, inodes s0 !! j = Some (mkInode b true).
Proof using Hset.
  intros E. destruct Hset as [_ Hc]. rewrite E in Hc.
  destruct (inodes s0 !! j) as [[b c]|]; [|done]. injection Hc as ->. by exists b.
Qed.

Lemma safe_content s : safe s -> old_or_new s0 path data s.
Proof using Hset.
  unfold old_or_new, content. intros [[[E|(i & E & Ei)] _]%Forall_cons Hold]; rewrite E.
  - left. destruct (names s0 !! path) as [j|] eqn:Ej; [cbn|done].
    destruct (old_inode j Ej) as [b Eb]. by rewrite (Hold _ _ eq_refl Eb), Eb.
  - right. cbn. by rewrite Ei.
Qed.

Lemma safe_crash s t : safe s -> crash s t -> old_or_new s0 path data t.
Proof using Hset.
  unfold old_or_new, content. intros [Hall Hold] (Hin & _ & _ & Hinode).
  rewrite list.Forall_forall in Hall. destruct (Hall _ Hin) as [E|(i & E & Ei)]; rewrite E.
  - left. destruct (names s0 !! path) as [j|] eqn:Ej; [cbn|done].
    destruct (old_inode j Ej) as [b Eb]. specialize (Hinode j). rewrite (Hold _ _ eq_refl Eb) in Hinode.
    destruct Hinode as (b' & -> & Hb). rewrite Eb. cbn. by rewrite Hb.
  - right. cbn. specialize (Hinode i). rewrite Ei in Hinode.
    destruct Hinode as (b' & -> & Hb). cbn. by rewrite Hb.
Qed.

Lemma safe_start : safe s0.
Proof using Hset.
  split; [|done]. constructor; [by left|]. destruct Hset as [Hp _].
  eapply Forall_impl; [exact Hp|]. intros h Hh. by left.
Qed.

Section Created.
Context (i : nat) (fd : Z) (Hn : names s0 !! tmp = None) (Hi : inodes s0 !! i = None) (Hf : fds s0 !! fd = None).

(** A directory that has the old inode under [path], or the new one when it is whole. *)
Lemma safe_named m b c :
  (m !! path = names s0 !! path \/ m !! path = Some i /\ b = data /\ c = true) -> safe (named s0 tmp i m b c).
Proof using Hset Htmp Hi.
  intros Hm. split.
  - constructor.
    + destruct Hm as [Hm|(Hm & -> & ->)]; [by left|right]. exists i. split; [done|]. apply lookup_insert_eq.
    + constructor; [left; by rewrite lookup_insert_ne|]. constructor; [by left|].
      destruct Hset as [Hp _]. eapply Forall_impl; [exact Hp|]. intros h Hh. by left.
  - intros j b' Ej Eb. cbn [named inodes]. rewrite lookup_insert_ne; [done|]. intros ->. by rewrite Hi in Eb.
Qed.

Lemma safe_closed b c : safe (closed s0 tmp i b c).
Proof using Hset Htmp Hi.
  destruct (safe_named (<[tmp := i]> (names s0)) b c) as [[Hh [_ Ht]%Forall_cons]%Forall_cons Hold].
  { left. by rewrite lookup_insert_ne. }
  split; [|done]. by constructor.
Qed.

Lemma safe_opened b c : safe (opened s0 tmp i fd b c).
Proof using Hset Htmp Hi. exact (safe_closed b c). Qed.

Lemma content_closed b c : content (closed s0 tmp i b c) path = content s0 path.
Proof using Hset Htmp Hi.
  unfold content. cbn [closed names inodes]. rewrite lookup_insert_ne by done.
  destruct (names s0 !! path) as [j|] eqn:Ej; [cbn|done]. destruct (old_inode j Ej) as [b' Eb].
  rewrite lookup_insert_ne; [done|]. intros ->. by rewrite Hi in Eb.
Qed.

(** Giving up leaves the target alone. *)
Lemma runs_withdraw n e b c :
  runs safe n (withdraw tmp e) (closed s0 tmp i b c) (replaced s0 path tmp data).
Proof using Hset Htmp Hn Hi.
  pose proof (delete_insert_id (names s0) tmp i Hn) as Hdel. unfold withdraw.
  apply runs_unlink; [by apply safe_closed|intros m|intros e' m].
  - rewrite Hdel. apply runs_ret; [apply safe_named; auto|].
    split; [done|]. split; [by apply insert_subseteq|]. split; [|by left].
    rewrite <- (content_closed b c). unfold content.
    cbn [named closed names inodes]. by rewrite lookup_insert_ne by done.
  - apply runs_ret; [by apply safe_closed|]. split; [done|].
    split; [by apply insert_subseteq|]. split; [apply content_closed|]. by right.
Qed.

(** The descriptor is closed; the file is whole when every call went well. *)
Lemma runs_finish n (synced closed' : result unit) b c :
  (synced = Ok tt -> b = data /\ c = true) ->
  runs safe n (finish path tmp synced closed') (closed s0 tmp i b c) (replaced s0 path tmp data).
Proof using Hset Htmp Hn Hi.
  intros Hb. destruct synced as [[]|e]; [|apply runs_withdraw].
  destruct closed' as [[]|e]; [|apply runs_withdraw]. destruct Hb as [-> ->]; [done|].
  apply runs_rename; [by apply safe_closed| |intros; apply runs_withdraw].
  intros m _. rewrite delete_insert_id by done. apply runs_ret.
  - apply safe_named. right. by rewrite lookup_insert_eq.
  - split; [done|]. split; [by apply insert_subseteq|]. split; [|by exists i].
    unfold content. cbn [named names inodes].
    rewrite lookup_insert_eq. cbn. by rewrite lookup_insert_eq.
Qed.
End Created.

Lemma runs_replace fuel n mode :
  (length data + n <= fuel)%nat -> Z.of_nat (length data) < 2 ^ 63 ->
  runs safe n (replace_file fuel path tmp data mode) s0 (replaced s0 path tmp data).
Proof using Hset Htmp.
  intros Hfuel Hlen. unfold replace_file, bind_ok. apply runs_open; [apply safe_start| |].
  - intros i fd m Hn Hi Hf Hfd Hm.
    assert (Hclose : forall m synced b c, (synced = Ok tt -> b = data /\ c = true) ->
      runs safe m
        (let* closed := close fd in finish path tmp synced closed)
        (opened s0 tmp i fd b c) (replaced s0 path tmp data)).
    { intros m' synced b c Hb. apply runs_close; [done|done|by apply safe_opened|].
      intros r. by apply runs_finish. }
    apply runs_write_all; [done|intros; by apply safe_opened|lia|done| |].
    + intros m' c Hm'. cbn [bind]. apply runs_fsync; [done|by apply safe_opened| |].
      * intros k _. by apply (Hclose k (Ok tt)).
      * intros e k _. by apply (Hclose k (Err e)).
    + intros e m' b c _. by apply (Hclose m' (Err e)).
  - intros e m. apply runs_ret; [apply safe_start|]. split; [done|]. split; [done|]. split; [done|by left].
Qed.
End Replace.

(** [C10] [replace_file] (an [open] with [O_EXCL], [write_all], [fsync], [close],
    [rename], and [unlink] when one of them fails) replaces a file atomically: every
    call may fail or be interrupted and every write may be partial, and at every moment
    the target has its old contents or all of [data], after a crash too.  The program
    ends, leaves no descriptor open and every other file as it was, and has replaced
    the file exactly when it says so. *)
Theorem replace_atomic `{Target} fuel path tmp data mode n (s0 : FS) :
  tmp <> path -> settled path s0 ->
  (length data + n <= fuel)%nat -> Z.of_nat (length data) < 2 ^ 63 ->
  let start := (replace_file fuel path tmp data mode, n, s0) in
  (forall p m s, rtc fs_step start (p, m, s) ->
     old_or_new s0 path data s /\ forall t, crash s t -> old_or_new s0 path data t) /\
  eventually fs_step (fun w => exists r, w.1.1 = Ret r /\ replaced s0 path tmp data r w.2) start.
Proof.
  intros Htmp Hset Hfuel Hlen start.
  pose proof (runs_replace s0 path tmp data Htmp Hset fuel n mode Hfuel Hlen) as Hruns. split.
  - intros p m s Hr. pose proof (through_always _ _ _ _ _ Hruns Hr) as Hs. cbn in Hs.
    split; [by apply safe_content|]. intros t. by apply safe_crash.
  - by apply through_eventually in Hruns.
Qed.

(** A file of three bytes on the disk, in a directory whose last change may not be. *)
Definition demo_fs : FS :=
  let m := <[str "conf" := 0%nat]> ∅ in
  mkFS (<[str "log" := 1%nat]> m) [m] {[0%nat := mkInode [1; 2; 3] true; 1%nat := mkInode [] false]}
    {[0 := (1%nat, 0%nat)]}.

Lemma replace_atomic_witness :
  let start := (@replace_file Aarch64 8 (str "conf") (str "conf.tmp") [9; 8; 7; 6] 420, 3%nat, demo_fs) in
  (forall p m s, rtc (@fs_step Aarch64 _) start (p, m, s) ->
     old_or_new demo_fs (str "conf") [9; 8; 7; 6] s /\
     forall t, crash s t -> old_or_new demo_fs (str "conf") [9; 8; 7; 6] t) /\
  eventually (@fs_step Aarch64 _)
    (fun w => exists r, w.1.1 = Ret r /\
       replaced demo_fs (str "conf") (str "conf.tmp") [9; 8; 7; 6] r w.2) start.
Proof.
  apply (@replace_atomic Aarch64 8 (str "conf") (str "conf.tmp") [9; 8; 7; 6] 420 3 demo_fs).
  - by apply (bool_decide_eq_true_1 _); vm_compute.
  - split; [by apply (bool_decide_eq_true_1 _); vm_compute|vm_compute; reflexivity].
  - vm_compute; lia.
  - by apply (bool_decide_eq_true_1 _); vm_compute.
Defined.
